(* ===== verification/_CoqProject ===== *)
-Q . S2P
Prelude.v
GoStrings.v
Config.v
Json.v
Escape.v
Event.v
Truncate.v
Truncation.v
AckGate.v
Service.v
Bus.v
History.v
PgReader.v
PgParser.v
Lag.v
PgListener.v
Publisher.v
Client.v
Pipeline.v
CommitGate.v
MysqlListener.v
MysqlBinlog.v
MysqlPipeline.v
MysqlProgress.v
MysqlIds.v
MysqlDump.v
MysqlStart.v
Slots.v
Snapshot.v
Catalog.v
Startup.v
PgStart.v
Run.v
Metrics.v
