(* ===== verification/Prelude.v ===== *)
(** * excalibase-watcher: a verification library

    The watcher is a change-data-capture agent.  It reads the PostgreSQL WAL
    through logical replication, or the MySQL binlog, turns every change into
    an event, and publishes the events to NATS JetStream.  It promises
    at-least-once delivery: the position a restart continues from (the confirmed
    LSN of the replication slot, or the offset file) never passes an event the
    broker has not acked, short of the cases listed under "Findings" below.

    ** The parts and how they interact

    A listener (internal/postgres or internal/mysql) decodes the server's
    stream, counts every publishable event in its ack gate and hands it to the
    bus (internal/cdc).  The bus sends it to the channel of each subscriber,
    blocking while one is full.  The publisher (internal/nats), the one
    subscriber of the running process, publishes each event until the broker
    acks it, and reports the ack back to the listener's gate, which then knows
    how far the server may be told to forget.  Around this path stand the
    snapshots taken before streaming, the replication slots and their owners,
    the schema history, the configuration, the metrics and probes, and main.go,
    which wires all of it.

    ** Files

    Shared:
    - Prelude.v: machine integers, [result], the tactics [bcase] and [crush],
      the hint databases [go], lemmas on lists and strings.
    - GoStrings.v: Go strings: runes, UTF-8, number formatting.
    - Json.v: the scanner behind [json.Valid], and [unquote].
    - Bus.v: the bus as the pipelines use it (one subscriber).

    Common core (internal/cdc, config, jsonutil, schema, metrics, health):
    - Config.v: config.go; the records, their keys and defaults, [Load].
    - Escape.v: jsonutil/escape.go.
    - Event.v: cdc/event.go and publishable.go.
    - Truncate.v: cdc/truncate.go; Truncation.v: that what it encodes decodes to
      the same columns.
    - Service.v: cdc/service.go, the bus with all its operations.
    - History.v: schema/history.go.
    - Metrics.v: metrics/metrics.go.

    PostgreSQL (internal/postgres):
    - AckGate.v: ackgate.go, with its abstract specification ([Spec]).
    - PgReader.v and PgParser.v: parser.go; the cursor, and the decoder of
      pgoutput messages with the abstract messages it decodes.
    - Lag.v: lag.go.
    - PgListener.v: listener.go from a message to the standby status.
    - Slots.v: slotstats.go, slotregistry.go, slotcleanup.go, and the slot part
      of setup.go and listener.go.
    - Snapshot.v and Catalog.v: snapshot_chunked.go, the pages of one table and
      the whole snapshot with its catalog queries; snapshot_dump.go.
    - Startup.v: dbwait.go, the reconnect loop, the snapshot dispatch,
      health/health.go and the HTTP server of main.go.
    - PgStart.v: listener.go and setup.go from [Start] to [Stop], with the
      publication and the DDL triggers.

    MySQL (internal/mysql):
    - CommitGate.v: ackgate.go with its abstract specification, offset.go, and
      the interface [OffsetStore].
    - MysqlListener.v: listener.go, the callbacks canal makes.
    - MysqlDump.v: snapshot_dump.go.
    - MysqlStart.v: listener.go from [NewListener] to [Stop], tls.go.

    NATS (internal/nats):
    - Publisher.v: publisher.go, the publishing goroutine.
    - Client.v: connection.go, and publisher.go from [NewPublisher] to [Stop].

    Put together:
    - Pipeline.v: PostgreSQL server, listener, gate, bus and publisher as one
      transition system, with crashes and lost connections.
    - MysqlBinlog.v, MysqlPipeline.v, MysqlProgress.v and MysqlIds.v: the same
      for MySQL: the binlog and the meaning of its units, the system with the
      handler and the offset, that the offset catches up, and that message ids
      tell changes apart.
      The publisher's goroutine is, in both systems, the [publish] of
      Publisher.v on any answers of the broker: truncated and stripped messages,
      giving up and a cancelled context are steps of it.
    - Run.v: main.go.

    ** How code becomes definitions

    One definition per function or method, with the name it has in the source;
    a struct is a record and a method takes and returns it.  [(value, error)]
    is [result].  A panic is a value of its own ([None] in PgReader.v and
    PgParser.v, [Panicked] in Service.v), so that its absence is a theorem.
    An operation that blocks takes the list of what the other goroutines do
    meanwhile; one for which that list ends too early has not returned.
    Integers are [Z] with the wrap-around of their width written out.  Maps are
    [gmap]s, channels are lists with a capacity.  SQL statements are the
    functions on the relations they read and write (Slots.v, PgStart.v).
    Time is what the clock answers, an argument.

    Code that is not under src/ is an argument wherever it is used: pglogrepl
    (printing and reading LSNs, the two message headers), net/url, regexp,
    crypto/x509, viper, the NATS client, canal, the database drivers and the
    servers behind them.  What a theorem needs of them is a named hypothesis,
    and the witness of the theorem gives functions for which it holds.

    ** What the theorems show

    - Delivery: every change of what the slot has confirmed was acked by the
      broker, in full, cut to its key or stripped, or sent in all three forms and
      answered too large each time ([at_least_once]); this is for changes the bus
      accepts, those with valid JSON.  Everything the broker acked is a change
      that was committed ([nothing_invented]), and two acked messages have the
      same id exactly when they are for the same change
      ([message_id_identifies]).  When everything is sent and acked, a keepalive
      and a status bring the slot to the server's position ([slot_catches_up]).
      The same for the offset of the binlog ([mysql_at_least_once],
      [mysql_message_id_identifies]); it catches up when no transaction is
      compressed ([offset_catches_up]).
    - Gates: both gates compute what their specification, which forgets nothing,
      computes ([AckGate_refines], [CommitGate_refines]), and the first keeps at
      most one entry per unacked event ([AckGate_bounded]); what a session reports
      never goes back and is never ahead of the acks, and of what the primary
      sends only an empty CopyData message makes it panic ([session_safe]).
    - Decoding: no input makes the parser panic ([Parse_total]); well-formed
      messages give the event they stand for ([Parse_decodes]), in valid JSON
      ([Parse_valid_json], [mysql_rows_valid_json]) and only for the tables
      asked for ([Parse_respects_filter]).
    - Bus: no send on a closed channel, ever ([Service_never_panics]); a
      delivery that blocks loses nothing ([deliver_lossless]), and with room in
      the buffers an event reaches exactly those it is for
      ([HandleEvent_delivers]).
    - Publisher: the events in order, each with one of three fates
      ([publishLoop_in_order]); transient failures are retried with doubling
      pauses until the ack ([publish_retries_until_ack]); the data of a truncated
      event reads back as the key columns of the row ([Truncated_keeps_keys]).
    - Slots: the cleaner drops exactly the orphaned slots
      ([cleanupOnce_exact]), not that of an owner that keeps its registration
      and beats ([heartbeat_protects_slot]) and not an unregistered one before it
      was seen idle for the stale time ([unregistered_slot_spared]); a slot is
      recreated, and counted, only when it was lost or missing
      ([recreate_only_unusable]).
    - Snapshots: of unchanging tables with plain names and keys of at most one
      column, a chunked snapshot ends with every row once, if the server keeps
      the order of tables without a key ([RunChunkedSnapshot_exact]); paging by a
      key of one column sees a row that stays whatever happens to the others
      ([snapshotByPK_concurrent]).
    - Life cycle: [Start_sets_up], [Stop_releases], [Stop_flushes],
      [connection_strings], [serverTLS_verifies] (the TLS configuration canal
      gets from [Start]), and for the process [run_unwinds] (what has a deferred
      stop comes down in reverse order, the HTTP server when the wait is over)
      and [wired_before_start] (each listener starts with its gate enabled and
      its observer registered with the publisher).
    - Data: [EscapeString_roundtrip], [history_kept], [Load_well_formed],
      [slot_gauges_faithful].

    ** Bounds and fuel

    - Counters and LSNs are 64-bit.  The gates' theorems are for runs of fewer
      than 2^64 operations and the pipelines' for runs of fewer than 2^63 or
      2^64 steps, so that no counter wraps; within them the wrap-around is
      written out, not assumed away.
    - The JSON scanner has the nesting limit of the Go library (10000); the
      nesting generated here is of depth one around values that were checked.
    - [hex_go] runs on as many digits as the width has; [replace_all] and
      [strip_all] on the length of the string, of which every round consumes a
      byte.
    - The paging loops of Snapshot.v carry fuel and return [None] without it;
      [RunChunkedSnapshot_exact] shows that one round more than a table has full
      pages suffices.
    - The retry loops have no bound in the code: they run on the answers the
      outside gives, and the liveness theorems show that the answers named in
      them are enough.

    ** Findings

    Behaviour that differs from what the code or its documentation means, each
    with its theorem: [nan_change_lost] (a change with NaN or Infinity is
    dropped and confirmed), [oversized_event_skipped], [unquoted_value_lost],
    [empty_copydata_panics], [composite_key_rows_skipped], [broken_listing_accepted],
    [broken_columns_loop], [mixed_case_table_refused], [quoted_column_row_lost],
    [restart_forgets_history], [dump_rewinds_offset], [mysql_chunked_ignored],
    [empty_owner_kept].  The delivery theorems say how they take these into
    account.

    ** Not modelled

    - internal/natstest: a server for tests, no part of the program.
    - Log lines, the command line, the socket of the HTTP server (its routes and
      answers are modelled), the text of the PL/pgSQL functions behind
      the DDL triggers (their existence is).
    - Mutexes: an operation under a lock is one step.  Where an operation
      waits while it holds a lock (the bus), the model says what can happen
      meanwhile.  The unlocked writes of internal/schema are outside the
      model.
    - What the drivers do on the wire. *)

From stdpp Require Import base list strings gmap.
From Stdlib Require Import ZArith Lia Ascii Sorting.Sorted.

(** ** Machine integers

    Go's [uint64], [uint32], [uint16] and [int] (64-bit) as [Z], with the
    wrap-around of each arithmetic result written out. *)

Declare Scope go_scope.
Delimit Scope go_scope with go.

Definition u64 (z : Z) : Z := (z mod 2 ^ 64)%Z.
Definition u32 (z : Z) : Z := (z mod 2 ^ 32)%Z.

(** Two's complement reading of a 64-bit value ([int], [int64]). *)
Definition i64 (z : Z) : Z := ((z + 2 ^ 63) mod 2 ^ 64 - 2 ^ 63)%Z.

Notation "x +u y" := (u64 (x + y)) (at level 50, left associativity) : go_scope.
Notation "x -u y" := (u64 (x - y)) (at level 50, left associativity) : go_scope.

Create HintDb go discriminated.
Create Rewrite HintDb go.

Lemma u64_range z : (0 <= u64 z < 2 ^ 64)%Z.
Proof. apply Z.mod_pos_bound. lia. Qed.

Lemma u64_small z : (0 <= z < 2 ^ 64)%Z -> u64 z = z.
Proof. apply Z.mod_small. Qed.

Lemma u32_range z : (0 <= u32 z < 2 ^ 32)%Z.
Proof. apply Z.mod_pos_bound. lia. Qed.

Lemma u32_small z : (0 <= z < 2 ^ 32)%Z -> u32 z = z.
Proof. apply Z.mod_small. Qed.

Lemma i64_small z : (- 2 ^ 63 <= z < 2 ^ 63)%Z -> i64 z = z.
Proof. intros. unfold i64. rewrite Z.mod_small; lia. Qed.

#[export] Hint Resolve u64_range u32_range : go.
#[export] Hint Rewrite u64_small u32_small i64_small using lia : go.

(** ** Results of fallible code: Go's [(value, error)] pairs *)

Inductive result (E A : Type) : Type :=
| Ok (a : A)
| Err (e : E).
Arguments Ok {E A} a.
Arguments Err {E A} e.

#[export] Instance result_ret {E} : MRet (result E) := fun A => @Ok E A.
#[export] Instance result_bind {E} : MBind (result E) := fun A B f r =>
  match r with Ok a => f a | Err e => Err e end.

Definition is_ok {E A} (r : result E A) : bool :=
  match r with Ok _ => true | Err _ => false end.

(** ** Tactics *)

(** Turns every boolean comparison of the context and the goal that is under a
    conditional into a case analysis on the proposition it decides. *)
Ltac bcase :=
  repeat match goal with
  | |- context [if (?a =? ?b)%Z then _ else _] => destruct (Z.eqb_spec a b)
  | |- context [if (?a <? ?b)%Z then _ else _] => destruct (Z.ltb_spec a b)
  | |- context [if (?a <=? ?b)%Z then _ else _] => destruct (Z.leb_spec a b)
  | H : context [if (?a =? ?b)%Z then _ else _] |- _ => destruct (Z.eqb_spec a b)
  | H : context [if (?a <? ?b)%Z then _ else _] |- _ => destruct (Z.ltb_spec a b)
  | H : context [if (?a <=? ?b)%Z then _ else _] |- _ => destruct (Z.leb_spec a b)
  end.

(** Splits conjunctions in hypotheses and goal, substitutes, and tries the
    cheap closers. *)
Ltac crush :=
  repeat (intros; destruct_and?; simplify_eq/=; try split); try done; try lia; auto.

(** ** Strings *)

Lemma str_app_nil_l (s : string) : "" +:+ s = s.
Proof. done. Qed.

Lemma str_app_cons (x : ascii) (a b : string) :
  String x a +:+ b = String x (a +:+ b).
Proof. done. Qed.

Lemma prefix_app (a b : string) : String.prefix a (a +:+ b) = true.
Proof.
  induction a as [|x a IH]; [by destruct (_ +:+ b)|]. rewrite str_app_cons. simpl.
  by destruct (ascii_dec x x).
Qed.

Lemma str_app_nil_r (s : string) : s +:+ "" = s.
Proof. induction s as [|a s IH]; [done | by rewrite str_app_cons, IH]. Qed.

Lemma str_app_assoc (a b c : string) : (a +:+ b) +:+ c = a +:+ b +:+ c.
Proof. induction a as [|x a IH]; [done | by rewrite !str_app_cons, IH]. Qed.

Create Rewrite HintDb str.
#[export] Hint Rewrite str_app_nil_l str_app_cons str_app_nil_r str_app_assoc : str.

Lemma str_length_app (a b : string) :
  String.length (a +:+ b) = String.length a + String.length b.
Proof.
  induction a as [|x a IH]; [done|]. rewrite str_app_cons. simpl. by rewrite IH.
Qed.

Lemma str_app_inj_l (a b c : string) : a +:+ b = a +:+ c -> b = c.
Proof.
  induction a as [|x a IH]; [done|]. rewrite !str_app_cons. intros [= H]. auto.
Qed.

(** ** Lists *)

Lemma last_app_single {A} (l : list A) (x : A) : last (l ++ [x]) = Some x.
Proof. apply last_snoc. Qed.

Lemma lookup_last_index {A} (l : list A) (x : A) :
  last l = Some x -> exists l', l = l' ++ [x].
Proof.
  destruct l as [|y l _] using rev_ind; [done|].
  rewrite last_snoc. intros [= ->]. eauto.
Qed.

Lemma StronglySorted_snoc {A} (R : A -> A -> Prop) (l : list A) (x : A) :
  StronglySorted R l -> Forall (fun c => R c x) l -> StronglySorted R (l ++ [x]).
Proof.
  induction 1 as [|c l Hs IH Hc]; intros Hall; simpl.
  - repeat constructor.
  - apply Forall_cons in Hall as [? ?]. constructor; [auto|].
    apply Forall_app. split; [done|]. by constructor.
Qed.

Lemma StronglySorted_filter {A} (R : A -> A -> Prop) (P : A -> Prop) `{forall x, Decision (P x)}
    (l : list A) :
  StronglySorted R l -> StronglySorted R (filter P l).
Proof.
  induction 1 as [|x l Hs IH Hx]; [constructor|]. destruct (decide (P x)).
  - rewrite filter_cons_True by done. constructor; [done|]. apply Forall_forall. intros y [_ Hy]%list_elem_of_filter. by eapply Forall_forall in Hx.
  - by rewrite filter_cons_False.
Qed.

Lemma take_weaken {A} (n m : nat) (l : list A) (x : A) : n <= m -> x ∈ take n l -> x ∈ take m l.
Proof.
  intros Hle (i & Hi & Hlt)%elem_of_take. apply elem_of_take. exists i. split; [done|lia].
Qed.

Lemma filter_all {A} (P : A -> Prop) `{forall x, Decision (P x)} (l : list A) :
  Forall P l -> filter P l = l.
Proof. induction 1 as [|x l Hx _ IH]; [done|]. by rewrite filter_cons_True, IH. Qed.

Lemma filter_none {A} (P : A -> Prop) `{forall x, Decision (P x)} (l : list A) :
  Forall (fun x => ~ P x) l -> filter P l = [].
Proof. induction 1 as [|x l Hx _ IH]; [done|]. by rewrite filter_cons_False. Qed.

Lemma insert_last {A} (l : list A) (x y : A) :
  <[(length (l ++ [x]) - 1)%nat := y]> (l ++ [x]) = l ++ [y].
Proof.
  rewrite length_app. simpl. rewrite Nat.add_sub.
  replace (length l) with (length l + 0)%nat by lia. by rewrite insert_app_r.
Qed.
