(* ===== verification/GoStrings.v ===== *)
(** * Go strings

    A Go [string] is a sequence of bytes; here it is Stdlib's [string], whose
    characters are 8-bit [ascii] values, and a [[]byte] is a [list ascii].
    This file models the parts of Go's language and standard library that the
    watcher's string code uses: reading a string as UTF-8 runes
    ([for _, c := range s], [utf8.DecodeRune]), writing a rune
    ([strings.Builder.WriteRune], [utf8.EncodeRune]), and number formatting. *)

From stdpp Require Import base list strings gmap pretty.
From Stdlib Require Import ZArith Lia Ascii.
From S2P Require Import Prelude.

Local Open Scope Z_scope.

(** ** Bytes as numbers *)

Definition code (c : ascii) : Z := Z.of_N (N_of_ascii c).
Definition chr (z : Z) : ascii := ascii_of_N (Z.to_N z).

(** The one-byte string with byte [z]. *)
Definition byte1 (z : Z) : string := String (chr z) EmptyString.

Definition dquote : string := byte1 34.
Definition bslash : string := byte1 92.

Lemma code_range c : 0 <= code c < 256.
Proof.
  unfold code. pose proof (N_ascii_bounded c). lia.
Qed.

Lemma chr_code c : chr (code c) = c.
Proof. unfold chr, code. rewrite N2Z.id. apply ascii_N_embedding. Qed.

Lemma code_chr z : 0 <= z < 256 -> code (chr z) = z.
Proof.
  intros. unfold chr, code. rewrite N_ascii_embedding by lia. lia.
Qed.

Lemma code_inj c d : code c = code d -> c = d.
Proof. intros H. by rewrite <- (chr_code c), <- (chr_code d), H. Qed.

#[export] Hint Rewrite chr_code : go.
#[export] Hint Rewrite code_chr using lia : go.
#[export] Hint Resolve code_range : go.

(** ** UTF-8 *)

Definition RuneError : Z := 65533.   (* U+FFFD *)

Definition cont (b : Z) : bool := (128 <=? b) && (b <=? 191).

(** [utf8.DecodeRune]'s tables: which lead byte [b0] starts a sequence of two,
    three or four bytes, and which second byte it accepts. *)
Definition lead2 (b0 : Z) : bool := (194 <=? b0) && (b0 <=? 223).
Definition lead3 (b0 b1 : Z) : bool :=
  (224 <=? b0) && (b0 <=? 239) && cont b1
  && (if b0 =? 224 then 160 <=? b1 else true)
  && (if b0 =? 237 then b1 <=? 159 else true).
Definition lead4 (b0 b1 : Z) : bool :=
  (240 <=? b0) && (b0 <=? 244) && cont b1
  && (if b0 =? 240 then 144 <=? b1 else true)
  && (if b0 =? 244 then b1 <=? 143 else true).

Definition rune2 (b0 b1 : Z) : Z := (b0 - 192) * 64 + (b1 - 128).
Definition rune3 (b0 b1 b2 : Z) : Z :=
  (b0 - 224) * 4096 + (b1 - 128) * 64 + (b2 - 128).
Definition rune4 (b0 b1 b2 b3 : Z) : Z :=
  (b0 - 240) * 262144 + (b1 - 128) * 4096 + (b2 - 128) * 64 + (b3 - 128).

(** The runes a [range] loop over the string visits: a byte that starts no
    valid sequence is visited as [RuneError] and skipped alone. *)
Fixpoint runes (s : string) : list Z :=
  match s with
  | EmptyString => []
  | String a s1 =>
      let b0 := code a in
      if b0 <? 128 then b0 :: runes s1
      else match s1 with
      | EmptyString => [RuneError]
      | String b s2 =>
          if lead2 b0 && cont (code b) then rune2 b0 (code b) :: runes s2
          else match s2 with
          | EmptyString => RuneError :: runes s1
          | String c s3 =>
              if lead3 b0 (code b) && cont (code c)
              then rune3 b0 (code b) (code c) :: runes s3
              else match s3 with
              | EmptyString => RuneError :: runes s1
              | String d s4 =>
                  if lead4 b0 (code b) && cont (code c) && cont (code d)
                  then rune4 b0 (code b) (code c) (code d) :: runes s4
                  else RuneError :: runes s1
              end
          end
      end
  end.

(** Whether every byte of the string belongs to a valid sequence
    ([utf8.ValidString]). *)
Fixpoint valid_utf8 (s : string) : bool :=
  match s with
  | EmptyString => true
  | String a s1 =>
      let b0 := code a in
      if b0 <? 128 then valid_utf8 s1
      else match s1 with
      | EmptyString => false
      | String b s2 =>
          if lead2 b0 && cont (code b) then valid_utf8 s2
          else match s2 with
          | EmptyString => false
          | String c s3 =>
              if lead3 b0 (code b) && cont (code c) then valid_utf8 s3
              else match s3 with
              | EmptyString => false
              | String d s4 =>
                  if lead4 b0 (code b) && cont (code c) && cont (code d)
                  then valid_utf8 s4 else false
              end
          end
      end
  end.

(** [utf8.EncodeRune]; surrogates and out-of-range values become U+FFFD. *)
Definition encode_rune (r : Z) : string :=
  let three r :=
    String (chr (224 + r / 4096))
      (String (chr (128 + r / 64 mod 64)) (byte1 (128 + r mod 64))) in
  if (0 <=? r) && (r <? 128) then byte1 r
  else if (0 <=? r) && (r <? 2048) then
    String (chr (192 + r / 64)) (byte1 (128 + r mod 64))
  else if (r <? 0) || (1114111 <? r) || ((55296 <=? r) && (r <=? 57343)) then
    three RuneError
  else if r <? 65536 then three r
  else String (chr (240 + r / 262144))
         (String (chr (128 + r / 4096 mod 64))
            (String (chr (128 + r / 64 mod 64)) (byte1 (128 + r mod 64)))).

Fixpoint concat_str (l : list string) : string :=
  match l with
  | [] => ""%string
  | s :: l => s +:+ concat_str l
  end.

Definition encode_runes (l : list Z) : string := concat_str (map encode_rune l).

(** ** Numbers *)

(** [strconv.Itoa] and [%d]. *)
Definition itoa (z : Z) : string := pretty z.

Definition hexdigit (d : Z) : ascii := chr (if d <? 10 then 48 + d else 87 + d).

(** [%04x] of a value below 65536. *)
Definition hex4 (z : Z) : string :=
  String (hexdigit (z / 4096 mod 16)) (String (hexdigit (z / 256 mod 16))
    (String (hexdigit (z / 16 mod 16)) (String (hexdigit (z mod 16)) EmptyString))).

(** ** UTF-8 lemmas *)

#[local] Ltac Zify.zify_post_hook ::= Z.to_euclidean_division_equations.

Lemma cont_range b : cont b = true <-> 128 <= b <= 191.
Proof. unfold cont. lia. Qed.

Lemma lead2_range b : lead2 b = true <-> 194 <= b <= 223.
Proof. unfold lead2. lia. Qed.

Lemma lead3_range b0 b1 :
  lead3 b0 b1 = true ->
  224 <= b0 <= 239 /\ 128 <= b1 <= 191 /\ (b0 = 224 -> 160 <= b1) /\ (b0 = 237 -> b1 <= 159).
Proof. unfold lead3, cont. bcase; lia. Qed.

Lemma lead4_range b0 b1 :
  lead4 b0 b1 = true ->
  240 <= b0 <= 244 /\ 128 <= b1 <= 191 /\ (b0 = 240 -> 144 <= b1) /\ (b0 = 244 -> b1 <= 143).
Proof. unfold lead4, cont. bcase; lia. Qed.

Ltac utf8_bytes :=
  repeat match goal with
  | H : _ && _ = true |- _ => apply andb_true_iff in H as [? ?]
  | H : cont _ = true |- _ => apply cont_range in H
  | H : lead2 _ = true |- _ => apply lead2_range in H
  | H : lead3 _ _ = true |- _ => apply lead3_range in H as (? & ? & ? & ?)
  | H : lead4 _ _ = true |- _ => apply lead4_range in H as (? & ? & ? & ?)
  end.

(** Writing back what a valid sequence decodes to gives its bytes. *)
Lemma encode_rune1 a : code a < 128 -> encode_rune (code a) = String a "".
Proof.
  intros. pose proof (code_range a). unfold encode_rune, byte1.
  rewrite chr_code. replace ((0 <=? code a) && (code a <? 128)) with true by lia. done.
Qed.

Lemma encode_rune2 a b :
  lead2 (code a) && cont (code b) = true ->
  encode_rune (rune2 (code a) (code b)) = String a (String b "").
Proof.
  intros. utf8_bytes. unfold encode_rune, rune2, byte1.
  set (r := (code a - 192) * 64 + (code b - 128)).
  replace ((0 <=? r) && (r <? 128)) with false by lia.
  replace ((0 <=? r) && (r <? 2048)) with true by lia.
  replace (192 + r / 64) with (code a) by lia.
  replace (128 + r mod 64) with (code b) by lia. by rewrite !chr_code.
Qed.

Lemma encode_rune3 a b c :
  lead3 (code a) (code b) && cont (code c) = true ->
  encode_rune (rune3 (code a) (code b) (code c)) = String a (String b (String c "")).
Proof.
  intros. utf8_bytes. unfold encode_rune, rune3, byte1.
  set (r := (code a - 224) * 4096 + (code b - 128) * 64 + (code c - 128)).
  replace ((0 <=? r) && (r <? 128)) with false by lia.
  replace ((0 <=? r) && (r <? 2048)) with false by lia.
  replace ((r <? 0) || (1114111 <? r) || (55296 <=? r) && (r <=? 57343)) with false by lia.
  replace (r <? 65536) with true by lia.
  replace (224 + r / 4096) with (code a) by lia.
  replace (128 + r / 64 mod 64) with (code b) by lia.
  replace (128 + r mod 64) with (code c) by lia. by rewrite !chr_code.
Qed.

Lemma encode_rune4 a b c d :
  lead4 (code a) (code b) && cont (code c) && cont (code d) = true ->
  encode_rune (rune4 (code a) (code b) (code c) (code d))
  = String a (String b (String c (String d ""))).
Proof.
  intros. utf8_bytes. unfold encode_rune, rune4, byte1.
  set (r := (code a - 240) * 262144 + (code b - 128) * 4096 + (code c - 128) * 64 + (code d - 128)).
  replace ((0 <=? r) && (r <? 128)) with false by lia.
  replace ((0 <=? r) && (r <? 2048)) with false by lia.
  replace ((r <? 0) || (1114111 <? r) || (55296 <=? r) && (r <=? 57343)) with false by lia.
  replace (r <? 65536) with false by lia.
  replace (240 + r / 262144) with (code a) by lia.
  replace (128 + r / 4096 mod 64) with (code b) by lia.
  replace (128 + r / 64 mod 64) with (code c) by lia.
  replace (128 + r mod 64) with (code d) by lia. by rewrite !chr_code.
Qed.

(** Induction over a string by the sequences a [range] loop consumes. *)
Lemma string_len_ind (P : string -> Prop) :
  (forall s, (forall t, (String.length t < String.length s)%nat -> P t) -> P s) ->
  forall s, P s.
Proof.
  intros H s. remember (String.length s) as n eqn:E.
  revert s E. induction (lt_wf n) as [n _ IH]. intros s ->.
  apply H. intros t Ht. eapply IH; eauto.
Qed.

Definition scalar (r : Z) : Prop :=
  0 <= r <= 1114111 /\ ~ (55296 <= r <= 57343).

(** One iteration of the [range] loop: it consumes a non-empty prefix [w], and
    either [w] is the encoding of the rune visited, or the string is not valid
    UTF-8 and the rune is U+FFFD. *)
Lemma runes_step s :
  s <> ""%string ->
  exists w r t, s = w +:+ t /\ (0 < String.length w)%nat /\ runes s = r :: runes t /\
    scalar r /\
    ((encode_rune r = w /\ valid_utf8 s = valid_utf8 t) \/
     (r = RuneError /\ valid_utf8 s = false)).
Proof.
  intros Hne. destruct s as [|a s1]; [done|].
  pose proof (code_range a).
  assert (Hbad : valid_utf8 (String a s1) = false ->
            runes (String a s1) = RuneError :: runes s1 ->
            exists w r t, String a s1 = w +:+ t /\ (0 < String.length w)%nat /\
              runes (String a s1) = r :: runes t /\ scalar r /\
              ((encode_rune r = w /\ valid_utf8 (String a s1) = valid_utf8 t) \/
               (r = RuneError /\ valid_utf8 (String a s1) = false))).
  { intros Hv Hr. exists (String a ""), RuneError, s1.
    unfold scalar, RuneError. split_and!; try done; try (simpl; lia). by right. }
  cbn [runes valid_utf8] in *.
  destruct (Z.ltb_spec (code a) 128).
  { exists (String a ""), (code a), s1. unfold scalar.
    split_and!; try (simpl; lia); try done. left. by rewrite encode_rune1. }
  destruct s1 as [|b s2]; [by apply Hbad|].
  destruct (lead2 (code a) && cont (code b)) eqn:E2.
  { exists (String a (String b "")), (rune2 (code a) (code b)), s2.
    rewrite encode_rune2 by done. utf8_bytes. unfold scalar, rune2.
    split_and!; try (simpl; lia); try done. by left. }
  destruct s2 as [|c s3]; [by apply Hbad|].
  destruct (lead3 (code a) (code b) && cont (code c)) eqn:E3.
  { exists (String a (String b (String c ""))), (rune3 (code a) (code b) (code c)), s3.
    rewrite encode_rune3 by done. utf8_bytes. unfold scalar, rune3.
    split_and!; try (simpl; lia); try done. by left. }
  destruct s3 as [|d s4]; [by apply Hbad|].
  destruct (lead4 (code a) (code b) && cont (code c) && cont (code d)) eqn:E4;
    [|by apply Hbad].
  exists (String a (String b (String c (String d "")))),
    (rune4 (code a) (code b) (code c) (code d)), s4.
  rewrite encode_rune4 by done. utf8_bytes. unfold scalar, rune4.
  split_and!; try (simpl; lia); try done. by left.
Qed.

Lemma runes_encode_runes s : valid_utf8 s = true -> encode_runes (runes s) = s.
Proof.
  induction s as [s IH] using string_len_ind. intros Hv.
  destruct (decide (s = ""%string)) as [->|Hne]; [done|].
  destruct (runes_step s Hne) as (w & r & t & -> & Hlen & Hr & _ & [[Hw Hvt]|[_ ?]]);
    [|congruence].
  rewrite Hr. unfold encode_runes. simpl. rewrite Hw. f_equal.
  apply IH; [rewrite str_length_app; lia | congruence].
Qed.

Lemma runes_scalar s : Forall scalar (runes s).
Proof.
  induction s as [s IH] using string_len_ind.
  destruct (decide (s = ""%string)) as [->|Hne]; [constructor|].
  destruct (runes_step s Hne) as (w & r & t & -> & Hlen & Hr & Hs & _).
  rewrite Hr. constructor; [done|]. apply IH. rewrite str_length_app. lia.
Qed.

(** Decoding an encoded rune gives it back. *)
Lemma runes_encode_rune r t : scalar r -> runes (encode_rune r +:+ t) = r :: runes t.
Proof.
  unfold scalar, encode_rune, byte1. intros [Hr Hs].
  destruct ((0 <=? r) && (r <? 128)) eqn:E1.
  { autorewrite with str. cbn [runes]. rewrite code_chr by lia.
    replace (r <? 128) with true by lia. done. }
  destruct ((0 <=? r) && (r <? 2048)) eqn:E2.
  { autorewrite with str. cbn [runes]. rewrite !code_chr by lia.
    replace (192 + r / 64 <? 128) with false by lia.
    unfold lead2, cont, rune2.
    match goal with |- context [if ?b then _ else _] => replace b with true by lia end.
    f_equal. lia. }
  match goal with |- context [if ?b then _ else _] => replace b with false by lia end.
  destruct (r <? 65536) eqn:E3.
  { autorewrite with str. cbn [runes]. rewrite !code_chr by lia.
    replace (224 + r / 4096 <? 128) with false by lia.
    unfold lead2, lead3, cont, rune3.
    match goal with |- context [if ?b then rune2 _ _ :: _ else _] => replace b with false by lia end.
    match goal with |- (if ?b then _ else _) = _ => replace b with true end.
    - f_equal. lia.
    - bcase; lia. }
  autorewrite with str. cbn [runes]. rewrite !code_chr by lia.
  replace (240 + r / 262144 <? 128) with false by lia.
  unfold lead2, lead3, lead4, cont, rune4.
  match goal with |- context [if ?b then rune2 _ _ :: _ else _] => replace b with false by lia end.
  match goal with |- (if ?b then _ else _) = _ => replace b with false by (bcase; lia) end.
  match goal with |- (if ?b then _ else _) = _ => replace b with true by (bcase; lia) end.
  f_equal. lia.
Qed.

(** ** Splitting at a separator *)

Fixpoint no_char (c : ascii) (s : string) : bool :=
  match s with EmptyString => true | String a s => negb (Ascii.eqb a c) && no_char c s end.

Lemma split_at_inj c a b x y :
  no_char c a = true -> no_char c b = true ->
  a +:+ String c x = b +:+ String c y -> a = b /\ x = y.
Proof.
  revert b. induction a as [|h a IH]; intros [|k b] Ha Hb; simpl in *;
    rewrite ?str_app_nil_l, ?str_app_cons.
  - by intros [= ->].
  - intros [= <- _]. by rewrite Ascii.eqb_refl in Hb.
  - intros [= -> _]. by rewrite Ascii.eqb_refl in Ha.
  - intros [= <- H]. apply andb_true_iff in Ha as [_ Ha]. apply andb_true_iff in Hb as [_ Hb].
    by destruct (IH b Ha Hb H) as [-> ->].
Qed.

Lemma no_char_app c a b : no_char c (a +:+ b) = no_char c a && no_char c b.
Proof.
  induction a as [|h a IH]; [done|]. rewrite str_app_cons. simpl. by rewrite IH, andb_assoc.
Qed.

(** ** Hexadecimal printing ([%X]) *)

Definition hexdigitU (d : Z) : ascii := chr (if d <? 10 then 48 + d else 55 + d).

Fixpoint hex_go (fuel : nat) (z : Z) (acc : string) : string :=
  match fuel with
  | O => acc
  | S fuel =>
      let acc := String (hexdigitU (z mod 16)) acc in
      if z / 16 =? 0 then acc else hex_go fuel (z / 16) acc
  end.
Definition hexU (z : Z) : string := hex_go 16 z "".

Definition unhex_digit (c : ascii) : Z := if code c <? 58 then code c - 48 else code c - 55.
Fixpoint unhex (v : Z) (s : string) : Z :=
  match s with EmptyString => v | String c s => unhex (v * 16 + unhex_digit c) s end.

Lemma unhex_digit_hex d : 0 <= d < 16 -> unhex_digit (hexdigitU d) = d.
Proof. intros. unfold unhex_digit, hexdigitU. bcase; rewrite code_chr in *; lia. Qed.

Lemma unhex_go fuel z acc :
  0 <= z < 16 ^ Z.of_nat fuel -> unhex 0 (hex_go fuel z acc) = unhex z acc.
Proof.
  revert z acc. induction fuel as [|fuel IH]; intros z acc Hz.
  - simpl in *. f_equal. lia.
  - cbn [hex_go]. pose proof (Z.div_mod z 16 ltac:(lia)) as Hd.
    pose proof (Z.mod_pos_bound z 16 ltac:(lia)) as Hm.
    destruct (Z.eqb_spec (z / 16) 0) as [E|E].
    + cbn [unhex]. rewrite unhex_digit_hex by lia. f_equal. lia.
    + rewrite IH.
      * cbn [unhex]. rewrite unhex_digit_hex by lia. f_equal. lia.
      * rewrite Nat2Z.inj_succ, Z.pow_succ_r in Hz by lia.
        split; [apply Z.div_pos; lia|apply Z.div_lt_upper_bound; lia].
Qed.

Lemma hexU_inj a b : 0 <= a < 2 ^ 64 -> 0 <= b < 2 ^ 64 -> hexU a = hexU b -> a = b.
Proof.
  intros Ha Hb H. apply (f_equal (unhex 0)) in H. unfold hexU in H.
  rewrite !unhex_go in H by (change (16 ^ Z.of_nat 16) with (2 ^ 64); lia). done.
Qed.

Lemma hexU_no_char c z :
  (forall d, 0 <= d < 16 -> hexdigitU d <> c) -> no_char c (hexU z) = true.
Proof.
  intros Hc. unfold hexU.
  enough (forall fuel z acc, no_char c acc = true -> no_char c (hex_go fuel z acc) = true) as H
    by (by apply H).
  induction fuel as [|fuel IH]; intros w acc Hacc; [done|]. cbn [hex_go].
  assert (no_char c (String (hexdigitU (w mod 16)) acc) = true) as Ha.
  { simpl. rewrite Hacc, andb_true_r. apply negb_true_iff, Ascii.eqb_neq, Hc.
    apply Z.mod_pos_bound. lia. }
  by destruct (_ =? _); [|apply IH].
Qed.
