(* ===== verification/Config.v ===== *)
(** * internal/config/config.go: the configuration

    The configuration records with the keys their fields carry, and [Load].
    viper, which merges the defaults, the file and the environment and decodes
    the result, is not under src/: it is the parameter [Unmarshal], with the
    precedence its documentation promises ([viper_laws]) as the hypothesis. *)

From stdpp Require Import base list strings.
From Stdlib Require Import ZArith Lia Ascii.
From S2P Require Import Prelude.

Local Open Scope Z_scope.

Record SlotCleanupConfig := mkCleanupConfig {
  sc_Enabled : bool;
  sc_IntervalMinutes : Z;
  sc_StaleAfterMinutes : Z;
  sc_RetainedWALThresholdBytes : Z;
  sc_DryRun : bool;
  sc_SlotPattern : string;
  sc_HeartbeatSeconds : Z
}.

Record PostgresConfig := mkPostgresConfig {
  pg_Enabled : bool;
  pg_URL : string;
  pg_Username : string;
  pg_Password : string;
  pg_SlotName : string;
  pg_PublicationName : string;
  pg_CreateSlot : bool;
  pg_CreatePublication : bool;
  pg_Tables : list string;
  pg_SnapshotMode : string;
  pg_SnapshotChunkSize : Z;
  pg_SnapshotBackupFile : string;
  pg_SnapshotStartLSN : string;
  pg_CaptureDDL : bool;
  pg_SchemaHistoryDir : string;
  pg_SlotStatsIntervalSeconds : Z;
  pg_OwnerID : string;
  pg_SlotCleanup : SlotCleanupConfig
}.

Record MySQLConfig := mkMySQLConfig {
  my_Enabled : bool;
  my_Host : string;
  my_Username : string;
  my_Password : string;
  my_Schema : string;
  my_Tables : list string;
  my_SnapshotMode : string;
  my_SnapshotChunkSize : Z;
  my_SnapshotBackupFile : string;
  my_OffsetFile : string;
  my_CACert : string
}.

Record NATSConfig := mkNATSConfig {
  nats_Enabled : bool;
  nats_URL : string;
  nats_StreamName : string;
  nats_SubjectPrefix : string;
  nats_MaxAgeMinutes : Z;
  nats_Storage : string;
  nats_Username : string;
  nats_Password : string;
  nats_InboxPrefix : string
}.

Record HealthConfig := mkHealthConfig { health_Port : Z; health_BindAddress : string }.
Record MetricsConfig := mkMetricsConfig { metrics_Enabled : bool }.

Record Config := mkConfig {
  Postgres : PostgresConfig;
  MySQL : MySQLConfig;
  NATS : NATSConfig;
  Health : HealthConfig;
  Metrics : MetricsConfig
}.

(** ** Keys *)

Inductive setting := SStr (s : string) | SInt (z : Z) | SBool (b : bool) | SList (l : list string).

(** The fields under the keys of their [mapstructure] tags. *)
Definition fields (c : Config) : list (string * setting) :=
  let p := Postgres c in let s := pg_SlotCleanup p in let m := MySQL c in let n := NATS c in
  [("postgres.enabled", SBool (pg_Enabled p));
   ("postgres.url", SStr (pg_URL p));
   ("postgres.username", SStr (pg_Username p));
   ("postgres.password", SStr (pg_Password p));
   ("postgres.slot_name", SStr (pg_SlotName p));
   ("postgres.publication_name", SStr (pg_PublicationName p));
   ("postgres.create_slot", SBool (pg_CreateSlot p));
   ("postgres.create_publication", SBool (pg_CreatePublication p));
   ("postgres.tables", SList (pg_Tables p));
   ("postgres.snapshot_mode", SStr (pg_SnapshotMode p));
   ("postgres.snapshot_chunk_size", SInt (pg_SnapshotChunkSize p));
   ("postgres.snapshot_backup_file", SStr (pg_SnapshotBackupFile p));
   ("postgres.snapshot_start_lsn", SStr (pg_SnapshotStartLSN p));
   ("postgres.capture_ddl", SBool (pg_CaptureDDL p));
   ("postgres.schema_history_dir", SStr (pg_SchemaHistoryDir p));
   ("postgres.slot_stats_interval_seconds", SInt (pg_SlotStatsIntervalSeconds p));
   ("postgres.owner_id", SStr (pg_OwnerID p));
   ("postgres.slot_cleanup.enabled", SBool (sc_Enabled s));
   ("postgres.slot_cleanup.interval_minutes", SInt (sc_IntervalMinutes s));
   ("postgres.slot_cleanup.stale_after_minutes", SInt (sc_StaleAfterMinutes s));
   ("postgres.slot_cleanup.retained_wal_threshold_bytes", SInt (sc_RetainedWALThresholdBytes s));
   ("postgres.slot_cleanup.dry_run", SBool (sc_DryRun s));
   ("postgres.slot_cleanup.slot_pattern", SStr (sc_SlotPattern s));
   ("postgres.slot_cleanup.heartbeat_seconds", SInt (sc_HeartbeatSeconds s));
   ("mysql.enabled", SBool (my_Enabled m));
   ("mysql.host", SStr (my_Host m));
   ("mysql.username", SStr (my_Username m));
   ("mysql.password", SStr (my_Password m));
   ("mysql.schema", SStr (my_Schema m));
   ("mysql.tables", SList (my_Tables m));
   ("mysql.snapshot_mode", SStr (my_SnapshotMode m));
   ("mysql.snapshot_chunk_size", SInt (my_SnapshotChunkSize m));
   ("mysql.snapshot_backup_file", SStr (my_SnapshotBackupFile m));
   ("mysql.offset_file", SStr (my_OffsetFile m));
   ("mysql.ca_cert", SStr (my_CACert m));
   ("nats.enabled", SBool (nats_Enabled n));
   ("nats.url", SStr (nats_URL n));
   ("nats.stream_name", SStr (nats_StreamName n));
   ("nats.subject_prefix", SStr (nats_SubjectPrefix n));
   ("nats.max_age_minutes", SInt (nats_MaxAgeMinutes n));
   ("nats.storage", SStr (nats_Storage n));
   ("nats.username", SStr (nats_Username n));
   ("nats.password", SStr (nats_Password n));
   ("nats.inbox_prefix", SStr (nats_InboxPrefix n));
   ("health.port", SInt (health_Port (Health c)));
   ("health.bind_address", SStr (health_BindAddress (Health c)));
   ("metrics.enabled", SBool (metrics_Enabled (Metrics c)))]%string.

Fixpoint assoc {A} (k : string) (l : list (string * A)) : option A :=
  match l with
  | [] => None
  | (k', v) :: l => if bool_decide (k = k') then Some v else assoc k l
  end.

Definition field (k : string) (c : Config) : option setting := assoc k (fields c).

(** ** Load *)

Definition defaultOwnerID (hostname : option string) : string :=
  match hostname with
  | Some h => if bool_decide (h = "") then "watcher" else h
  | None => "watcher"
  end.

(** The [SetDefault] calls. *)
Definition defaults (hostname : option string) : list (string * setting) :=
  [("postgres.slot_name", SStr "cdc_slot");
   ("postgres.publication_name", SStr "cdc_publication");
   ("postgres.create_slot", SBool true);
   ("postgres.create_publication", SBool true);
   ("postgres.snapshot_mode", SStr "none");
   ("postgres.snapshot_chunk_size", SInt 10000);
   ("postgres.slot_stats_interval_seconds", SInt 15);
   ("postgres.owner_id", SStr (defaultOwnerID hostname));
   ("postgres.slot_cleanup.enabled", SBool true);
   ("postgres.slot_cleanup.interval_minutes", SInt 10);
   ("postgres.slot_cleanup.stale_after_minutes", SInt 30);
   ("postgres.slot_cleanup.retained_wal_threshold_bytes", SInt 0);
   ("postgres.slot_cleanup.dry_run", SBool false);
   ("postgres.slot_cleanup.slot_pattern", SStr "^cdc_");
   ("postgres.slot_cleanup.heartbeat_seconds", SInt 30);
   ("mysql.enabled", SBool false);
   ("mysql.snapshot_mode", SStr "none");
   ("mysql.snapshot_chunk_size", SInt 10000);
   ("nats.enabled", SBool true);
   ("nats.url", SStr "nats://localhost:4222");
   ("nats.stream_name", SStr "CDC");
   ("nats.subject_prefix", SStr "cdc");
   ("nats.max_age_minutes", SInt 5);
   ("nats.storage", SStr "memory");
   ("health.port", SInt 8080);
   ("health.bind_address", SStr "127.0.0.1");
   ("metrics.enabled", SBool true)]%string.

(** The [BindEnv] calls. *)
Definition bindings : list (string * string) :=
  [("postgres.url", "WATCHER_POSTGRES_URL");
   ("postgres.username", "WATCHER_POSTGRES_USERNAME");
   ("postgres.password", "WATCHER_POSTGRES_PASSWORD");
   ("mysql.host", "WATCHER_MYSQL_HOST");
   ("mysql.username", "WATCHER_MYSQL_USERNAME");
   ("mysql.password", "WATCHER_MYSQL_PASSWORD");
   ("mysql.ca_cert", "WATCHER_MYSQL_CA_CERT");
   ("nats.url", "WATCHER_NATS_URL");
   ("nats.username", "WATCHER_NATS_USERNAME");
   ("nats.password", "WATCHER_NATS_PASSWORD");
   ("nats.inbox_prefix", "WATCHER_NATS_INBOX_PREFIX")]%string.

(** What [Load] hands to viper before it unmarshals. *)
Record viper := mkViper {
  v_defaults : list (string * setting);
  v_file : list (string * setting);
  v_prefix : string;
  v_bound : list (string * string);
  v_env : string -> option string
}.

Inductive config_error := ReadingConfig | Unmarshaling | InvalidMode (section mode : string).

Definition ValidateSnapshotMode (mode : string) : bool :=
  bool_decide (mode ∈ [""; "none"; "chunked"; "backup_file"]).

Section Load.
(** [viper.Unmarshal] into a [Config]. *)
Context (Unmarshal : viper -> option Config).

(** [file] is what reading and parsing the file gives. *)
Definition Load (hostname : option string) (env : string -> option string)
    (file : option (list (string * setting))) : result config_error Config :=
  match file with
  | None => Err ReadingConfig
  | Some f =>
      match Unmarshal (mkViper (defaults hostname) f "WATCHER" bindings env) with
      | None => Err Unmarshaling
      | Some cfg =>
          if negb (ValidateSnapshotMode (pg_SnapshotMode (Postgres cfg)))
          then Err (InvalidMode "postgres" (pg_SnapshotMode (Postgres cfg)))
          else if negb (ValidateSnapshotMode (my_SnapshotMode (MySQL cfg)))
          then Err (InvalidMode "mysql" (my_SnapshotMode (MySQL cfg)))
          else Ok cfg
      end
  end.

End Load.

(** ** viper *)

(** A key's variable under [AutomaticEnv]: prefix, then the key in upper case
    with underscores. *)
Definition upper (a : ascii) : ascii :=
  let c := N_of_ascii a in if ((97 <=? c) && (c <=? 122))%N then ascii_of_N (c - 32) else a.
Fixpoint env_tail (s : string) : string :=
  match s with
  | EmptyString => EmptyString
  | String a s => String (if Ascii.eqb a "." then "_"%char else upper a) (env_tail s)
  end.
Definition env_name (v : viper) (k : string) : string := v_prefix v +:+ "_" +:+ env_tail k.

(** A variable that is empty counts as unset. *)
Definition env_set (v : viper) (name : string) : Prop :=
  exists s, v_env v name = Some s /\ s <> ""%string.

Definition same_type (a b : setting) : Prop :=
  match a, b with
  | SStr _, SStr _ | SInt _, SInt _ | SBool _, SBool _ | SList _, SList _ => True
  | _, _ => False
  end.

(** What viper's documentation promises: a bound variable wins; without a
    variable the file does; without both the default does. *)
Record viper_laws (Unmarshal : viper -> option Config) : Prop := mkViperLaws {
  law_env : forall v c k name s, Unmarshal v = Some c -> assoc k (v_bound v) = Some name ->
    v_env v name = Some s -> s <> ""%string -> (exists x, field k c = Some (SStr x)) ->
    field k c = Some (SStr s);
  law_file : forall v c k x y, Unmarshal v = Some c -> ~ env_set v (env_name v k) ->
    (forall name, assoc k (v_bound v) = Some name -> ~ env_set v name) ->
    assoc k (v_file v) = Some x -> field k c = Some y -> same_type x y -> y = x;
  law_default : forall v c k x y, Unmarshal v = Some c -> ~ env_set v (env_name v k) ->
    (forall name, assoc k (v_bound v) = Some name -> ~ env_set v name) ->
    assoc k (v_file v) = None -> assoc k (v_defaults v) = Some x -> field k c = Some y ->
    same_type x y -> y = x
}.

(** ** Every key has a field of its type *)

Lemma assoc_elem {A} k (l : list (string * A)) x : assoc k l = Some x -> (k, x) ∈ l.
Proof.
  induction l as [|[k' v] l IH]; [done|]. simpl. case_bool_decide as E; [intros [= <-]; subst; left|].
  intros H. right. auto.
Qed.

Ltac each_key := repeat (apply Forall_cons; split; [|]); try apply Forall_nil_2.

(** ** Properties *)

(** A key that neither the file nor the environment sets. *)
Definition unset (env : string -> option string) (file : list (string * setting)) (k : string) : Prop :=
  assoc k file = None /\
  forall name, name = ("WATCHER_" +:+ env_tail k)%string \/ assoc k bindings = Some name ->
    default ""%string (env name) = ""%string.

Section Loaded.
Context (Unmarshal : viper -> option Config) (hostname : option string)
  (env : string -> option string) (file : list (string * setting)) (cfg : Config).
Context (Hlaws : viper_laws Unmarshal) (Hload : Load Unmarshal hostname env (Some file) = Ok cfg).

Lemma Load_modes :
  ValidateSnapshotMode (pg_SnapshotMode (Postgres cfg)) = true /\
  ValidateSnapshotMode (my_SnapshotMode (MySQL cfg)) = true.
Proof.
  unfold Load in Hload. destruct (Unmarshal _) as [c|]; [|done].
  destruct (ValidateSnapshotMode (pg_SnapshotMode (Postgres c))) eqn:E1; [|done].
  destruct (ValidateSnapshotMode (my_SnapshotMode (MySQL c))) eqn:E2; [|done]. simpl in Hload. by simplify_eq.
Qed.

Lemma Load_unmarshals : Unmarshal (mkViper (defaults hostname) file "WATCHER" bindings env) = Some cfg.
Proof.
  unfold Load in Hload. destruct (Unmarshal _) as [c|]; [|done].
  repeat (destruct (negb _); [done|]). by simplify_eq.
Qed.

Lemma Load_env k name s x :
  assoc k bindings = Some name -> field k cfg = Some (SStr x) -> env name = Some s -> s <> ""%string -> x = s.
Proof.
  intros Hk Hx Hs Hne.
  assert (E : field k cfg = Some (SStr s)) by (eapply (law_env _ Hlaws); [apply Load_unmarshals|done..|by eexists]).
  rewrite Hx in E. congruence.
Qed.

Lemma Load_default k x y :
  assoc k (defaults hostname) = Some x -> field k cfg = Some y -> same_type x y -> unset env file k -> y = x.
Proof.
  intros Hk Hy Ht [Hf Hno].
  assert (Hn : forall name, name = ("WATCHER_" +:+ env_tail k)%string \/ assoc k bindings = Some name ->
    ~ exists s, env name = Some s /\ s <> ""%string).
  { intros name Hname (s & Hs & Hne). specialize (Hno name Hname). by rewrite Hs in Hno. }
  eapply (law_default _ Hlaws); [apply Load_unmarshals|..]; eauto; unfold env_set, env_name; simpl; eauto.
Qed.
End Loaded.

(** Tries [tac] at the keys of a table. *)
Ltac at_some_key l tac :=
  match l with (?k, _) :: ?l => first [solve [tac k] | at_some_key l tac] end.

(** The defaults, key by key. *)
Definition has_defaults (hostname : option string) (unset : string -> Prop) (cfg : Config) : Prop :=
  let p := Postgres cfg in let s := pg_SlotCleanup p in let m := MySQL cfg in let n := NATS cfg in
  (unset "postgres.slot_name" -> pg_SlotName p = "cdc_slot"%string) /\
  (unset "postgres.publication_name" -> pg_PublicationName p = "cdc_publication"%string) /\
  (unset "postgres.create_slot" -> pg_CreateSlot p = true) /\
  (unset "postgres.create_publication" -> pg_CreatePublication p = true) /\
  (unset "postgres.snapshot_mode" -> pg_SnapshotMode p = "none"%string) /\
  (unset "postgres.snapshot_chunk_size" -> pg_SnapshotChunkSize p = 10000) /\
  (unset "postgres.slot_stats_interval_seconds" -> pg_SlotStatsIntervalSeconds p = 15) /\
  (unset "postgres.owner_id" -> forall h, hostname = Some h -> h <> ""%string -> pg_OwnerID p = h) /\
  (unset "postgres.owner_id" -> hostname = None \/ hostname = Some ""%string -> pg_OwnerID p = "watcher"%string) /\
  (unset "postgres.slot_cleanup.enabled" -> sc_Enabled s = true) /\
  (unset "postgres.slot_cleanup.interval_minutes" -> sc_IntervalMinutes s = 10) /\
  (unset "postgres.slot_cleanup.stale_after_minutes" -> sc_StaleAfterMinutes s = 30) /\
  (unset "postgres.slot_cleanup.retained_wal_threshold_bytes" -> sc_RetainedWALThresholdBytes s = 0) /\
  (unset "postgres.slot_cleanup.dry_run" -> sc_DryRun s = false) /\
  (unset "postgres.slot_cleanup.slot_pattern" -> sc_SlotPattern s = "^cdc_"%string) /\
  (unset "postgres.slot_cleanup.heartbeat_seconds" -> sc_HeartbeatSeconds s = 30) /\
  (unset "mysql.enabled" -> my_Enabled m = false) /\
  (unset "mysql.snapshot_mode" -> my_SnapshotMode m = "none"%string) /\
  (unset "mysql.snapshot_chunk_size" -> my_SnapshotChunkSize m = 10000) /\
  (unset "nats.enabled" -> nats_Enabled n = true) /\
  (unset "nats.url" -> nats_URL n = "nats://localhost:4222"%string) /\
  (unset "nats.stream_name" -> nats_StreamName n = "CDC"%string) /\
  (unset "nats.subject_prefix" -> nats_SubjectPrefix n = "cdc"%string) /\
  (unset "nats.max_age_minutes" -> nats_MaxAgeMinutes n = 5) /\
  (unset "nats.storage" -> nats_Storage n = "memory"%string) /\
  (unset "health.port" -> health_Port (Health cfg) = 8080) /\
  (unset "health.bind_address" -> health_BindAddress (Health cfg) = "127.0.0.1"%string) /\
  (unset "metrics.enabled" -> metrics_Enabled (Metrics cfg) = true).

(** C33: a configuration that [Load] returns is well formed and complete, given
    viper's documented precedence: both snapshot modes are known ones, each of
    the eleven connection settings whose WATCHER_ variable is set and not empty
    has the variable's value, and each key that neither the file nor the
    environment sets has the default that is written out for it (the owner id:
    the host name, or "watcher" without one). A file that cannot be read, or an
    unknown snapshot mode, is an error. *)
Theorem Load_well_formed (Unmarshal : viper -> option Config) (hostname : option string)
    (env : string -> option string) (file : list (string * setting)) (cfg : Config) :
  viper_laws Unmarshal -> Load Unmarshal hostname env (Some file) = Ok cfg ->
  pg_SnapshotMode (Postgres cfg) ∈ [""; "none"; "chunked"; "backup_file"]%string /\
  my_SnapshotMode (MySQL cfg) ∈ [""; "none"; "chunked"; "backup_file"]%string /\
  (let from name x := forall s, env name = Some s -> s <> ""%string -> x = s in
   from "WATCHER_POSTGRES_URL"%string (pg_URL (Postgres cfg)) /\
   from "WATCHER_POSTGRES_USERNAME"%string (pg_Username (Postgres cfg)) /\
   from "WATCHER_POSTGRES_PASSWORD"%string (pg_Password (Postgres cfg)) /\
   from "WATCHER_MYSQL_HOST"%string (my_Host (MySQL cfg)) /\
   from "WATCHER_MYSQL_USERNAME"%string (my_Username (MySQL cfg)) /\
   from "WATCHER_MYSQL_PASSWORD"%string (my_Password (MySQL cfg)) /\
   from "WATCHER_MYSQL_CA_CERT"%string (my_CACert (MySQL cfg)) /\
   from "WATCHER_NATS_URL"%string (nats_URL (NATS cfg)) /\
   from "WATCHER_NATS_USERNAME"%string (nats_Username (NATS cfg)) /\
   from "WATCHER_NATS_PASSWORD"%string (nats_Password (NATS cfg)) /\
   from "WATCHER_NATS_INBOX_PREFIX"%string (nats_InboxPrefix (NATS cfg))) /\
  has_defaults hostname (unset env file) cfg /\
  Load Unmarshal hostname env None = Err ReadingConfig /\
  forall file' c, Unmarshal (mkViper (defaults hostname) file' "WATCHER" bindings env) = Some c ->
    pg_SnapshotMode (Postgres c) ∉ [""; "none"; "chunked"; "backup_file"]%string \/
    my_SnapshotMode (MySQL c) ∉ [""; "none"; "chunked"; "backup_file"]%string ->
    exists section mode, Load Unmarshal hostname env (Some file') = Err (InvalidMode section mode).
Proof.
  intros Hlaws Hload. destruct (Load_modes _ _ _ _ _ Hload) as [M1 M2].
  split; [by apply bool_decide_eq_true_1 in M1|]. split; [by apply bool_decide_eq_true_1 in M2|]. split.
  { cbv zeta. let l := eval cbv in bindings in
    split_and!; intros s; at_some_key l ltac:(fun k => eapply (Load_env _ _ _ _ _ Hlaws Hload k); reflexivity). }
  split; [|split; [done|]].
  2:{ intros file' c Hu Hm. unfold Load. rewrite Hu. unfold ValidateSnapshotMode.
      do 2 (case_bool_decide; simpl; [|by eauto]). by destruct Hm. }
  assert (Hd : forall k x y, assoc k (defaults hostname) = Some x -> field k cfg = Some y -> same_type x y ->
    unset env file k -> y = x) by (intros; by eapply (Load_default _ _ _ _ _ Hlaws Hload)).
  assert (Hhost : unset env file "postgres.owner_id" -> pg_OwnerID (Postgres cfg) = defaultOwnerID hostname).
  { intros Hu. by injection (Hd "postgres.owner_id"%string _ _ eq_refl eq_refl I Hu). }
  unfold has_defaults. cbv zeta. let l := eval cbv [defaults] in (defaults hostname) in
  split_and!; try (intros Hu; at_some_key l ltac:(fun k => by injection (Hd k _ _ eq_refl eq_refl I Hu))).
  - intros Hu h -> Hh. rewrite (Hhost Hu). unfold defaultOwnerID. by rewrite bool_decide_eq_false_2.
  - intros Hu Hh. rewrite (Hhost Hu). by destruct Hh as [-> | ->].
Qed.

(** An empty owner_id in the file, as in config.example.yaml, is kept as it
    is: the host name is the default only of a key the file does not have. *)
Theorem empty_owner_kept (Unmarshal : viper -> option Config) (hostname : option string)
    (env : string -> option string) (file : list (string * setting)) (cfg : Config) :
  viper_laws Unmarshal -> Load Unmarshal hostname env (Some file) = Ok cfg ->
  assoc "postgres.owner_id" file = Some (SStr "") ->
  default ""%string (env "WATCHER_POSTGRES_OWNER_ID") = ""%string ->
  pg_OwnerID (Postgres cfg) = ""%string.
Proof.
  intros [_ Hfile _] H Hf He. unfold Load in H. destruct (Unmarshal _) as [c|] eqn:E; [|done].
  repeat (destruct (negb _); [done|]). simplify_eq.
  enough (SStr (pg_OwnerID (Postgres cfg)) = SStr "") as [=->] by done.
  eapply (Hfile _ _ "postgres.owner_id"); [exact E| | |exact Hf|reflexivity|exact I].
  - intros (s & Hs & Hne). change (env "WATCHER_POSTGRES_OWNER_ID" = Some s) in Hs. by rewrite Hs in He.
  - intros name Hb. discriminate Hb.
Qed.

(** ** Witnesses *)

(** A decoder that follows the documented precedence and keeps values of the
    right type only. *)
Section Demo.
Context (v : viper).

Definition nonempty (o : option string) : option setting :=
  match o with Some s => if bool_decide (s = ""%string) then None else Some (SStr s) | None => None end.
Definition demo_get (k : string) : option setting :=
  match (name ← assoc k (v_bound v); nonempty (v_env v name)) with
  | Some x => Some x
  | None =>
      match nonempty (v_env v (env_name v k)) with
      | Some x => Some x
      | None => match assoc k (v_file v) with Some x => Some x | None => assoc k (v_defaults v) end
      end
  end.
Definition demo_str (k : string) : string := match demo_get k with Some (SStr s) => s | _ => "" end.
Definition demo_int (k : string) : Z := match demo_get k with Some (SInt z) => z | _ => 0 end.
Definition demo_bool (k : string) : bool := match demo_get k with Some (SBool b) => b | _ => false end.
Definition demo_list (k : string) : list string := match demo_get k with Some (SList l) => l | _ => [] end.

Definition demo_config : Config :=
  mkConfig
    (mkPostgresConfig (demo_bool "postgres.enabled") (demo_str "postgres.url") (demo_str "postgres.username")
       (demo_str "postgres.password") (demo_str "postgres.slot_name") (demo_str "postgres.publication_name")
       (demo_bool "postgres.create_slot") (demo_bool "postgres.create_publication") (demo_list "postgres.tables")
       (demo_str "postgres.snapshot_mode") (demo_int "postgres.snapshot_chunk_size")
       (demo_str "postgres.snapshot_backup_file") (demo_str "postgres.snapshot_start_lsn")
       (demo_bool "postgres.capture_ddl") (demo_str "postgres.schema_history_dir")
       (demo_int "postgres.slot_stats_interval_seconds") (demo_str "postgres.owner_id")
       (mkCleanupConfig (demo_bool "postgres.slot_cleanup.enabled") (demo_int "postgres.slot_cleanup.interval_minutes")
          (demo_int "postgres.slot_cleanup.stale_after_minutes")
          (demo_int "postgres.slot_cleanup.retained_wal_threshold_bytes")
          (demo_bool "postgres.slot_cleanup.dry_run") (demo_str "postgres.slot_cleanup.slot_pattern")
          (demo_int "postgres.slot_cleanup.heartbeat_seconds")))
    (mkMySQLConfig (demo_bool "mysql.enabled") (demo_str "mysql.host") (demo_str "mysql.username")
       (demo_str "mysql.password") (demo_str "mysql.schema") (demo_list "mysql.tables")
       (demo_str "mysql.snapshot_mode") (demo_int "mysql.snapshot_chunk_size")
       (demo_str "mysql.snapshot_backup_file") (demo_str "mysql.offset_file") (demo_str "mysql.ca_cert"))
    (mkNATSConfig (demo_bool "nats.enabled") (demo_str "nats.url") (demo_str "nats.stream_name")
       (demo_str "nats.subject_prefix") (demo_int "nats.max_age_minutes") (demo_str "nats.storage")
       (demo_str "nats.username") (demo_str "nats.password") (demo_str "nats.inbox_prefix"))
    (mkHealthConfig (demo_int "health.port") (demo_str "health.bind_address"))
    (mkMetricsConfig (demo_bool "metrics.enabled")).

Lemma demo_fields :
  Forall (fun kx => forall x, demo_get kx.1 = Some x -> same_type x kx.2 -> kx.2 = x) (fields demo_config).
Proof.
  each_key; (intros x Hx Ht; simpl in *; unfold demo_str, demo_int, demo_bool, demo_list in *;
    rewrite Hx in *; by destruct x).
Qed.

End Demo.

Lemma nonempty_none v name : ~ env_set v name -> nonempty (v_env v name) = None.
Proof.
  intros H. unfold nonempty. destruct (v_env v name) as [s|] eqn:E; [|done].
  case_bool_decide as Hs; [done|]. exfalso. apply H. by exists s.
Qed.

Lemma demo_laws : viper_laws (fun v => Some (demo_config v)).
Proof.
  assert (Hf : forall v k x y, demo_get v k = Some x -> field k (demo_config v) = Some y -> same_type x y -> y = x).
  { intros v k x y Hx Hy Ht.
    exact (proj1 (Forall_forall _ _) (demo_fields v) (k, y) (assoc_elem _ _ _ Hy) x Hx Ht). }
  assert (Hno : forall v k, ~ env_set v (env_name v k) ->
    (forall name, assoc k (v_bound v) = Some name -> ~ env_set v name) ->
    demo_get v k = match assoc k (v_file v) with Some x => Some x | None => assoc k (v_defaults v) end).
  { intros v k He Hb. unfold demo_get. rewrite (nonempty_none _ _ He).
    destruct (assoc k (v_bound v)) as [name|]; simpl; [|done]. by rewrite nonempty_none by auto. }
  constructor.
  - intros v c k name s [= <-] Hb Hs Hne (x & Hx). rewrite Hx. f_equal.
    apply (Hf v k); [|done|done]. unfold demo_get. rewrite Hb. simpl. rewrite Hs. simpl.
    by rewrite bool_decide_eq_false_2.
  - intros v c k x y [= <-] He Hb Hx Hy Ht. apply (Hf v k); [|done..]. rewrite Hno by done. by rewrite Hx.
  - intros v c k x y [= <-] He Hb Hn Hx Hy Ht. apply (Hf v k); [|done..]. rewrite Hno by done. by rewrite Hn.
Qed.

Definition demo_env (name : string) : option string :=
  if bool_decide (name = "WATCHER_NATS_PASSWORD"%string) then Some "secret"%string else None.
Definition demo_file : list (string * setting) :=
  [("postgres.owner_id", SStr ""); ("nats.password", SStr "from file"); ("postgres.snapshot_mode", SStr "chunked")]%string.
Definition demo_loaded : Config :=
  match Load (fun v => Some (demo_config v)) (Some "pod-1"%string) demo_env (Some demo_file) with
  | Ok c => c
  | Err _ => demo_config (mkViper [] [] "" [] (fun _ => None))
  end.

Lemma Load_well_formed_witness :
  nats_Password (NATS demo_loaded) = "secret"%string /\ pg_SlotName (Postgres demo_loaded) = "cdc_slot"%string /\
  health_Port (Health demo_loaded) = 8080.
Proof.
  destruct (Load_well_formed (fun v => Some (demo_config v)) (Some "pod-1"%string) demo_env demo_file demo_loaded
    demo_laws) as (_ & _ & (_ & _ & _ & _ & _ & _ & _ & _ & _ & He & _) & Hd & _); [vm_compute; reflexivity|].
  split; [apply He; [reflexivity|discriminate]|].
  assert (Hu : forall k, assoc k demo_file = None -> assoc k bindings = None ->
    demo_env ("WATCHER_" +:+ env_tail k) = None -> unset demo_env demo_file k).
  { intros k Hf Hb He'. split; [exact Hf|]. intros name [->|Hb']; [by rewrite He'|]. rewrite Hb in Hb'. discriminate Hb'. }
  split; [apply Hd, Hu; reflexivity|]. unfold has_defaults in Hd. cbv zeta in Hd.
  do 25 (destruct Hd as [_ Hd]). apply Hd, Hu; reflexivity.
Defined.

Lemma empty_owner_kept_witness : pg_OwnerID (Postgres demo_loaded) = ""%string.
Proof.
  apply (empty_owner_kept (fun v => Some (demo_config v)) (Some "pod-1"%string) demo_env demo_file demo_loaded
    demo_laws); vm_compute; reflexivity.
Defined.
