(* ===== verification/Json.v ===== *)
(** * encoding/json

    The watcher decides whether row data may enter the bus with [json.Valid]
    and consumers read the data back with [json.Unmarshal].  This file models
    the two parts of the Go standard library this rests on: the byte-at-a-time
    scanner behind [json.Valid] (its step function, the stack of open
    containers and the nesting limit of 10000), and [unquote], which turns the
    body of a JSON string literal into the string it denotes.

    The scanner is compositional: running it over a concatenation is running it
    over the parts, so validity of generated objects is proved by following the
    writer. *)

From stdpp Require Import base list strings gmap.
From Stdlib Require Import ZArith Lia Ascii.
From S2P Require Import Prelude GoStrings.

Local Open Scope Z_scope.

(** ** The scanner *)

(** What an open container expects next ([parseObjectKey], ...). *)
Inductive pstate := ObjectKey | ObjectValue | ArrayValue.

(** The scanner's [step] function pointer. *)
Inductive jstate :=
| BeginValue | BeginValueOrEmpty | BeginString | BeginStringOrEmpty
| EndValue | EndTop
| InString | InStringEsc | InStringEscU | InStringEscU1 | InStringEscU12 | InStringEscU123
| Neg | S1 | S0 | Dot | Dot0 | StE | StESign | StE0
| StT | StTr | StTru | StF | StFa | StFal | StFals | StN | StNu | StNul.

(** [None] is the scanner's error state. *)
Definition jconf : Type := option (jstate * list pstate).

Definition is_space (c : Z) : bool := (c =? 32) || (c =? 9) || (c =? 13) || (c =? 10).
Definition is_digit (c : Z) : bool := (48 <=? c) && (c <=? 57).
Definition is_hex (c : Z) : bool :=
  is_digit c || ((97 <=? c) && (c <=? 102)) || ((65 <=? c) && (c <=? 70)).

Create HintDb json discriminated.

Definition maxNestingDepth : nat := Z.to_nat 10000.

Section Scanner.
(** The nesting limit, so that a value can be judged for embedding at depth. *)
Context (maxd : nat).

Definition push (p : pstate) (st : jstate) (stk : list pstate) : jconf :=
  if (length stk <? maxd)%nat then Some (st, p :: stk) else None.

Definition pop (stk : list pstate) : jconf :=
  match stk with
  | [] => Some (EndTop, [])
  | _ => Some (EndValue, stk)
  end.

Definition endTop (c : Z) : jconf := if is_space c then Some (EndTop, []) else None.

Definition endValue (stk : list pstate) (c : Z) : jconf :=
  match stk with
  | [] => endTop c
  | p :: rest =>
      if is_space c then Some (EndValue, stk)
      else match p with
      | ObjectKey => if c =? 58 then Some (BeginValue, ObjectValue :: rest) else None
      | ObjectValue =>
          if c =? 44 then Some (BeginString, ObjectKey :: rest)
          else if c =? 125 then pop rest else None
      | ArrayValue =>
          if c =? 44 then Some (BeginValue, stk)
          else if c =? 93 then pop rest else None
      end
  end.

Definition beginValue (stk : list pstate) (c : Z) : jconf :=
  if is_space c then Some (BeginValue, stk)
  else if c =? 123 then push ObjectKey BeginStringOrEmpty stk
  else if c =? 91 then push ArrayValue BeginValueOrEmpty stk
  else if c =? 34 then Some (InString, stk)
  else if c =? 45 then Some (Neg, stk)
  else if c =? 48 then Some (S0, stk)
  else if c =? 116 then Some (StT, stk)
  else if c =? 102 then Some (StF, stk)
  else if c =? 110 then Some (StN, stk)
  else if (49 <=? c) && (c <=? 57) then Some (S1, stk)
  else None.

Definition beginString (stk : list pstate) (c : Z) : jconf :=
  if is_space c then Some (BeginString, stk)
  else if c =? 34 then Some (InString, stk) else None.

Definition state0 (stk : list pstate) (c : Z) : jconf :=
  if c =? 46 then Some (Dot, stk)
  else if (c =? 101) || (c =? 69) then Some (StE, stk)
  else endValue stk c.

Definition stateESign (stk : list pstate) (c : Z) : jconf :=
  if is_digit c then Some (StE0, stk) else None.

Definition expect (want : Z) (next : jstate) (stk : list pstate) (c : Z) : jconf :=
  if c =? want then Some (next, stk) else None.

Definition expect_hex (next : jstate) (stk : list pstate) (c : Z) : jconf :=
  if is_hex c then Some (next, stk) else None.

Definition is_escape (c : Z) : bool :=
  (c =? 98) || (c =? 102) || (c =? 110) || (c =? 114) || (c =? 116)
  || (c =? 92) || (c =? 47) || (c =? 34).

Definition jstep (st : jstate) (stk : list pstate) (c : Z) : jconf :=
  match st with
  | BeginValue => beginValue stk c
  | BeginValueOrEmpty =>
      if is_space c then Some (BeginValueOrEmpty, stk)
      else if c =? 93 then endValue stk c else beginValue stk c
  | BeginString => beginString stk c
  | BeginStringOrEmpty =>
      if is_space c then Some (BeginStringOrEmpty, stk)
      else if c =? 125 then
        match stk with
        | _ :: rest => endValue (ObjectValue :: rest) c
        | [] => None
        end
      else beginString stk c
  | EndValue => endValue stk c
  | EndTop => if is_space c then Some (EndTop, stk) else None
  | InString =>
      if c =? 34 then Some (EndValue, stk)
      else if c =? 92 then Some (InStringEsc, stk)
      else if c <? 32 then None else Some (InString, stk)
  | InStringEsc =>
      if is_escape c then Some (InString, stk)
      else if c =? 117 then Some (InStringEscU, stk) else None
  | InStringEscU => expect_hex InStringEscU1 stk c
  | InStringEscU1 => expect_hex InStringEscU12 stk c
  | InStringEscU12 => expect_hex InStringEscU123 stk c
  | InStringEscU123 => expect_hex InString stk c
  | Neg =>
      if c =? 48 then Some (S0, stk)
      else if (49 <=? c) && (c <=? 57) then Some (S1, stk) else None
  | S1 => if is_digit c then Some (S1, stk) else state0 stk c
  | S0 => state0 stk c
  | Dot => if is_digit c then Some (Dot0, stk) else None
  | Dot0 =>
      if is_digit c then Some (Dot0, stk)
      else if (c =? 101) || (c =? 69) then Some (StE, stk) else endValue stk c
  | StE =>
      if (c =? 43) || (c =? 45) then Some (StESign, stk) else stateESign stk c
  | StESign => stateESign stk c
  | StE0 => if is_digit c then Some (StE0, stk) else endValue stk c
  | StT => expect 114 StTr stk c
  | StTr => expect 117 StTru stk c
  | StTru => expect 101 EndValue stk c
  | StF => expect 97 StFa stk c
  | StFa => expect 108 StFal stk c
  | StFal => expect 115 StFals stk c
  | StFals => expect 101 EndValue stk c
  | StN => expect 117 StNu stk c
  | StNu => expect 108 StNul stk c
  | StNul => expect 108 EndValue stk c
  end.

Fixpoint jrun (cf : jconf) (s : string) : jconf :=
  match s with
  | EmptyString => cf
  | String a s =>
      match cf with
      | None => None
      | Some (st, stk) => jrun (jstep st stk (code a)) s
      end
  end.

(** [scanner.eof]: a pending number is ended by one blank. *)
Definition jeof (cf : jconf) : bool :=
  match cf with
  | Some (EndTop, _) => true
  | Some (st, stk) =>
      match jstep st stk 32 with Some (EndTop, _) => true | _ => false end
  | None => false
  end.

Definition valid_upto (s : string) : bool := jeof (jrun (Some (BeginValue, [])) s).

End Scanner.

(** [json.Valid]. *)
Definition json_valid (s : string) : bool := valid_upto maxNestingDepth s.

Example json_valid_ex1 : json_valid "{ }" = true.
Proof. vm_compute. reflexivity. Qed.
Example json_valid_ex2 : json_valid "[1, -0.5e+7, true ,null]" = true.
Proof. vm_compute. reflexivity. Qed.
Example json_valid_ex3 : json_valid "[01]" = false /\ json_valid "NaN" = false /\ json_valid "" = false.
Proof. vm_compute. done. Qed.

(** ** Running over concatenations *)

Section Run.
Context (maxd : nat).

Lemma jrun_None s : jrun maxd None s = None.
Proof. by destruct s. Qed.

Lemma jrun_app cf s t : jrun maxd cf (s +:+ t) = jrun maxd (jrun maxd cf s) t.
Proof.
  revert cf. induction s as [|a s IH]; intros cf; [done|].
  rewrite str_app_cons. cbn [jrun]. destruct cf as [[st stk]|].
  - apply IH.
  - by rewrite jrun_None.
Qed.

Lemma jrun_byte st stk z :
  0 <= z < 256 -> jrun maxd (Some (st, stk)) (byte1 z) = jstep maxd st stk z.
Proof. intros. unfold byte1. cbn [jrun]. by rewrite code_chr. Qed.

(** A configuration from which every delimiter is read as after a complete
    value whose enclosing containers are [stk]: the value is finished, or is a
    number that the delimiter ends. *)
Definition delim (c : Z) : Prop := c = 44 \/ c = 125 \/ c = 93 \/ is_space c = true.

Definition finished (stk : list pstate) (cf : jconf) : Prop :=
  exists st, cf = Some (st, stk) /\
    forall c, delim c -> jstep maxd st stk c = endValue stk c.

(** [v] is a complete JSON value wherever the scanner expects one, nested in
    at most [maxd - d] containers. *)
Definition value_ok (d : nat) (v : string) : Prop :=
  forall stk, (length stk + d <= maxd)%nat ->
    finished stk (jrun maxd (Some (BeginValue, stk)) v).

(** [k] is the inside of a string literal. *)
Definition body_ok (k : string) : Prop :=
  forall stk, jrun maxd (Some (InString, stk)) k = Some (InString, stk).

Lemma body_nil : body_ok "".
Proof. done. Qed.

Lemma body_app a b : body_ok a -> body_ok b -> body_ok (a +:+ b).
Proof. intros Ha Hb stk. by rewrite jrun_app, Ha. Qed.

Lemma finished_end stk : finished stk (Some (EndValue, stk)).
Proof. eexists. split; [done|]. done. Qed.

Lemma finished_pop stk : finished stk (pop stk).
Proof.
  destruct stk as [|p stk]; unfold pop; eexists; (split; [done|]); intros c Hc; [|done].
  simpl. unfold endTop. destruct (is_space c); done.
Qed.

Lemma finished_delim stk cf c t :
  finished stk cf -> delim c -> 0 <= c < 256 ->
  jrun maxd cf (byte1 c +:+ t) = jrun maxd (endValue stk c) t.
Proof.
  intros (st & -> & H) Hd Hc. by rewrite jrun_app, jrun_byte, H.
Qed.

Lemma finished_valid cf : finished [] cf -> jeof maxd cf = true.
Proof.
  intros (st & -> & H). unfold jeof. destruct st; try done;
    rewrite H by (right; right; by right); done.
Qed.

Lemma value_ok_weaken d d' v : (d <= d')%nat -> value_ok d v -> value_ok d' v.
Proof. intros Hle H stk Hs. apply H. lia. Qed.

(** String literals, [null], [true] and [false] are values. *)
Lemma value_string k : body_ok k -> value_ok 0 (dquote +:+ k +:+ dquote).
Proof.
  intros Hk stk _. unfold dquote. rewrite jrun_app, jrun_byte by lia.
  change (jstep maxd BeginValue stk 34) with (Some (InString, stk)).
  rewrite jrun_app, Hk, jrun_byte by lia. apply finished_end.
Qed.

Lemma value_null : value_ok 0 "null".
Proof. intros stk _. apply finished_end. Qed.
Lemma value_true : value_ok 0 "true".
Proof. intros stk _. apply finished_end. Qed.
Lemma value_false : value_ok 0 "false".
Proof. intros stk _. apply finished_end. Qed.

End Run.

(** ** Objects, as the watcher's string builders write them *)

Section Objects.
Context (maxd : nat).

(** A member: the quoted name, a colon, the value. *)
Definition member (k v : string) : string := dquote +:+ k +:+ dquote +:+ ":" +:+ v.

(** The separator written before every member but the first. *)
Definition sep (written : nat) : string :=
  match written with O => "" | S _ => ", " end.

(** [sb] is an object that is still open, with [n] members written. *)
Definition open_ok (d n : nat) (sb : string) : Prop :=
  forall stk, (length stk + S d <= maxd)%nat ->
    let cf := jrun maxd (Some (BeginValue, stk)) sb in
    match n with
    | O => cf = Some (BeginStringOrEmpty, ObjectKey :: stk)
    | S _ => finished maxd (ObjectValue :: stk) cf
    end.

Lemma open_start d : open_ok d 0 "{".
Proof.
  intros stk Hs. simpl. unfold beginValue, push. simpl.
  replace (length stk <? maxd)%nat with true; [done|]. symmetry. apply Nat.ltb_lt. lia.
Qed.

(** After the opening brace or a separator the scanner is ready for a name. *)
Lemma open_sep d n sb stk t :
  open_ok d n sb -> (length stk + S d <= maxd)%nat ->
  jrun maxd (Some (BeginValue, stk)) (sb +:+ sep n +:+ dquote +:+ t)
  = jrun maxd (Some (InString, ObjectKey :: stk)) t.
Proof.
  intros Ho Hs. specialize (Ho stk Hs). simpl in Ho. rewrite jrun_app.
  destruct n as [|n]; simpl sep.
  - rewrite str_app_nil_l, Ho. unfold dquote. by rewrite jrun_app, jrun_byte by lia.
  - change (", "%string) with (byte1 44 +:+ byte1 32).
    rewrite str_app_assoc, (finished_delim maxd (ObjectValue :: stk))
      by (done || lia || by left).
    change (endValue (ObjectValue :: stk) 44) with (Some (BeginString, ObjectKey :: stk)).
    rewrite jrun_app, jrun_byte by lia. unfold dquote.
    change (jstep maxd BeginString (ObjectKey :: stk) 32)
      with (Some (BeginString, ObjectKey :: stk)).
    by rewrite jrun_app, jrun_byte by lia.
Qed.

Lemma open_member d n sb k v :
  open_ok d n sb -> body_ok maxd k -> value_ok maxd d v ->
  open_ok d (S n) (sb +:+ sep n +:+ member k v).
Proof.
  intros Ho Hk Hv stk Hs. unfold member.
  rewrite (open_sep d) by done. rewrite jrun_app, Hk.
  unfold dquote. rewrite jrun_app, jrun_byte by lia.
  change (jstep maxd InString (ObjectKey :: stk) 34) with (Some (EndValue, ObjectKey :: stk)).
  change (":"%string) with (byte1 58). rewrite jrun_app, jrun_byte by lia.
  change (jstep maxd EndValue (ObjectKey :: stk) 58) with (Some (BeginValue, ObjectValue :: stk)).
  apply Hv. simpl. lia.
Qed.

Lemma open_close d n sb : open_ok d n sb -> value_ok maxd (S d) (sb +:+ "}").
Proof.
  intros Ho stk Hs. specialize (Ho stk Hs). simpl in Ho. rewrite jrun_app.
  change ("}"%string) with (byte1 125). destruct n as [|n].
  - rewrite Ho, jrun_byte by lia. apply finished_pop.
  - rewrite <- (str_app_nil_r (byte1 125)).
    rewrite (finished_delim maxd (ObjectValue :: stk)) by (done || lia || by right; left).
    apply finished_pop.
Qed.

Lemma value_valid d v : (d <= maxd)%nat -> value_ok maxd d v -> valid_upto maxd v = true.
Proof. intros Hd Hv. apply finished_valid, Hv. simpl. lia. Qed.

End Objects.

(** ** Embedding: text that [json.Valid] accepts is a value inside a document *)

Section Embed.
Context (D maxd : nat) (stk : list pstate) (Hroom : (length stk + D <= maxd)%nat).

(** The configuration of the embedding run that corresponds to one of the
    stand-alone run: the end of the document is the end of a member. *)
Definition lift_state (st : jstate) : jstate :=
  match st, stk with EndTop, _ :: _ => EndValue | _, _ => st end.

Definition top_wf (st : jstate) (s : list pstate) : Prop := st = EndTop -> s = [].

Lemma lift_endValue s c st' s' :
  endValue s c = Some (st', s') ->
  endValue (s ++ stk) c = Some (lift_state st', s' ++ stk) /\ top_wf st' s'.
Proof.
  unfold endValue, endTop, pop, top_wf, lift_state.
  destruct s as [|[] s]; simpl; intros H; repeat case_match; simplify_eq/=; done.
Qed.

Lemma lift_push p st s st' s' :
  st <> EndTop -> push D p st s = Some (st', s') ->
  push maxd p st (s ++ stk) = Some (lift_state st', s' ++ stk) /\ top_wf st' s'.
Proof.
  unfold push, lift_state, top_wf. intros Hst.
  destruct (Nat.ltb_spec (length s) D); [|done].
  replace (length (s ++ stk) <? maxd)%nat with true.
  - intros [= <- <-]. split; [|done]. by destruct st.
  - symmetry. apply Nat.ltb_lt. rewrite length_app. lia.
Qed.

Lemma lift_beginValue s c st' s' :
  beginValue D s c = Some (st', s') ->
  beginValue maxd (s ++ stk) c = Some (lift_state st', s' ++ stk) /\ top_wf st' s'.
Proof.
  unfold beginValue. intros H. repeat case_match;
    (by eapply lift_push) || (simplify_eq/=; done).
Qed.

Lemma lift_step st s c st' s' :
  top_wf st s -> jstep D st s c = Some (st', s') ->
  jstep maxd (lift_state st) (s ++ stk) c = Some (lift_state st', s' ++ stk) /\ top_wf st' s'.
Proof.
  intros Hwf H.
  destruct st; try (by apply lift_beginValue); try (by apply lift_endValue);
    cbn [jstep lift_state] in *;
    unfold beginString, state0, stateESign, expect, expect_hex in *;
    try solve [repeat case_match; simplify_eq;
               try (by apply lift_endValue); try (by apply lift_beginValue); done].
  - destruct s as [|p s]; [by repeat case_match; simplify_eq/=|].
    repeat case_match; simplify_eq; try done.
    simplify_list_eq. by apply (lift_endValue (ObjectValue :: s)).
  - rewrite (Hwf eq_refl) in *. unfold lift_state.
    destruct stk as [|q stk']; cbn [jstep endValue app] in *; by case_match; simplify_eq/=.
Qed.

Lemma lift_run v st s st' s' :
  top_wf st s -> jrun D (Some (st, s)) v = Some (st', s') ->
  jrun maxd (Some (lift_state st, s ++ stk)) v = Some (lift_state st', s' ++ stk) /\ top_wf st' s'.
Proof.
  revert st s. induction v as [|a v IH]; intros st s Hwf H; simpl in *; [by simplify_eq|].
  destruct (jstep D st s (code a)) as [[st1 s1]|] eqn:E; [|by rewrite jrun_None in H].
  apply lift_step in E as [-> Hwf1]; eauto.
Qed.

Lemma valid_embed v :
  valid_upto D v = true -> finished maxd stk (jrun maxd (Some (BeginValue, stk)) v).
Proof.
  unfold valid_upto. intros Hv.
  destruct (jrun D (Some (BeginValue, [])) v) as [[st s]|] eqn:E; [|done].
  apply lift_run in E as [E Hwf]; [|done]. simpl in E.
  change (lift_state BeginValue) with BeginValue in E. rewrite E.
  assert (Hs : s = [] /\ (st = EndTop \/ jstep D st s 32 = Some (EndTop, []))).
  { destruct st; try (split; [by apply Hwf | by left]);
      simpl in Hv; unfold beginValue, state0, stateESign, expect, expect_hex in Hv; simpl in Hv;
      destruct s; simpl in Hv; try done; split; try done; by right. }
  destruct Hs as [-> Hst]. simpl. eexists. split; [done|].
  intros c Hc. destruct Hst as [->|Hst].
  - unfold lift_state. destruct stk; [|done]. simpl. unfold endTop. by destruct (is_space c).
  - assert (is_digit c = false /\ (c =? 46) = false /\ (c =? 101) || (c =? 69) = false) as (?&?&?).
    { unfold is_digit, delim, is_space in *. lia. }
    destruct st; simpl in Hst; unfold beginValue, state0, stateESign, expect, expect_hex in Hst;
      simpl in Hst; try discriminate; try done; cbn [jstep lift_state]; unfold state0;
      repeat match goal with H : _ = false |- _ => rewrite H end; try done.
    destruct stk; [|done]. cbn. unfold endTop. by destruct (is_space c).
Qed.

End Embed.

Lemma value_embed maxd D v : valid_upto D v = true -> value_ok maxd D v.
Proof. intros Hv stk Hs. by eapply valid_embed. Qed.

(** ** Reading a string literal back ([unquote])

    Over the runes of the literal's body: an escape stands for the character it
    names, [\u] escapes for UTF-16 code units (a high surrogate pairs with a
    following low one, a lone surrogate becomes U+FFFD); a quote or a control
    character cannot occur. *)

Definition hex_val (c : Z) : option Z :=
  if is_digit c then Some (c - 48)
  else if (97 <=? c) && (c <=? 102) then Some (c - 87)
  else if (65 <=? c) && (c <=? 70) then Some (c - 55)
  else None.

Definition hex4_val (a b c d : Z) : option Z :=
  match hex_val a, hex_val b, hex_val c, hex_val d with
  | Some w, Some x, Some y, Some z => Some (w * 4096 + x * 256 + y * 16 + z)
  | _, _, _, _ => None
  end.

Definition simple_escape (c : Z) : option Z :=
  if (c =? 34) || (c =? 92) || (c =? 47) || (c =? 39) then Some c
  else if c =? 98 then Some 8 else if c =? 102 then Some 12
  else if c =? 110 then Some 10 else if c =? 114 then Some 13
  else if c =? 116 then Some 9 else None.

Definition high_surrogate (u : Z) : bool := (55296 <=? u) && (u <? 56320).
Definition low_surrogate (u : Z) : bool := (56320 <=? u) && (u <? 57344).

Fixpoint unquote_runes (l : list Z) : option (list Z) :=
  match l with
  | [] => Some []
  | c :: l1 =>
      if c =? 92 then
        match l1 with
        | [] => None
        | e :: l2 =>
            match simple_escape e with
            | Some r => cons r <$> unquote_runes l2
            | None =>
                if e =? 117 then
                  match l2 with
                  | h1 :: h2 :: h3 :: h4 :: l6 =>
                      match hex4_val h1 h2 h3 h4 with
                      | None => None
                      | Some u =>
                          if high_surrogate u then
                            match l6 with
                            | 92 :: 117 :: g1 :: g2 :: g3 :: g4 :: l12 =>
                                match hex4_val g1 g2 g3 g4 with
                                | Some w =>
                                    if low_surrogate w
                                    then cons (65536 + (u - 55296) * 1024 + (w - 56320))
                                           <$> unquote_runes l12
                                    else cons RuneError <$> unquote_runes l6
                                | None => cons RuneError <$> unquote_runes l6
                                end
                            | _ => cons RuneError <$> unquote_runes l6
                            end
                          else if low_surrogate u then cons RuneError <$> unquote_runes l6
                          else cons u <$> unquote_runes l6
                      end
                  | _ => None
                  end
                else None
            end
        end
      else if (c =? 34) || (c <? 32) then None
      else cons c <$> unquote_runes l1
  end.

Definition unquote (s : string) : option string := encode_runes <$> unquote_runes (runes s).

(** ** Decimal numbers *)

Fixpoint all_digits (s : string) : bool :=
  match s with EmptyString => true | String a s => is_digit (code a) && all_digits s end.

(** A decimal numeral without a leading zero. *)
Definition numeral (s : string) : Prop :=
  s = "0"%string \/ exists a t, s = String a t /\ 49 <= code a <= 57 /\ all_digits t = true.

Lemma pretty_char_code d : (d < 10)%N -> code (pretty.pretty_N_char d) = 48 + Z.of_N d.
Proof.
  intros Hd. assert (d = 0 \/ d = 1 \/ d = 2 \/ d = 3 \/ d = 4 \/ d = 5 \/ d = 6 \/ d = 7 \/ d = 8 \/ d = 9)%N
    as H by lia. by repeat destruct H as [->|H]; subst.
Qed.

Lemma pretty_go_numeral x s :
  (0 < x)%N -> all_digits s = true ->
  exists a t, pretty.pretty_N_go x s = String a t /\ 49 <= code a <= 57 /\ all_digits t = true.
Proof.
  revert s. induction (N.lt_wf_0 x) as [x _ IH]; intros s Hx Hs.
  rewrite pretty.pretty_N_go_step by done.
  assert (Hm : (x mod 10 < 10)%N) by (apply N.mod_lt; lia).
  pose proof (pretty_char_code _ Hm) as Hc.
  destruct (N.eq_0_gt_0_cases (x / 10)) as [E|E].
  - rewrite E, pretty.pretty_N_go_0. eexists _, _. split; [done|]. rewrite Hc.
    assert (Hnz : (x mod 10 <> 0)%N).
    { intros E'. rewrite (N.div_mod x 10), E, E' in Hx by done. done. }
    revert Hm Hnz. generalize (x mod 10)%N. intros d Hd Hnz. split; [lia|done].
  - apply IH; [by apply N.div_lt|done|]. cbn [all_digits]. rewrite Hs, Hc, andb_true_r.
    unfold is_digit. revert Hm. generalize (x mod 10)%N. intros d Hd. apply andb_true_iff.
    split; apply Z.leb_le; lia.
Qed.

Lemma itoa_numeral z : numeral (itoa z) \/ exists t, itoa z = String "-" t /\ numeral t.
Proof.
  unfold itoa, pretty.pretty, pretty.pretty_Z.
  assert (HN : forall p : positive, numeral (pretty.pretty (N.pos p))).
  { intros p. right. unfold pretty.pretty, pretty.pretty_N. rewrite decide_False by done.
    by apply pretty_go_numeral. }
  destruct z as [|p|p]; [by left; left|left; apply HN|right]. eexists. split; [done|]. apply HN.
Qed.

(** The scanner is at the end of a number. *)
Lemma digits_run maxd stk t :
  all_digits t = true -> jrun maxd (Some (S1, stk)) t = Some (S1, stk).
Proof.
  induction t as [|a t IH]; [done|]. simpl. intros [Ha Ht]%andb_true_iff. rewrite Ha. auto.
Qed.

Lemma finished_S1 maxd stk : finished maxd stk (Some (S1, stk)).
Proof.
  eexists. split; [done|]. intros c Hc. simpl. unfold delim, is_space in Hc.
  replace (is_digit c) with false by (unfold is_digit; lia). unfold state0.
  by replace (c =? 46) with false by lia; replace ((c =? 101) || (c =? 69)) with false by lia.
Qed.

Lemma finished_S0 maxd stk : finished maxd stk (Some (S0, stk)).
Proof.
  eexists. split; [done|]. intros c Hc. simpl. unfold delim, is_space in Hc. unfold state0.
  by replace (c =? 46) with false by lia; replace ((c =? 101) || (c =? 69)) with false by lia.
Qed.

Lemma value_itoa maxd z : value_ok maxd 0 (itoa z).
Proof.
  intros stk _.
  assert (Hn : forall st s, st = BeginValue \/ st = Neg -> numeral s ->
    finished maxd stk (jrun maxd (Some (st, stk)) s)).
  { intros st s Hst [->|(a & t & -> & Ha & Ht)].
    - destruct Hst as [-> | ->]; apply finished_S0.
    - cbn [jrun].
      assert (E : jstep maxd st stk (code a) = Some (S1, stk)).
      { destruct Hst as [-> | ->]; simpl; unfold beginValue, is_space;
          repeat match goal with |- context [if ?b then _ else _] =>
            first [replace b with false by lia | replace b with true by lia] end; done. }
      rewrite E, digits_run by done. apply finished_S1. }
  destruct (itoa_numeral z) as [H|(t & -> & H)]; [by apply Hn; [left|]|].
  cbn [jrun]. change (jstep maxd BeginValue stk (code "-")) with (Some (Neg, stk)).
  apply Hn; [by right|done].
Qed.
#[export] Hint Resolve value_itoa : json.

(** Decimal digits can stand in a string literal. *)
Lemma body_itoa maxd z : body_ok maxd (itoa z).
Proof.
  assert (Hd : forall t, all_digits t = true -> body_ok maxd t).
  { induction t as [|a t IH]; intros Ht stk; [done|]. simpl in *.
    apply andb_true_iff in Ht as [Ha Ht]. unfold is_digit in Ha.
    replace (code a =? 34) with false by lia. replace (code a =? 92) with false by lia.
    replace (code a <? 32) with false by lia. by apply IH. }
  assert (Hn : forall s, numeral s -> body_ok maxd s).
  { intros s [->|(a & t & -> & Ha & Ht)]; [by intros stk|]. apply Hd. simpl. rewrite Ht, andb_true_r.
    unfold is_digit. lia. }
  destruct (itoa_numeral z) as [H|(t & -> & H)]; [by apply Hn|].
  intros stk. cbn [jrun]. change (jstep maxd InString stk (code "-")) with (Some (InString, stk)).
  by apply Hn.
Qed.
