(* ===== verification/Escape.v ===== *)
(** * internal/jsonutil: EscapeString

    The escaping every JSON writer of the watcher goes through.  The output is
    always the body of a string literal, whatever bytes come in, and reading the
    literal back gives the input with invalid UTF-8 replaced by U+FFFD. *)

From stdpp Require Import base list strings gmap.
From Stdlib Require Import ZArith Lia Ascii.
From S2P Require Import Prelude GoStrings Json.

Local Open Scope Z_scope.

(** One iteration of the loop: what rune [c] is written as. *)
Definition escape_rune (c : Z) : string :=
  if c =? 92 then bslash +:+ bslash
  else if c =? 34 then bslash +:+ dquote
  else if c =? 10 then bslash +:+ "n"
  else if c =? 13 then bslash +:+ "r"
  else if c =? 9 then bslash +:+ "t"
  else if c =? 8 then bslash +:+ "b"
  else if c =? 12 then bslash +:+ "f"
  else if (c <? 32) || (c =? 127) then bslash +:+ "u" +:+ hex4 c
  else encode_rune c.

(** [for _, c := range s { ... }] appending to the builder [sb]. *)
Fixpoint escape_loop (cs : list Z) (sb : string) : string :=
  match cs with
  | [] => sb
  | c :: cs => escape_loop cs (sb +:+ escape_rune c)
  end.

Definition EscapeString (s : string) : string := escape_loop (runes s) "".

Lemma escape_loop_concat cs sb :
  escape_loop cs sb = sb +:+ concat_str (map escape_rune cs).
Proof.
  revert sb. induction cs as [|c cs IH]; intros sb; simpl.
  - by rewrite str_app_nil_r.
  - by rewrite IH, str_app_assoc.
Qed.

Lemma EscapeString_concat s : EscapeString s = concat_str (map escape_rune (runes s)).
Proof. apply escape_loop_concat. Qed.

(** The tests of internal/jsonutil/escape_test.go. *)
Example escape_plain : EscapeString "hello" = "hello"%string.
Proof. vm_compute. reflexivity. Qed.
Example escape_controls :
  EscapeString (byte1 10 +:+ byte1 13 +:+ byte1 9 +:+ byte1 8 +:+ byte1 12
                +:+ byte1 0 +:+ byte1 7 +:+ byte1 127)
  = "\n\r\t\b\f\u0000\u0007\u007f"%string.
Proof. vm_compute. reflexivity. Qed.

(** ** The output is the body of a string literal *)

#[local] Ltac Zify.zify_post_hook ::= Z.to_euclidean_division_equations.

(** A byte a string literal contains as it is. *)
Definition plain_byte (c : Z) : Prop := 32 <= c /\ c <> 34 /\ c <> 92.

Lemma body_plain maxd a t :
  plain_byte (code a) -> body_ok maxd t -> body_ok maxd (String a t).
Proof.
  intros [? [? ?]] Ht stk. simpl.
  replace (code a =? 34) with false by lia. replace (code a =? 92) with false by lia.
  replace (code a <? 32) with false by lia. apply Ht.
Qed.

Lemma body_encode_rune maxd r :
  scalar r -> plain_byte r -> body_ok maxd (encode_rune r).
Proof.
  intros [? ?] (? & ? & ?). unfold encode_rune, byte1. bcase.
  all: repeat case_match; repeat apply body_plain; try apply body_nil;
       rewrite code_chr by (unfold RuneError in *; lia); unfold plain_byte, RuneError; lia.
Qed.

Lemma hexdigit_hex d : 0 <= d < 16 -> is_hex (code (hexdigit d)) = true.
Proof.
  intros. unfold hexdigit. bcase; rewrite code_chr by lia; unfold is_hex, is_digit; lia.
Qed.

Lemma body_hex4 maxd c : body_ok maxd (bslash +:+ "u" +:+ hex4 c).
Proof.
  intros stk. unfold hex4.
  rewrite jrun_app. unfold bslash. rewrite jrun_byte by lia.
  change (jstep maxd InString stk 92) with (Some (InStringEsc, stk)).
  rewrite jrun_app. change (jrun maxd (Some (InStringEsc, stk)) "u") with (Some (InStringEscU, stk)).
  cbn [jrun].
  do 4 (cbn [jstep]; unfold expect_hex at 1; rewrite hexdigit_hex by lia). done.
Qed.

Lemma body_escape_rune maxd r : scalar r -> body_ok maxd (escape_rune r).
Proof.
  intros Hr. unfold escape_rune. bcase; try (intros stk; reflexivity).
  destruct ((r <? 32) || (r =? 127)) eqn:E; [apply body_hex4|].
  apply body_encode_rune; [done|]. unfold plain_byte. lia.
Qed.

Lemma body_escape maxd s : body_ok maxd (EscapeString s).
Proof.
  rewrite EscapeString_concat. pose proof (runes_scalar s) as H.
  induction H as [|r l Hr _ IH]; [apply body_nil|].
  simpl. apply body_app; [by apply body_escape_rune | done].
Qed.
#[export] Hint Resolve body_escape : json.

(** ** Reading it back *)

Lemma runes_ascii a t : code a < 128 -> runes (String a t) = code a :: runes t.
Proof. intros H. cbn [runes]. replace (code a <? 128) with true by lia. done. Qed.

Lemma runes_byte1 z t : 0 <= z < 128 -> runes (byte1 z +:+ t) = z :: runes t.
Proof.
  intros. unfold byte1. rewrite str_app_cons, str_app_nil_l.
  rewrite runes_ascii; rewrite code_chr by lia; [done|lia].
Qed.

Lemma runes_hexdigit d t :
  0 <= d < 16 -> runes (String (hexdigit d) t) = code (hexdigit d) :: runes t.
Proof.
  intros. apply runes_ascii. unfold hexdigit. bcase; rewrite code_chr by lia; lia.
Qed.

Lemma hex_val_hexdigit d : 0 <= d < 16 -> hex_val (code (hexdigit d)) = Some d.
Proof.
  intros. unfold hexdigit. bcase; rewrite code_chr by lia; unfold hex_val, is_digit.
  - replace ((48 <=? 48 + d) && (48 + d <=? 57)) with true by lia. f_equal. lia.
  - replace ((48 <=? 87 + d) && (87 + d <=? 57)) with false by lia.
    replace ((97 <=? 87 + d) && (87 + d <=? 102)) with true by lia. f_equal. lia.
Qed.

(** The unquoting loop undoes one step of the escaping loop. *)
Lemma unquote_escape_rune r t :
  scalar r ->
  unquote_runes (runes (escape_rune r +:+ t)) = cons r <$> unquote_runes (runes t).
Proof.
  intros Hr. unfold escape_rune, bslash, dquote.
  bcase; subst; rewrite ?str_app_assoc, ?runes_byte1 by lia;
    try (rewrite runes_ascii by (vm_compute; done); reflexivity); try reflexivity.
  destruct ((r <? 32) || (r =? 127)) eqn:E.
  - assert (0 <= r < 128) by (destruct Hr; lia).
    rewrite !str_app_assoc, runes_byte1, str_app_cons, str_app_nil_l, runes_ascii
      by (lia || (vm_compute; done)).
    unfold hex4. rewrite !str_app_cons, str_app_nil_l, !runes_hexdigit by lia.
    cbn [unquote_runes]. replace (92 =? 92) with true by lia.
    change (simple_escape (code "u")) with (@None Z).
    replace (code "u" =? 117) with true by reflexivity.
    unfold hex4_val. rewrite !hex_val_hexdigit by lia.
    match goal with |- context [high_surrogate ?u] => replace u with r by lia end.
    unfold high_surrogate, low_surrogate.
    by replace ((55296 <=? r) && (r <? 56320)) with false by lia;
       replace ((56320 <=? r) && (r <? 57344)) with false by lia.
  - rewrite runes_encode_rune by done. cbn [unquote_runes].
    replace (r =? 92) with false by lia.
    by replace ((r =? 34) || (r <? 32)) with false by lia.
Qed.

(** Reading an escaped string back gives the original, with every byte that is
    not valid UTF-8 replaced by U+FFFD. *)
Lemma unquote_escape s : unquote (EscapeString s) = Some (encode_runes (runes s)).
Proof.
  unfold unquote. rewrite EscapeString_concat. pose proof (runes_scalar s) as H.
  enough (unquote_runes (runes (concat_str (map escape_rune (runes s)))) = Some (runes s))
    as -> by done.
  induction H as [|r l Hr _ IH]; [done|].
  simpl. by rewrite unquote_escape_rune, IH.
Qed.

(** ** Properties *)

(** Whatever bytes a name or a value holds, quoting its escaped form gives a
    document that the JSON scanner accepts; so no column name or text value can
    break the event it is written into. *)
Theorem EscapeString_valid (s : string) :
  json_valid (dquote +:+ EscapeString s +:+ dquote) = true.
Proof. eapply (value_valid _ 0); [lia|]. apply value_string, body_escape. Qed.

(** C31: on well-formed UTF-8 escaping loses nothing: reading the literal back
    gives the original string, control characters included. *)
Theorem EscapeString_roundtrip (s : string) :
  valid_utf8 s = true -> unquote (EscapeString s) = Some s.
Proof. intros H. by rewrite unquote_escape, runes_encode_runes. Qed.

Lemma EscapeString_roundtrip_witness :
  let s := ("a" +:+ dquote +:+ bslash +:+ byte1 7 +:+ byte1 195 +:+ byte1 169)%string in
  unquote (EscapeString s) = Some s.
Proof. apply EscapeString_roundtrip. reflexivity. Defined.
