(* ===== verification/Event.v ===== *)
(** * internal/cdc: events

    [EventType], its JSON form, the [Event] record that travels from the
    listeners over the bus to the publisher, and the predicates that classify
    events ([IsPublishable], [isTableEvent]). *)

From stdpp Require Import base list strings gmap.
From Stdlib Require Import ZArith Lia Ascii.
From S2P Require Import Prelude GoStrings Json.

Local Open Scope Z_scope.

(** [type EventType int]; [OtherType] is any value outside the declared
    constants. *)
Inductive EventType :=
| Begin | Commit | Insert | Update | Delete | DDL | Truncate | Heartbeat
| OtherType (n : Z).

#[export] Instance EventType_eq_dec : EqDecision EventType.
Proof. solve_decision. Defined.

(** [EventType.String]. *)
Definition EventType_String (t : EventType) : string :=
  match t with
  | Begin => "BEGIN"
  | Commit => "COMMIT"
  | Insert => "INSERT"
  | Update => "UPDATE"
  | Delete => "DELETE"
  | DDL => "DDL"
  | Truncate => "TRUNCATE"
  | Heartbeat => "HEARTBEAT"
  | OtherType _ => "UNKNOWN"
  end.

(** [EventType.MarshalJSON]: the names need no escaping, so the encoded string
    is the quoted name. *)
Definition EventType_MarshalJSON (t : EventType) : string :=
  dquote +:+ EventType_String t +:+ dquote.

(** [json.Unmarshal] into a [string]: a literal that the scanner accepts and
    that is a string; [null] leaves the variable empty. *)
Fixpoint trim_left (s : string) : string :=
  match s with
  | String a t => if is_space (code a) then trim_left t else s
  | EmptyString => EmptyString
  end.

Definition json_trim (s : string) : string :=
  String.rev (trim_left (String.rev (trim_left s))).

Definition literal_body (s : string) : option string :=
  match s with
  | String a t =>
      if code a =? 34 then
        match String.rev t with
        | String b u => if code b =? 34 then Some (String.rev u) else None
        | EmptyString => None
        end
      else None
  | EmptyString => None
  end.

Definition unmarshal_string (data : string) : option string :=
  if json_valid data then
    let lit := json_trim data in
    if decide (lit = "null"%string) then Some ""%string
    else body ← literal_body lit; unquote body
  else None.

(** Errors of [EventType.UnmarshalJSON]. *)
Inductive decode_error :=
| NotAString
| UnknownEventType (s : string).

Definition EventType_UnmarshalJSON (data : string) : result decode_error EventType :=
  match unmarshal_string data with
  | None => Err NotAString
  | Some s =>
      if decide (s = "BEGIN"%string) then Ok Begin
      else if decide (s = "COMMIT"%string) then Ok Commit
      else if decide (s = "INSERT"%string) then Ok Insert
      else if decide (s = "UPDATE"%string) then Ok Update
      else if decide (s = "DELETE"%string) then Ok Delete
      else if decide (s = "DDL"%string) then Ok DDL
      else if decide (s = "TRUNCATE"%string) then Ok Truncate
      else if decide (s = "HEARTBEAT"%string) then Ok Heartbeat
      else Err (UnknownEventType s)
  end.

(** [type Event struct]. *)
Record Event := mkEvent {
  Type_ : EventType;
  Schema : string;
  Table : string;
  Data : string;
  RawMessage : string;
  LSN : string;
  Timestamp : Z;
  SourceTimestamp : Z;
  SourceID : string;
  Sequence : Z;
  DataTruncated : bool;
  KeyColumns : list string
}.

#[export] Instance Event_eq_dec : EqDecision Event.
Proof. solve_decision. Defined.

(** [NewEvent]; [now] is [time.Now().UnixMilli()]. *)
Definition NewEvent (now : Z) (typ : EventType)
    (schema table data rawMessage lsn : string) : Event :=
  mkEvent typ schema table data rawMessage lsn now 0 "" 0 false [].

Definition NewEventWithSourceTS (now : Z) (typ : EventType)
    (schema table data rawMessage lsn : string) (sourceTimestamp : Z) : Event :=
  let e := NewEvent now typ schema table data rawMessage lsn in
  mkEvent (Type_ e) (Schema e) (Table e) (Data e) (RawMessage e) (LSN e)
    (Timestamp e) sourceTimestamp (SourceID e) (Sequence e) (DataTruncated e) (KeyColumns e).

(** The field updates the listeners make on an event. *)
Definition set_source_id (id : string) (e : Event) : Event :=
  mkEvent (Type_ e) (Schema e) (Table e) (Data e) (RawMessage e) (LSN e)
    (Timestamp e) (SourceTimestamp e) id (Sequence e) (DataTruncated e) (KeyColumns e).

Definition set_sequence (n : Z) (e : Event) : Event :=
  mkEvent (Type_ e) (Schema e) (Table e) (Data e) (RawMessage e) (LSN e)
    (Timestamp e) (SourceTimestamp e) (SourceID e) n (DataTruncated e) (KeyColumns e).

Definition set_key_columns (ks : list string) (e : Event) : Event :=
  mkEvent (Type_ e) (Schema e) (Table e) (Data e) (RawMessage e) (LSN e)
    (Timestamp e) (SourceTimestamp e) (SourceID e) (Sequence e) (DataTruncated e) ks.

Definition set_data (d : string) (truncated : bool) (e : Event) : Event :=
  mkEvent (Type_ e) (Schema e) (Table e) d (RawMessage e) (LSN e)
    (Timestamp e) (SourceTimestamp e) (SourceID e) (Sequence e) truncated (KeyColumns e).

(** [IsPublishable]: which events are forwarded to NATS. *)
Definition IsPublishable (t : EventType) : bool :=
  match t with
  | Insert | Update | Delete | DDL | Truncate => true
  | _ => false
  end.

(** [isTableEvent]: which events also go to per-table subscribers. *)
Definition isTableEvent (t : EventType) : bool :=
  match t with
  | Insert | Update | Delete | Truncate => true
  | _ => false
  end.

(** [Event.Stripped]. *)
Definition Stripped (e : Event) : Event := set_data "" true e.

Lemma table_publishable t : isTableEvent t = true -> IsPublishable t = true.
Proof. by destruct t. Qed.

(** ** Properties *)

(** The JSON form of every declared event type is valid JSON and decodes to
    that same type; a value outside the declared constants encodes as UNKNOWN,
    which decoding rejects instead of mapping it to some type. *)
Theorem EventType_roundtrip (t : EventType) :
  json_valid (EventType_MarshalJSON t) = true /\
  EventType_UnmarshalJSON (EventType_MarshalJSON t) =
    match t with
    | OtherType _ => Err (UnknownEventType "UNKNOWN")
    | _ => Ok t
    end.
Proof. destruct t; split; vm_compute; reflexivity. Qed.
