(* ===== verification/Truncate.v ===== *)
(** * internal/cdc/truncate.go: events cut down to their key

    [Truncated] decodes the row's JSON object, keeps the key columns and encodes
    the rest again.  encoding/json is modelled as far as the code uses it: an
    object decoded into raw member texts, and a map of raw texts encoded with
    sorted keys, compacted values and HTML escaping. *)

From stdpp Require Import base list strings gmap.
From Stdlib Require Import ZArith Lia Ascii.
From S2P Require Import Prelude GoStrings Json Event.

Local Open Scope Z_scope.

(** ** Go maps with string keys, in the order json.Marshal visits them *)

Definition row : Type := list (string * string).

Fixpoint row_set (k v : string) (m : row) : row :=
  match m with
  | [] => [(k, v)]
  | (k', v') :: m' =>
      match String.compare k k' with
      | Lt => (k, v) :: m
      | Eq => (k, v) :: m'
      | Gt => (k', v') :: row_set k v m'
      end
  end.

Fixpoint row_get (k : string) (m : row) : option string :=
  match m with
  | [] => None
  | (k', v) :: m => if String.eqb k k' then Some v else row_get k m
  end.

(** ** json.Unmarshal into map[string]json.RawMessage *)

(** The outermost container the scanner is in. *)
Definition outer (stk : list pstate) : option pstate := last stk.

Definition snoc (s : string) (a : ascii) : string := s +:+ String a EmptyString.

Definition set_member (k v : string) (acc : row) : row :=
  match literal_body (json_trim k) ≫= unquote with
  | Some key => row_set key (json_trim v) acc
  | None => acc
  end.

(** Walks a valid document with the scanner: the bytes read in the outermost
    object before a colon are a name, the ones after it a value; a comma or the
    closing brace ends the member. *)
Fixpoint members_go (cf : jstate * list pstate) (k v : string) (acc : row) (s : string) : row :=
  match s with
  | EmptyString => acc
  | String a s =>
      match jstep maxNestingDepth cf.1 cf.2 (code a) with
      | None => acc
      | Some cf' =>
          match outer cf.2, outer cf'.2 with
          | Some ObjectValue, Some ObjectValue => members_go cf' k (snoc v a) acc s
          | Some ObjectValue, _ => members_go cf' "" "" (set_member k v acc) s
          | Some ObjectKey, Some ObjectKey => members_go cf' (snoc k a) v acc s
          | _, _ => members_go cf' k v acc s
          end
      end
  end.

(** [Some None] is the nil map that [null] decodes to; [None] is an error. *)
Definition unmarshal_row (data : string) : option (option row) :=
  if negb (json_valid data) then None
  else match json_trim data with
       | String a _ as d =>
           if code a =? 123 then Some (Some (members_go (BeginValue, []) "" "" [] data))
           else if decide (d = "null"%string) then Some None
           else None
       | EmptyString => None
       end.

(** ** json.Marshal of such a map *)

(** [compact] with HTML escaping: blanks outside strings go, and the characters
    HTML gives a meaning are written as escapes. *)
Fixpoint compact_go (instr esc : bool) (s : string) : string :=
  match s with
  | EmptyString => EmptyString
  | String a t =>
      let c := code a in
      if (c =? 60) || (c =? 62) || (c =? 38)
      then bslash +:+ "u" +:+ hex4 c +:+ compact_go instr false t
      else match t with
      | String b (String d t3) =>
          if (c =? 226) && (code b =? 128) && ((code d =? 168) || (code d =? 169))
          then bslash +:+ "u202" +:+ String (hexdigit (code d mod 16)) (compact_go instr false t3)
          else
            if negb instr && is_space c then compact_go instr false t
            else if instr && esc then String a (compact_go true false t)
            else if c =? 34 then String a (compact_go (negb instr) false t)
            else String a (compact_go instr (instr && (c =? 92)) t)
      | _ =>
          if negb instr && is_space c then compact_go instr false t
          else if instr && esc then String a (compact_go true false t)
          else if c =? 34 then String a (compact_go (negb instr) false t)
          else String a (compact_go instr (instr && (c =? 92)) t)
      end
  end.
Definition compact (s : string) : string := compact_go false false s.

(** The encoder's string literal of a rune, HTML escaping included. *)
Definition encode_string_rune (r : Z) : string :=
  if (r =? 34) || (r =? 92) then bslash +:+ byte1 r
  else if r =? 8 then bslash +:+ "b"
  else if r =? 12 then bslash +:+ "f"
  else if r =? 10 then bslash +:+ "n"
  else if r =? 13 then bslash +:+ "r"
  else if r =? 9 then bslash +:+ "t"
  else if (r <? 32) || (r =? 60) || (r =? 62) || (r =? 38) || (r =? 8232) || (r =? 8233)
  then bslash +:+ "u" +:+ hex4 r
  else encode_rune r.

(** A map key; decoded keys are valid UTF-8. *)
Definition encode_key (k : string) : string :=
  dquote +:+ concat_str (map encode_string_rune (runes k)) +:+ dquote.

Fixpoint marshal_members (first : bool) (m : row) : string :=
  match m with
  | [] => ""
  | (k, v) :: m =>
      (if first then "" else ",") +:+ encode_key k +:+ ":" +:+ compact v +:+ marshal_members false m
  end.

(** [marshalRow]: encoding raw texts that were decoded before cannot fail. *)
Definition marshalRow (m : row) : string := "{" +:+ marshal_members true m +:+ "}".

(** ** The code *)

Fixpoint keyColumns (r : row) (key : list string) : row :=
  match r with
  | [] => []
  | (column, value) :: r =>
      if bool_decide (column ∈ key) then row_set column value (keyColumns r key) else keyColumns r key
  end.

(** One image of an UPDATE. *)
Definition key_image (r : row) (key : list string) (image : string) (images : row) : row :=
  match row_get image r with
  | None => images                       (* json.Unmarshal(nil) fails *)
  | Some raw =>
      match unmarshal_row raw with
      | Some (Some values) => row_set image (marshalRow (keyColumns values key)) images
      | _ => images
      end
  end.

Definition keyOnly (eventType : EventType) (data : string) (key : list string) : string :=
  match unmarshal_row data with
  | None => "{}"
  | Some r =>
      let r := default [] r in
      if negb (bool_decide (eventType = Update)) then marshalRow (keyColumns r key)
      else marshalRow (key_image r key "new" (key_image r key "old" []))
  end.

Definition Truncated (e : Event) : Event :=
  let truncated := Stripped e in
  if isTableEvent (Type_ e) then set_data (keyOnly (Type_ e) (Data e) (KeyColumns e)) true truncated
  else truncated.

(** ** The cases of internal/cdc/truncate_test.go *)

Definition jq (s : string) : string := dquote +:+ s +:+ dquote.

Definition doc_insert : Event :=
  set_key_columns ["id"%string; "tenant"%string]
    (NewEvent 0 Insert "public" "docs"
       ("{" +:+ jq "id" +:+ ":7, " +:+ jq "tenant" +:+ ":" +:+ jq "a" +:+ ","
          +:+ jq "body" +:+ ":[1, {" +:+ jq "x,y" +:+ ": null}]}") "INSERT" "0/10").

Example truncated_insert :
  Truncated doc_insert
  = set_data ("{" +:+ jq "id" +:+ ":7," +:+ jq "tenant" +:+ ":" +:+ jq "a" +:+ "}") true doc_insert.
Proof. vm_compute. reflexivity. Qed.

Example truncated_update :
  Data (Truncated (set_key_columns ["id"%string] (NewEvent 0 Update "public" "docs"
    ("{" +:+ jq "old" +:+ ":{" +:+ jq "id" +:+ ":6," +:+ jq "body" +:+ ":" +:+ jq "x" +:+ "}," +:+
       jq "new" +:+ ":{" +:+ jq "id" +:+ ":7," +:+ jq "body" +:+ ":" +:+ jq "huge" +:+ "}}")
    "UPDATE" "0/10")))
  = ("{" +:+ jq "new" +:+ ":{" +:+ jq "id" +:+ ":7}," +:+ jq "old" +:+ ":{" +:+ jq "id" +:+ ":6}}")%string.
Proof. vm_compute. reflexivity. Qed.

Example truncated_no_key :
  Data (Truncated (NewEvent 0 Delete "public" "docs" ("{" +:+ jq "body" +:+ ":" +:+ jq "huge" +:+ "}")
    "DELETE" "0/10")) = "{}"%string.
Proof. vm_compute. reflexivity. Qed.

(** ** Key columns *)

Lemma row_get_set k k' v m :
  row_get k (row_set k' v m) = if String.eqb k k' then Some v else row_get k m.
Proof.
  induction m as [|[k1 v1] m IH]; cbn [row_set row_get]; [done|].
  destruct (String.compare k' k1) eqn:E; cbn [row_get].
  - apply String.compare_eq_iff in E as ->. by destruct (String.eqb k k1).
  - done.
  - rewrite IH. destruct (String.eqb_spec k k1) as [->|]; [|done].
    destruct (String.eqb_spec k1 k') as [->|]; [|done].
    pose proof (String.compare_antisym k' k') as Ea. rewrite E in Ea. done.
Qed.

Lemma keyColumns_get r key k :
  row_get k (keyColumns r key) = if bool_decide (k ∈ key) then row_get k r else None.
Proof.
  induction r as [|[c v] r IH]; cbn [keyColumns row_get]; [by destruct (bool_decide _)|].
  destruct (bool_decide (c ∈ key)) eqn:Hc; rewrite ?row_get_set, IH.
  - destruct (String.eqb_spec k c) as [->|]; [by rewrite Hc|done].
  - destruct (String.eqb_spec k c) as [->|]; [by rewrite Hc|done].
Qed.
