(* ===== verification/Truncation.v ===== *)
(** * A truncated event, read back

    What [Truncated] publishes is text: the key columns, encoded again.  This file
    reads that text back with the decoder and finds exactly the key columns, each
    with the compacted text of the value it had.  The steps: a member text that
    the decoder cuts out of a valid document is a valid document ([collected]),
    compacting keeps it one ([compact_valid]), the encoder's names read back
    ([unquote_encode_key]), and the decoder recovers the members of the text the
    encoder writes ([members_marshalled]). *)

From stdpp Require Import base list strings gmap.
From Stdlib Require Import ZArith Lia Ascii.
From S2P Require Import Prelude GoStrings Json Escape Event Truncate.

Local Open Scope Z_scope.

(** ** Compacting keeps a document valid *)

Section Compact.
Context (D : nat).

Definition in_string (st : jstate) : bool :=
  match st with
  | InString | InStringEsc | InStringEscU | InStringEscU1 | InStringEscU12 | InStringEscU123 => true
  | _ => false
  end.
Definition escaped (st : jstate) : bool := match st with InStringEsc => true | _ => false end.

(** A value is complete here, or is a number that the next byte may end. *)
Definition ends (st : jstate) : bool :=
  match st with EndValue | S0 | S1 | Dot0 | StE0 => true | _ => false end.

(** Without the blanks the scanner may learn of the end of a value later. *)
Definition lags (st stc : jstate) : Prop :=
  stc = st \/ ends stc = true /\ (st = EndValue \/ st = EndTop).

#[local] Ltac steps :=
  unfold beginValue, beginString, state0, stateESign, expect, expect_hex, endValue, endTop, pop, push in *;
  repeat case_match; simplify_eq/=.

Lemma ends_step st stk c cf :
  ends st = true -> is_space c = false -> endValue stk c = Some cf -> jstep D st stk c = Some cf.
Proof.
  intros He Hs Hc.
  assert (is_digit c = false /\ (c =? 46) = false /\ (c =? 101) || (c =? 69) = false) as (H1 & H2 & H3).
  { unfold is_digit. steps; lia. }
  destruct st; try done; cbn [jstep]; unfold state0; by rewrite ?H1, ?H2, ?H3.
Qed.

Lemma space_step st stk c st' stk' :
  is_space c = true -> in_string st = false -> jstep D st stk c = Some (st', stk') ->
  stk' = stk /\ (st' = st \/ ends st = true /\ (st' = EndValue \/ st' = EndTop)).
Proof.
  intros Hs Hi H.
  assert (is_digit c = false /\ (c =? 46) = false /\ (c =? 101) || (c =? 69) = false) as (H1 & H2 & H3).
  { unfold is_digit, is_space in *. lia. }
  assert ((c =? 48) = false /\ (c =? 43) || (c =? 45) = false /\ (49 <=? c) && (c <=? 57) = false) as (H4 & H5 & H6).
  { unfold is_space in *. lia. }
  destruct st; try done; cbn [jstep] in H; unfold beginValue, beginString, state0, stateESign, endValue, endTop, expect in H;
    rewrite ?Hs, ?H1, ?H2, ?H3, ?H4, ?H5, ?H6 in H; try (simplify_eq; by auto);
    try (destruct stk; simplify_eq; by auto);
    try (unfold is_space in Hs; case_match; [lia|done]).
Qed.

Lemma char_step st stk c st' stk' :
  (in_string st = true \/ is_space c = false) -> jstep D st stk c = Some (st', stk') ->
  in_string st' = (if (c =? 34) && negb (escaped st) then negb (in_string st) else in_string st) /\
  escaped st' = in_string st && negb (escaped st) && (c =? 92).
Proof.
  intros Hs H.
  destruct st; cbn [jstep in_string escaped] in *; steps; unfold is_hex, is_digit, is_escape in *;
    try lia; try (split; lia); try (split; [done|lia]); try done;
    destruct Hs; try done; split; lia.
Qed.

(** The characters that are written as escapes only stand in strings. *)
Lemma html_step st stk c st' stk' :
  (c =? 60) || (c =? 62) || (c =? 38) || (c =? 226) = true ->
  jstep D st stk c = Some (st', stk') -> st = InString /\ st' = InString /\ stk' = stk.
Proof.
  intros Hc H. destruct st; cbn [jstep] in H; steps; unfold is_hex, is_digit, is_escape, is_space in *; try lia; done.
Qed.

Lemma high_step st stk c st' stk' :
  128 <= c -> jstep D st stk c = Some (st', stk') -> st = InString -> st' = InString /\ stk' = stk.
Proof. intros Hc H ->. cbn [jstep] in H. steps; try lia; done. Qed.

(** One byte that compacting keeps. *)
Lemma kept_step st stc stk c cf :
  lags st stc -> (in_string st = true \/ is_space c = false) -> jstep D st stk c = Some cf ->
  jstep D stc stk c = Some cf.
Proof.
  intros [->|[He Hst]] Hs H; [done|]. destruct Hs as [Hs|Hs]; [by destruct Hst as [-> | ->]|].
  destruct Hst as [-> | ->]; simpl in H; [by apply ends_step|by rewrite Hs in H].
Qed.

Lemma dropped_step st stc stk c st' stk' :
  lags st stc -> is_space c = true -> in_string st = false -> jstep D st stk c = Some (st', stk') ->
  lags st' stc /\ stk' = stk.
Proof.
  intros Hl Hs Hi H. apply space_step in H as [-> Hst]; [|done..]. split; [|done].
  destruct Hl as [->|[He Hl]].
  - destruct Hst as [->|[He Hst]]; [by left|right; auto].
  - right. split; [done|]. destruct Hst as [->|[_ ?]]; done.
Qed.

(** The scanner on the compacted text goes along with the scanner on the text. *)
Lemma compact_run n : forall s st stc stk st' stk',
  (String.length s <= n)%nat -> lags st stc ->
  jrun D (Some (st, stk)) s = Some (st', stk') ->
  exists stc', jrun D (Some (stc, stk)) (compact_go (in_string st) (escaped st) s) = Some (stc', stk') /\ lags st' stc'.
Proof.
  induction n as [|n IH]; intros [|a t] st stc stk st' stk' Hn Hl H; cbn [String.length] in Hn;
    try lia; try (simpl in H; simplify_eq; by eexists).
  cbn [jrun] in H. destruct (jstep D st stk (code a)) as [[st1 stk1]|] eqn:Es; [|by rewrite jrun_None in H].
  assert (Hkeep : exists stc',
    jrun D (Some (stc, stk)) (if negb (in_string st) && is_space (code a) then compact_go (in_string st) false t
      else if in_string st && escaped st then String a (compact_go true false t)
      else if code a =? 34 then String a (compact_go (negb (in_string st)) false t)
      else String a (compact_go (in_string st) (in_string st && (code a =? 92)) t)) = Some (stc', stk') /\ lags st' stc').
  { destruct (negb (in_string st) && is_space (code a)) eqn:Ed.
    - apply andb_true_iff in Ed as [Ei Esp]. apply negb_true_iff in Ei.
      pose proof (dropped_step _ _ _ _ _ _ Hl Esp Ei Es) as [Hl1 ->].
      destruct (IH t st1 stc stk st' stk' ltac:(lia) Hl1 H) as (stc' & Hr & Hl').
      apply space_step in Es as [_ Hst]; [|done..]. exists stc'. split; [|done]. rewrite Ei.
      replace (in_string st1) with false in Hr by (destruct Hst as [->|[_ [-> | ->]]]; done).
      by replace (escaped st1) with false in Hr by (destruct Hst as [->|[_ [-> | ->]]]; try done; by destruct st).
    - assert (Hk : in_string st = true \/ is_space (code a) = false).
      { destruct (in_string st); [by left|by right]. }
      pose proof (kept_step _ _ _ _ _ Hl Hk Es) as Ec. pose proof (char_step _ _ _ _ _ Hk Es) as [E1 E2].
      assert (Hl1 : lags st1 st1) by (by left).
      destruct (IH t st1 st1 stk1 st' stk' ltac:(lia) Hl1 H) as (stc' & Hr & Hl'). exists stc'. split; [|done].
      assert (Eesc : escaped st = true -> in_string st = true) by (by destruct st).
      rewrite E1, E2 in Hr.
      destruct (in_string st), (escaped st), (code a =? 34) eqn:E34; cbn [andb negb] in *; try (by specialize (Eesc eq_refl));
        cbn [jrun]; rewrite Ec; try exact Hr.
      all: replace (code a =? 92) with false in Hr by lia; exact Hr. }
  cbn [compact_go]. destruct ((code a =? 60) || (code a =? 62) || (code a =? 38)) eqn:Eh.
  - apply html_step in Es as (-> & -> & ->); [|lia]. destruct Hl as [->|[_ [? | ?]]]; [|done..].
    destruct (IH t InString InString stk st' stk' ltac:(lia) ltac:(by left) H) as (stc' & Hr & Hl').
    exists stc'. split; [|done]. rewrite <- !str_app_assoc, jrun_app.
    rewrite (str_app_assoc bslash). by rewrite body_hex4.
  - destruct t as [|b [|d t3]]; try exact Hkeep.
    destruct ((code a =? 226) && (code b =? 128) && ((code d =? 168) || (code d =? 169))) eqn:Eu; [|exact Hkeep].
    apply html_step in Es as (-> & -> & ->); [|lia]. destruct Hl as [->|[_ [? | ?]]]; [|done..].
    cbn [jrun] in H.
    destruct (jstep D InString stk (code b)) as [[st2 stk2]|] eqn:E2; [|by rewrite ?jrun_None in H].
    apply high_step in E2 as [-> ->]; [|lia|done].
    destruct (jstep D InString stk (code d)) as [[st3 stk3]|] eqn:E3; [|by rewrite ?jrun_None in H].
    apply high_step in E3 as [-> ->]; [|lia|done]. cbn [String.length] in Hn.
    destruct (IH t3 InString InString stk st' stk' ltac:(lia) ltac:(by left) H) as (stc' & Hr & Hl').
    exists stc'. split; [|done]. rewrite !str_app_cons, str_app_nil_l.
    assert (code d mod 16 = 8 \/ code d mod 16 = 9) as Ed.
    { assert (code d = 168 \/ code d = 169) as [-> | ->] by lia; [by left|by right]. }
    destruct Ed as [-> | ->]; exact Hr.
Qed.

Lemma compact_valid s : valid_upto D s = true -> valid_upto D (compact s) = true.
Proof.
  unfold valid_upto, compact. intros H.
  destruct (jrun D (Some (BeginValue, [])) s) as [[st stk]|] eqn:E; [|done].
  destruct (compact_run (String.length s) s BeginValue BeginValue [] st stk ltac:(lia) ltac:(by left) E) as (stc & Hr & Hl).
  cbn [in_string escaped] in Hr. rewrite Hr. destruct Hl as [->|[He Hst]]; [done|].
  assert (stk = []) as ->.
  { destruct Hst as [-> | ->].
    - simpl in H. by destruct stk.
    - destruct (lift_run D (D + 0) [] ltac:(simpl; lia) s BeginValue [] EndTop stk ltac:(done) E) as [_ Hw]. by apply Hw. }
  by destruct stc.
Qed.
End Compact.

(** ** Blanks around a document *)

Fixpoint blank (s : string) : bool :=
  match s with EmptyString => true | String a s => is_space (code a) && blank s end.

Lemma rev_app_spec s t : String.rev_app s t = String.rev s +:+ t.
Proof.
  unfold String.rev. revert t. induction s as [|a s IH]; intros t; [done|]. cbn [String.rev_app].
  rewrite (IH (String a t)), (IH (String a "")). by rewrite str_app_assoc.
Qed.
Lemma rev_cons a s : String.rev (String a s) = String.rev s +:+ String a "".
Proof. unfold String.rev at 1. cbn [String.rev_app]. apply rev_app_spec. Qed.
Lemma rev_concat s t : String.rev (s +:+ t) = String.rev t +:+ String.rev s.
Proof.
  induction s as [|a s IH]; [by rewrite str_app_nil_l, str_app_nil_r|].
  by rewrite str_app_cons, !rev_cons, IH, str_app_assoc.
Qed.
Lemma rev_rev s : String.rev (String.rev s) = s.
Proof. induction s as [|a s IH]; [done|]. by rewrite rev_cons, rev_concat, IH. Qed.

Lemma blank_app s t : blank (s +:+ t) = blank s && blank t.
Proof. induction s as [|a s IH]; [done|]. rewrite str_app_cons. simpl. by rewrite IH, andb_assoc. Qed.
Lemma blank_rev s : blank (String.rev s) = blank s.
Proof. induction s as [|a s IH]; [done|]. rewrite rev_cons, blank_app, IH. simpl. by rewrite andb_true_r, andb_comm. Qed.

Lemma trim_left_split s : exists b, blank b = true /\ s = b +:+ trim_left s.
Proof.
  induction s as [|a s (b & Hb & E)]; [by exists ""|]. cbn [trim_left]. destruct (is_space (code a)) eqn:Ea.
  - exists (String a b). simpl. rewrite Ea, Hb. by rewrite str_app_cons, <- E.
  - by exists "".
Qed.

Lemma json_trim_split s : exists b b', blank b = true /\ blank b' = true /\ s = b +:+ json_trim s +:+ b'.
Proof.
  destruct (trim_left_split s) as (b & Hb & E). destruct (trim_left_split (String.rev (trim_left s))) as (b' & Hb' & E').
  exists b, (String.rev b'). split_and!; [done|by rewrite blank_rev|]. unfold json_trim. rewrite <- rev_concat, <- E', rev_rev. done.
Qed.

Lemma blank_begin D b : blank b = true -> jrun D (Some (BeginValue, [])) b = Some (BeginValue, []).
Proof.
  induction b as [|a b IH]; [done|]. simpl. intros [Ha Hb]%andb_true_iff.
  unfold beginValue. rewrite Ha. auto.
Qed.

(** Blanks at the end do not make a document out of what is none. *)
Lemma blank_end D b cf : blank b = true -> jeof D (jrun D cf b) = true -> jeof D cf = true.
Proof.
  revert cf. induction b as [|a b IH]; [done|]. simpl. intros cf [Ha Hb]%andb_true_iff.
  destruct cf as [[st stk]|]; [|done]. intros H%IH; [|done]. clear IH Hb.
  assert (Hd : is_digit (code a) = false /\ (code a =? 46) = false /\ (code a =? 101) || (code a =? 69) = false).
  { unfold is_digit, is_space in *. lia. } destruct Hd as (H1 & H2 & H3).
  destruct st; try done; cbn [jstep] in H;
    unfold beginValue, beginString, state0, stateESign, endValue, endTop, expect, expect_hex in H;
    rewrite ?Ha, ?H1, ?H2, ?H3 in H; try done; try (destruct stk; [done|]; simpl in H; done);
    repeat case_match; try done; unfold is_space, is_hex, is_digit, is_escape in *; lia.
Qed.

Lemma trim_valid D s : valid_upto D s = true -> valid_upto D (json_trim s) = true.
Proof.
  destruct (json_trim_split s) as (b & b' & Hb & Hb' & E). unfold valid_upto. rewrite E at 1.
  rewrite jrun_app, (blank_begin D b Hb), jrun_app. by apply blank_end.
Qed.

(** Compacted text has no blank at either end. *)
Definition last_kept (s : string) : Prop := forall p a, s = p +:+ String a "" -> is_space (code a) = false.

Lemma last_kept_cons a s : s <> ""%string -> last_kept s -> last_kept (String a s).
Proof.
  intros Hs Hl [|b p] c E.
  - rewrite str_app_nil_l in E. by injection E as _ ->.
  - rewrite str_app_cons in E. injection E as _ E. by eapply Hl.
Qed.
Lemma last_kept_app s t : t <> ""%string -> last_kept t -> last_kept (s +:+ t).
Proof.
  intros Ht Hl. induction s as [|a s IH]; [done|]. rewrite str_app_cons. apply last_kept_cons; [|done].
  destruct s; [by rewrite str_app_nil_l|by rewrite str_app_cons].
Qed.
Lemma last_kept_one a : is_space (code a) = false -> last_kept (String a "").
Proof.
  intros Ha [|b p] c E; [by injection E as <-|]. rewrite str_app_cons in E. injection E as _ E.
  destruct p; [by rewrite str_app_nil_l in E|by rewrite str_app_cons in E].
Qed.

Lemma trim_fixed s : (forall a t, s = String a t -> is_space (code a) = false) -> last_kept s -> json_trim s = s.
Proof.
  intros Hh Hl. unfold json_trim.
  assert (E : forall x, (forall a t, x = String a t -> is_space (code a) = false) -> trim_left x = x).
  { intros [|a t] H; [done|]. simpl. by rewrite (H a t eq_refl). }
  rewrite (E s Hh), E, rev_rev; [done|]. intros a t Et. apply (Hl (String.rev t) a).
  by rewrite <- (rev_rev s), Et, rev_cons.
Qed.

Lemma compact_head a t s : compact_go false false s = String a t -> is_space (code a) = false.
Proof.
  revert t. induction s as [|b s IH]; intros t; [done|]. cbn [compact_go].
  destruct (_ || _); [by intros [= <- _]|].
  assert (Hk : (if negb false && is_space (code b) then compact_go false false s
    else if false && false then String b (compact_go true false s)
    else if code b =? 34 then String b (compact_go (negb false) false s)
    else String b (compact_go false (false && (code b =? 92)) s)) = String a t -> is_space (code a) = false).
  { simpl. destruct (is_space (code b)) eqn:Eb; [apply IH|]. by destruct (_ =? _); intros [= <- _]. }
  destruct s as [|c [|d s]]; [exact Hk..|]. destruct (_ && _ && _); [by intros [= <- _]|exact Hk].
Qed.

Lemma compact_empty e s : compact_go true e s = ""%string -> s = ""%string.
Proof.
  destruct s as [|a s]; [done|]. cbn [compact_go negb andb]. destruct (_ || _); [done|].
  destruct s as [|b [|c s]]; repeat case_match; done.
Qed.

Lemma compact_last D n : forall s st stk st' stk',
  (String.length s <= n)%nat -> jrun D (Some (st, stk)) s = Some (st', stk') -> in_string st' = false ->
  last_kept (compact_go (in_string st) (escaped st) s).
Proof.
  induction n as [|n IH]; intros [|a t] st stk st' stk' Hn H He; cbn [String.length] in Hn;
    try lia; try (by intros [|] ?).
  cbn [jrun] in H. destruct (jstep D st stk (code a)) as [[st1 stk1]|] eqn:Es; [|by rewrite jrun_None in H].
  pose proof (IH t st1 stk1 st' stk' ltac:(lia) H He) as Ht.
  assert (Hin : forall pre t' stk1, (String.length t' <= n)%nat -> jrun D (Some (InString, stk1)) t' = Some (st', stk') ->
    last_kept (pre +:+ compact_go true false t')).
  { intros pre t' stk2 Hn' Hr. apply last_kept_app; [|exact (IH t' InString stk2 st' stk' Hn' Hr He)].
    intros ->%compact_empty. by injection Hr as <- _. }
  assert (Hkeep : last_kept
    (if negb (in_string st) && is_space (code a) then compact_go (in_string st) false t
      else if in_string st && escaped st then String a (compact_go true false t)
      else if code a =? 34 then String a (compact_go (negb (in_string st)) false t)
      else String a (compact_go (in_string st) (in_string st && (code a =? 92)) t))).
  { destruct (negb (in_string st) && is_space (code a)) eqn:Ed.
    - apply andb_true_iff in Ed as [Ei Esp]. apply negb_true_iff in Ei. apply space_step in Es as [_ Hst]; [|done..].
      rewrite Ei. replace (in_string st1) with false in Ht by (destruct Hst as [->|[_ [-> | ->]]]; done).
      by replace (escaped st1) with false in Ht by (destruct Hst as [->|[_ [-> | ->]]]; try done; by destruct st).
    - assert (Hk : in_string st = true \/ is_space (code a) = false).
      { destruct (in_string st); [by left|by right]. }
      pose proof (char_step _ _ _ _ _ _ Hk Es) as [E1 E2].
      assert (Hc : last_kept (String a (compact_go (in_string st1) (escaped st1) t))).
      { destruct (decide (compact_go (in_string st1) (escaped st1) t = ""%string)) as [Ez|]; [|by apply last_kept_cons].
        rewrite Ez. apply last_kept_one. destruct (is_space (code a)) eqn:Ea; [|done]. exfalso.
        destruct Hk as [Hk|]; [|done]. rewrite Hk in E1.
        replace (code a =? 34) with false in E1 by (unfold is_space in Ea; lia). simpl in E1. rewrite E1 in Ez.
        apply compact_empty in Ez as ->. simpl in H. simplify_eq. by rewrite E1 in He. }
      rewrite E1, E2 in Hc. assert (Eesc : escaped st = true -> in_string st = true) by (by destruct st).
      destruct (in_string st), (escaped st), (code a =? 34) eqn:E34; cbn [andb negb] in *; try (by specialize (Eesc eq_refl));
        try exact Hc.
      all: replace (code a =? 92) with false in Hc by lia; exact Hc. }
  cbn [compact_go]. destruct ((code a =? 60) || (code a =? 62) || (code a =? 38)) eqn:Eh.
  - apply html_step in Es as (-> & -> & ->); [|lia]. rewrite <- !str_app_assoc. by eapply Hin; [lia|].
  - destruct t as [|b [|d t3]]; try exact Hkeep.
    destruct ((code a =? 226) && (code b =? 128) && ((code d =? 168) || (code d =? 169))) eqn:Eu; [|exact Hkeep].
    apply html_step in Es as (-> & -> & ->); [|lia]. cbn [jrun] in H.
    destruct (jstep D InString stk (code b)) as [[st2 stk2]|] eqn:E2; [|by rewrite ?jrun_None in H].
    apply high_step in E2 as [-> ->]; [|lia|done].
    destruct (jstep D InString stk (code d)) as [[st3 stk3]|] eqn:E3; [|by rewrite ?jrun_None in H].
    apply high_step in E3 as [-> ->]; [|lia|done]. cbn [String.length] in Hn.
    apply (Hin (bslash +:+ "u202" +:+ String (hexdigit (code d mod 16)) "") t3 stk); [lia|done].
Qed.

Lemma compact_trimmed D s : valid_upto D s = true -> json_trim (compact s) = compact s.
Proof.
  intros Hv. apply trim_fixed; [intros a t; apply compact_head|].
  unfold valid_upto in Hv. destruct (jrun D (Some (BeginValue, [])) s) as [[st stk]|] eqn:E; [|done].
  apply (compact_last D (String.length s) s BeginValue [] st stk); [lia|done|].
  by destruct st.
Qed.

(** ** What the decoder cuts out of a document *)

Definition inner : nat := (maxNestingDepth - 1)%nat.

Lemma inner_room p : (length [p : pstate] + inner <= maxNestingDepth)%nat.
Proof. vm_compute. lia. Qed.

(** A run inside the outermost object is a run of its own, until the bottom of
    the stack changes, which ends a document. *)
Definition begun (st : jstate) (s : list pstate) : Prop := st = BeginStringOrEmpty -> s <> [].

Lemma begun_step D st s c st' s' : begun st s -> jstep D st s c = Some (st', s') -> begun st' s'.
Proof.
  unfold begun. intros Hb H ->. destruct st; cbn [jstep] in H;
    unfold beginValue, beginString, state0, stateESign, expect, expect_hex, endValue, endTop, pop, push in H;
    repeat case_match; simplify_eq; try done; by apply Hb.
Qed.

#[local] Ltac bottom H :=
  cbn [jstep] in H;
  unfold beginValue, beginString, state0, stateESign, expect, expect_hex, endValue, endTop, pop, push in H.

Lemma unlift_step st s c st' t :
  top_wf st s -> begun st s -> jstep maxNestingDepth (lift_state [ObjectValue] st) (s ++ [ObjectValue]) c = Some (st', t) ->
  (exists st1 s1, jstep inner st s c = Some (st1, s1) /\ st' = lift_state [ObjectValue] st1 /\ t = s1 ++ [ObjectValue]) \/
  (s = [] /\ jeof inner (Some (st, [])) = true /\ outer t <> Some ObjectValue).
Proof.
  intros Hw Hb H.
  destruct (jstep inner st s c) as [[st1 s1]|] eqn:E.
  { left. exists st1, s1. split; [done|].
    destruct (lift_step inner maxNestingDepth [ObjectValue] (inner_room _) st s c st1 s1 Hw E) as [E' _].
    rewrite E' in H. by simplify_eq. }
  right. assert (Hlen : forall l, (length l <? inner)%nat = (length (l ++ [ObjectValue]) <? maxNestingDepth)%nat).
  { intros l. rewrite length_app. cbn [length]. change maxNestingDepth with (S inner). rewrite Nat.add_1_r. done. }
  destruct s as [|p s].
  - destruct st; try (by exfalso; apply Hb); cbn [lift_state app] in H; bottom H; bottom E; cbn [app] in *;
      repeat case_match; simplify_eq; try done; try lia; by split_and!.
  - exfalso. destruct st; try (by specialize (Hw eq_refl)); cbn [lift_state app] in H; bottom H; bottom E;
      cbn [app] in *; rewrite ?Hlen in E; cbn [app] in E;
      destruct s; cbn [app] in *; repeat case_match; simplify_eq; try done; lia.
Qed.

Lemma outer_enters D st stk c st' stk' :
  jstep D st stk c = Some (st', stk') -> outer stk' = Some ObjectValue -> outer stk <> Some ObjectValue ->
  st' = BeginValue /\ stk' = [ObjectValue].
Proof.
  unfold outer. intros H Ho Hn.
  destruct stk as [|p [|q stk]]; destruct st; bottom H; repeat case_match; simplify_eq/=; done.
Qed.

(** A decoded name is the encoding of Unicode scalars. *)
Definition text (k : string) : Prop := exists l, Forall scalar l /\ k = encode_runes l.

(** A decoded member: its name is text, its value a document. *)
Definition member_ok (kv : string * string) : Prop := text kv.1 /\ valid_upto inner kv.2 = true.

Lemma hex4_val_range a b c d u : hex4_val a b c d = Some u -> 0 <= u < 65536.
Proof.
  assert (Hh : forall x y, hex_val x = Some y -> 0 <= y < 16).
  { intros x y. unfold hex_val, is_digit. repeat case_match; intros [= <-]; lia. }
  unfold hex4_val. destruct (hex_val a) eqn:Ea, (hex_val b) eqn:Eb, (hex_val c) eqn:Ec, (hex_val d) eqn:Ed; intros [= <-].
  apply Hh in Ea, Eb, Ec, Ed. lia.
Qed.

Lemma simple_escape_scalar e r : simple_escape e = Some r -> scalar r.
Proof. unfold simple_escape, scalar. repeat case_match; intros [= <-]; lia. Qed.

Lemma unquote_scalar n : forall l l', (length l <= n)%nat -> Forall scalar l -> unquote_runes l = Some l' -> Forall scalar l'.
Proof.
  assert (HE : scalar RuneError) by (unfold scalar, RuneError; lia).
  induction n as [|n IH]; intros [|c l] l' Hn Hl; cbn [length] in Hn; try lia; try (intros [= <-]; constructor).
  apply Forall_cons in Hl as [Hc Hl]. cbn [unquote_runes].
  assert (Hcons : forall r t, scalar r -> (length t <= n)%nat -> Forall scalar t ->
    cons r <$> unquote_runes t = Some l' -> Forall scalar l').
  { intros r t Hr Ht Hf. destruct (unquote_runes t) as [t'|] eqn:E; intros [= <-]. constructor; [done|by eapply (IH t)]. }
  destruct (c =? 92).
  2:{ destruct (_ || _); [done|]. apply Hcons; [done|lia|done]. }
  destruct l as [|e l]; [done|]. apply Forall_cons in Hl as [_ Hl]. cbn [length] in Hn.
  destruct (simple_escape e) as [r|] eqn:Er; [apply Hcons; [by eapply simple_escape_scalar|lia|done]|].
  destruct (e =? 117); [|done]. destruct l as [|h1 [|h2 [|h3 [|h4 l6]]]]; try done.
  destruct (hex4_val h1 h2 h3 h4) as [u|] eqn:Eu; [|done]. apply hex4_val_range in Eu. cbn [length] in Hn.
  repeat (apply Forall_cons in Hl as [_ Hl]).
  assert (Herr : cons RuneError <$> unquote_runes l6 = Some l' -> Forall scalar l') by (apply Hcons; [done|lia|done]).
  destruct (high_surrogate u) eqn:Eh.
  - repeat (case_match; try exact Herr); subst.
    intros H. eapply Hcons; [|..|exact H].
    + match goal with E : hex4_val _ _ _ _ = Some _ |- _ => apply hex4_val_range in E end.
      unfold high_surrogate, low_surrogate, scalar in *. lia.
    + cbn [length] in Hn. lia.
    + by repeat (apply Forall_cons in Hl as [_ Hl]).
  - destruct (low_surrogate u) eqn:El; [exact Herr|]. apply Hcons; [|lia|done].
    unfold high_surrogate, low_surrogate, scalar in *. lia.
Qed.

Lemma unquote_text b k : unquote b = Some k -> text k.
Proof.
  unfold unquote. destruct (unquote_runes (runes b)) as [l|] eqn:E; intros [= <-]. exists l. split; [|done].
  eapply unquote_scalar; [exact (le_n _)|apply runes_scalar|exact E].
Qed.

Lemma row_set_ok (P : string * string -> Prop) k v m : P (k, v) -> Forall P m -> Forall P (row_set k v m).
Proof.
  intros Hk Hm. induction Hm as [|[k' v'] m Hp Hm IH]; cbn [row_set]; [by constructor|].
  destruct (String.compare k k'); by repeat constructor.
Qed.

Lemma set_member_ok k v acc :
  valid_upto inner v = true -> Forall member_ok acc -> Forall member_ok (set_member k v acc).
Proof.
  intros Hv Ha. unfold set_member. destruct (literal_body (json_trim k) ≫= unquote) as [key|] eqn:E; [|done].
  apply row_set_ok; [|done]. split; [|by apply trim_valid].
  destruct (literal_body _) as [b|]; [|done]. by eapply unquote_text.
Qed.

(** Where the decoder is: in a value, of which [v] was read, or elsewhere. *)
Definition collecting (cf : jstate * list pstate) (v : string) : Prop :=
  match outer cf.2 with
  | Some ObjectValue => exists st s, cf = (lift_state [ObjectValue] st, s ++ [ObjectValue]) /\
      jrun inner (Some (BeginValue, [])) v = Some (st, s) /\ top_wf st s /\ begun st s
  | _ => v = ""%string
  end.

Lemma collected : forall s cf k v acc,
  collecting cf v -> Forall member_ok acc -> Forall member_ok (members_go cf k v acc s).
Proof.
  induction s as [|a s IH]; intros cf k v acc Hc Ha; [done|]. cbn [members_go].
  destruct (jstep maxNestingDepth cf.1 cf.2 (code a)) as [cf'|] eqn:E; [|done].
  assert (Hother : outer cf.2 <> Some ObjectValue -> collecting cf' ""%string).
  { intros Hn. unfold collecting. destruct (outer cf'.2) as [[]|] eqn:Eo; try done. destruct cf' as [st' stk'].
    destruct (outer_enters _ _ _ _ _ _ E Eo Hn) as [-> ->]. by exists BeginValue, []. }
  destruct (outer cf.2) as [[]|] eqn:Eo; unfold collecting in Hc; rewrite Eo in Hc.
  2:{ destruct Hc as (st & s0 & -> & Hr & Hw & Hb). destruct cf' as [st' t]. simpl in E.
      destruct (unlift_step _ _ _ _ _ Hw Hb E) as [(st1 & s1 & E1 & -> & ->)|(-> & Hj & Hn)].
      - assert (Ho : outer (s1 ++ [ObjectValue]) = Some ObjectValue) by (unfold outer; by rewrite last_snoc).
        cbn [snd]. rewrite Ho. apply IH; [|done]. unfold collecting. cbn [snd]. rewrite Ho. exists st1, s1.
        split; [done|]. split; [unfold snoc; by rewrite jrun_app, Hr|]. split; [|by eapply begun_step].
        by destruct (lift_step inner maxNestingDepth [ObjectValue] (inner_room _) _ _ _ _ _ Hw E1).
      - assert (Hv : valid_upto inner v = true) by (unfold valid_upto; by rewrite Hr).
        pose proof (set_member_ok k v acc Hv Ha) as Hs. cbn [snd] in *.
        assert (Hcol : collecting (st', t) ""%string).
        { unfold collecting. cbn [snd]. by destruct (outer t) as [[]|]. }
        destruct (outer t) as [[]|]; try done; by apply IH. }
  all: subst v; destruct (outer cf'.2) as [[]|]; apply IH; try done; by apply Hother.
Qed.

Lemma unmarshal_ok data r : unmarshal_row data = Some (Some r) -> Forall member_ok r.
Proof.
  unfold unmarshal_row. destruct (json_valid data); [|done]. simpl. destruct (json_trim data) as [|a d]; [done|].
  destruct (code a =? 123); [|by destruct (decide _)]. intros [= <-]. by apply collected.
Qed.

(** ** What the encoder writes is read back *)

Lemma body_encode_string maxd r : scalar r -> body_ok maxd (encode_string_rune r).
Proof.
  intros Hr. unfold encode_string_rune.
  destruct ((r =? 34) || (r =? 92)) eqn:E1.
  { assert (r = 34 \/ r = 92) as [-> | ->] by lia; by intros stk. }
  bcase; try (intros stk; reflexivity).
  destruct ((r <? 32) || (r =? 60) || (r =? 62) || (r =? 38) || (r =? 8232) || (r =? 8233)) eqn:E; [apply body_hex4|]. apply body_encode_rune; [done|]. unfold plain_byte. lia.
Qed.

#[local] Ltac Zify.zify_post_hook ::= Z.to_euclidean_division_equations.

Lemma unquote_hex4 r t : 0 <= r < 55296 ->
  unquote_runes (runes ((bslash +:+ "u" +:+ hex4 r) +:+ t)) = cons r <$> unquote_runes (runes t).
Proof.
  intros Hr. unfold bslash.
  rewrite !str_app_assoc, runes_byte1, str_app_cons, str_app_nil_l, runes_ascii by (lia || (vm_compute; done)).
  unfold hex4. rewrite !str_app_cons, str_app_nil_l, !runes_hexdigit by lia.
  cbn [unquote_runes]. replace (92 =? 92) with true by lia.
  change (simple_escape (code "u")) with (@None Z). replace (code "u" =? 117) with true by reflexivity.
  unfold hex4_val. rewrite !hex_val_hexdigit by lia.
  match goal with |- context [high_surrogate ?u] => replace u with r by lia end.
  unfold high_surrogate, low_surrogate.
  by replace ((55296 <=? r) && (r <? 56320)) with false by lia;
     replace ((56320 <=? r) && (r <? 57344)) with false by lia.
Qed.

Lemma unquote_encode_string r t : scalar r ->
  unquote_runes (runes (encode_string_rune r +:+ t)) = cons r <$> unquote_runes (runes t).
Proof.
  intros Hr. unfold encode_string_rune.
  destruct ((r =? 34) || (r =? 92)) eqn:E1.
  { assert (r = 34 \/ r = 92) as [-> | ->] by lia; unfold bslash; by rewrite str_app_assoc, !runes_byte1 by lia. }
  bcase; subst; unfold bslash; rewrite ?str_app_assoc, ?runes_byte1 by lia;
    try (rewrite runes_ascii by (vm_compute; done); reflexivity); try reflexivity.
  fold bslash. destruct ((r <? 32) || (r =? 60) || (r =? 62) || (r =? 38) || (r =? 8232) || (r =? 8233)) eqn:E.
  - apply unquote_hex4. destruct Hr. lia.
  - rewrite runes_encode_rune by done. cbn [unquote_runes]. replace (r =? 92) with false by lia.
    by replace ((r =? 34) || (r <? 32)) with false by lia.
Qed.

Definition key_body (k : string) : string := concat_str (map encode_string_rune (runes k)).

Lemma runes_encoded l : Forall scalar l -> runes (encode_runes l) = l.
Proof.
  unfold encode_runes. induction 1 as [|r l Hr _ IH]; [done|]. simpl. by rewrite runes_encode_rune, IH.
Qed.

Lemma key_body_ok maxd k : body_ok maxd (key_body k).
Proof.
  unfold key_body. pose proof (runes_scalar k) as H.
  induction H as [|r l Hr _ IH]; [apply body_nil|]. simpl. apply body_app; [by apply body_encode_string|done].
Qed.

Lemma unquote_key_body k : text k -> unquote (key_body k) = Some k.
Proof.
  intros (l & Hl & ->). unfold unquote, key_body. rewrite runes_encoded by done.
  enough (unquote_runes (runes (concat_str (map encode_string_rune l))) = Some l) as -> by done.
  induction Hl as [|r l Hr _ IH]; [done|]. simpl. by rewrite unquote_encode_string, IH.
Qed.

Lemma unquote_encode_key k : text k -> literal_body (json_trim (encode_key k)) ≫= unquote = Some k.
Proof.
  intros Hk. unfold encode_key. fold (key_body k).
  rewrite trim_fixed.
  - unfold literal_body, dquote, byte1. rewrite str_app_cons, str_app_nil_l.
    change (code (chr 34) =? 34) with true. cbn iota. rewrite rev_concat. cbn [String.rev String.rev_app].
    rewrite str_app_cons, str_app_nil_l. change (code (chr 34) =? 34) with true. cbn iota.
    rewrite rev_rev. simpl. by apply unquote_key_body.
  - intros a t E. unfold dquote, byte1 in E. rewrite str_app_cons in E. injection E as <- _. done.
  - apply last_kept_app; [|apply last_kept_app; [done|by apply last_kept_one]].
    unfold dquote, byte1. by destruct (key_body k).
Qed.

(** The decoder walks over text that leaves the outermost container alone. *)
Lemma walk p w : p <> ArrayValue -> forall st s st' s' k v acc rest,
  top_wf st s -> jrun inner (Some (st, s)) w = Some (st', s') ->
  members_go (lift_state [p] st, s ++ [p]) k v acc (w +:+ rest)
  = members_go (lift_state [p] st', s' ++ [p])
      (match p with ObjectKey => k +:+ w | _ => k end) (match p with ObjectValue => v +:+ w | _ => v end) acc rest.
Proof.
  intros Hp. induction w as [|a w IH]; intros st s st' s' k v acc rest Hw H.
  { simpl in H. simplify_eq. rewrite str_app_nil_l. by destruct p; rewrite ?str_app_nil_r. }
  cbn [jrun] in H. destruct (jstep inner st s (code a)) as [[st1 s1]|] eqn:E; [|by rewrite jrun_None in H].
  destruct (lift_step inner maxNestingDepth [p] (inner_room p) _ _ _ _ _ Hw E) as [E' Hw'].
  rewrite str_app_cons. cbn [members_go fst snd]. rewrite E'. cbn [snd]. unfold outer. rewrite !last_snoc.
  unfold snoc. rewrite (IH st1 s1 st' s') by done. destruct p; [| |done].
  - by rewrite str_app_assoc, str_app_cons, str_app_nil_l.
  - by rewrite (IH st1 s1 st' s'), str_app_assoc, str_app_cons, str_app_nil_l by done.
Qed.

(** Reading one member, at the start of the object or after a comma. *)
Lemma read_member st0 k v acc rest :
  st0 = BeginStringOrEmpty \/ st0 = BeginString -> valid_upto inner v = true ->
  exists st, finished maxNestingDepth [ObjectValue] (Some (st, [ObjectValue])) /\
    members_go (st0, [ObjectKey]) "" "" acc (encode_key k +:+ ":" +:+ v +:+ rest)
    = members_go (st, [ObjectValue]) (encode_key k) v acc rest /\
    jrun maxNestingDepth (Some (st0, [ObjectKey])) (encode_key k +:+ ":" +:+ v +:+ rest)
    = jrun maxNestingDepth (Some (st, [ObjectValue])) rest.
Proof.
  intros H0 Hv. pose proof (valid_embed inner maxNestingDepth [ObjectValue] (inner_room _) v Hv) as (st & Hrun & Hfin).
  exists st. split; [by exists st|].
  unfold valid_upto in Hv. destruct (jrun inner (Some (BeginValue, [])) v) as [[st1 s1]|] eqn:E1; [|done].
  destruct (lift_run inner maxNestingDepth [ObjectValue] (inner_room _) v BeginValue [] st1 s1 ltac:(done) E1) as [El _].
  change (lift_state [ObjectValue] BeginValue) with BeginValue in El. cbn [app] in El. rewrite Hrun in El.
  injection El as -> Es. destruct s1; [|by destruct s1]. clear Es.
  assert (Eq : encode_key k +:+ ":" +:+ v +:+ rest = String (chr 34) ((key_body k +:+ dquote) +:+ ":" +:+ v +:+ rest)).
  { unfold encode_key, dquote at 1, byte1 at 1. fold (key_body k). by rewrite !str_app_assoc, str_app_cons, str_app_nil_l. }
  assert (Hq : jstep maxNestingDepth st0 [ObjectKey] (code (chr 34)) = Some (InString, [ObjectKey])) by (by destruct H0 as [-> | ->]).
  assert (Hk : jrun inner (Some (InString, [])) (key_body k +:+ dquote) = Some (EndValue, [])).
  { rewrite jrun_app, key_body_ok. done. }
  assert (Hw : top_wf InString []) by done.
  split; rewrite Eq.
  - cbn [members_go fst snd]. rewrite Hq. cbn [outer last snd]. unfold snoc. rewrite str_app_nil_l.
    etrans; [exact (walk ObjectKey _ ltac:(done) InString [] _ _ (String (chr 34) "") "" acc (":" +:+ v +:+ rest) Hw Hk)|].
    cbn [lift_state app]. rewrite str_app_cons, str_app_nil_l. rewrite (str_app_cons ":"%char ""), str_app_nil_l.
    cbn [members_go fst snd]. change (jstep maxNestingDepth EndValue [ObjectKey] (code ":")) with (Some (BeginValue, [ObjectValue])).
    cbn [outer last snd].
    etrans; [exact (walk ObjectValue v ltac:(done) BeginValue [] st1 [] (String (chr 34) (key_body k +:+ dquote)) "" acc rest
                      ltac:(done) E1)|].
    done.
  - cbn [jrun]. rewrite Hq, jrun_app.
    destruct (lift_run inner maxNestingDepth [ObjectKey] (inner_room _) _ _ _ _ _ Hw Hk) as [Ek _].
    change (lift_state [ObjectKey] InString) with InString in Ek.
    change (lift_state [ObjectKey] EndValue) with EndValue in Ek. cbn [app] in Ek. rewrite Ek. rewrite (str_app_cons ":"%char ""), str_app_nil_l. cbn [jrun].
    change (jstep maxNestingDepth EndValue [ObjectKey] (code ":")) with (Some (BeginValue, [ObjectValue])).
    by rewrite jrun_app, Hrun.
Qed.

(** The map a text of members decodes to. *)
Definition reread (acc m : row) : row := foldl (fun acc kv => row_set kv.1 (compact kv.2) acc) acc m.

Lemma set_member_reread k v acc : member_ok (k, v) ->
  set_member (encode_key k) (compact v) acc = row_set k (compact v) acc.
Proof.
  intros [Hk Hv]. unfold set_member. rewrite unquote_encode_key by done. by rewrite (compact_trimmed inner).
Qed.

(** After a member's value: the end of the object or the next member. *)
Lemma read_members m : forall k v acc st,
  finished maxNestingDepth [ObjectValue] (Some (st, [ObjectValue])) -> member_ok (k, v) -> Forall member_ok m ->
  members_go (st, [ObjectValue]) (encode_key k) (compact v) acc (marshal_members false m +:+ "}")
  = reread (row_set k (compact v) acc) m /\
  jrun maxNestingDepth (Some (st, [ObjectValue])) (marshal_members false m +:+ "}") = Some (EndTop, []).
Proof.
  induction m as [|[k1 v1] m IH]; intros k v acc st (st' & [= <-] & Hf) Hkv Hm.
  - cbn [marshal_members]. rewrite str_app_nil_l. cbn [members_go jrun fst snd].
    change (code "}") with 125. rewrite (Hf 125) by (right; by left). cbn. by rewrite set_member_reread.
  - apply Forall_cons in Hm as [H1 Hm]. pose proof H1 as [_ Hv1]. cbn [marshal_members]. cbn [fst snd] in *.
    rewrite !str_app_assoc, str_app_cons, str_app_nil_l.
    destruct (read_member BeginString k1 (compact v1) (row_set k (compact v) acc) (marshal_members false m +:+ "}"))
      as (st1 & Hf1 & Em & Ej); [by right|by apply compact_valid|].
    destruct (IH k1 v1 (row_set k (compact v) acc) st1 Hf1 H1 Hm) as [E1 E2].
    cbn [members_go jrun fst snd]. change (code ",") with 44. rewrite (Hf 44) by (by left).
    cbn [endValue is_space Z.eqb orb outer last snd]. split.
    + rewrite set_member_reread by done. etrans; [exact Em|exact E1].
    + etrans; [exact Ej|exact E2].
Qed.

Lemma members_marshalled m : Forall member_ok m -> unmarshal_row (marshalRow m) = Some (Some (reread [] m)).
Proof.
  intros Hm. unfold marshalRow.
  assert (Hread : members_go (BeginStringOrEmpty, [ObjectKey]) "" "" [] (marshal_members true m +:+ "}") = reread [] m /\
    jrun maxNestingDepth (Some (BeginStringOrEmpty, [ObjectKey])) (marshal_members true m +:+ "}") = Some (EndTop, [])).
  { destruct Hm as [|[k v] m H1 Hm]; [done|]. cbn [marshal_members]. rewrite str_app_nil_l, !str_app_assoc.
    pose proof H1 as [_ Hv]. cbn [snd] in Hv.
    destruct (read_member BeginStringOrEmpty k (compact v) [] (marshal_members false m +:+ "}"))
      as (st1 & Hf1 & -> & ->); [by left|by apply compact_valid|]. by apply read_members. }
  destruct Hread as [Em Ej]. rewrite str_app_cons, str_app_nil_l.
  assert (Hfirst : jstep maxNestingDepth BeginValue [] (code "{") = Some (BeginStringOrEmpty, [ObjectKey])) by reflexivity.
  assert (Hvalid : json_valid (String "{" (marshal_members true m +:+ "}")) = true).
  { unfold json_valid, valid_upto. cbn [jrun]. by rewrite Hfirst, Ej. }
  unfold unmarshal_row. rewrite Hvalid. cbn [negb]. rewrite trim_fixed.
  - change (code "{" =? 123) with true. cbn iota. cbn [members_go fst snd]. rewrite Hfirst. cbn [outer last snd].
    by rewrite Em.
  - by intros a t [= <- _].
  - apply (last_kept_app (String "{" (marshal_members true m)) "}"); [done|by apply last_kept_one].
Qed.

(** ** Maps have each key once *)

Lemma compare_lt_trans a b c :
  String.compare a b = Lt -> String.compare b c = Lt -> String.compare a c = Lt.
Proof.
  revert b c. induction a as [|x a IH]; intros [|y b] [|z c]; simpl; try done.
  unfold Ascii.compare.
  destruct (N.compare_spec (N_of_ascii x) (N_of_ascii y)) as [E1|H1|H1], (N.compare_spec (N_of_ascii y) (N_of_ascii z)) as [E2|H2|H2];
    try done; intros Hab Hbc;
    destruct (N.compare_spec (N_of_ascii x) (N_of_ascii z)) as [E3|H3|H3]; try done; try lia. by eapply IH.
Qed.

(** The keys of a row in the order they are kept. *)
Fixpoint ordered (m : row) : Prop :=
  match m with
  | [] => True
  | (k, _) :: m => Forall (fun kv => String.compare k kv.1 = Lt) m /\ ordered m
  end.

Lemma compare_gt k k' : String.compare k k' = Gt -> String.compare k' k = Lt.
Proof. intros E. by rewrite String.compare_antisym, E. Qed.

Lemma row_set_ordered k v m : ordered m -> ordered (row_set k v m).
Proof.
  induction m as [|[k' v'] m IH]; [done|]. cbn [row_set ordered]. intros [Hk Hm].
  destruct (String.compare k k') eqn:E; cbn [ordered].
  - apply String.compare_eq_iff in E as ->. done.
  - split; [|done]. constructor; [done|]. eapply Forall_impl; [exact Hk|]. intros kv. by apply compare_lt_trans.
  - split; [|by apply IH]. apply row_set_ok; [by apply compare_gt|done].
Qed.

Lemma keyColumns_ordered r key : ordered (keyColumns r key).
Proof.
  induction r as [|[c v] r IH]; [done|]. cbn [keyColumns]. destruct (bool_decide _); [by apply row_set_ordered|done].
Qed.

Lemma keyColumns_ok P r key : Forall P r -> Forall P (keyColumns r key).
Proof.
  induction 1 as [|[c v] r Hc _ IH]; [done|]. cbn [keyColumns]. destruct (bool_decide _); [by apply row_set_ok|done].
Qed.

Lemma row_get_above k m : Forall (fun kv => String.compare k kv.1 = Lt) m -> row_get k m = None.
Proof.
  induction 1 as [|[k' v] m Hk _ IH]; [done|]. cbn [row_get]. destruct (String.eqb_spec k k') as [->|]; [|done].
  simpl in Hk. pose proof (String.compare_antisym k' k') as Ea. rewrite Hk in Ea. done.
Qed.

Lemma reread_get m : ordered m -> forall acc k,
  row_get k (reread acc m) = match row_get k m with Some v => Some (compact v) | None => row_get k acc end.
Proof.
  induction m as [|[k' v] m IH]; [done|]. intros [Hk Hm] acc k. cbn [reread foldl row_get].
  change (foldl _ ?a m) with (reread a m). rewrite IH by done. cbn [fst snd]. rewrite row_get_set.
  destruct (String.eqb_spec k k') as [->|]; [by rewrite (row_get_above k' m Hk)|done].
Qed.

(** ** Property *)

(** C30: an oversized insert or delete is published with exactly the key columns
    of its row. The published data is a JSON object, and reading it back gives
    every key column the row has, with the text of its value compacted (blanks
    outside strings removed, the characters HTML gives a meaning escaped), and no
    other column; everything that identifies the event (type, table, position,
    source id, sequence) is kept, and it is marked as truncated. *)
Theorem Truncated_keeps_keys (e : Event) (r : row) :
  Type_ e = Insert \/ Type_ e = Delete -> unmarshal_row (Data e) = Some (Some r) ->
  exists m, unmarshal_row (Data (Truncated e)) = Some (Some m) /\
    (forall k, row_get k m = if bool_decide (k ∈ KeyColumns e) then compact <$> row_get k r else None) /\
    Truncated e = set_data (Data (Truncated e)) true e.
Proof.
  intros Ht Hr. assert (Et : Truncated e = set_data (marshalRow (keyColumns r (KeyColumns e))) true e).
  { unfold Truncated, keyOnly, Stripped. rewrite Hr. by destruct Ht as [-> | ->]. }
  rewrite Et. exists (reread [] (keyColumns r (KeyColumns e))). split_and!; [|intros k|done].
  - apply members_marshalled, keyColumns_ok. by eapply unmarshal_ok.
  - rewrite reread_get, keyColumns_get by apply keyColumns_ordered. by destruct (bool_decide _), (row_get k r).
Qed.

(** ** Witness *)

Lemma Truncated_keeps_keys_witness :
  exists m, unmarshal_row (Data (Truncated doc_insert)) = Some (Some m) /\
    row_get "id" m = Some "7"%string /\ row_get "tenant" m = Some (jq "a") /\ row_get "body" m = None.
Proof.
  destruct (Truncated_keeps_keys doc_insert (members_go (BeginValue, []) "" "" [] (Data doc_insert))) as (m & E & Hm & _).
  - left. reflexivity.
  - vm_compute. reflexivity.
  - exists m. split; [exact E|]. rewrite !Hm. split; [|split]; vm_compute; reflexivity.
Defined.
