(* ===== verification/AckGate.v ===== *)
(** * internal/postgres/ackgate.go: which LSN may be confirmed

    [ackGate] numbers every publishable event in hand-off order, remembers the
    end LSN of each commit with the number of the last event handed before it,
    and confirms a commit once everything handed up to it is acked.  The
    implementation prunes settled commits and merges commits that wait for the
    same event; module [Spec] keeps every commit for ever and recomputes the
    answer, and [AckGate_refines] shows both give the same position after any
    sequence of operations. *)

From stdpp Require Import base list strings gmap sorting.
From Stdlib Require Import ZArith Lia Ascii.
From S2P Require Import Prelude GoStrings Json Event.

Local Open Scope Z_scope.
Local Open Scope go_scope.

Record pendingCommit := mkPending { lastSequence : Z; end_ : Z }.

Record ackGate := mkGate {
  gated : bool;
  acked : Z;
  handed : Z;
  inTxn : bool;
  commits : list pendingCommit;
  confirmable : Z
}.

Definition newAckGate : ackGate := mkGate false 0 0 false [] 0.

Definition Enable (g : ackGate) : ackGate :=
  mkGate true (acked g) (handed g) (inTxn g) (commits g) (confirmable g).

Definition gate_Begin (g : ackGate) : ackGate :=
  mkGate (gated g) (acked g) (handed g) true (commits g) (confirmable g).

(** [Hand]: [g.handed++; event.Sequence = g.handed]. *)
Definition Hand (g : ackGate) (event : Event) : ackGate * Event :=
  let h := handed g +u 1 in
  (mkGate (gated g) (acked g) h (inTxn g) (commits g) (confirmable g),
   set_sequence h event).

Definition Unhand (g : ackGate) : ackGate :=
  mkGate (gated g) (acked g) (handed g -u 1) (inTxn g) (commits g) (confirmable g).

(** [Committed]: the last entry is overwritten in place when it waits on the
    same last change. *)
Definition Committed (g : ackGate) (e : Z) : ackGate :=
  let cs :=
    match last (commits g) with
    | Some c =>
        if lastSequence c =? handed g
        then <[(length (commits g) - 1)%nat := mkPending (lastSequence c) (Z.max (end_ c) e)]>
               (commits g)
        else commits g ++ [mkPending (handed g) e]
    | None => commits g ++ [mkPending (handed g) e]
    end in
  mkGate (gated g) (acked g) (handed g) false cs (confirmable g).

Definition NewSession (g : ackGate) : ackGate :=
  mkGate (gated g) (acked g) (handed g) false (commits g) (confirmable g).

Definition ackedSequence (g : ackGate) : Z := if gated g then acked g else handed g.

Definition Pending (g : ackGate) : bool := ackedSequence g <? handed g.

(** The loop of [settle]: confirms a prefix of the commits and returns the
    rest. *)
Fixpoint settle_loop (a : Z) (cs : list pendingCommit) (conf : Z) : list pendingCommit * Z :=
  match cs with
  | [] => ([], conf)
  | c :: rest =>
      if a <? lastSequence c then (cs, conf)
      else settle_loop a rest (Z.max conf (end_ c))
  end.

Definition settle (g : ackGate) : ackGate :=
  let '(cs, conf) := settle_loop (ackedSequence g) (commits g) (confirmable g) in
  mkGate (gated g) (acked g) (handed g) (inTxn g) cs conf.

Definition Idle (g : ackGate) (position : Z) : ackGate :=
  let g := settle g in
  if inTxn g || (0 <? length (commits g))%nat || Pending g then g
  else mkGate (gated g) (acked g) (handed g) (inTxn g) (commits g)
         (Z.max (confirmable g) position).

Definition Flush (g : ackGate) : ackGate * Z :=
  let g := settle g in (g, confirmable g).

(** [storeMax]: load, compare, compare-and-swap, retry.  [interference] lists
    the values other writers put into the target between our load and our
    compare-and-swap; the swap fails when the value changed. *)
Fixpoint storeMax (current value : Z) (interference : list Z) : Z :=
  if value <=? current then current
  else match interference with
  | [] => value
  | other :: rest =>
      if other =? current then value else storeMax other value rest
  end.

(** [ObservePublished]: the publisher's callback; it is the only writer. *)
Definition ObservePublished (g : ackGate) (event : Event) : ackGate :=
  if Sequence event =? 0 then g
  else mkGate (gated g) (storeMax (acked g) (Sequence event) []) (handed g) (inTxn g)
         (commits g) (confirmable g).

(** ** Operation sequences *)

(** What the listener and the publisher do to a gate.  A change is numbered
    and, when the bus refuses it, taken back at once. *)
Inductive gop :=
| GBegin
| GChange (event : Event) (accepted : bool)
| GCommitted (e : Z)
| GNewSession
| GIdle (position : Z)
| GPublished (event : Event)
| GFlush.

Definition gate_step (g : ackGate) (o : gop) : ackGate :=
  match o with
  | GBegin => gate_Begin g
  | GChange event accepted =>
      let '(g, _) := Hand g event in if accepted then g else Unhand g
  | GCommitted e => Committed g e
  | GNewSession => NewSession g
  | GIdle position => Idle g position
  | GPublished event => ObservePublished g event
  | GFlush => (Flush g).1
  end.

Definition gate_run (g : ackGate) (os : list gop) : ackGate := foldl gate_step g os.

(** ** Reference definition: nothing is ever forgotten *)

Module Spec.

Record spec := mkSpec {
  s_gated : bool;
  s_acked : Z;                       (* highest sequence acked *)
  s_handed : Z;                      (* events handed and accepted *)
  s_inTxn : bool;
  s_commits : list pendingCommit;    (* every commit, oldest first *)
  s_idle : Z                         (* highest idle position taken *)
}.

Definition init (b : bool) : spec := mkSpec b 0 0 false [] 0.

Definition level (s : spec) : Z := if s_gated s then s_acked s else s_handed s.

Definition quiet (s : spec) : bool := negb (s_inTxn s) && (s_handed s <=? level s).

Definition step (s : spec) (o : gop) : spec :=
  match o with
  | GBegin => mkSpec (s_gated s) (s_acked s) (s_handed s) true (s_commits s) (s_idle s)
  | GChange _ accepted =>
      mkSpec (s_gated s) (s_acked s) (if accepted then s_handed s + 1 else s_handed s)
        (s_inTxn s) (s_commits s) (s_idle s)
  | GCommitted e =>
      mkSpec (s_gated s) (s_acked s) (s_handed s) false
        (s_commits s ++ [mkPending (s_handed s) e]) (s_idle s)
  | GNewSession => mkSpec (s_gated s) (s_acked s) (s_handed s) false (s_commits s) (s_idle s)
  | GIdle p =>
      mkSpec (s_gated s) (s_acked s) (s_handed s) (s_inTxn s) (s_commits s)
        (if quiet s then Z.max (s_idle s) p else s_idle s)
  | GPublished ev =>
      mkSpec (s_gated s) (if Sequence ev =? 0 then s_acked s else Z.max (s_acked s) (Sequence ev))
        (s_handed s) (s_inTxn s) (s_commits s) (s_idle s)
  | GFlush => s
  end.

Definition run (s : spec) (os : list gop) : spec := foldl step s os.

(** The highest end among the commits whose events are all acked at level
    [a], and [base]. *)
Fixpoint upto (a : Z) (cs : list pendingCommit) (base : Z) : Z :=
  match cs with
  | [] => base
  | c :: cs =>
      if lastSequence c <=? a then Z.max (end_ c) (upto a cs base) else upto a cs base
  end.

(** The position safe to confirm. *)
Definition confirm (s : spec) : Z := upto (level s) (s_commits s) (s_idle s).

End Spec.
Import Spec.

(** ** Lemmas *)

Lemma upto_app a l l' b : upto a (l ++ l') b = upto a l (upto a l' b).
Proof. induction l as [|c l IH]; simpl; [done|]. by rewrite IH. Qed.

Lemma upto_max a l x b : upto a l (Z.max x b) = Z.max x (upto a l b).
Proof. induction l as [|c l IH]; simpl; [done|]. rewrite IH. bcase; lia. Qed.

Lemma upto_ge_base a l b : b <= upto a l b.
Proof. induction l as [|c l IH]; simpl; bcase; lia. Qed.

Lemma upto_none a l b : Forall (fun c => a < lastSequence c) l -> upto a l b = b.
Proof. induction 1 as [|c l Hc _ IH]; simpl; [done|]. bcase; [lia|done]. Qed.

Lemma upto_in a l b c : c ∈ l -> lastSequence c <= a -> end_ c <= upto a l b.
Proof.
  induction 1 as [c l|c d l _ IH]; intros; simpl; bcase; try lia;
    specialize (IH ltac:(done)); lia.
Qed.

Definition seq_lt (c d : pendingCommit) : Prop := lastSequence c < lastSequence d.

(** On a sorted list the loop of [settle] keeps exactly the commits above the
    ack level and folds the others into the confirmable position. *)
Lemma settle_loop_spec a cs conf rest conf' :
  StronglySorted seq_lt cs -> settle_loop a cs conf = (rest, conf') ->
  conf' = upto a cs conf /\ (exists pre, cs = pre ++ rest) /\
  StronglySorted seq_lt rest /\ Forall (fun c => a < lastSequence c) rest /\
  forall A, a <= A -> upto A rest conf' = upto A cs conf.
Proof.
  revert conf. induction cs as [|c cs IH]; intros conf Hs H; simpl in *.
  { simplify_eq. split_and!; try done. by exists []. }
  apply StronglySorted_inv in Hs as [Hs Hall].
  destruct (Z.ltb_spec a (lastSequence c)).
  - simplify_eq. assert (Hgt : Forall (fun d => a < lastSequence d) (c :: cs)).
    { constructor; [done|]. eapply Forall_impl; [done|]. unfold seq_lt. simpl. lia. }
    pose proof (upto_none a (c :: cs) conf' Hgt) as Hn. simpl in Hn.
    split_and!; try done; [by exists []|]. by constructor.
  - apply IH in H as (-> & [pre ->] & Hs' & Hgt & HA); [|done].
    assert (E : forall A, a <= A ->
              (if lastSequence c <=? A then Z.max (end_ c) (upto A (pre ++ rest) conf)
               else upto A (pre ++ rest) conf) = upto A (pre ++ rest) (Z.max conf (end_ c))).
    { intros A HAa. replace (lastSequence c <=? A) with true by lia.
      by rewrite (Z.max_comm conf), upto_max. }
    split_and!; try done; [by rewrite E | by exists (c :: pre) |].
    intros A HAa. by rewrite E, HA.
Qed.

(** ** Refinement *)

(** Related states agree on the counters, and give the same answer at every
    ack level that can still be reached. *)
Record sim (g : ackGate) (s : spec) : Prop := mkSim {
  sim_gated : gated g = s_gated s;
  sim_acked : acked g = s_acked s;
  sim_handed : handed g = s_handed s;
  sim_inTxn : inTxn g = s_inTxn s;
  sim_sorted : StronglySorted seq_lt (commits g);
  sim_le : Forall (fun c : pendingCommit => lastSequence c <= handed g) (commits g);
  sim_upto : forall A, level s <= A ->
    upto A (commits g) (confirmable g) = upto A (s_commits s) (s_idle s)
}.

Lemma sim_init (b : bool) : sim (if b then Enable newAckGate else newAckGate) (init b).
Proof. destruct b; constructor; try done; constructor. Qed.

Lemma sim_level g s : sim g s -> ackedSequence g = level s.
Proof. intros []. unfold ackedSequence, level. by rewrite sim_gated0, sim_acked0, sim_handed0. Qed.

Lemma sim_settle g s :
  sim g s -> sim (settle g) s /\
    Forall (fun c => level s < lastSequence c) (commits (settle g)) /\
    confirmable (settle g) = confirm s.
Proof.
  intros H. pose proof (sim_level _ _ H) as Hl. destruct H. unfold settle.
  destruct (settle_loop _ _ _) as [cs conf] eqn:E.
  apply settle_loop_spec in E as (-> & [pre Hpre] & Hs & Hgt & HA); [|done].
  rewrite Hl in *. split_and!; simpl; try done.
  - constructor; simpl; try done.
    + rewrite Hpre in sim_le0. by apply Forall_app in sim_le0 as [_ ?].
    + intros A HA'. rewrite HA by done. auto.
  - by apply sim_upto0.
Qed.

Lemma sim_committed g s e : sim g s -> sim (Committed g e) (step s (GCommitted e)).
Proof.
  intros []. unfold Committed.
  assert (Happ : Forall (fun c => lastSequence c <> handed g) (commits g) ->
    sim (mkGate (gated g) (acked g) (handed g) false (commits g ++ [mkPending (handed g) e])
           (confirmable g)) (step s (GCommitted e))).
  { intros Hne. constructor; simpl; try done.
    - apply StronglySorted_snoc; [done|]. apply Forall_forall. intros c Hc.
      rewrite Forall_forall in *. specialize (sim_le0 c Hc). specialize (Hne c Hc).
      unfold seq_lt. simpl. lia.
    - apply Forall_app. split; [done|]. repeat constructor. simpl. lia.
    - intros A HA. rewrite !upto_app. simpl. rewrite <- sim_handed0.
      destruct (handed g <=? A); rewrite ?upto_max; by rewrite sim_upto0. }
  destruct (last (commits g)) as [c|] eqn:El.
  2:{ apply last_None in El. apply Happ. rewrite El. constructor. }
  apply lookup_last_index in El as [l El]. rewrite El in *.
  destruct (Z.eqb_spec (lastSequence c) (handed g)) as [Hc|Hc].
  - clear Happ. rewrite insert_last.
    apply Forall_app in sim_le0 as [? _].
    constructor; simpl; try done.
    + apply StronglySorted_app in sim_sorted0 as (Hx & Hl & _).
      apply StronglySorted_snoc; [done|]. apply Forall_forall. intros d Hd.
      apply (Hx d c); [done|]. by apply list_elem_of_singleton.
    + apply Forall_app. split; [done|]. repeat constructor. simpl. lia.
    + intros A HA. specialize (sim_upto0 A HA). rewrite upto_app in *. simpl in *.
      rewrite upto_app. simpl. rewrite <- sim_handed0, <- Hc.
      destruct (lastSequence c <=? A); rewrite ?upto_max in *; lia.
  - apply Happ. apply Forall_app. split; [|by repeat constructor].
    apply StronglySorted_app in sim_sorted0 as (Hx & _ & _).
    apply Forall_app in sim_le0 as [_ Hlc]. apply Forall_cons in Hlc as [Hlc _].
    apply Forall_forall. intros d Hd.
    specialize (Hx d c Hd ltac:(by apply list_elem_of_singleton)). unfold seq_lt in Hx. simpl. lia.
Qed.

Lemma sim_idle g s p : sim g s -> sim (Idle g p) (step s (GIdle p)).
Proof.
  intros H. pose proof H as H0. apply sim_settle in H as (H & Hgt & _).
  unfold Idle. set (g' := settle g) in *. clearbody g'.
  pose proof (sim_level _ _ H) as Hl. destruct H.
  assert (Hc : inTxn g' || (0 <? length (commits g'))%nat || Pending g' = negb (quiet s)).
  { unfold quiet, Pending. rewrite Hl, sim_inTxn0, sim_handed0.
    destruct (s_inTxn s); [done|]. simpl.
    destruct (commits g') as [|c cs] eqn:Ecs; simpl; [lia|].
    apply Forall_cons in Hgt as [? _]. apply Forall_cons in sim_le0 as [? _].
    rewrite sim_handed0 in *. lia. }
  rewrite Hc. simpl. destruct (quiet s); simpl; constructor; simpl; try done.
  intros A HA. rewrite (Z.max_comm (confirmable g')), (Z.max_comm (s_idle s)).
  by rewrite !upto_max, sim_upto0.
Qed.

Lemma sim_change g s ev b :
  sim g s -> 0 <= s_handed s < 2 ^ 64 - 1 ->
  sim (gate_step g (GChange ev b)) (step s (GChange ev b)).
Proof.
  intros [] Hb. simpl. rewrite <- sim_handed0 in Hb.
  assert (E1 : handed g +u 1 = handed g + 1) by (apply u64_small; lia).
  assert (E2 : handed g + 1 -u 1 = handed g) by (rewrite u64_small; lia).
  destruct b; constructor; simpl; rewrite ?E1, ?E2; try done; try lia.
  - eapply Forall_impl; [done|]. simpl. lia.
  - unfold level in *. simpl. intros A HA. apply sim_upto0.
    destruct (s_gated s); [done|]. lia.
Qed.

Lemma storeMax_alone c v : storeMax c v [] = Z.max c v.
Proof. simpl. bcase; lia. Qed.

Lemma sim_step g s o :
  sim g s -> 0 <= s_handed s < 2 ^ 64 - 1 -> sim (gate_step g o) (step s o).
Proof.
  intros H Hb. destruct o; try (by destruct H; constructor).
  - by apply sim_change.
  - by apply sim_committed.
  - by apply sim_idle.
  - simpl. unfold ObservePublished. destruct H. destruct (Sequence event =? 0); [done|].
    rewrite storeMax_alone. constructor; simpl; try done; [by rewrite sim_acked0|].
    intros A HA. apply sim_upto0. unfold level in *. simpl in *. destruct (s_gated s); lia.
  - by apply sim_settle.
Qed.

Lemma handed_step s o : s_handed s <= s_handed (step s o) <= s_handed s + 1.
Proof. destruct o; simpl; try lia. destruct accepted; lia. Qed.

Lemma sim_run os g s :
  sim g s -> 0 <= s_handed s -> s_handed s + Z.of_nat (length os) < 2 ^ 64 ->
  sim (gate_run g os) (run s os).
Proof.
  revert g s. induction os as [|o os IH]; intros g s H H0 Hb; [done|]. simpl in *.
  pose proof (handed_step s o). apply IH; [|lia|lia]. apply sim_step; [done|lia].
Qed.

Lemma upto_mono_level a a' l b : a <= a' -> upto a l b <= upto a' l b.
Proof. intros. induction l as [|c l IH]; simpl; [lia|]. bcase; lia. Qed.

Lemma upto_mono_base a l b b' : b <= b' -> upto a l b <= upto a l b'.
Proof. intros. induction l as [|c l IH]; simpl; [lia|]. bcase; lia. Qed.

Lemma confirm_mono s o : confirm s <= confirm (step s o).
Proof.
  unfold confirm, level. destruct o; simpl; try done; try lia.
  - destruct (s_gated s); [done|]. apply upto_mono_level. destruct accepted; lia.
  - rewrite upto_app. apply upto_mono_base. apply upto_ge_base.
  - apply upto_mono_base. destruct (quiet s); lia.
  - destruct (s_gated s); [|done]. apply upto_mono_level. bcase; lia.
Qed.

(** The gate of a listener with ([b = true]) or without a wired publisher. *)
Definition start_gate (b : bool) : ackGate := if b then Enable newAckGate else newAckGate.

Lemma gate_run_sim b os :
  Z.of_nat (length os) < 2 ^ 64 -> sim (gate_run (start_gate b) os) (run (init b) os).
Proof. intros. apply sim_run; simpl; [apply sim_init|lia|lia]. Qed.

Lemma sorted_range_length lo hi (l : list pendingCommit) :
  StronglySorted seq_lt l ->
  Forall (fun c => lo < lastSequence c) l -> Forall (fun c => lastSequence c <= hi) l ->
  Z.of_nat (length l) <= Z.max 0 (hi - lo).
Proof.
  intros Hs. revert lo. induction Hs as [|c l Hs IH Hc]; intros lo Hlo Hhi; simpl; [lia|].
  apply Forall_cons in Hlo as [? _]. apply Forall_cons in Hhi as [? ?].
  specialize (IH (lastSequence c) Hc ltac:(done)). lia.
Qed.

(** ** Properties *)

(** C6: after any sequence of gate operations (fewer than 2^64 of them, so the
    sequence counter does not wrap), the position [Flush] returns is the one
    the reference definition gives: the highest end among all commits ever seen
    whose handed events are all acked, or a higher idle position that was
    offered while nothing was outstanding.  Pruning settled commits and merging
    commits that wait for the same event change nothing. *)
Theorem AckGate_refines (b : bool) (os : list gop) :
  Z.of_nat (length os) < 2 ^ 64 ->
  (Flush (gate_run (start_gate b) os)).2 = confirm (run (init b) os).
Proof. intros. by apply sim_settle, gate_run_sim. Qed.

(** The position offered for confirmation never moves backwards, whatever
    the next operation is (a re-streamed older commit, a reconnect, a late
    ack). *)
Theorem AckGate_monotone (b : bool) (os : list gop) (o : gop) :
  Z.of_nat (length os) + 1 < 2 ^ 64 ->
  (Flush (gate_run (start_gate b) os)).2 <= (Flush (gate_run (start_gate b) (os ++ [o]))).2.
Proof.
  intros. destruct (sim_settle _ _ (gate_run_sim b os ltac:(lia))) as (_ & _ & H1).
  destruct (sim_settle _ _ (gate_run_sim b (os ++ [o]) ltac:(rewrite length_app; simpl; lia)))
    as (_ & _ & H2).
  simpl. rewrite H1, H2. unfold run. rewrite foldl_snoc. apply confirm_mono.
Qed.

(** However long the publisher stalls, the gate holds at most one pending
    commit per event that awaits its ack. *)
Theorem AckGate_bounded (os : list gop) (g := (Flush (gate_run (start_gate true) os)).1) :
  Z.of_nat (length os) < 2 ^ 64 ->
  Z.of_nat (length (commits g)) <= Z.max 0 (handed g - acked g).
Proof.
  intros H. subst g. pose proof (gate_run_sim true os H) as Hs.
  apply sim_settle in Hs as (Hs & Hgt & _). simpl.
  pose proof (sim_level _ _ Hs) as Hl. destruct Hs.
  apply sorted_range_length; [done| |done].
  unfold ackedSequence in Hl. rewrite sim_gated0 in Hl.
  assert (Hg : s_gated (run (init true) os) = true).
  { clear. induction os as [|o os IH] using rev_ind; [done|].
    unfold run. rewrite foldl_snoc. by destruct o. }
  rewrite Hg in Hl. rewrite <- Hl in Hgt. exact Hgt.
Qed.

(** A transaction of two changes and an empty one behind it; the first ack
    confirms nothing, the second confirms both commits. *)
Definition demo_event : Event := NewEvent 0 Insert "public" "t" "{}" "INSERT" "".

Definition demo_ops : list gop :=
  [GBegin; GChange demo_event true; GChange demo_event true; GCommitted 200;
   GBegin; GCommitted 250; GPublished (set_sequence 1 demo_event);
   GPublished (set_sequence 2 demo_event); GIdle 300].

Lemma AckGate_refines_witness :
  (Flush (gate_run (start_gate true) demo_ops)).2 = 300 /\
  (Flush (gate_run (start_gate true) (take 7 demo_ops))).2 = 0 /\
  confirm (run (init true) demo_ops) = 300.
Proof.
  split_and!; [|reflexivity|].
  - rewrite (AckGate_refines true demo_ops); [reflexivity|]. simpl. lia.
  - reflexivity.
Defined.

Lemma AckGate_monotone_witness :
  (Flush (gate_run (start_gate true) demo_ops)).2
  <= (Flush (gate_run (start_gate true) (demo_ops ++ [GCommitted 100]))).2.
Proof. apply (AckGate_monotone true demo_ops (GCommitted 100)). simpl. lia. Defined.

Lemma AckGate_bounded_witness :
  Z.of_nat (length (commits (Flush (gate_run (start_gate true) (take 6 demo_ops))).1)) <= 2.
Proof.
  eapply Z.le_trans; [apply (AckGate_bounded (take 6 demo_ops)); simpl; lia|].
  vm_compute. discriminate.
Defined.
