(* ===== verification/Service.v ===== *)
(** * internal/cdc/service.go: the event bus

    Subscribers are buffered channels; [HandleEvent] validates an event and
    sends it to every global subscriber and, for row events, to the subscribers
    of its table, blocking on a full buffer.

    A producer blocked in [deliver] holds the service's read lock, so only
    channel receives, other producers, [unsubscribe]'s [stop] and the [closed]
    flag can change anything meanwhile: the list of [act]s passed to an operation
    says what happens, and which ready case [select] picks, while it is blocked.
    An operation that is still blocked when the list ends has not returned. *)

From stdpp Require Import base list strings gmap.
From Stdlib Require Import ZArith Lia Ascii.
From S2P Require Import Prelude GoStrings Json Event.

Local Open Scope Z_scope.

Definition defaultChanBuffer : Z := 100000.
Definition backpressureLogEvery : Z := 10000000000.  (* nanoseconds *)

(** [taken] is ghost state: the events the consumer has received so far. *)
Record subscriber := mkSub {
  taken : list Event;
  ch : list Event;
  ch_closed : bool;
  lastWarnAt : Z;
  done_ : bool
}.

Record Service := mkService {
  subs : gmap nat subscriber;          (* the subscribers allocated so far *)
  next : nat;
  tableSubs : gmap string (list nat);
  globalSubs : list nat;
  running : bool;
  closed : bool;
  events_total : gmap string Z         (* cdc_events_total, by type *)
}.

(** How an operation ends: it returns, it is still blocked, or it panics (send
    on a closed channel, close of a closed channel, nil dereference). *)
Inductive outcome (A : Type) : Type :=
| Returned (a : A)
| Blocked
| Panicked.
Arguments Returned {A} a.
Arguments Blocked {A}.
Arguments Panicked {A}.

#[export] Instance outcome_ret : MRet outcome := @Returned.
#[export] Instance outcome_bind : MBind outcome := fun A B f o =>
  match o with Returned a => f a | Blocked => Blocked | Panicked => Panicked end.

(** What can happen while a producer is blocked, and which case its [select]
    takes. *)
Inductive act :=
| ARecv (id : nat)                 (* the consumer of [id] receives *)
| AEnq (id : nat) (ev : Event)     (* another producer sends to [id] *)
| AStop (id : nat)                 (* unsubscribe closes [id]'s done channel *)
| AShut                            (* Shutdown sets the closed flag *)
| ASend                            (* case sub.ch <- event *)
| ADone                            (* case <-sub.done *)
| ATick.                           (* case <-time.After(100ms) *)

Definition NewService : Service := mkService ∅ 0 ∅ [] false false ∅.
Definition newSubscriber : subscriber := mkSub [] [] false 0 false.

Definition set_subs (m : gmap nat subscriber) (s : Service) : Service :=
  mkService m (next s) (tableSubs s) (globalSubs s) (running s) (closed s) (events_total s).
Definition set_closed (s : Service) : Service :=
  mkService (subs s) (next s) (tableSubs s) (globalSubs s) (running s) true (events_total s).
Definition update_sub (f : subscriber -> subscriber) (id : nat) (s : Service) : Service :=
  set_subs (alter f id (subs s)) s.

(** [sub.stop()]: closes [done] once. *)
Definition stop (id : nat) (s : Service) : Service :=
  update_sub (fun u => mkSub (taken u) (ch u) (ch_closed u) (lastWarnAt u) true) id s.

Definition enqueue (ev : Event) (u : subscriber) : subscriber :=
  mkSub (taken u) (ch u ++ [ev]) (ch_closed u) (lastWarnAt u) (done_ u).

Definition room (u : subscriber) : bool := Z.of_nat (length (ch u)) <? defaultChanBuffer.

(** A receive from the channel. *)
Definition dequeue (u : subscriber) : subscriber :=
  match ch u with
  | [] => u
  | e :: rest => mkSub (taken u ++ [e]) rest (ch_closed u) (lastWarnAt u) (done_ u)
  end.

(** A send that another producer completes: only when there is room. *)
Definition enqueue_other (ev : Event) (u : subscriber) : subscriber :=
  if room u && negb (ch_closed u) then enqueue ev u else u.

(** ** Subscribing *)

Definition alloc (s : Service) : Service * nat :=
  (mkService (<[next s := newSubscriber]> (subs s)) (S (next s)) (tableSubs s) (globalSubs s)
     (running s) (closed s) (events_total s), next s).

Definition set_tableSubs (m : gmap string (list nat)) (s : Service) : Service :=
  mkService (subs s) (next s) m (globalSubs s) (running s) (closed s) (events_total s).
Definition set_globalSubs (l : list nat) (s : Service) : Service :=
  mkService (subs s) (next s) (tableSubs s) l (running s) (closed s) (events_total s).

Definition table_list (s : Service) (table : string) : list nat :=
  default [] (tableSubs s !! table).

Definition Subscribe (table : string) (s : Service) : Service * nat :=
  let '(s, id) := alloc s in
  (set_tableSubs (<[table := table_list s table ++ [id]]> (tableSubs s)) s, id).

Definition SubscribeAll (s : Service) : Service * nat :=
  let '(s, id) := alloc s in (set_globalSubs (globalSubs s ++ [id]) s, id).

(** [append(subs[:i], subs[i+1:]...)] at the first [i] that holds [id]. *)
Fixpoint remove_first (id : nat) (l : list nat) : list nat :=
  match l with
  | [] => []
  | x :: l => if decide (x = id) then l else x :: remove_first id l
  end.

(** The function [Subscribe] returns. *)
Definition unsubscribe (table : string) (id : nat) (s : Service) : Service :=
  let s := stop id s in
  let l := table_list s table in
  let s := if decide (id ∈ l)
           then set_tableSubs (<[table := remove_first id l]> (tableSubs s)) s else s in
  match table_list s table with
  | [] => set_tableSubs (delete table (tableSubs s)) s
  | _ => s
  end.

(** The function [SubscribeAll] returns. *)
Definition unsubscribeAll (id : nat) (s : Service) : Service :=
  let s := stop id s in set_globalSubs (remove_first id (globalSubs s)) s.

(** ** Delivery *)

(** One non-[select] event while blocked. *)
Definition env_act (a : act) (s : Service) : Service :=
  match a with
  | ARecv i => update_sub dequeue i s
  | AEnq i ev => update_sub (enqueue_other ev) i s
  | AStop i => stop i s
  | AShut => set_closed s
  | ASend | ADone | ATick => s
  end.

(** The blocking loop: the channel, [done], or the 100 ms tick. *)
Fixpoint deliver_block (acts : list act) (s : Service) (id : nat) (ev : Event)
    : outcome (Service * list act) :=
  match acts with
  | [] => Blocked
  | a :: rest =>
      match subs s !! id with
      | None => Panicked
      | Some u =>
          if ch_closed u then Panicked
          else match a with
          | ASend => if room u then Returned (update_sub (enqueue ev) id s, rest)
                     else deliver_block rest s id ev
          | ADone => if done_ u then Returned (s, rest) else deliver_block rest s id ev
          | ATick => if closed s then Returned (s, rest) else deliver_block rest s id ev
          | _ => deliver_block rest (env_act a s) id ev
          end
      end
  end.

(** The rate-limited warning before blocking. *)
Definition warn (now : Z) (u : subscriber) : subscriber :=
  if backpressureLogEvery <=? now - lastWarnAt u
  then mkSub (taken u) (ch u) (ch_closed u) now (done_ u) else u.

Definition deliver (now : Z) (acts : list act) (s : Service) (id : nat) (ev : Event)
    : outcome (Service * list act) :=
  match subs s !! id with
  | None => Panicked
  | Some u =>
      if ch_closed u then Panicked
      else if room u then Returned (update_sub (enqueue ev) id s, acts)
      else deliver_block acts (update_sub (warn now) id s) id ev
  end.

Fixpoint deliver_all (now : Z) (ids : list nat) (acts : list act) (s : Service) (ev : Event)
    : outcome (Service * list act) :=
  match ids with
  | [] => Returned (s, acts)
  | id :: ids => '(s, acts) ← deliver now acts s id ev; deliver_all now ids acts s ev
  end.

Definition isValidJSON (data : string) : bool := json_valid data.

(** Why [HandleEvent] refuses an event. *)
Definition refused (s : Service) (ev : Event) : bool :=
  closed s
  || (isTableEvent (Type_ ev) && negb (bool_decide (Data ev = ""%string))
      && negb (isValidJSON (Data ev))).

Definition inc_event (ev : Event) (s : Service) : Service :=
  let k := EventType_String (Type_ ev) in
  mkService (subs s) (next s) (tableSubs s) (globalSubs s) (running s) (closed s)
    (<[k := default 0 (events_total s !! k) + 1]> (events_total s)).

Definition HandleEvent (now : Z) (acts : list act) (s : Service) (ev : Event)
    : outcome (Service * list act * bool) :=
  if refused s ev then Returned (s, acts, false)
  else
    '(s, acts) ← deliver_all now (globalSubs s) acts (inc_event ev s) ev;
    '(s, acts) ← (if negb (bool_decide (Table ev = ""%string)) && isTableEvent (Type_ ev)
                  then deliver_all now (table_list s (Table ev)) acts s ev
                  else Returned (s, acts));
    Returned (s, acts, true).

(** ** The rest of the interface *)

Definition MarkRunning (s : Service) : Service :=
  mkService (subs s) (next s) (tableSubs s) (globalSubs s) true (closed s) (events_total s).
Definition IsRunning (s : Service) : bool := running s.

Definition SubscriberCount (s : Service) (table : string) : nat := length (table_list s table).
Definition HasTableSubscribers (s : Service) (table : string) : bool :=
  bool_decide (is_Some (tableSubs s !! table)).
Definition TotalSubscriberCount (s : Service) : nat :=
  (length (globalSubs s) + sum_list (map (fun kv => length kv.2) (map_to_list (tableSubs s))))%nat.

(** [close(sub.ch)] on each subscriber of a list. *)
Fixpoint close_chans (ids : list nat) (m : gmap nat subscriber) : outcome (gmap nat subscriber) :=
  match ids with
  | [] => Returned m
  | id :: ids =>
      match m !! id with
      | None => Panicked
      | Some u =>
          if ch_closed u then Panicked
          else close_chans ids (<[id := mkSub (taken u) (ch u) true (lastWarnAt u) (done_ u)]> m)
      end
  end.

(** All registered subscribers, global ones first. *)
Definition registered_list (s : Service) : list nat :=
  globalSubs s ++ mjoin (map snd (map_to_list (tableSubs s))).

(** The part of [Shutdown] under the write lock. *)
Definition Shutdown_locked (s : Service) : outcome Service :=
  m ← close_chans (registered_list s) (subs s);
  Returned (mkService m (next s) ∅ [] (running s) (closed s) (events_total s)).

(** [Shutdown]: the flag is swapped first, without the lock (a blocked producer
    sees it, [AShut]), then the channels are closed. *)
Definition Shutdown (s : Service) : outcome Service :=
  if closed s then Returned s else Shutdown_locked (set_closed s).

(** ** Well-formedness: what every operation relies on and preserves *)

Definition registered (s : Service) (id : nat) : Prop :=
  id ∈ globalSubs s \/ exists t l, tableSubs s !! t = Some l /\ id ∈ l.

Record wf (s : Service) : Prop := mkWf {
  wf_open : forall id, registered s id ->
    exists u, subs s !! id = Some u /\ ch_closed u = false;
  wf_next : forall id, is_Some (subs s !! id) -> (id < next s)%nat;
  wf_global : NoDup (globalSubs s);
  wf_table : forall t l, tableSubs s !! t = Some l -> NoDup l /\ l <> [];
  wf_disjoint : forall t l id, tableSubs s !! t = Some l -> id ∈ l -> id ∉ globalSubs s;
  wf_tables : forall t t' l l' id,
    tableSubs s !! t = Some l -> tableSubs s !! t' = Some l' -> id ∈ l -> id ∈ l' -> t = t'
}.

Lemma wf_new : wf NewService.
Proof.
  split; try done.
  - intros id [H|(t & l & H & _)]; [by apply not_elem_of_nil in H | simpl in H; by rewrite lookup_empty in H].
  - intros id [u H]. simpl in H. by rewrite lookup_empty in H.
  - constructor.
Qed.

(** Changing one subscriber without closing or opening its channel. *)
Lemma wf_update_sub f id s :
  (forall u, ch_closed (f u) = ch_closed u) -> wf s -> wf (update_sub f id s).
Proof.
  intros Hf []. split; simpl; try done.
  - intros i Hi. destruct (wf_open0 i Hi) as (u & Hu & Hc). rewrite lookup_alter.
    case_decide; subst; rewrite Hu; simpl; [|eauto]. exists (f u). by rewrite Hf.
  - intros i. rewrite lookup_alter. case_decide; subst; rewrite ?fmap_is_Some; auto.
Qed.

Lemma wf_stop id s : wf s -> wf (stop id s).
Proof. by apply wf_update_sub. Qed.

Lemma dequeue_closed u : ch_closed (dequeue u) = ch_closed u.
Proof. unfold dequeue. by destruct (ch u). Qed.

Lemma enqueue_other_closed ev u : ch_closed (enqueue_other ev u) = ch_closed u.
Proof. unfold enqueue_other. by case_match. Qed.

Lemma warn_closed now u : ch_closed (warn now u) = ch_closed u.
Proof. unfold warn. by case_match. Qed.

Lemma wf_env_act a s : wf s -> wf (env_act a s).
Proof.
  intros H. destruct a; simpl; try done.
  - apply wf_update_sub; [apply dequeue_closed | done].
  - apply wf_update_sub; [apply enqueue_other_closed | done].
  - by apply wf_stop.
  - by destruct H.
Qed.

Lemma wf_alloc s : wf s -> wf (alloc s).1 /\ ~ registered s (next s).
Proof.
  intros []. assert (Hf : subs s !! next s = None).
  { apply eq_None_not_Some. intros H. apply wf_next0 in H. lia. }
  assert (Hnr : ~ registered s (next s)).
  { intros H. apply wf_open0 in H as (u & Hu & _). congruence. }
  split; [|done]. split; simpl; try done.
  - intros i Hi. destruct (wf_open0 i Hi) as (u & Hu & Hc).
    rewrite lookup_insert_ne by (intros <-; congruence). eauto.
  - intros i. rewrite lookup_insert. case_decide; [lia|]. intros Hi. apply wf_next0 in Hi. lia.
Qed.

Lemma registered_alloc s id : registered (alloc s).1 id <-> registered s id.
Proof. done. Qed.

Lemma table_list_Some s t l : tableSubs s !! t = Some l -> table_list s t = l.
Proof. unfold table_list. by intros ->. Qed.

Lemma table_list_registered s t id : id ∈ table_list s t -> registered s id.
Proof.
  unfold table_list. destruct (tableSubs s !! t) as [l|] eqn:E; simpl.
  - intros. right. eauto.
  - intros H. by apply not_elem_of_nil in H.
Qed.

Lemma elem_of_table_list s t i :
  i ∈ table_list s t -> exists l, tableSubs s !! t = Some l /\ i ∈ l.
Proof.
  unfold table_list. destruct (tableSubs s !! t) as [l|]; simpl; [eauto|].
  intros H. by apply not_elem_of_nil in H.
Qed.

(** The entries of the table map after a subscription to [t]. *)
Lemma lookup_Subscribe s t id t' l i :
  <[t := table_list s t ++ [id]]> (tableSubs s) !! t' = Some l -> i ∈ l ->
  (i = id /\ t' = t) \/ exists l', tableSubs s !! t' = Some l' /\ i ∈ l'.
Proof.
  rewrite lookup_insert. case_decide; [|eauto]. subst. intros [= <-] Hi.
  apply elem_of_app in Hi as [Hi|Hi]; [|apply list_elem_of_singleton in Hi; auto].
  right. by apply elem_of_table_list.
Qed.

Lemma wf_Subscribe t s : wf s -> wf (Subscribe t s).1.
Proof.
  intros H. destruct (wf_alloc s H) as [[Ho Hn Hg Ht Hd Htt] Hnr].
  unfold Subscribe, alloc in *. simpl in *.
  set (id := next s) in *.
  change (table_list _ t) with (table_list s t).
  assert (Hid : forall t' l, tableSubs s !! t' = Some l -> id ∉ l).
  { intros t' l Hl Hin. apply Hnr. right. eauto. }
  split; simpl; try done.
  - intros i [Hi|(t' & l & Hl & Hi)]; [by apply Ho; left|]. simpl in Hl.
    destruct (lookup_Subscribe _ _ _ _ _ _ Hl Hi) as [[-> _]|(l' & ? & ?)].
    + rewrite lookup_insert_eq. eauto.
    + apply Ho. right. eauto.
  - intros t' l. rewrite lookup_insert. case_decide; [|by apply Ht].
    intros [= <-]. split; [|by destruct (table_list s t)].
    apply NoDup_app. split_and!; [| |by apply NoDup_singleton].
    + unfold table_list. destruct (tableSubs s !! t) as [l'|] eqn:El; simpl; [|constructor].
      by apply Ht in El as [? _].
    + intros i Hi Hi'. apply list_elem_of_singleton in Hi' as ->.
      apply elem_of_table_list in Hi as (l' & ? & ?). by eapply Hid.
  - intros t' l i Hl Hi Hgl.
    destruct (lookup_Subscribe _ _ _ _ _ _ Hl Hi) as [[-> _]|(l' & ? & ?)]; [|by eapply Hd].
    apply Hnr. by left.
  - intros t1 t2 l1 l2 i H1 H2 Hi1 Hi2.
    destruct (lookup_Subscribe _ _ _ _ _ _ H1 Hi1) as [[-> ->]|(l1' & ? & ?)];
      destruct (lookup_Subscribe _ _ _ _ _ _ H2 Hi2) as [[? ->]|(l2' & ? & ?)];
      subst; try done; [|..]; try (exfalso; by eapply Hid). by eapply Htt.
Qed.

Lemma wf_SubscribeAll s : wf s -> wf (SubscribeAll s).1.
Proof.
  intros H. destruct (wf_alloc s H) as [[Ho Hn Hg Ht Hd Htt] Hnr].
  unfold SubscribeAll, alloc in *. simpl in *. split; simpl; try done.
  - intros i [Hi|Hi]; simpl in *; [|by apply Ho; right].
    apply elem_of_app in Hi as [Hi|Hi]; [by apply Ho; left|].
    apply list_elem_of_singleton in Hi as ->. rewrite lookup_insert_eq. eauto.
  - apply NoDup_app. split_and!; [done| |by apply NoDup_singleton].
    intros i Hi Hi'. apply list_elem_of_singleton in Hi' as ->. apply Hnr. by left.
  - intros t l i Hl Hi Hgl. apply elem_of_app in Hgl as [Hgl|Hgl]; [by eapply Hd|].
    apply list_elem_of_singleton in Hgl as ->. apply Hnr. right. eauto.
Qed.

Lemma remove_first_sub id l i : i ∈ remove_first id l -> i ∈ l.
Proof.
  induction l as [|x l IH]; simpl; [done|]. destruct (decide (x = id)); set_solver.
Qed.

Lemma remove_first_gone id l : NoDup l -> id ∉ remove_first id l.
Proof.
  induction 1 as [|x l Hx _ IH]; simpl; [apply not_elem_of_nil|].
  destruct (decide (x = id)); subst; set_solver.
Qed.

Lemma remove_first_NoDup id l : NoDup l -> NoDup (remove_first id l).
Proof.
  induction 1 as [|x l Hx Hl IH]; simpl; [constructor|]. case_decide; [done|].
  constructor; [|done]. intros Hin. by apply remove_first_sub in Hin.
Qed.

(** Shrinking the registration lists keeps the service well formed. *)
Lemma wf_shrink s m g :
  wf s -> (forall i, i ∈ g -> i ∈ globalSubs s) -> NoDup g ->
  (forall t l, m !! t = Some l -> NoDup l /\ l <> [] /\
     exists l', tableSubs s !! t = Some l' /\ forall i, i ∈ l -> i ∈ l') ->
  wf (mkService (subs s) (next s) m g (running s) (closed s) (events_total s)).
Proof.
  intros [] Hg Hnd Hm. split; simpl; try done.
  - intros i [Hi|(t & l & Hl & Hi)]; simpl in *; apply wf_open0; [left; auto|].
    apply Hm in Hl as (_ & _ & l' & Hl' & Hsub). right. eauto.
  - intros t l Hl. by apply Hm in Hl as (? & ? & _).
  - intros t l i Hl Hi Hin. apply Hm in Hl as (_ & _ & l' & Hl' & Hsub).
    eapply wf_disjoint0; eauto.
  - intros t1 t2 l1 l2 i H1 H2 Hi1 Hi2.
    apply Hm in H1 as (_ & _ & l1' & ? & ?). apply Hm in H2 as (_ & _ & l2' & ? & ?). eauto.
Qed.

Lemma wf_unsubscribe t id s : wf s -> wf (unsubscribe t id s).
Proof.
  intros H. apply (wf_stop id) in H. unfold unsubscribe. set (s1 := stop id s) in *.
  clearbody s1. set (l := table_list s1 t).
  assert (Hrest : forall l', l' = remove_first id l -> id ∈ l ->
    wf (match l' with
        | [] => set_tableSubs (delete t (<[t:=l']> (tableSubs s1))) s1
        | _ => set_tableSubs (<[t:=l']> (tableSubs s1)) s1
        end)).
  { intros l' El' Hin. apply elem_of_table_list in Hin as (l0 & Hl0 & Hin).
    assert (l = l0) by by apply table_list_Some. subst l0.
    pose proof (wf_table _ H _ _ Hl0) as [Hnd _].
    assert (Hothers : forall t' l1, t <> t' -> tableSubs s1 !! t' = Some l1 ->
      NoDup l1 /\ l1 <> [] /\ exists l2, tableSubs s1 !! t' = Some l2 /\ forall i, i ∈ l1 -> i ∈ l2).
    { intros t' l1 _ Hl1. destruct (wf_table _ H _ _ Hl1). eauto. }
    destruct l' as [|x l'].
    - apply wf_shrink; [done|done|apply H|]. intros t' l1 Hl1.
      rewrite delete_insert_eq in Hl1. apply lookup_delete_Some in Hl1 as [? ?]. auto.
    - apply wf_shrink; [done|done|apply H|]. intros t' l1 Hl1.
      rewrite lookup_insert in Hl1. case_decide; simplify_eq; [|auto].
      split_and!; [rewrite El'; by apply remove_first_NoDup|done|].
      exists l. split; [done|]. intros i. rewrite El'. apply remove_first_sub. }
  case_decide as Hin.
  - specialize (Hrest _ eq_refl Hin).
    rewrite (table_list_Some _ t (remove_first id l)) by (simpl; by rewrite lookup_insert_eq).
    by destruct (remove_first id l).
  - destruct (table_list s1 t) as [|x l0] eqn:E; [|done].
    apply wf_shrink; [done|done|apply H|]. intros t' l1 Hl1.
    apply lookup_delete_Some in Hl1 as [_ Hl1]. destruct (wf_table _ H _ _ Hl1). eauto.
Qed.

Lemma wf_unsubscribeAll id s : wf s -> wf (unsubscribeAll id s).
Proof.
  intros H. apply (wf_stop id) in H. unfold unsubscribeAll. set (s1 := stop id s) in *.
  clearbody s1. apply wf_shrink; [done| | |].
  - intros i. apply remove_first_sub.
  - apply remove_first_NoDup, H.
  - intros t l Hl. destruct (wf_table _ H _ _ Hl). eauto.
Qed.

(** ** Delivery keeps the service well formed and never panics *)

(** [o] did not panic, and if it returned the registrations are those of [s]
    and the service is well formed. *)
Definition safe_outcome (s : Service) (o : outcome (Service * list act)) : Prop :=
  match o with
  | Returned (s', _) => wf s' /\ tableSubs s' = tableSubs s /\ globalSubs s' = globalSubs s
  | Blocked => True
  | Panicked => False
  end.

Lemma env_act_regs a s :
  tableSubs (env_act a s) = tableSubs s /\ globalSubs (env_act a s) = globalSubs s.
Proof. by destruct a. Qed.

Lemma registered_same s s' id :
  tableSubs s' = tableSubs s -> globalSubs s' = globalSubs s ->
  registered s id -> registered s' id.
Proof. unfold registered. by intros -> ->. Qed.

Lemma wf_enqueue id ev s : wf s -> wf (update_sub (enqueue ev) id s).
Proof. by apply wf_update_sub. Qed.

Lemma deliver_block_safe acts s id ev :
  wf s -> registered s id -> safe_outcome s (deliver_block acts s id ev).
Proof.
  revert s. induction acts as [|a acts IH]; intros s Hwf Hreg; [done|].
  simpl. destruct (wf_open s Hwf id Hreg) as (u & -> & ->).
  assert (Hstep : safe_outcome s (deliver_block acts (env_act a s) id ev)).
  { destruct (env_act_regs a s) as [Et Eg].
    specialize (IH (env_act a s) (wf_env_act a s Hwf) (registered_same _ _ _ Et Eg Hreg)).
    unfold safe_outcome in *. case_match; try done. case_match. by rewrite Et, Eg in IH. }
  destruct a; try done.
  - destruct (room u); [|by apply IH]. split_and!; try done. by apply wf_enqueue.
  - destruct (done_ u); [done|by apply IH].
  - destruct (closed s); [done|by apply IH].
Qed.

Lemma deliver_safe now acts s id ev :
  wf s -> registered s id -> safe_outcome s (deliver now acts s id ev).
Proof.
  intros Hwf Hreg. unfold deliver. destruct (wf_open s Hwf id Hreg) as (u & -> & ->).
  destruct (room u).
  - split_and!; try done. by apply wf_enqueue.
  - apply (deliver_block_safe acts (update_sub (warn now) id s)); [|done].
    apply wf_update_sub; [apply warn_closed | done].
Qed.

Lemma deliver_all_safe now ids acts s ev :
  wf s -> (forall id, id ∈ ids -> registered s id) ->
  safe_outcome s (deliver_all now ids acts s ev).
Proof.
  revert s acts. induction ids as [|id ids IH]; intros s acts Hwf Hreg; [done|].
  simpl. pose proof (deliver_safe now acts s id ev Hwf (Hreg id ltac:(set_solver))) as H.
  destruct (deliver now acts s id ev) as [[s' acts']| |]; try done. simpl in H.
  destruct H as (Hwf' & Et & Eg). simpl.
  specialize (IH s' acts' Hwf' (fun i Hi => registered_same _ _ _ Et Eg (Hreg i ltac:(set_solver)))).
  unfold safe_outcome in *. case_match; try done. case_match. by rewrite Et, Eg in IH.
Qed.

Lemma wf_inc_event ev s : wf s -> wf (inc_event ev s).
Proof. intros []. by split. Qed.

Lemma HandleEvent_safe now acts s ev :
  wf s ->
  match HandleEvent now acts s ev with
  | Returned (s', _, ok) => wf s' /\ tableSubs s' = tableSubs s /\ globalSubs s' = globalSubs s
                            /\ (ok = false -> s' = s)
  | Blocked => True
  | Panicked => False
  end.
Proof.
  intros Hwf. unfold HandleEvent. destruct (refused s ev); [done|].
  pose proof (deliver_all_safe now (globalSubs s) acts (inc_event ev s) ev
    (wf_inc_event ev s Hwf) (fun i Hi => or_introl Hi)) as H.
  destruct (deliver_all _ _ _ _ _) as [[s1 acts1]| |]; try done. destruct H as (Hwf1 & Et & Eg).
  simpl. simpl in Et, Eg. destruct (negb _ && _); [|by split_and!].
  pose proof (deliver_all_safe now (table_list s1 (Table ev)) acts1 s1 ev Hwf1
    (table_list_registered s1 (Table ev))) as H.
  destruct (deliver_all _ _ _ _ _) as [[s2 acts2]| |]; try done.
  destruct H as (Hwf2 & Et2 & Eg2). simpl. split_and!; try done; congruence.
Qed.

(** ** Shutdown *)

Lemma close_chans_safe ids m :
  NoDup ids -> (forall id, id ∈ ids -> exists u, m !! id = Some u /\ ch_closed u = false) ->
  exists m', close_chans ids m = Returned m' /\ (forall id, is_Some (m' !! id) <-> is_Some (m !! id)) /\
    (forall id, id ∈ ids -> exists u, m' !! id = Some u /\ ch_closed u = true) /\
    (forall id, id ∉ ids -> m' !! id = m !! id).
Proof.
  intros Hnd. revert m. induction Hnd as [|id ids Hid Hnd IH]; intros m Ho.
  { exists m. split_and!; try done. intros id H. by apply not_elem_of_nil in H. }
  simpl. destruct (Ho id ltac:(set_solver)) as (u & -> & ->).
  destruct (IH (<[id := mkSub (taken u) (ch u) true (lastWarnAt u) (done_ u)]> m))
    as (m' & -> & Hdom & Hin & Hout).
  { intros i Hi. rewrite lookup_insert_ne by set_solver. apply Ho. set_solver. }
  exists m'. split_and!; try done.
  - intros i. rewrite Hdom, lookup_insert. case_decide; [|done]. subst. split; [|done]. intros _.
    destruct (Ho i ltac:(set_solver)) as (v & -> & _). eauto.
  - intros i Hi. destruct (decide (i ∈ ids)); [by apply Hin|].
    assert (i = id) as -> by set_solver. rewrite Hout by done. rewrite lookup_insert_eq. eauto.
  - intros i Hi. rewrite Hout by set_solver. apply lookup_insert_ne. set_solver.
Qed.

Lemma registered_list_spec s id : id ∈ registered_list s <-> registered s id.
Proof.
  unfold registered_list, registered. rewrite elem_of_app. f_equiv.
  rewrite list_elem_of_join. split.
  - intros (l & Hid & Hl). apply list_elem_of_fmap in Hl as ([t l'] & -> & Hl).
    apply elem_of_map_to_list in Hl. eauto.
  - intros (t & l & Hl & Hid). exists l. split; [done|].
    apply list_elem_of_fmap. exists (t, l). split; [done|]. by apply elem_of_map_to_list.
Qed.

Lemma NoDup_mjoin {A B} (l : list (A * list B)) :
  NoDup l.*1 -> (forall p, p ∈ l -> NoDup p.2) ->
  (forall p q b, p ∈ l -> q ∈ l -> b ∈ p.2 -> b ∈ q.2 -> p.1 = q.1) ->
  NoDup (mjoin (map snd l)).
Proof.
  induction l as [|[a bs] l IH]; intros Hnd Hin Hx; simpl; [constructor|].
  apply NoDup_cons in Hnd as [Ha Hnd]. apply NoDup_app. split_and!.
  - apply (Hin (a, bs)). set_solver.
  - intros b Hb Hb'. apply list_elem_of_join in Hb' as (bs' & Hb' & Hl).
    apply list_elem_of_fmap in Hl as ([a' bs''] & -> & Hl).
    assert (a = a') as ->.
    { apply (Hx (a, bs) (a', bs'') b); try done; set_solver. }
    apply Ha, list_elem_of_fmap. by exists (a', bs'').
  - apply IH; [done| |]; intros; [apply Hin | eapply Hx]; set_solver.
Qed.

Lemma registered_list_NoDup s : wf s -> NoDup (registered_list s).
Proof.
  intros []. apply NoDup_app. split_and!; [done| |].
  - intros i Hg Hi. apply list_elem_of_join in Hi as (l & Hi & Hl).
    apply list_elem_of_fmap in Hl as ([t l'] & -> & Hl). apply elem_of_map_to_list in Hl.
    by eapply wf_disjoint0.
  - apply NoDup_mjoin; [apply NoDup_fst_map_to_list| |].
    + intros [t l] Hl. apply elem_of_map_to_list in Hl. by apply wf_table0 in Hl as [? _].
    + intros [t l] [t' l'] i Hl Hl'. apply elem_of_map_to_list in Hl, Hl'. simpl. eauto.
Qed.

(** Shutdown closes every registered channel once and forgets them all. *)
Lemma Shutdown_locked_safe s :
  wf s -> exists s', Shutdown_locked s = Returned s' /\ wf s' /\
    globalSubs s' = [] /\ tableSubs s' = ∅ /\
    (forall id, registered s id -> exists u, subs s' !! id = Some u /\ ch_closed u = true).
Proof.
  intros H. destruct (close_chans_safe (registered_list s) (subs s)) as (m' & Hc & Hdom & Hin & _).
  - by apply registered_list_NoDup.
  - intros id Hid. apply registered_list_spec in Hid. by apply H.
  - unfold Shutdown_locked. rewrite Hc. simpl. eexists. split; [done|]. split_and!; try done.
    + split; simpl; try done.
      * intros id [Hi|(t & l & Hl & _)]; simpl in *;
          [by apply not_elem_of_nil in Hi | by rewrite lookup_empty in Hl].
      * intros id Hid. apply H. by apply Hdom.
      * constructor.
    + intros id Hid. apply Hin. by apply registered_list_spec.
Qed.

(** ** What reaches a subscriber *)

(** The events sent to a subscriber so far, in order: what its consumer took
    and what is still buffered. *)
Definition history (s : Service) (id : nat) : list Event :=
  match subs s !! id with Some u => taken u ++ ch u | None => [] end.

(** The events other producers sent to [id] during [acts]. *)
Definition sent_by_others (id : nat) (acts : list act) : list Event :=
  omap (fun a => match a with AEnq i ev => if decide (i = id) then Some ev else None | _ => None end) acts.

Lemma history_update_same f s id i :
  (forall u, taken (f u) ++ ch (f u) = taken u ++ ch u) ->
  history (update_sub f id s) i = history s i.
Proof.
  intros Hf. unfold history, update_sub. simpl. rewrite lookup_alter.
  case_decide; subst; [|done]. destruct (subs s !! i); simpl; auto.
Qed.

Lemma dequeue_history u : taken (dequeue u) ++ ch (dequeue u) = taken u ++ ch u.
Proof. unfold dequeue. destruct (ch u) as [|e l] eqn:E; simpl; [by rewrite E|]. by rewrite <- app_assoc. Qed.

Lemma history_enqueue s id ev u :
  subs s !! id = Some u -> history (update_sub (enqueue ev) id s) id = history s id ++ [ev].
Proof.
  intros Hu. unfold history, update_sub. simpl. rewrite lookup_alter_eq, Hu. simpl.
  by rewrite app_assoc.
Qed.

Lemma env_act_history a s id :
  exists l, history (env_act a s) id = history s id ++ l /\ sublist l (sent_by_others id [a]).
Proof.
  destruct a as [i|i ev|i| | | |]; simpl.
  - exists []. rewrite app_nil_r. split; [|constructor]. apply history_update_same, dequeue_history.
  - unfold history, update_sub, enqueue_other. simpl. rewrite lookup_alter.
    destruct (decide (i = id)) as [->|Hne].
    + destruct (subs s !! id) as [u|]; simpl; [|exists []; split; [done|constructor]; constructor].
      destruct (room u && negb (ch_closed u)); simpl.
      * exists [ev]. by rewrite <- app_assoc.
      * exists []. rewrite app_nil_r. split; [done|]. repeat constructor.
    + exists []. rewrite app_nil_r. split; [done|constructor].
  - exists []. rewrite app_nil_r. split; [|constructor]. by apply history_update_same.
  - exists []. rewrite app_nil_r. split; [done|constructor].
  - exists []. rewrite app_nil_r. split; [done|constructor].
  - exists []. rewrite app_nil_r. split; [done|constructor].
  - exists []. rewrite app_nil_r. split; [done|constructor].
Qed.

(** What the blocked producer leaves behind: its event, after whatever other
    producers got in first, unless the subscriber left or the service closed. *)
Definition delivered_or_left (s s' : Service) (id : nat) (ev : Event) (others : list Event) : Prop :=
  exists l, sublist l others /\
    (history s' id = history s id ++ l ++ [ev] \/
     history s' id = history s id ++ l /\
       (closed s' = true \/ exists u, subs s' !! id = Some u /\ done_ u = true)).

Lemma sent_by_others_app id l l' :
  sent_by_others id (l ++ l') = sent_by_others id l ++ sent_by_others id l'.
Proof. apply omap_app. Qed.

Lemma deliver_block_history acts s id ev s' rest :
  deliver_block acts s id ev = Returned (s', rest) ->
  exists used, acts = used ++ rest /\ delivered_or_left s s' id ev (sent_by_others id used).
Proof.
  revert s. induction acts as [|a acts IH]; intros s H; [done|]. cbn [deliver_block] in H.
  destruct (subs s !! id) as [u|] eqn:Hu; [|done]. destruct (ch_closed u); [done|].
  assert (Hstep : deliver_block acts (env_act a s) id ev = Returned (s', rest) ->
    exists used, a :: acts = used ++ rest /\ delivered_or_left s s' id ev (sent_by_others id used)).
  { intros Hr. apply IH in Hr as (used & -> & l & Hl & Hd). exists (a :: used). split; [done|].
    destruct (env_act_history a s id) as (l0 & Hh & Hl0). rewrite Hh in Hd.
    exists (l0 ++ l). split.
    - change (a :: used) with ([a] ++ used). rewrite sent_by_others_app. by apply sublist_app.
    - rewrite <- !app_assoc in Hd. by rewrite <- app_assoc. }
  assert (Hnow : forall s1, s1 = s' -> acts = rest ->
    history s1 id = history s id ++ [] ++ [ev] \/
      (history s1 id = history s id ++ [] /\
       (closed s1 = true \/ exists u, subs s1 !! id = Some u /\ done_ u = true)) ->
    exists used, a :: acts = used ++ rest /\ delivered_or_left s s' id ev (sent_by_others id used)).
  { intros s1 -> -> Hd. exists [a]. split; [done|]. exists []. split; [apply sublist_nil_l|done]. }
  destruct a; try (by apply Hstep).
  - destruct (room u); [|by apply Hstep]. simplify_eq. eapply Hnow; [done|done|].
    left. by apply history_enqueue with u.
  - destruct (done_ u) eqn:Ed; [|by apply Hstep]. simplify_eq. eapply Hnow; [done|done|].
    right. rewrite app_nil_r. eauto.
  - destruct (closed s) eqn:Ec; [|by apply Hstep]. simplify_eq. eapply Hnow; [done|done|].
    right. rewrite app_nil_r. auto.
Qed.

Lemma deliver_history now acts s id ev s' rest :
  deliver now acts s id ev = Returned (s', rest) ->
  exists used, acts = used ++ rest /\ delivered_or_left s s' id ev (sent_by_others id used).
Proof.
  unfold deliver. destruct (subs s !! id) as [u|] eqn:Hu; [|done].
  destruct (ch_closed u); [done|]. destruct (room u).
  - intros H. simplify_eq. exists []. split; [done|]. exists []. split; [constructor|].
    left. by apply history_enqueue with u.
  - intros H. apply deliver_block_history in H as (used & -> & l & Hl & Hd).
    rewrite (history_update_same (warn now)) in Hd
      by (intros v; unfold warn; by destruct (_ <=? _)).
    exists used. split; [done|]. by exists l.
Qed.

(** With room in every buffer nothing blocks, and each of the listed
    subscribers gets the event once. *)
Lemma deliver_all_room now ids acts s ev :
  NoDup ids ->
  (forall id, id ∈ ids -> exists u, subs s !! id = Some u /\ ch_closed u = false /\ room u = true) ->
  exists m, deliver_all now ids acts s ev = Returned (set_subs m s, acts) /\
    forall id, m !! id = if decide (id ∈ ids) then enqueue ev <$> subs s !! id else subs s !! id.
Proof.
  intros Hnd. revert s. induction Hnd as [|id ids Hid Hnd IH]; intros s Ho; simpl.
  { exists (subs s). split; [by destruct s|]. done. }
  unfold deliver. destruct (Ho id ltac:(set_solver)) as (u & Hu & Hc & Hr).
  rewrite Hu, Hc, Hr. simpl.
  destruct (IH (update_sub (enqueue ev) id s)) as (m & -> & Hm).
  { intros i Hi. simpl. rewrite lookup_alter_ne by set_solver. apply Ho. set_solver. }
  exists m. split; [done|]. intros i. rewrite Hm. simpl. rewrite lookup_alter.
  destruct (decide (i ∈ ids)), (decide (id = i)), (decide (i ∈ id :: ids)); set_solver.
Qed.

(** Whether a subscriber is an addressee of the event. *)
Definition addressed (s : Service) (ev : Event) (id : nat) : bool :=
  bool_decide (id ∈ globalSubs s)
  || (negb (bool_decide (Table ev = ""%string)) && isTableEvent (Type_ ev)
      && bool_decide (id ∈ table_list s (Table ev))).

Lemma addressed_registered s ev id : addressed s ev id = true -> registered s id.
Proof.
  unfold addressed. intros [H|H]%orb_true_iff.
  - left. by apply bool_decide_eq_true in H.
  - apply andb_true_iff in H as [_ H]. apply bool_decide_eq_true in H.
    by eapply table_list_registered.
Qed.

Lemma HandleEvent_routes now acts s ev :
  wf s -> refused s ev = false ->
  (forall id u, subs s !! id = Some u -> room u = true) ->
  exists s', HandleEvent now acts s ev = Returned (s', acts, true) /\
    forall id, subs s' !! id =
      if addressed s ev id then enqueue ev <$> subs s !! id else subs s !! id.
Proof.
  intros Hwf Hr Hroom. unfold HandleEvent. rewrite Hr.
  destruct (deliver_all_room now (globalSubs s) acts (inc_event ev s) ev) as (m1 & -> & Hm1).
  { apply Hwf. }
  { intros id Hid. destruct (wf_open s Hwf id (or_introl Hid)) as (u & Hu & Hc). eauto. }
  simpl. destruct (negb _ && isTableEvent _) eqn:Et.
  2:{ eexists. split; [done|]. intros id. simpl. rewrite Hm1. unfold addressed. rewrite Et.
      simpl. rewrite orb_false_r. unfold bool_decide; repeat case_decide; done. }
  change (table_list _ (Table ev)) with (table_list s (Table ev)).
  assert (Hdisj : forall id, id ∈ table_list s (Table ev) -> id ∉ globalSubs s).
  { intros id Hid. apply elem_of_table_list in Hid as (l & Hl & Hin). by eapply wf_disjoint. }
  destruct (deliver_all_room now (table_list s (Table ev)) acts (set_subs m1 (inc_event ev s)) ev)
    as (m2 & -> & Hm2).
  { unfold table_list. destruct (tableSubs s !! Table ev) as [l|] eqn:El; simpl; [|constructor].
    by apply (wf_table s Hwf) in El as [? _]. }
  { intros id Hid. simpl. rewrite Hm1. rewrite decide_False by auto.
    destruct (wf_open s Hwf id) as (u & Hu & Hc); [by eapply table_list_registered|]. eauto. }
  simpl. eexists. split; [done|]. intros id. simpl. rewrite Hm2. simpl. rewrite Hm1.
  unfold addressed. rewrite Et. simpl.
  unfold bool_decide; repeat case_decide; naive_solver.
Qed.

(** ** Sequences of operations *)

Inductive svc_op :=
| OpSubscribe (table : string)
| OpSubscribeAll
| OpUnsubscribe (table : string) (id : nat)
| OpUnsubscribeAll (id : nat)
| OpHandleEvent (now : Z) (acts : list act) (ev : Event)
| OpReceive (id : nat)
| OpMarkRunning
| OpShutdown
| OpShutdownLocked.       (* the rest of a Shutdown that waited for the lock *)

Definition svc_step (s : Service) (o : svc_op) : outcome Service :=
  match o with
  | OpSubscribe t => Returned (Subscribe t s).1
  | OpSubscribeAll => Returned (SubscribeAll s).1
  | OpUnsubscribe t id => Returned (unsubscribe t id s)
  | OpUnsubscribeAll id => Returned (unsubscribeAll id s)
  | OpHandleEvent now acts ev => '(s, _, _) ← HandleEvent now acts s ev; Returned s
  | OpReceive id => Returned (update_sub dequeue id s)
  | OpMarkRunning => Returned (MarkRunning s)
  | OpShutdown => Shutdown s
  | OpShutdownLocked => Shutdown_locked s
  end.

Fixpoint svc_run (s : Service) (os : list svc_op) : outcome Service :=
  match os with
  | [] => Returned s
  | o :: os => s ← svc_step s o; svc_run s os
  end.

Lemma svc_step_safe s o :
  wf s -> match svc_step s o with Returned s' => wf s' | Blocked => True | Panicked => False end.
Proof.
  intros H. destruct o; simpl.
  - by apply wf_Subscribe.
  - by apply wf_SubscribeAll.
  - by apply wf_unsubscribe.
  - by apply wf_unsubscribeAll.
  - pose proof (HandleEvent_safe now acts s ev H) as Hs.
    destruct (HandleEvent now acts s ev) as [[[s' acts'] ok]| |]; simpl; try done.
    by destruct Hs.
  - apply wf_update_sub; [apply dequeue_closed|done].
  - by destruct H.
  - unfold Shutdown. destruct (closed s); [done|].
    destruct (Shutdown_locked_safe (set_closed s)) as (s' & -> & ? & _); [by destruct H|done].
  - by destruct (Shutdown_locked_safe s H) as (s' & -> & ? & _).
Qed.

Lemma svc_run_safe os s :
  wf s -> match svc_run s os with Returned s' => wf s' | Blocked => True | Panicked => False end.
Proof.
  revert s. induction os as [|o os IH]; intros s H; [done|]. simpl.
  pose proof (svc_step_safe s o H) as Hs. destruct (svc_step s o); simpl in *; [by apply IH|done..].
Qed.

(** ** Properties *)

(** C9: no sequence of subscriptions, unsubscriptions, deliveries (blocked or
    not, with any environment), receives and shutdowns makes the bus panic: it
    never sends on a closed channel and never closes a channel twice, and the
    registration lists stay free of duplicates and of closed channels. *)
Theorem Service_never_panics (os : list svc_op) :
  match svc_run NewService os with
  | Returned s => wf s
  | Blocked => True
  | Panicked => False
  end.
Proof. apply svc_run_safe, wf_new. Qed.

(** C15: no event is dropped under backpressure: when [deliver] returns, the
    event is at the end of everything sent to that subscriber so far, after at
    most the events other producers got in while it was blocked; the only
    exceptions are a subscriber that unsubscribed and a service that is shutting
    down. *)
Theorem deliver_lossless (now : Z) (acts : list act) (s : Service) (id : nat) (ev : Event)
    (s' : Service) (rest : list act) :
  deliver now acts s id ev = Returned (s', rest) ->
  exists used others, acts = used ++ rest /\ sublist others (sent_by_others id used) /\
    (history s' id = history s id ++ others ++ [ev] \/
     history s' id = history s id ++ others /\
       (closed s' = true \/ exists u, subs s' !! id = Some u /\ done_ u = true)).
Proof.
  intros H. apply deliver_history in H as (used & E & l & Hl & Hd). by exists used, l.
Qed.

(** C14: routing, when nobody is slow. On an open bus where every buffer has room
    and nothing else happens meanwhile, an event that is not refused (valid JSON,
    if it is a row with data) is appended to the buffer of every global
    subscriber and, when it is a row event, of every subscriber of its table,
    each exactly once, no other subscriber sees it, and [HandleEvent] reports
    acceptance. *)
Theorem HandleEvent_delivers (now : Z) (s : Service) (ev : Event) :
  wf s -> closed s = false ->
  (isTableEvent (Type_ ev) = true -> Data ev = ""%string \/ isValidJSON (Data ev) = true) ->
  (forall id u, subs s !! id = Some u -> room u = true) ->
  exists s', HandleEvent now [] s ev = Returned (s', [], true) /\
    forall id, history s' id = history s id ++ (if addressed s ev id then [ev] else []).
Proof.
  intros Hwf Hc Hv Hroom. destruct (HandleEvent_routes now [] s ev) as (s' & -> & Hs').
  { done. }
  { unfold refused. rewrite Hc. simpl. destruct (isTableEvent (Type_ ev)); [|done].
    destruct (Hv eq_refl) as [->| ->]; [done|]. by rewrite andb_false_r. }
  { done. }
  exists s'. split; [done|]. intros id. unfold history. rewrite Hs'.
  destruct (addressed s ev id) eqn:Ea; [|by rewrite app_nil_r].
  destruct (wf_open s Hwf id) as (u & -> & _); [by eapply addressed_registered|].
  simpl. by rewrite app_assoc.
Qed.

(** [HandleEvent] refuses an event exactly when the service is shut down or
    the event is a row event whose non-empty data is not valid JSON, and then
    nothing changes: no subscriber sees it and no counter moves. *)
Theorem HandleEvent_refuses (now : Z) (acts : list act) (s : Service) (ev : Event) :
  wf s ->
  (closed s = true \/
     isTableEvent (Type_ ev) = true /\ Data ev <> ""%string /\ isValidJSON (Data ev) = false
   <-> HandleEvent now acts s ev = Returned (s, acts, false)).
Proof.
  intros Hwf. unfold HandleEvent. destruct (refused s ev) eqn:Er; unfold refused in Er.
  - split; [done|]. intros _. destruct (closed s); [by left|]. right.
    destruct (isTableEvent _); [|done]. case_bool_decide; [done|].
    by destruct (isValidJSON _).
  - split.
    + intros [E|(E1 & E2 & E3)]; [by rewrite E in Er|]. rewrite E1, E3 in Er.
      rewrite bool_decide_eq_false_2 in Er by done. by destruct (closed s).
    + destruct (deliver_all _ _ _ _ _) as [[s1 acts1]| |]; simpl; try done.
      destruct (negb _ && _); simpl; [|done].
      destruct (deliver_all _ _ _ _ _) as [[s2 acts2]| |]; simpl; done.
Qed.

(** ** Witnesses *)

(** A service with a global subscriber (0) and one on table [t] (1). *)
Definition demo_service : Service := (Subscribe "t" (SubscribeAll NewService).1).1.
Definition demo_row : Event := NewEvent 0 Insert "public" "t" "{}" "INSERT" "".

Lemma demo_wf : wf demo_service.
Proof. apply wf_Subscribe, wf_SubscribeAll, wf_new. Qed.

Lemma deliver_lossless_witness :
  exists s' rest, deliver 0 [] demo_service 0%nat demo_row = Returned (s', rest) /\
    exists used others, [] = used ++ rest /\ sublist others (sent_by_others 0%nat used) /\
    (history s' 0%nat = history demo_service 0%nat ++ others ++ [demo_row] \/
     history s' 0%nat = history demo_service 0%nat ++ others /\
       (closed s' = true \/ exists u, subs s' !! 0%nat = Some u /\ done_ u = true)).
Proof.
  eexists _, _. split; [reflexivity|].
  apply (deliver_lossless 0 [] demo_service 0%nat demo_row). reflexivity.
Defined.

Lemma HandleEvent_delivers_witness :
  exists s', HandleEvent 0 [] demo_service demo_row = Returned (s', [], true) /\
    history s' 0%nat = [demo_row] /\ history s' 1%nat = [demo_row].
Proof.
  destruct (HandleEvent_delivers 0 demo_service demo_row) as (s' & He & Hs').
  - apply demo_wf.
  - reflexivity.
  - intros _. right. vm_compute. reflexivity.
  - intros id u. simpl. rewrite !lookup_insert. repeat case_decide; intros; simplify_eq; done.
  - exists s'. split; [exact He|]. split.
    + rewrite (Hs' 0%nat). reflexivity.
    + rewrite (Hs' 1%nat). reflexivity.
Defined.

Lemma HandleEvent_refuses_witness :
  HandleEvent 0 [] demo_service (set_data "{NaN}" false demo_row) = Returned (demo_service, [], false).
Proof.
  apply (HandleEvent_refuses 0 [] demo_service (set_data "{NaN}" false demo_row)).
  - apply demo_wf.
  - right. split; [reflexivity|]. split; [discriminate|]. vm_compute. reflexivity.
Defined.
