(* ===== verification/Bus.v ===== *)
(** * The bus as the two pipelines use it

    One subscriber, the publisher, on an open service: what [HandleEvent] does
    to its channel. *)

From stdpp Require Import base list strings gmap.
From Stdlib Require Import ZArith Lia Ascii.
From S2P Require Import Prelude GoStrings Json Event Service.

Local Open Scope Z_scope.

(** The publisher is the first subscriber of the bus. *)
Definition pub : nat := 0.

(** A change the bus takes: its data is valid JSON, if it is a row with data. *)
Definition acceptable (ev : Event) : bool :=
  negb (isTableEvent (Type_ ev) && negb (bool_decide (Data ev = ""%string)) && negb (isValidJSON (Data ev))).

(** The publisher is the only subscriber, and the service is open. *)
Record bus (s : Service) (u : subscriber) : Prop := mkBus {
  bus_sub : subs s !! pub = Some u;
  bus_global : globalSubs s = [pub];
  bus_tables : tableSubs s = ∅;
  bus_open : closed s = false;
  bus_chan : ch_closed u = false
}.

Lemma bus_handle now s u ev s' acts ok :
  bus s u -> HandleEvent now [] s ev = Returned (s', acts, ok) ->
  acts = [] /\ ok = acceptable ev /\ bus s' (if ok then enqueue ev u else u).
Proof.
  intros [Hs Hg Ht Ho Hc] H. unfold HandleEvent in H.
  assert (Hr : refused s ev = negb (acceptable ev)).
  { unfold refused, acceptable. by rewrite Ho, negb_involutive. }
  rewrite Hr in H. destruct (acceptable ev); simpl in H; [|by simplify_eq].
  rewrite Hg in H. simpl in H. unfold Service.deliver in H. simpl in H. rewrite Hs, Hc in H.
  destruct (room u); [|done]. simpl in H. unfold table_list in H. simpl in H.
  rewrite Ht, lookup_empty in H. simpl in H.
  destruct (negb _ && _); simpl in H; simplify_eq; (split_and!; [done..|]);
    (constructor; simpl; [by rewrite lookup_alter_eq, Hs|done..]).
Qed.
