(* ===== verification/History.v ===== *)
(** * internal/schema/history.go: the schema history store

    One JSON file per table, written through a cache. A file is modelled by
    what decoding it gives: its entries, with every byte that is not valid UTF-8
    replaced by U+FFFD (encoding/json does that on the way out), or nothing when
    it cannot be decoded. *)

From stdpp Require Import base list strings gmap.
From Stdlib Require Import ZArith Lia Ascii.
From S2P Require Import Prelude GoStrings.

Local Open Scope Z_scope.

Record ColumnDef := mkColumnDef { ColName : string; TypeName : string; TypeOID : Z }.

Record HistoryEntry := mkEntry {
  Position : string;
  HSchema : string;
  HTable : string;
  HColumns : list ColumnDef;
  HTimestamp : Z
}.

(** [Corrupt] is content that does not decode, [Unreadable] a file whose read
    fails for another reason than its absence. *)
Inductive file := Content (l : list HistoryEntry) | Corrupt | Unreadable.

Record FileHistoryStore := mkStore {
  cache : gmap string (list HistoryEntry);
  files : gmap string file          (* dir/<key>.json *)
}.

Definition NewFileHistoryStore (disk : gmap string file) : FileHistoryStore := mkStore ∅ disk.

(** What reading an encoded string back gives. *)
Definition utf8_clean (s : string) : string := encode_runes (runes s).
Definition clean_column (c : ColumnDef) : ColumnDef :=
  mkColumnDef (utf8_clean (ColName c)) (utf8_clean (TypeName c)) (TypeOID c).
Definition clean_entry (e : HistoryEntry) : HistoryEntry :=
  mkEntry (utf8_clean (Position e)) (utf8_clean (HSchema e)) (utf8_clean (HTable e))
    (map clean_column (HColumns e)) (HTimestamp e).

(** How the two file-system calls of [writeFile] end. *)
Inductive disk_answer := DiskOk | WriteFails | RenameFails.

#[export] Instance disk_answer_eq_dec : EqDecision disk_answer.
Proof. solve_decision. Defined.

Inductive store_error := WriteError | RenameError | ReadError | DecodeError.

Definition entry_key (schemaName table : string) : string := schemaName +:+ "." +:+ table.

(** [writeFile]: the file changes only by the rename. *)
Definition writeFile (disk : disk_answer) (key : string) (s : FileHistoryStore)
    : FileHistoryStore * result store_error unit :=
  match disk with
  | WriteFails => (s, Err WriteError)
  | RenameFails => (s, Err RenameError)
  | DiskOk =>
      (mkStore (cache s)
         (<[key := Content (map clean_entry (default [] (cache s !! key)))]> (files s)), Ok tt)
  end.

Definition Save (now : Z) (disk : disk_answer) (entry : HistoryEntry) (s : FileHistoryStore)
    : FileHistoryStore * result store_error unit :=
  let entry := if HTimestamp entry =? 0
    then mkEntry (Position entry) (HSchema entry) (HTable entry) (HColumns entry) now else entry in
  let key := entry_key (HSchema entry) (HTable entry) in
  let s := mkStore (<[key := default [] (cache s !! key) ++ [entry]]> (cache s)) (files s) in
  writeFile disk key s.

Definition loadEntries (key : string) (s : FileHistoryStore)
    : FileHistoryStore * result store_error (list HistoryEntry) :=
  match cache s !! key with
  | Some cached => (s, Ok cached)
  | None =>
      match files s !! key with
      | None => (s, Ok [])
      | Some Unreadable => (s, Err ReadError)
      | Some Corrupt => (s, Err DecodeError)
      | Some (Content entries) => (mkStore (<[key := entries]> (cache s)) (files s), Ok entries)
      end
  end.

Definition GetLatest (schemaName table : string) (s : FileHistoryStore)
    : FileHistoryStore * result store_error (option HistoryEntry) :=
  let '(s, r) := loadEntries (entry_key schemaName table) s in
  (s, match r with Ok l => Ok (last l) | Err e => Err e end).

Definition GetHistory (schemaName table : string) (s : FileHistoryStore)
    : FileHistoryStore * result store_error (list HistoryEntry) :=
  loadEntries (entry_key schemaName table) s.

(** ** Properties *)

(** A save: the clock, how the disk answers, the entry. *)
Definition save_op : Type := Z * disk_answer * HistoryEntry.

Definition stamped (o : save_op) : HistoryEntry :=
  let '(now, _, e) := o in
  if HTimestamp e =? 0 then mkEntry (Position e) (HSchema e) (HTable e) (HColumns e) now else e.
Definition op_key (o : save_op) : string := entry_key (HSchema o.2) (HTable o.2).

Definition save_step (s : FileHistoryStore) (o : save_op) : FileHistoryStore :=
  (Save o.1.1 o.1.2 o.2 s).1.
Definition save_all (s : FileHistoryStore) (os : list save_op) : FileHistoryStore := foldl save_step s os.

(** The entries saved under a key, in order. *)
Definition saved_under (key : string) (os : list save_op) : list HistoryEntry :=
  map stamped (filter (fun o => op_key o = key) os).

Lemma Save_effect s o :
  cache (save_step s o) =
    <[op_key o := default [] (cache s !! op_key o) ++ [stamped o]]> (cache s) /\
  files (save_step s o) =
    if decide (o.1.2 = DiskOk)
    then <[op_key o := Content (map clean_entry (default [] (cache s !! op_key o) ++ [stamped o]))]> (files s)
    else files s.
Proof.
  destruct o as [[now d] e]. unfold save_step, Save, op_key, stamped. simpl.
  set (e' := if HTimestamp e =? 0 then _ else _).
  assert (Hk : entry_key (HSchema e') (HTable e') = entry_key (HSchema e) (HTable e))
    by (unfold e'; by destruct (_ =? _)).
  rewrite Hk. destruct d; simpl; rewrite ?lookup_insert_eq; done.
Qed.

Lemma cache_saved disk os key :
  cache (save_all (NewFileHistoryStore disk) os) !! key
  = match saved_under key os with [] => None | l => Some l end.
Proof.
  unfold save_all. induction os as [|o os IH] using rev_ind; [done|].
  rewrite foldl_snoc. destruct (Save_effect (foldl save_step (NewFileHistoryStore disk) os) o) as [-> _].
  unfold saved_under in *. rewrite filter_app, map_app.
  destruct (decide (op_key o = key)) as [E|E].
  - rewrite <- E, lookup_insert_eq. rewrite <- E in IH. rewrite IH.
    rewrite filter_cons_True by done. simpl.
    destruct (map stamped (filter _ os)); simpl; done.
  - rewrite lookup_insert_ne by done. rewrite filter_cons_False by done. simpl.
    by rewrite app_nil_r.
Qed.

(** C32: within a run the store keeps every version of a table's schema, in the
    order they were saved, even when writing the file fails; and when the last
    save reached the disk, a store opened on it afterwards reads the same
    history back (up to the replacement of bytes that are not UTF-8). *)
Theorem history_kept (disk : gmap string file) (os : list save_op) (o : save_op) :
  let s := save_all (NewFileHistoryStore disk) (os ++ [o]) in
  let key := op_key o in
  (GetHistory (HSchema o.2) (HTable o.2) s).2 = Ok (saved_under key (os ++ [o])) /\
  (GetLatest (HSchema o.2) (HTable o.2) s).2 = Ok (Some (stamped o)) /\
  (o.1.2 = DiskOk ->
   (GetHistory (HSchema o.2) (HTable o.2) (NewFileHistoryStore (files s))).2
   = Ok (map clean_entry (saved_under key (os ++ [o])))).
Proof.
  cbv zeta. pose proof (cache_saved disk (os ++ [o]) (op_key o)) as Hc.
  assert (Hl : saved_under (op_key o) (os ++ [o]) = saved_under (op_key o) os ++ [stamped o]).
  { unfold saved_under. rewrite filter_app, map_app. by rewrite filter_cons_True. }
  rewrite Hl in *. unfold GetLatest, GetHistory, loadEntries. fold (op_key o).
  assert (Hc' : cache (save_all (NewFileHistoryStore disk) (os ++ [o])) !! op_key o
                = Some (saved_under (op_key o) os ++ [stamped o])).
  { rewrite Hc. by destruct (saved_under (op_key o) os). }
  rewrite Hc'. split_and!; [done| by rewrite last_snoc |]. intros Hd. simpl. rewrite lookup_empty.
  unfold save_all. rewrite foldl_snoc.
  destruct (Save_effect (foldl save_step (NewFileHistoryStore disk) os) o) as [Ec ->].
  rewrite decide_True by done. rewrite lookup_insert_eq. simpl. f_equal. f_equal.
  unfold save_all in Hc'. rewrite foldl_snoc, Ec, lookup_insert_eq in Hc'. by injection Hc'.
Qed.

(** A restart forgets: the first save of a table in a new process replaces
    whatever history the files of an earlier run held for it by the one new
    entry, because the file is not read before it is written. *)
Theorem restart_forgets_history (disk : gmap string file) (now : Z) (e : HistoryEntry) :
  let key := entry_key (HSchema e) (HTable e) in
  let s := save_step (NewFileHistoryStore disk) (now, DiskOk, e) in
  files s !! key = Some (Content [clean_entry (stamped (now, DiskOk, e))]) /\
  (GetHistory (HSchema e) (HTable e) s).2 = Ok [stamped (now, DiskOk, e)].
Proof.
  cbv zeta.
  destruct (Save_effect (NewFileHistoryStore disk) (now, DiskOk, e)) as [Hc Hf].
  unfold op_key in *. cbn [fst snd] in *. rewrite decide_True in Hf by done.
  split; [by rewrite Hf, lookup_insert_eq|].
  unfold GetHistory, loadEntries. by rewrite Hc, lookup_insert_eq.
Qed.

Definition demo_version (n : Z) : HistoryEntry :=
  mkEntry "0/1" "public" "users" [mkColumnDef "id" "int4" 23] n.

Lemma restart_forgets_history_witness :
  let disk := <["public.users"%string := Content [demo_version 1; demo_version 2]]> ∅ in
  files (save_step (NewFileHistoryStore disk) (9, DiskOk, demo_version 3)) !! "public.users"%string
  = Some (Content [clean_entry (demo_version 3)]).
Proof.
  exact (proj1 (restart_forgets_history
    (<["public.users"%string := Content [demo_version 1; demo_version 2]]> ∅) 9 (demo_version 3))).
Defined.

Lemma history_kept_witness :
  (GetLatest "public" "users" (save_all (NewFileHistoryStore ∅)
     [(1, DiskOk, demo_version 1); (2, DiskOk, demo_version 2)])).2 = Ok (Some (demo_version 2)).
Proof. exact (proj1 (proj2 (history_kept ∅ [(1, DiskOk, demo_version 1)] (2, DiskOk, demo_version 2)))). Defined.
