(* ===== verification/PgReader.v ===== *)
(** * internal/postgres/parser.go: the binary reader

    A cursor over the bytes of one pgoutput message. An operation returns
    [None] where the Go code would panic (an index or a slice bound outside the
    data); a failed bounds check sets [err] instead, and every later read then
    returns the zero value. *)

From stdpp Require Import base list strings gmap.
From Stdlib Require Import ZArith Lia Ascii.
From S2P Require Import Prelude GoStrings.

Local Open Scope Z_scope.

(** ** Byte slices *)

Fixpoint str_of (l : list ascii) : string :=
  match l with [] => EmptyString | a :: l => String a (str_of l) end.
Fixpoint bytes_of (s : string) : list ascii :=
  match s with EmptyString => [] | String a s => a :: bytes_of s end.

Lemma str_of_bytes_of s : str_of (bytes_of s) = s.
Proof. induction s as [|a s IH]; simpl; [done | by rewrite IH]. Qed.

Lemma length_bytes_of s : length (bytes_of s) = String.length s.
Proof. induction s as [|a s IH]; simpl; [done | by rewrite IH]. Qed.

(** [data[lo:hi]]. *)
Definition slice (l : list ascii) (lo hi : Z) : option (list ascii) :=
  if (0 <=? lo) && (lo <=? hi) && (hi <=? Z.of_nat (length l))
  then Some (take (Z.to_nat (hi - lo)) (drop (Z.to_nat lo) l)) else None.

(** [data[i]]. *)
Definition index (l : list ascii) (i : Z) : option ascii :=
  if 0 <=? i then l !! Z.to_nat i else None.

(** [binary.BigEndian.UintN] of exactly the bytes given. *)
Definition be (l : list ascii) : Z := foldl (fun acc a => acc * 256 + code a) 0 l.

(** ** The reader *)

Record reader := mkReader { data : list ascii; pos : Z; err : bool }.

Definition len (r : reader) : Z := Z.of_nat (length (data r)).
Definition remaining (r : reader) : Z := len r - pos r.
Definition advance (n : Z) (r : reader) : reader := mkReader (data r) (pos r + n) (err r).

Definition R (A : Type) : Type := reader -> option (A * reader).
#[export] Instance R_ret : MRet R := fun A a r => Some (a, r).
#[export] Instance R_bind : MBind R := fun A B f m r =>
  match m r with Some (a, r) => f a r | None => None end.

Definition get : R reader := fun r => Some (r, r).

Definition canRead (n : Z) : R bool := fun r =>
  if err r then Some (false, r)
  else if len r <? pos r + n then Some (false, mkReader (data r) (pos r) true)
  else Some (true, r).

Definition readByte : R Z :=
  ok ← canRead 1;
  if negb ok then mret 0
  else fun r =>
    match index (data r) (pos r) with Some b => Some (code b, advance 1 r) | None => None end.

Definition readBytes (n : Z) : R (list ascii) :=
  ok ← canRead n;
  if negb ok then mret []
  else fun r =>
    match slice (data r) (pos r) (pos r + n) with
    | Some b => Some (b, advance n r) | None => None end.

(** [binary.BigEndian.UintN(r.data[r.pos:])]: the slice to the end, of which
    the first [n] bytes are read. *)
Definition readUint (n : Z) : R Z :=
  ok ← canRead n;
  if negb ok then mret 0
  else fun r =>
    match slice (data r) (pos r) (len r) with
    | None => None
    | Some rest =>
        match slice rest 0 n with Some b => Some (be b, advance n r) | None => None end
    end.

Definition readUint16 : R Z := readUint 2.
Definition readUint32 : R Z := readUint 4.
Definition readUint64 : R Z := readUint 8.

(** The scan of [readCString]: the bytes up to the terminator or the end. *)
Fixpoint until_nul (l : list ascii) : list ascii :=
  match l with
  | [] => []
  | a :: l => if code a =? 0 then [] else a :: until_nul l
  end.

Definition readCString : R string := fun r =>
  let start := pos r in
  match slice (data r) start (Z.max start (len r)) with
  | None => None
  | Some rest =>
      let r := advance (Z.of_nat (length (until_nul rest))) r in
      match slice (data r) start (pos r) with
      | None => None
      | Some s => Some (str_of s, if pos r <? len r then advance 1 r else r)
      end
  end.

(** [buf.pos--]. *)
Definition putBack : R unit := fun r => Some (tt, advance (-1) r).

(** ** The position stays inside the data *)

Record rwf (lo : Z) (d : list ascii) (r : reader) : Prop := mkRwf {
  rwf_data : data r = d;
  rwf_nonneg : 0 <= lo;
  rwf_lo : lo <= pos r;
  rwf_hi : pos r <= len r
}.

(** An operation that never panics and never moves the position back or past
    the end. *)
Definition rsafe {A} (m : R A) : Prop :=
  forall lo d r, rwf lo d r -> exists a r', m r = Some (a, r') /\ rwf lo d r'.

Create HintDb reader.

Lemma rsafe_ret {A} (a : A) : rsafe (mret a).
Proof. intros lo d r H. by exists a, r. Qed.

Lemma rsafe_get : rsafe get.
Proof. intros lo d r H. by exists r, r. Qed.

Lemma rsafe_bind {A B} (m : R A) (f : A -> R B) :
  rsafe m -> (forall a, rsafe (f a)) -> rsafe (m ≫= f).
Proof.
  intros Hm Hf lo d r H. destruct (Hm lo d r H) as (a & r1 & E & H1).
  destruct (Hf a lo d r1 H1) as (b & r2 & E2 & H2). exists b, r2. split; [|done].
  unfold mbind, R_bind. by rewrite E.
Qed.

Lemma slice_some l lo hi :
  0 <= lo -> lo <= hi -> hi <= Z.of_nat (length l) ->
  slice l lo hi = Some (take (Z.to_nat (hi - lo)) (drop (Z.to_nat lo) l)).
Proof.
  intros. unfold slice. by replace (_ && _) with true by lia.
Qed.

(** What [canRead] establishes. *)
Lemma canRead_cases n lo d r :
  rwf lo d r ->
  exists ok r', canRead n r = Some (ok, r') /\ rwf lo d r' /\
    (ok = true -> r' = r /\ pos r + n <= len r).
Proof.
  intros H. unfold canRead. destruct (err r); [by exists false, r|]. bcase.
  - exists false, (mkReader (data r) (pos r) true). split_and!; [done| |done].
    destruct H; by constructor.
  - exists true, r. done.
Qed.

(** The shape of every bounds-checked read: [canRead n], then the access [f],
    then [pos += n]. *)
Definition guarded {A} (n : Z) (zero : A) (f : reader -> option A) : R A :=
  ok ← canRead n;
  if negb ok then mret zero
  else fun r => match f r with Some a => Some (a, advance n r) | None => None end.

Lemma readByte_guarded r :
  readByte r = guarded 1 0 (fun r => code <$> index (data r) (pos r)) r.
Proof.
  unfold readByte, guarded, mbind, R_bind. destruct (canRead 1 r) as [[[] r1]|]; simpl; [|done|done].
  by destruct (index (data r1) (pos r1)).
Qed.

Lemma readUint_guarded n r :
  readUint n r = guarded n 0 (fun r =>
    match slice (data r) (pos r) (len r) with
    | Some rest => be <$> slice rest 0 n | None => None end) r.
Proof.
  unfold readUint, guarded, mbind, R_bind. destruct (canRead n r) as [[[] r1]|]; simpl; [|done|done].
  destruct (slice (data r1) (pos r1) (len r1)) as [rest|]; simpl; [|done].
  by destruct (slice rest 0 n).
Qed.

Lemma rsafe_guarded {A} n (zero : A) (f : reader -> option A) :
  0 <= n ->
  (forall lo d r, rwf lo d r -> pos r + n <= len r -> is_Some (f r)) ->
  rsafe (guarded n zero f).
Proof.
  intros Hn Hf lo d r H. destruct (canRead_cases n lo d r H) as (ok & r' & E & H' & Hok).
  unfold guarded, mbind, R_bind. rewrite E. destruct ok; simpl; [|by exists zero, r'].
  destruct (Hok eq_refl) as [-> Hle]. destruct (Hf lo d r H Hle) as [a Ha]. rewrite Ha. simpl.
  exists a, (advance n r). split; [done|]. destruct H.
  constructor; unfold advance, len in *; simpl in *; lia || done.
Qed.

Lemma rsafe_ext {A} (m m' : R A) : (forall r, m r = m' r) -> rsafe m' -> rsafe m.
Proof. intros E H lo d r Hr. rewrite E. by apply H. Qed.

Lemma rsafe_readByte : rsafe readByte.
Proof.
  eapply rsafe_ext; [apply readByte_guarded|]. apply rsafe_guarded; [lia|].
  intros lo d r H Hle. unfold index. destruct H. replace (0 <=? pos r) with true by lia.
  rewrite fmap_is_Some. apply lookup_lt_is_Some. unfold len in *. lia.
Qed.

Lemma rsafe_readBytes n : 0 <= n -> rsafe (readBytes n).
Proof.
  intros Hn. apply (rsafe_guarded n [] (fun r => slice (data r) (pos r) (pos r + n))); [done|].
  intros lo d r H Hle. destruct H. rewrite slice_some by (unfold len in *; lia). eauto.
Qed.

Lemma rsafe_readUint n : 0 <= n -> rsafe (readUint n).
Proof.
  intros Hn. eapply rsafe_ext; [apply readUint_guarded|]. apply rsafe_guarded; [lia|].
  intros lo d r H Hle. destruct H. unfold len in *.
  rewrite slice_some by lia. simpl. rewrite slice_some; simpl; [eauto|lia|lia|].
  rewrite length_take, length_drop. lia.
Qed.

Lemma length_until_nul l : (length (until_nul l) <= length l)%nat.
Proof. induction l as [|a l IH]; simpl; [done|]. destruct (_ =? _); simpl; lia. Qed.

Lemma rsafe_readCString : rsafe readCString.
Proof.
  intros lo d r [Hd Hnn Hlo Hhi]. unfold readCString. unfold len in *.
  rewrite Z.max_r by lia. rewrite slice_some by lia. simpl.
  match goal with |- context [until_nul ?l] =>
    pose proof (length_until_nul l) as Hu; set (n := length (until_nul l)) in * end.
  rewrite length_take, length_drop in Hu. rewrite slice_some by (simpl; lia). simpl.
  eexists _, _. split; [done|]. bcase; constructor; unfold advance, len in *; simpl in *; lia || done.
Qed.

Lemma be_nonneg l : 0 <= be l.
Proof.
  unfold be. enough (forall acc, 0 <= acc -> 0 <= foldl (fun acc a => acc * 256 + code a) acc l) as H
    by (by apply H).
  induction l as [|a l IH]; intros acc Ha; simpl; [done|]. apply IH.
  pose proof (code_range a). lia.
Qed.

(** An unsigned read followed by a continuation that needs its sign. *)
Lemma rsafe_bind_uint {B} n (f : Z -> R B) :
  0 <= n -> (forall z, 0 <= z -> rsafe (f z)) -> rsafe (readUint n ≫= f).
Proof.
  intros Hn Hf lo d r H. destruct (rsafe_readUint n Hn lo d r H) as (z & r1 & E & H1).
  assert (0 <= z) as Hz.
  { rewrite readUint_guarded in E. unfold guarded, mbind, R_bind in E.
    destruct (canRead n r) as [[[] r0]|]; simpl in E; [|unfold mret, R_ret in E; simplify_eq; lia|done].
    destruct (slice (data r0) _ _) as [rest|]; simpl in E; [|done].
    destruct (slice rest 0 n) as [b|]; simpl in E; [|done]. simplify_eq. apply be_nonneg. }
  unfold mbind, R_bind. rewrite E. by apply Hf.
Qed.

(** [readByte] and then [pos--]: at most one step back. *)
Lemma rwf_putBack lo d r :
  rwf (lo + 1) d r -> 0 <= lo -> exists r', putBack r = Some (tt, r') /\ rwf lo d r'.
Proof.
  intros [] Hlo. eexists. split; [done|]. constructor; unfold advance, len in *; simpl; lia || done.
Qed.

Lemma rwf_weaken lo lo' d r : 0 <= lo' <= lo -> rwf lo d r -> rwf lo' d r.
Proof. intros ? []. constructor; lia || done. Qed.

#[export] Hint Resolve rsafe_ret rsafe_get rsafe_bind rsafe_readByte rsafe_readCString : reader.
#[export] Hint Extern 1 (rsafe (readBytes _)) => apply rsafe_readBytes; lia : reader.
#[export] Hint Extern 1 (rsafe (readUint _)) => apply rsafe_readUint; lia : reader.
#[export] Hint Extern 1 (rsafe readUint16) => apply rsafe_readUint; lia : reader.
#[export] Hint Extern 1 (rsafe readUint32) => apply rsafe_readUint; lia : reader.
#[export] Hint Extern 1 (rsafe readUint64) => apply rsafe_readUint; lia : reader.

(** ** Reading back what the sender wrote *)

(** Big-endian encoding in [n] bytes. *)
Fixpoint be_bytes (n : nat) (z : Z) : list ascii :=
  match n with
  | O => []
  | S n => be_bytes n (z / 256) ++ [chr (z mod 256)]
  end.

Definition cstring (s : string) : list ascii := bytes_of s ++ [chr 0].

Lemma length_be_bytes n z : length (be_bytes n z) = n.
Proof. revert z. induction n as [|n IH]; intros z; simpl; [done|]. rewrite length_app, IH. simpl. lia. Qed.

Lemma be_app l a : be (l ++ [a]) = be l * 256 + code a.
Proof. unfold be. by rewrite foldl_app. Qed.

Lemma be_be_bytes n z : 0 <= z < 256 ^ Z.of_nat n -> be (be_bytes n z) = z.
Proof.
  revert z. induction n as [|n IH]; intros z Hz.
  - simpl in Hz. change (be (be_bytes 0 z)) with 0. lia.
  - cbn [be_bytes]. rewrite be_app, IH.
    + rewrite code_chr by (apply Z.mod_pos_bound; lia). pose proof (Z.div_mod z 256). lia.
    + rewrite Nat2Z.inj_succ, Z.pow_succ_r in Hz by lia. split.
      * apply Z.div_pos; lia.
      * apply Z.div_lt_upper_bound; lia.
Qed.

(** A reader in the middle of its data, with no error so far. *)
Definition rd (pre rest : list ascii) : reader :=
  mkReader (pre ++ rest) (Z.of_nat (length pre)) false.

(** [m] consumes exactly the bytes [bs] and returns [a], wherever they are. *)
Definition reads {A} (m : R A) (bs : list ascii) (a : A) : Prop :=
  forall pre rest, m (rd pre (bs ++ rest)) = Some (a, rd (pre ++ bs) rest).

Lemma reads_ret {A} (a : A) : reads (mret a) [] a.
Proof. intros pre rest. by rewrite app_nil_r. Qed.

Lemma reads_bind {A B} (m : R A) (f : A -> R B) b1 b2 a c :
  reads m b1 a -> reads (f a) b2 c -> reads (m ≫= f) (b1 ++ b2) c.
Proof.
  intros Hm Hf pre rest. unfold mbind, R_bind. rewrite <- app_assoc, Hm, Hf. by rewrite <- app_assoc.
Qed.

Lemma canRead_rd n pre bs rest :
  n = Z.of_nat (length bs) -> canRead n (rd pre (bs ++ rest)) = Some (true, rd pre (bs ++ rest)).
Proof.
  intros ->. unfold canRead, rd, len. simpl. bcase; [|done]. rewrite !length_app in *. lia.
Qed.

Lemma slice_rd pre bs rest n :
  n = Z.of_nat (length bs) ->
  slice (pre ++ bs ++ rest) (Z.of_nat (length pre)) (Z.of_nat (length pre) + n) = Some bs.
Proof.
  intros ->. rewrite slice_some by (rewrite ?length_app; lia). f_equal.
  rewrite Nat2Z.id, drop_app_length.
  replace (Z.to_nat _) with (length bs) by lia. by rewrite take_app_length.
Qed.

Lemma rd_advance pre bs rest n :
  n = Z.of_nat (length bs) -> advance n (rd pre (bs ++ rest)) = rd (pre ++ bs) rest.
Proof.
  intros ->. unfold advance, rd. simpl. rewrite app_assoc. f_equal. rewrite length_app. lia.
Qed.

Lemma reads_guarded {A} n (zero : A) f bs a :
  n = Z.of_nat (length bs) ->
  (forall pre rest, f (rd pre (bs ++ rest)) = Some a) -> reads (guarded n zero f) bs a.
Proof.
  intros Hn Hf pre rest. unfold guarded, mbind, R_bind. rewrite canRead_rd by done. simpl.
  by rewrite Hf, rd_advance.
Qed.

Lemma reads_ext {A} (m m' : R A) bs a : (forall r, m r = m' r) -> reads m' bs a -> reads m bs a.
Proof. intros E H pre rest. by rewrite E. Qed.

Lemma reads_byte c : reads readByte [c] (code c).
Proof.
  eapply reads_ext; [apply readByte_guarded|]. apply reads_guarded; [done|].
  intros pre rest. unfold index, rd. simpl.
  rewrite (proj2 (Z.leb_le 0 (Z.of_nat (length pre)))) by lia. rewrite Nat2Z.id, list_lookup_middle by done. done.
Qed.

Lemma reads_bytes n bs : n = Z.of_nat (length bs) -> reads (readBytes n) bs bs.
Proof.
  intros Hn. apply (reads_guarded n [] (fun r => slice (data r) (pos r) (pos r + n))); [done|].
  intros pre rest. by apply slice_rd.
Qed.

Lemma reads_uint n z :
  0 <= z < 256 ^ n -> 0 <= n -> reads (readUint n) (be_bytes (Z.to_nat n) z) z.
Proof.
  intros Hz Hn. eapply reads_ext; [apply readUint_guarded|].
  apply reads_guarded; [rewrite length_be_bytes; lia|].
  intros pre rest. unfold rd, len. simpl.
  rewrite slice_some by (rewrite ?length_app; lia). rewrite Nat2Z.id, drop_app_length.
  rewrite take_ge by (rewrite (length_app pre); lia).
  pose proof (slice_rd [] (be_bytes (Z.to_nat n) z) rest n) as Hs.
  change (Z.of_nat (length (@nil ascii))) with 0 in Hs. rewrite Z.add_0_l in Hs. simpl in Hs.
  rewrite Hs by (rewrite length_be_bytes; lia). simpl. rewrite be_be_bytes; [done|].
  by rewrite Z2Nat.id.
Qed.

(** A name without an embedded NUL. *)
Fixpoint nul_free (s : string) : bool :=
  match s with EmptyString => true | String a s => negb (code a =? 0) && nul_free s end.

Lemma until_nul_cstring s rest :
  nul_free s = true -> until_nul (cstring s ++ rest) = bytes_of s.
Proof.
  unfold cstring. induction s as [|a s IH]; simpl; [done|].
  intros [H1 H2]%andb_true_iff. apply negb_true_iff in H1. by rewrite H1, IH.
Qed.

Lemma reads_cstring s : nul_free s = true -> reads readCString (cstring s) s.
Proof.
  intros Hs pre rest. unfold readCString, rd, len. simpl.
  rewrite Z.max_r by (rewrite length_app; lia). rewrite slice_some by (rewrite ?length_app; lia).
  rewrite Nat2Z.id, drop_app_length. rewrite take_ge by (rewrite (length_app pre); lia).
  rewrite until_nul_cstring by done. unfold advance, cstring. simpl.
  rewrite <- !(app_assoc (bytes_of s)). rewrite slice_rd by done.
  rewrite str_of_bytes_of. rewrite !length_app. simpl. bcase; [|lia].
  unfold advance, rd. simpl. f_equal. f_equal. f_equal; [by rewrite <- !app_assoc|].
  simpl. lia.
Qed.

#[export] Hint Resolve reads_ret reads_byte : reader.

(** [remaining] at a known place. *)
Lemma remaining_rd pre rest : remaining (rd pre rest) = Z.of_nat (length rest).
Proof. unfold remaining, len, rd. simpl. rewrite length_app. lia. Qed.
#[global] Arguments be_bytes : simpl never.
