(* ===== verification/PgParser.v ===== *)
(** * internal/postgres/parser.go: the pgoutput decoder

    [Parse] turns one logical-replication message into at most one returned
    event plus the effects it has on the way: a schema-history entry for a
    RELATION message and, for a TRUNCATE of several relations, the events handed
    to the event handler. *)

From stdpp Require Import base list strings gmap.
From Stdlib Require Import ZArith Lia Ascii.
From S2P Require Import Prelude GoStrings Json Escape Event History PgReader.

Local Open Scope Z_scope.

Definition pgEpochOffsetMillis : Z := 946684800000.
Definition ddlLogTable : string := "_cdc_ddl_log".
Definition slotOwnersTable : string := "excalibase_cdc_slot_owners".

Definition numericOIDs : list Z := [20; 21; 23; 26; 700; 701; 1700].
Definition boolOID : Z := 16.
Definition jsonOIDs : list Z := [114; 3802].

Definition isNumericOID (oid : Z) : bool := bool_decide (oid ∈ numericOIDs).
Definition isJSONOID (oid : Z) : bool := bool_decide (oid ∈ jsonOIDs).

Record RelationInfo := mkRel {
  Namespace : string;
  Name : string;
  Columns : list string;
  TypeOIDs : list Z;
  RelKeyColumns : list string
}.

(** [schemaStore] and [eventHandler] say whether the field is set;
    [lsnProvider] is what the provider returns, if there is one. *)
Record Parser := mkParser {
  tableFilter : list string;
  captureDDL : bool;
  schemaStore : bool;
  relationMap : gmap Z RelationInfo;
  eventHandler : bool;
  lsnProvider : option string;
  txnFinalLSN : Z;
  txnEndLSN : Z
}.

Definition NewParser (tableFilter : list string) (captureDDL schemaStore : bool) : Parser :=
  mkParser tableFilter captureDDL schemaStore ∅ false None 0 0.

Definition SetEventHandler (p : Parser) : Parser :=
  mkParser (tableFilter p) (captureDDL p) (schemaStore p) (relationMap p) true
    (lsnProvider p) (txnFinalLSN p) (txnEndLSN p).
Definition SetLSNProvider (lsn : string) (p : Parser) : Parser :=
  mkParser (tableFilter p) (captureDDL p) (schemaStore p) (relationMap p) (eventHandler p)
    (Some lsn) (txnFinalLSN p) (txnEndLSN p).
Definition TransactionLSN (p : Parser) : Z := txnFinalLSN p.
Definition CommitEndLSN (p : Parser) : Z := txnEndLSN p.

Definition set_finalLSN (z : Z) (p : Parser) : Parser :=
  mkParser (tableFilter p) (captureDDL p) (schemaStore p) (relationMap p) (eventHandler p)
    (lsnProvider p) z (txnEndLSN p).
Definition set_endLSN (z : Z) (p : Parser) : Parser :=
  mkParser (tableFilter p) (captureDDL p) (schemaStore p) (relationMap p) (eventHandler p)
    (lsnProvider p) (txnFinalLSN p) z.
Definition set_relation (id : Z) (rel : RelationInfo) (p : Parser) : Parser :=
  mkParser (tableFilter p) (captureDDL p) (schemaStore p) (<[id := rel]> (relationMap p))
    (eventHandler p) (lsnProvider p) (txnFinalLSN p) (txnEndLSN p).

Inductive effect :=
| Handle (e : Event)              (* p.eventHandler(e) *)
| Save_ (entry : HistoryEntry).   (* p.schemaStore.Save(entry) *)

(** What one message does: the parser after it, the effects in order, and the
    returned event. *)
Definition parsed : Type := Parser * list effect * option Event.

Definition passesFilter (p : Parser) (tableName : string) : bool :=
  if bool_decide (tableName = slotOwnersTable) then false
  else match tableFilter p with
       | [] => true
       | l => bool_decide (tableName ∈ l)
       end.

(** ** Row images *)

Definition skipTupleValue (colType : Z) : R unit :=
  if colType =? 116 then n ← readUint32; _ ← readBytes n; mret tt else mret tt.

(** The text of a value of the given type. *)
Definition text_json (typeOID : Z) (value : string) : string :=
  if isNumericOID typeOID then value
  else if typeOID =? boolOID then
    (if bool_decide (value = "t"%string) then "true" else "false")
  else if isJSONOID typeOID && json_valid value then value
  else dquote +:+ EscapeString value +:+ dquote.

Definition writeTextValue (sb : string) (typeOID : Z) : R string :=
  length ← readUint32;
  value ← readBytes length;
  mret (sb +:+ text_json typeOID (str_of value)).

Definition writeTupleValue (sb : string) (colType typeOID : Z) : R string :=
  if colType =? 110 then mret (sb +:+ "null")
  else if colType =? 116 then writeTextValue sb typeOID
  else mret (sb +:+ dquote +:+ "unknown" +:+ dquote).

Definition column_name (rel : RelationInfo) (i : nat) : string :=
  default ("col_" +:+ itoa (Z.of_nat i)) (Columns rel !! i).
Definition column_oid (rel : RelationInfo) (i : nat) : Z := default 0 (TypeOIDs rel !! i).

(** The loop over the columns, [n] of them left, at column [i]. *)
Fixpoint tuple_loop (rel : RelationInfo) (keyOnly : bool) (n i written : nat) (sb : string)
    : R string :=
  match n with
  | O => mret sb
  | S n =>
      colType ← readByte;
      let colName := column_name rel i in
      if (colType =? 117) || (keyOnly && negb (bool_decide (colName ∈ RelKeyColumns rel)))
      then _ ← skipTupleValue colType; tuple_loop rel keyOnly n (S i) written sb
      else
        let sb := if (0 <? written)%nat then sb +:+ ", " else sb in
        let sb := sb +:+ dquote in
        let sb := sb +:+ EscapeString colName in
        let sb := sb +:+ dquote +:+ ":" in
        sb ← writeTupleValue sb colType (column_oid rel i);
        tuple_loop rel keyOnly n (S i) (S written) sb
  end.

Definition parseTupleData (rel : RelationInfo) (keyOnly : bool) : R string :=
  r ← get;
  if remaining r <? 2 then mret "{}"%string
  else
    numCols ← readUint16;
    sb ← tuple_loop rel keyOnly (Z.to_nat numCols) 0 0 "{";
    mret (sb +:+ "}").

(** ** Messages *)

Section Messages.
(** The clock readings of this message ([time.Now] in [NewEvent]) and the
    position string passed by the listener. *)
Context (clock : nat -> Z) (lsn : string).

(** [int64(pgMicros/1000)] after the epoch; both operands fit. *)
Definition source_millis (pgMicros : Z) : Z := i64 (pgEpochOffsetMillis + pgMicros / 1000).

Definition parseBegin (p : Parser) : R parsed :=
  r ← get;
  if 20 <=? remaining r then
    final ← readUint64;
    pgMicros ← readUint64;
    _ ← readUint32;
    mret (set_finalLSN final p, [],
          Some (NewEventWithSourceTS (clock 0%nat) Begin "" "" "" "BEGIN" lsn (source_millis pgMicros)))
  else mret (p, [], Some (NewEvent (clock 0%nat) Begin "" "" "" "BEGIN" lsn)).

Definition parseCommit (p : Parser) : R parsed :=
  r ← get;
  if 25 <=? remaining r then
    _ ← readByte;
    _ ← readUint64;
    endLSN ← readUint64;
    pgMicros ← readUint64;
    mret (set_endLSN endLSN p, [],
          Some (NewEventWithSourceTS (clock 0%nat) Commit "" "" "" "COMMIT" lsn (source_millis pgMicros)))
  else mret (set_endLSN 0 p, [], Some (NewEvent (clock 0%nat) Commit "" "" "" "COMMIT" lsn)).

(** The column loop of [parseRelation]: names, types and key columns. *)
Fixpoint relation_columns (n : nat) (columns : list string) (typeOIDs : list Z)
    (keyColumns : list string) : R (list string * list Z * list string) :=
  match n with
  | O => mret (columns, typeOIDs, keyColumns)
  | S n =>
      flags ← readByte;
      column ← readCString;
      oid ← readUint32;
      _ ← readUint32;
      relation_columns n (columns ++ [column]) (typeOIDs ++ [oid])
        (if Z.land flags 1 =? 1 then keyColumns ++ [column] else keyColumns)
  end.

Definition column_defs (columns : list string) (typeOIDs : list Z) : list ColumnDef :=
  zip_with (fun n oid => mkColumnDef n "" oid) columns typeOIDs.

Definition parseRelation (p : Parser) : R parsed :=
  relID ← readUint32;
  namespace ← readCString;
  name ← readCString;
  _ ← readByte;
  numCols ← readUint16;
  cols ← relation_columns (Z.to_nat numCols) [] [] [];
  let '(columns, typeOIDs, keyColumns) := cols in
  let p := set_relation relID (mkRel namespace name columns typeOIDs keyColumns) p in
  let effs := if schemaStore p
    then [Save_ (mkEntry (default "unknown"%string (lsnProvider p)) namespace name
                   (column_defs columns typeOIDs) 0)]
    else [] in
  mret (p, effs, None).

Definition parseInsert (p : Parser) : R parsed :=
  relID ← readUint32;
  match relationMap p !! relID with
  | None => mret (p, [], None)
  | Some rel =>
      if captureDDL p && bool_decide (Name rel = ddlLogTable) then
        _ ← readByte;
        data ← parseTupleData rel false;
        mret (p, [], Some (NewEvent (clock 0%nat) DDL (Namespace rel) "" data "DDL" lsn))
      else if negb (passesFilter p (Name rel)) then mret (p, [], None)
      else
        _ ← readByte;
        data ← parseTupleData rel false;
        mret (p, [], Some (set_key_columns (RelKeyColumns rel)
          (NewEvent (clock 0%nat) Insert (Namespace rel) (Name rel) data "INSERT" lsn)))
  end.

(** The old image of an UPDATE, if the message has one. *)
Definition update_old (rel : RelationInfo) (sb : string) : R string :=
  r ← get;
  if 0 <? remaining r then
    tupleType ← readByte;
    if (tupleType =? 75) || (tupleType =? 79) then
      oldData ← parseTupleData rel (tupleType =? 75);
      mret (sb +:+ dquote +:+ "old" +:+ dquote +:+ ":" +:+ oldData)
    else _ ← putBack; mret sb
  else mret sb.

Definition update_new (rel : RelationInfo) (sb : string) : R string :=
  r ← get;
  if 0 <? remaining r then
    tupleType ← readByte;
    if tupleType =? 78 then
      newData ← parseTupleData rel false;
      let sb := if (1 <? String.length sb)%nat then sb +:+ ", " else sb in
      mret (sb +:+ dquote +:+ "new" +:+ dquote +:+ ":" +:+ newData)
    else mret sb
  else mret sb.

Definition parseUpdate (p : Parser) : R parsed :=
  relID ← readUint32;
  match relationMap p !! relID with
  | None => mret (p, [], None)
  | Some rel =>
      if negb (passesFilter p (Name rel)) then mret (p, [], None)
      else
        sb ← update_old rel "{";
        sb ← update_new rel sb;
        mret (p, [], Some (set_key_columns (RelKeyColumns rel)
          (NewEvent (clock 0%nat) Update (Namespace rel) (Name rel) (sb +:+ "}") "UPDATE" lsn)))
  end.

Definition parseDelete (p : Parser) : R parsed :=
  relID ← readUint32;
  match relationMap p !! relID with
  | None => mret (p, [], None)
  | Some rel =>
      if negb (passesFilter p (Name rel)) then mret (p, [], None)
      else
        r ← get;
        if 0 <? remaining r then
          tupleType ← readByte;
          data ← parseTupleData rel (tupleType =? 75);
          mret (p, [], Some (set_key_columns (RelKeyColumns rel)
            (NewEvent (clock 0%nat) Delete (Namespace rel) (Name rel) data "DELETE" lsn)))
        else mret (p, [], Some (NewEvent (clock 0%nat) Delete (Namespace rel) (Name rel) "{}" "DELETE" lsn))
  end.

Definition truncate_data (options : Z) : string :=
  "{" +:+ dquote +:+ "options" +:+ dquote +:+ ":" +:+ itoa options +:+ "}".

(** The relation loop of [parseTruncate]: [n] relations left, at relation [i]. *)
Fixpoint truncate_loop (p : Parser) (options : Z) (n i : nat) (effs : list effect)
    (first : option Event) : R (list effect * option Event) :=
  match n with
  | O => mret (effs, first)
  | S n =>
      relID ← readUint32;
      match relationMap p !! relID with
      | None => truncate_loop p options n (S i) effs first
      | Some rel =>
          if negb (passesFilter p (Name rel)) then truncate_loop p options n (S i) effs first
          else
            let e := NewEvent (clock i) Truncate (Namespace rel) (Name rel)
                       (truncate_data options) "TRUNCATE" lsn in
            match first with
            | None => truncate_loop p options n (S i) effs (Some e)
            | Some _ =>
                if eventHandler p then truncate_loop p options n (S i) (effs ++ [Handle e]) first
                else truncate_loop p options n (S i) effs first
            end
      end
  end.

Definition parseTruncate (p : Parser) : R parsed :=
  numRelations ← readUint32;
  options ← readByte;
  res ← truncate_loop p options (Z.to_nat numRelations) 0 [] None;
  let '(effs, first) := res in mret (p, effs, first).

(** [Parse]; [None] is a panic. *)
Definition Parse (p : Parser) (data : list ascii) : option parsed :=
  match data with
  | [] => Some (p, [], None)
  | msgType :: _ =>
      let buf := mkReader data 1 false in
      let run (m : R parsed) := fst <$> m buf in
      let t := code msgType in
      if t =? 66 then run (parseBegin p)
      else if t =? 67 then run (parseCommit p)
      else if t =? 82 then run (parseRelation p)
      else if t =? 73 then run (parseInsert p)
      else if t =? 85 then run (parseUpdate p)
      else if t =? 68 then run (parseDelete p)
      else if t =? 84 then run (parseTruncate p)
      else Some (p, [], None)
  end.

End Messages.

(** ** No message makes the decoder panic *)

Lemma rsafe_skipTupleValue c : rsafe (skipTupleValue c).
Proof.
  unfold skipTupleValue. destruct (c =? 116); [|auto with reader].
  apply rsafe_bind_uint; [lia|]. intros z Hz. auto with reader.
Qed.

Lemma rsafe_writeTupleValue sb c oid : rsafe (writeTupleValue sb c oid).
Proof.
  unfold writeTupleValue, writeTextValue. bcase; auto with reader.
  apply rsafe_bind_uint; [lia|]. intros z Hz. auto with reader.
Qed.
#[export] Hint Resolve rsafe_skipTupleValue rsafe_writeTupleValue : reader.

Lemma rsafe_tuple_loop rel k n i w sb : rsafe (tuple_loop rel k n i w sb).
Proof.
  revert i w sb. induction n as [|n IH]; intros i w sb; cbn [tuple_loop]; [auto with reader|].
  apply rsafe_bind; [auto with reader|]. intros c. simpl.
  destruct (_ || _); auto with reader.
Qed.
#[export] Hint Resolve rsafe_tuple_loop : reader.

Lemma rsafe_parseTupleData rel k : rsafe (parseTupleData rel k).
Proof.
  unfold parseTupleData. apply rsafe_bind; [auto with reader|]. intros r. bcase; auto with reader.
Qed.
#[export] Hint Resolve rsafe_parseTupleData : reader.

Lemma rsafe_relation_columns n cs os ks : rsafe (relation_columns n cs os ks).
Proof.
  revert cs os ks. induction n as [|n IH]; intros; cbn [relation_columns]; auto 10 with reader.
Qed.
#[export] Hint Resolve rsafe_relation_columns : reader.

Lemma rsafe_update_new rel sb : rsafe (update_new rel sb).
Proof.
  unfold update_new. apply rsafe_bind; [auto with reader|]. intros r. bcase; auto with reader.
  apply rsafe_bind; [auto with reader|]. intros t. bcase; auto with reader.
Qed.

(** [update_old] may step back over the byte it read. *)
Lemma update_old_safe rel sb d r :
  rwf 1 d r -> exists sb' r', update_old rel sb r = Some (sb', r') /\ rwf 0 d r'.
Proof.
  intros H. unfold update_old, get, mbind, R_bind. bcase.
  2:{ eexists _, _. split; [done|]. by eapply rwf_weaken; [|done]. }
  destruct (rsafe_readByte 1 d r H) as (t & r1 & -> & H1).
  destruct ((t =? 75) || (t =? 79)).
  - destruct (rsafe_parseTupleData rel (t =? 75) 1 d r1 H1) as (s & r2 & -> & H2).
    eexists _, _. split; [done|]. by eapply rwf_weaken; [|done].
  - destruct (rwf_putBack 0 d r1 H1) as (r2 & E & H2); [done|].
    unfold putBack in *. simplify_eq. eexists _, _. split; [done|]. done.
Qed.

Section Safety.
Context (clock : nat -> Z) (lsn : string) (p : Parser).

Lemma rsafe_truncate_loop o n i effs first : rsafe (truncate_loop clock lsn p o n i effs first).
Proof.
  revert i effs first. induction n as [|n IH]; intros; cbn [truncate_loop]; [auto with reader|].
  apply rsafe_bind; [auto with reader|]. intros id.
  destruct (relationMap p !! id); [|auto]. destruct (negb _); [auto|].
  simpl. destruct first; [|auto]. destruct (eventHandler p); auto.
Qed.

Lemma rsafe_message m :
  m ∈ [parseBegin clock lsn p; parseCommit clock lsn p; parseRelation p; parseInsert clock lsn p;
       parseDelete clock lsn p; parseTruncate clock lsn p] -> rsafe m.
Proof.
  intros Hm. repeat (apply elem_of_cons in Hm as [->|Hm]); [..|by apply elem_of_nil in Hm].
  - apply rsafe_bind; [auto with reader|]. intros r. destruct (_ <=? _); auto 8 with reader.
  - apply rsafe_bind; [auto with reader|]. intros r. destruct (_ <=? _); auto 8 with reader.
  - unfold parseRelation. do 6 (apply rsafe_bind; [auto with reader|]; intros ?).
    repeat case_match; auto with reader.
  - apply rsafe_bind; [auto with reader|]. intros id. destruct (relationMap p !! id); auto with reader.
    destruct (_ && _); auto with reader. destruct (negb _); auto with reader.
  - apply rsafe_bind; [auto with reader|]. intros id. destruct (relationMap p !! id); auto with reader.
    destruct (negb _); auto with reader. apply rsafe_bind; [auto with reader|]. intros r'.
    destruct (_ <? _); auto with reader.
  - unfold parseTruncate. do 2 (apply rsafe_bind; [auto with reader|]; intros ?).
    apply rsafe_bind; [apply rsafe_truncate_loop|]. intros [effs first]. auto with reader.
Qed.

Lemma parseUpdate_safe d r : rwf 1 d r -> exists o r', parseUpdate clock lsn p r = Some (o, r').
Proof.
  intros H. unfold parseUpdate.
  destruct (rsafe_readUint 4 ltac:(lia) 1 d r H) as (id & r1 & E & H1).
  unfold readUint32, mbind at 1, R_bind at 1. rewrite E.
  destruct (relationMap p !! id) as [rel|]; [|by eexists _, _].
  destruct (negb _); [by eexists _, _|].
  destruct (update_old_safe rel "{" d r1 H1) as (sb & r2 & E2 & H2).
  unfold mbind at 1, R_bind at 1. rewrite E2.
  destruct (rsafe_update_new rel sb 0 d r2 H2) as (sb' & r3 & E3 & H3).
  unfold mbind, R_bind. rewrite E3. by eexists _, _.
Qed.

Lemma Parse_no_panic data : is_Some (Parse clock lsn p data).
Proof.
  unfold Parse. destruct data as [|t rest]; [eauto|].
  assert (Hr : rwf 1 (t :: rest) (mkReader (t :: rest) 1 false)).
  { constructor; unfold len; simpl; lia || done. }
  assert (Hm : forall m : R parsed, rsafe m -> is_Some (fst <$> m (mkReader (t :: rest) 1 false))).
  { intros m Hm. destruct (Hm 1 (t :: rest) _ Hr) as (a & r' & -> & _). eauto. }
  repeat (case_match; [solve [apply Hm, rsafe_message; set_solver|
    destruct (parseUpdate_safe _ _ Hr) as (o & r' & ->); simpl; eauto]|]).
  eauto.
Qed.

End Safety.

(** ** The protocol: logical messages and their encoding

    The subset of pgoutput (proto_version 1) that the server sends, as abstract
    messages; [encode] is the wire format and [interp] what a message means,
    stated without a cursor or a string builder. *)

Inductive colval :=
| CNull
| CUnchanged                     (* unchanged TOAST value *)
| CText (s : string).

Record colspec := mkCol { cs_key : bool; cs_name : string; cs_oid : Z; cs_mod : Z }.

Inductive pgmsg :=
| MBegin (finalLSN micros xid : Z)
| MCommit (flags : ascii) (commitLSN endLSN micros : Z)
| MRelation (id : Z) (ns name : string) (ident : ascii) (cols : list colspec)
| MInsert (id : Z) (new : list colval)
| MUpdate (id : Z) (old : option (bool * list colval)) (new : list colval)
| MDelete (id : Z) (keyOnly : bool) (old : list colval)
| MTruncate (options : ascii) (ids : list Z).

Definition enc_col (c : colval) : list ascii :=
  match c with
  | CNull => [chr 110]
  | CUnchanged => [chr 117]
  | CText s => chr 116 :: be_bytes 4 (Z.of_nat (String.length s)) ++ bytes_of s
  end.

Definition enc_tuple (cs : list colval) : list ascii :=
  be_bytes 2 (Z.of_nat (length cs)) ++ mjoin (map enc_col cs).

Definition enc_colspec (c : colspec) : list ascii :=
  chr (if cs_key c then 1 else 0) :: cstring (cs_name c) ++ be_bytes 4 (cs_oid c) ++ be_bytes 4 (cs_mod c).

Definition image_byte (keyOnly : bool) : ascii := chr (if keyOnly then 75 else 79).

Definition encode (m : pgmsg) : list ascii :=
  match m with
  | MBegin f t x => chr 66 :: be_bytes 8 f ++ be_bytes 8 t ++ be_bytes 4 x
  | MCommit fl c e t => chr 67 :: fl :: be_bytes 8 c ++ be_bytes 8 e ++ be_bytes 8 t
  | MRelation id ns name ident cols =>
      chr 82 :: be_bytes 4 id ++ cstring ns ++ cstring name ++ [ident]
        ++ be_bytes 2 (Z.of_nat (length cols)) ++ mjoin (map enc_colspec cols)
  | MInsert id new => chr 73 :: be_bytes 4 id ++ [chr 78] ++ enc_tuple new
  | MUpdate id old new =>
      chr 85 :: be_bytes 4 id
        ++ (match old with Some (k, o) => image_byte k :: enc_tuple o | None => [] end)
        ++ [chr 78] ++ enc_tuple new
  | MDelete id k old => chr 68 :: be_bytes 4 id ++ [image_byte k] ++ enc_tuple old
  | MTruncate opts ids =>
      chr 84 :: be_bytes 4 (Z.of_nat (length ids)) ++ [opts] ++ mjoin (map (be_bytes 4) ids)
  end.

(** *** Meaning *)

(** The columns of a row image that its JSON object carries, with the text of
    each value, from column [i] on. *)
Fixpoint carried (rel : RelationInfo) (keyOnly : bool) (i : nat) (cs : list colval)
    : list (string * string) :=
  match cs with
  | [] => []
  | c :: cs =>
      let rest := carried rel keyOnly (S i) cs in
      if keyOnly && negb (bool_decide (column_name rel i ∈ RelKeyColumns rel)) then rest
      else match c with
           | CUnchanged => rest
           | CNull => (column_name rel i, "null"%string) :: rest
           | CText s => (column_name rel i, text_json (column_oid rel i) s) :: rest
           end
  end.

(** The members of an object, each but the first ([w] were written before)
    preceded by a separator. *)
Fixpoint members (w : nat) (l : list (string * string)) : string :=
  match l with
  | [] => ""
  | (k, v) :: l => sep w +:+ member (EscapeString k) v +:+ members (S w) l
  end.

Definition row_json (rel : RelationInfo) (keyOnly : bool) (cs : list colval) : string :=
  "{" +:+ members 0 (carried rel keyOnly 0 cs) +:+ "}".

Definition update_json (rel : RelationInfo) (old : option (bool * list colval)) (new : list colval) : string :=
  match old with
  | Some (k, o) =>
      "{" +:+ member "old" (row_json rel k o) +:+ ", " +:+ member "new" (row_json rel false new) +:+ "}"
  | None => "{" +:+ member "new" (row_json rel false new) +:+ "}"
  end.

Section Meaning.
Context (clock : nat -> Z) (lsn : string).

Definition row_event (typ : EventType) (raw data : string) (rel : RelationInfo) : Event :=
  set_key_columns (RelKeyColumns rel)
    (NewEvent (clock 0%nat) typ (Namespace rel) (Name rel) data raw lsn).

(** A row change of relation [id]: an event when the relation is known and
    passes the filter. *)
Definition on_relation (p : Parser) (id : Z) (f : RelationInfo -> Event) : option Event :=
  match relationMap p !! id with
  | Some rel => if passesFilter p (Name rel) then Some (f rel) else None
  | None => None
  end.

(** The TRUNCATE events of the relations from position [i] on. *)
Fixpoint truncated (p : Parser) (options : Z) (i : nat) (ids : list Z) : list Event :=
  match ids with
  | [] => []
  | id :: ids =>
      match on_relation p id (fun rel =>
        NewEvent (clock i) Truncate (Namespace rel) (Name rel) (truncate_data options) "TRUNCATE" lsn)
      with
      | Some e => e :: truncated p options (S i) ids
      | None => truncated p options (S i) ids
      end
  end.

Definition rel_of (ns name : string) (cols : list colspec) : RelationInfo :=
  mkRel ns name (map cs_name cols) (map cs_oid cols) (map cs_name (filter (fun c => cs_key c = true) cols)).

Definition interp (p : Parser) (m : pgmsg) : parsed :=
  match m with
  | MBegin f t _ =>
      (set_finalLSN f p, [],
       Some (NewEventWithSourceTS (clock 0%nat) Begin "" "" "" "BEGIN" lsn (source_millis t)))
  | MCommit _ _ e t =>
      (set_endLSN e p, [],
       Some (NewEventWithSourceTS (clock 0%nat) Commit "" "" "" "COMMIT" lsn (source_millis t)))
  | MRelation id ns name _ cols =>
      (set_relation id (rel_of ns name cols) p,
       if schemaStore p
       then [Save_ (mkEntry (default "unknown"%string (lsnProvider p)) ns name
               (map (fun c => mkColumnDef (cs_name c) "" (cs_oid c)) cols) 0)]
       else [], None)
  | MInsert id new =>
      (p, [],
       match relationMap p !! id with
       | Some rel =>
           if captureDDL p && bool_decide (Name rel = ddlLogTable)
           then Some (NewEvent (clock 0%nat) DDL (Namespace rel) "" (row_json rel false new) "DDL" lsn)
           else on_relation p id (fun rel => row_event Insert "INSERT" (row_json rel false new) rel)
       | None => None
       end)
  | MUpdate id old new =>
      (p, [], on_relation p id (fun rel => row_event Update "UPDATE" (update_json rel old new) rel))
  | MDelete id k old =>
      (p, [], on_relation p id (fun rel => row_event Delete "DELETE" (row_json rel k old) rel))
  | MTruncate opts ids =>
      let evs := truncated p (code opts) 0 ids in
      (p, if eventHandler p then map Handle (tail evs) else [], head evs)
  end.

End Meaning.

(** Values the fields of a message can hold. *)
Definition is_u64 (z : Z) : Prop := 0 <= z < 2 ^ 64.
Definition is_u32 (z : Z) : Prop := 0 <= z < 2 ^ 32.

Definition wf_col (c : colval) : Prop :=
  match c with CText s => Z.of_nat (String.length s) < 2 ^ 32 | _ => True end.
Definition wf_tuple (cs : list colval) : Prop :=
  Z.of_nat (length cs) < 2 ^ 16 /\ Forall wf_col cs.
Definition wf_colspec (c : colspec) : Prop :=
  nul_free (cs_name c) = true /\ is_u32 (cs_oid c) /\ is_u32 (cs_mod c).

Definition wf_msg (m : pgmsg) : Prop :=
  match m with
  | MBegin f t x => is_u64 f /\ is_u64 t /\ is_u32 x
  | MCommit _ c e t => is_u64 c /\ is_u64 e /\ is_u64 t
  | MRelation id ns name _ cols =>
      is_u32 id /\ nul_free ns = true /\ nul_free name = true /\
      Z.of_nat (length cols) < 2 ^ 16 /\ Forall wf_colspec cols
  | MInsert id new => is_u32 id /\ wf_tuple new
  | MUpdate id old new =>
      is_u32 id /\ (match old with Some (_, o) => wf_tuple o | None => True end) /\ wf_tuple new
  | MDelete id _ old => is_u32 id /\ wf_tuple old
  | MTruncate _ ids => Z.of_nat (length ids) < 2 ^ 32 /\ Forall is_u32 ids
  end.

(** ** Decoding an encoded message gives its meaning *)

Lemma reads_u16 z : 0 <= z < 2 ^ 16 -> reads readUint16 (be_bytes 2 z) z.
Proof. intros. by apply (reads_uint 2). Qed.
Lemma reads_u32 z : is_u32 z -> reads readUint32 (be_bytes 4 z) z.
Proof. intros. by apply (reads_uint 4). Qed.
Lemma reads_u64 z : is_u64 z -> reads readUint64 (be_bytes 8 z) z.
Proof. intros. by apply (reads_uint 8). Qed.
#[local] Hint Resolve reads_u16 reads_u32 reads_u64 reads_cstring : reader.

(** A test on the reader that the bytes to come decide. *)
Lemma reads_if {A} (c : reader -> bool) (m1 m2 : R A) bs a :
  (forall pre rest, c (rd pre (bs ++ rest)) = true) ->
  reads m1 bs a -> reads (get ≫= fun r => if c r then m1 else m2) bs a.
Proof. intros Hc Hm pre rest. unfold mbind, R_bind, get. by rewrite Hc, Hm. Qed.

Lemma reads_if_not {A} (c : reader -> bool) (m1 m2 : R A) bs a :
  (forall pre rest, c (rd pre (bs ++ rest)) = false) ->
  reads m2 bs a -> reads (get ≫= fun r => if c r then m1 else m2) bs a.
Proof. intros Hc Hm pre rest. unfold mbind, R_bind, get. by rewrite Hc, Hm. Qed.

Lemma reads_eq {A} (m : R A) bs bs' a a' : reads m bs a -> bs = bs' -> a = a' -> reads m bs' a'.
Proof. by intros ? -> ->. Qed.

Lemma reads_cons {A B} (m : R A) (f : A -> R B) c b2 a d :
  reads m [c] a -> reads (f a) b2 d -> reads (m ≫= f) (c :: b2) d.
Proof. apply (reads_bind m f [c]). Qed.

(** The length-prefixed text of a value, read and skipped. *)
Lemma reads_text {B} (f : list ascii -> R B) s a :
  Z.of_nat (String.length s) < 2 ^ 32 -> reads (f (bytes_of s)) [] a ->
  reads (n ← readUint32; v ← readBytes n; f v)
    (be_bytes 4 (Z.of_nat (String.length s)) ++ bytes_of s) a.
Proof.
  intros Hs Hf. eapply reads_bind; [apply reads_u32; split; lia|].
  eapply reads_eq; [eapply reads_bind; [apply reads_bytes|]|..]; [|done|by rewrite app_nil_r|done].
  by rewrite length_bytes_of.
Qed.

Lemma reads_tuple_loop rel k cs i w sb :
  Forall wf_col cs ->
  reads (tuple_loop rel k (length cs) i w sb) (mjoin (map enc_col cs))
    (sb +:+ members w (carried rel k i cs)).
Proof.
  intros H. revert i w sb. induction H as [|c cs Hc _ IH]; intros i w sb.
  { simpl. rewrite str_app_nil_r. apply reads_ret. }
  cbn [tuple_loop length map mjoin list_join].
  cbn [carried]. set (hidden := k && negb (bool_decide (column_name rel i ∈ RelKeyColumns rel))).
  assert (Hsb : forall v, ((((if (0 <? w)%nat then sb +:+ ", " else sb) +:+ dquote)
      +:+ EscapeString (column_name rel i)) +:+ dquote +:+ ":") +:+ v
      = sb +:+ sep w +:+ member (EscapeString (column_name rel i)) v).
  { intros v. unfold member. rewrite !str_app_assoc. by destruct w; simpl; rewrite ?str_app_assoc. }
  destruct c as [| |s]; cbn [enc_col].
  - eapply reads_cons; [apply reads_byte|]. change (code (chr 110)) with 110. simpl.
    destruct hidden.
    + apply (reads_bind _ _ [] _ tt); [apply reads_ret | apply IH].
    + apply (reads_bind _ _ [] _ ((sb +:+ sep w +:+ member (EscapeString (column_name rel i)) "null"))).
      * unfold writeTupleValue. simpl. rewrite Hsb. apply reads_ret.
      * eapply reads_eq; [apply IH|done|]. by rewrite !str_app_assoc.
  - eapply reads_cons; [apply reads_byte|]. change (code (chr 117)) with 117. simpl.
    destruct hidden; (apply (reads_bind _ _ [] _ tt); [apply reads_ret | apply IH]).
  - rewrite <- app_comm_cons. eapply reads_cons; [apply reads_byte|].
    change (code (chr 116)) with 116. change (116 =? 117) with false. rewrite orb_false_l.
    rewrite <- app_assoc, (app_assoc (be_bytes 4 _)). cbv zeta. fold hidden. destruct hidden.
    + eapply reads_bind; [|apply IH]. apply reads_text; [done|]. apply reads_ret.
    + eapply reads_bind.
      * unfold writeTupleValue. change (116 =? 110) with false. change (116 =? 116) with true.
        apply reads_text; [done|]. apply reads_ret.
      * rewrite Hsb, str_of_bytes_of. eapply reads_eq; [apply IH|done|]. by rewrite !str_app_assoc.
Qed.

Lemma reads_tuple rel k cs :
  wf_tuple cs -> reads (parseTupleData rel k) (enc_tuple cs) (row_json rel k cs).
Proof.
  intros [Hn Hc]. unfold parseTupleData, enc_tuple. apply reads_if_not.
  { intros pre rest. apply Z.ltb_ge. rewrite remaining_rd, !length_app, length_be_bytes. lia. }
  eapply reads_bind; [apply reads_u16; lia|].
  eapply reads_eq; [eapply reads_bind; [rewrite Nat2Z.id; by apply reads_tuple_loop | apply reads_ret]|..].
  - by rewrite app_nil_r.
  - unfold row_json. by rewrite str_app_assoc.
Qed.

Lemma reads_relation_columns cols cs os ks :
  Forall wf_colspec cols ->
  reads (relation_columns (length cols) cs os ks) (mjoin (map enc_colspec cols))
    (cs ++ map cs_name cols, os ++ map cs_oid cols,
     ks ++ map cs_name (filter (fun c => cs_key c = true) cols)).
Proof.
  intros H. revert cs os ks. induction H as [|c cols (Hn & Ho & Hm) _ IH]; intros cs os ks.
  { simpl. rewrite !app_nil_r. apply reads_ret. }
  cbn [relation_columns length map mjoin list_join]. unfold enc_colspec at 1.
  rewrite <- app_comm_cons, <- !app_assoc.
  eapply reads_cons; [apply reads_byte|]. eapply reads_bind; [by apply reads_cstring|].
  eapply reads_bind; [by apply reads_u32|]. eapply reads_bind; [by apply reads_u32|].
  eapply reads_eq; [apply IH|done|]. rewrite <- !app_assoc.
  destruct (cs_key c) eqn:E; rewrite code_chr by lia; simpl; rewrite filter_cons, E; simpl;
    by rewrite <- ?app_assoc.
Qed.

Section Decode.
Context (clock : nat -> Z) (lsn : string) (p : Parser).

Lemma reads_truncate_loop o ids i effs first :
  Forall is_u32 ids ->
  reads (truncate_loop clock lsn p o (length ids) i effs first) (mjoin (map (be_bytes 4) ids))
    (let evs := truncated clock lsn p o i ids in
     match first with
     | Some e => (effs ++ (if eventHandler p then map Handle evs else []), Some e)
     | None => (effs ++ (if eventHandler p then map Handle (tail evs) else []), head evs)
     end).
Proof.
  intros H. revert i effs first. induction H as [|id ids Hid _ IH]; intros i effs first.
  { simpl. eapply reads_eq; [apply reads_ret|done|].
    destruct first, (eventHandler p); simpl; by rewrite app_nil_r. }
  cbn [truncate_loop length map mjoin list_join truncated].
  eapply reads_bind; [by apply reads_u32|]. unfold on_relation.
  destruct (relationMap p !! id) as [rel|]; [|apply IH].
  destruct (passesFilter p (Name rel)); [|apply IH]. simpl.
  destruct first as [e|].
  - destruct (eventHandler p); (eapply reads_eq; [apply IH|done|]); simpl; by rewrite <- ?app_assoc.
  - eapply reads_eq; [apply IH|done|]. simpl. done.
Qed.

Lemma update_old_none rel sb pre rest :
  update_old rel sb (rd pre (chr 78 :: rest)) = Some (sb, rd pre (chr 78 :: rest)).
Proof.
  unfold update_old, get, mbind, R_bind. rewrite remaining_rd. cbn [length].
  rewrite (proj2 (Z.ltb_lt 0 (Z.of_nat (S (length rest))))) by lia.
  pose proof (reads_byte (chr 78) pre rest) as E. simpl in E. rewrite E.
  change (code (chr 78)) with 78. simpl. unfold putBack, advance, rd. simpl. rewrite <- app_assoc. rewrite length_app. simpl.
  replace (Z.of_nat (length pre + 1) + -1) with (Z.of_nat (length pre)) by lia. done.
Qed.

Lemma reads_update_old rel k o :
  wf_tuple o ->
  reads (update_old rel "{") (image_byte k :: enc_tuple o)
    ("{" +:+ member "old" (row_json rel k o)).
Proof.
  intros Ho. unfold update_old. apply reads_if.
  { intros pre rest. apply Z.ltb_lt. rewrite remaining_rd. simpl. lia. }
  eapply reads_cons; [apply reads_byte|].
  replace ((code (image_byte k) =? 75) || (code (image_byte k) =? 79)) with true by (by destruct k).
  replace (code (image_byte k) =? 75) with k by (by destruct k).
  eapply reads_eq; [eapply reads_bind; [by apply reads_tuple | apply reads_ret]|..].
  - by rewrite app_nil_r.
  - done.
Qed.

Lemma reads_update_new rel sb new :
  wf_tuple new ->
  reads (update_new rel sb) (chr 78 :: enc_tuple new)
    ((if (1 <? String.length sb)%nat then sb +:+ ", " else sb) +:+ member "new" (row_json rel false new)).
Proof.
  intros Hn. unfold update_new. apply reads_if.
  { intros pre rest. apply Z.ltb_lt. rewrite remaining_rd. simpl. lia. }
  eapply reads_cons; [apply reads_byte|]. change (code (chr 78)) with 78. simpl.
  eapply reads_eq; [eapply reads_bind; [by apply reads_tuple | apply reads_ret]|..].
  - by rewrite app_nil_r.
  - done.
Qed.

(** [m] returns [a] on a message that ends with [bs], whether or not it reads
    all of them. *)
Definition yields {A} (m : R A) (bs : list ascii) (a : A) : Prop :=
  forall pre, fst <$> m (rd pre bs) = Some a.

Lemma yields_reads {A} (m : R A) bs a : reads m bs a -> yields m bs a.
Proof. intros H pre. specialize (H pre []). rewrite app_nil_r in H. by rewrite H. Qed.

Lemma yields_ret {A} (a : A) bs : yields (mret a) bs a.
Proof. by intros pre. Qed.

Lemma yields_bind {A B} (m : R A) (f : A -> R B) b1 b2 a c :
  reads m b1 a -> yields (f a) b2 c -> yields (m ≫= f) (b1 ++ b2) c.
Proof. intros Hm Hf pre. unfold mbind, R_bind. rewrite Hm. apply Hf. Qed.

Lemma yields_last {A B} (m : R A) (f : A -> R B) bs a c :
  reads m bs a -> f a = mret c -> yields (m ≫= f) bs c.
Proof.
  intros Hm Hf. rewrite <- (app_nil_r bs). eapply yields_bind; [done|]. rewrite Hf. apply yields_ret.
Qed.

Lemma run_yields {A} (m : R A) t bs a : yields m bs a -> fst <$> m (mkReader (t :: bs) 1 false) = Some a.
Proof. intros H. apply (H [t]). Qed.

Lemma yields_relation id ns name ident cols :
  wf_msg (MRelation id ns name ident cols) ->
  yields (parseRelation p) (tail (encode (MRelation id ns name ident cols)))
    (interp clock lsn p (MRelation id ns name ident cols)).
Proof.
  intros (Hid & Hns & Hname & Hn & Hc). unfold parseRelation. cbn [encode tail interp].
  do 3 (eapply yields_bind; [by auto with reader|]).
  eapply yields_bind; [apply reads_byte|]. eapply yields_bind; [apply reads_u16; lia|].
  eapply yields_last; [rewrite Nat2Z.id; by apply reads_relation_columns|].
  simpl. f_equal. f_equal. f_equal. destruct (schemaStore p); [|done]. do 3 f_equal.
  clear. unfold column_defs. induction cols as [|c cols IH]; simpl; [done|]. by rewrite IH.
Qed.

Lemma yields_truncate opts ids :
  wf_msg (MTruncate opts ids) ->
  yields (parseTruncate clock lsn p) (tail (encode (MTruncate opts ids)))
    (interp clock lsn p (MTruncate opts ids)).
Proof.
  intros [Hn Hids]. unfold parseTruncate. cbn [encode tail interp].
  eapply yields_bind; [apply reads_u32; split; lia|]. eapply yields_bind; [apply reads_byte|].
  eapply yields_last; [rewrite Nat2Z.id; by apply reads_truncate_loop|]. done.
Qed.

Lemma yields_insert id new :
  wf_msg (MInsert id new) ->
  yields (parseInsert clock lsn p) (tail (encode (MInsert id new)))
    (interp clock lsn p (MInsert id new)).
Proof.
  intros [Hid Hnew]. unfold parseInsert. cbn [encode tail interp]. unfold on_relation.
  eapply yields_bind; [by apply reads_u32|].
  destruct (relationMap p !! id) as [rel|]; [|apply yields_ret].
  destruct (captureDDL p && _).
  { eapply yields_bind; [apply reads_byte|]. eapply yields_last; [by apply reads_tuple|done]. }
  destruct (passesFilter p (Name rel)); [|apply yields_ret].
  eapply yields_bind; [apply reads_byte|]. eapply yields_last; [by apply reads_tuple|done].
Qed.

Lemma yields_delete id k old :
  wf_msg (MDelete id k old) ->
  yields (parseDelete clock lsn p) (tail (encode (MDelete id k old)))
    (interp clock lsn p (MDelete id k old)).
Proof.
  intros [Hid Hold]. unfold parseDelete. cbn [encode tail interp]. unfold on_relation.
  eapply yields_bind; [by apply reads_u32|].
  destruct (relationMap p !! id) as [rel|]; [|apply yields_ret].
  destruct (passesFilter p (Name rel)); [|apply yields_ret]. simpl negb. cbv iota.
  apply yields_reads. apply reads_if.
  { intros pre rest. apply Z.ltb_lt. rewrite remaining_rd. simpl. lia. }
  eapply reads_bind; [apply reads_byte|].
  replace (code (image_byte k) =? 75) with k by (by destruct k).
  eapply reads_eq; [eapply reads_bind; [by apply reads_tuple | apply reads_ret]
    |by rewrite app_nil_r|done].
Qed.

Lemma yields_update id old new :
  wf_msg (MUpdate id old new) ->
  yields (parseUpdate clock lsn p) (tail (encode (MUpdate id old new)))
    (interp clock lsn p (MUpdate id old new)).
Proof.
  intros (Hid & Hold & Hnew). unfold parseUpdate. cbn [encode tail interp]. unfold on_relation.
  eapply yields_bind; [by apply reads_u32|].
  destruct (relationMap p !! id) as [rel|]; [|apply yields_ret].
  destruct (passesFilter p (Name rel)); [|apply yields_ret]. simpl negb. cbv iota.
  destruct old as [[k o]|].
  - eapply yields_bind; [by apply reads_update_old|].
    eapply yields_last; [by apply reads_update_new|]. unfold update_json.
    rewrite str_length_app. simpl. by rewrite !str_app_assoc.
  - intros pre. unfold mbind at 1, R_bind at 1. simpl app. rewrite update_old_none.
    revert pre. apply (yields_last _ _ _ _ _ (reads_update_new rel "{" new Hnew)). simpl.
    unfold update_json. by rewrite !str_app_assoc.
Qed.

Lemma Parse_encode m :
  wf_msg m -> Parse clock lsn p (encode m) = Some (interp clock lsn p m).
Proof.
  intros Hm. destruct m; unfold Parse; cbn [encode]; rewrite ?code_chr by lia;
    cbn [Z.eqb Pos.eqb]; apply run_yields.
  - destruct Hm as (? & ? & ?). apply yields_reads, reads_if.
    { intros pre rest. apply Z.leb_le. rewrite remaining_rd, !length_app, !length_be_bytes. lia. }
    do 2 (eapply reads_bind; [by auto with reader|]).
    eapply reads_eq; [eapply reads_bind; [by apply reads_u32|apply reads_ret]|by rewrite app_nil_r|done].
  - destruct Hm as (? & ? & ?). apply yields_reads, reads_if.
    { intros pre rest. apply Z.leb_le. rewrite remaining_rd. cbn [length app].
      rewrite !length_app, !length_be_bytes. lia. }
    eapply reads_cons; [apply reads_byte|]. do 2 (eapply reads_bind; [by auto with reader|]).
    eapply reads_eq; [eapply reads_bind; [by apply reads_u64|apply reads_ret]|by rewrite app_nil_r|done].
  - by apply yields_relation.
  - by apply yields_insert.
  - by apply yields_update.
  - by apply yields_delete.
  - by apply yields_truncate.
Qed.

End Decode.

(** ** Row images are valid JSON *)

(** Text that stays a JSON value inside the two levels of object an event's
    data can add. *)
Definition embeddable (s : string) : bool := valid_upto (maxNestingDepth - 2) s.

(** The texts that are copied into the object as they are: numbers, and JSON
    documents, must be JSON values themselves. *)
Definition raw_ok (oid : Z) (s : string) : Prop :=
  (isNumericOID oid = true -> embeddable s = true) /\
  (isJSONOID oid = true -> json_valid s = true -> embeddable s = true).

Definition row_ok (rel : RelationInfo) (cs : list colval) : Prop :=
  forall i s, cs !! i = Some (CText s) -> raw_ok (column_oid rel i) s.

Lemma text_json_value oid s :
  raw_ok oid s -> value_ok maxNestingDepth (maxNestingDepth - 2) (text_json oid s).
Proof.
  intros [Hn Hj]. unfold text_json. destruct (isNumericOID oid).
  { by apply value_embed, Hn. }
  destruct (oid =? boolOID).
  { eapply value_ok_weaken; [apply Nat.le_0_l|]. case_bool_decide; [apply value_true|apply value_false]. }
  destruct (isJSONOID oid && json_valid s) eqn:E.
  { apply andb_true_iff in E as [E1 E2]. by apply value_embed, Hj. }
  eapply value_ok_weaken; [apply Nat.le_0_l|]. apply value_string, body_escape.
Qed.

Lemma members_open d w sb l :
  open_ok maxNestingDepth d w sb ->
  Forall (fun kv => value_ok maxNestingDepth d kv.2) l ->
  open_ok maxNestingDepth d (w + length l) (sb +:+ members w l).
Proof.
  intros Ho Hl. revert w sb Ho. induction Hl as [|[k v] l Hv _ IH]; intros w sb Ho; simpl.
  - by rewrite Nat.add_0_r, str_app_nil_r.
  - rewrite Nat.add_succ_r. rewrite <- !str_app_assoc. rewrite (str_app_assoc sb).
    apply (IH (S w)). apply open_member; [done|apply body_escape|done].
Qed.

Lemma carried_values rel k i cs :
  (forall j s, cs !! j = Some (CText s) -> raw_ok (column_oid rel (i + j)) s) ->
  Forall (fun kv => value_ok maxNestingDepth (maxNestingDepth - 2) kv.2) (carried rel k i cs).
Proof.
  revert i. induction cs as [|c cs IH]; intros i H; [constructor|]. cbn [carried].
  assert (Hrest : Forall (fun kv => value_ok maxNestingDepth (maxNestingDepth - 2) kv.2)
    (carried rel k (S i) cs)).
  { apply IH. intros j s Hj. rewrite Nat.add_succ_comm. by apply (H (S j)). }
  destruct (k && _); [done|]. destruct c as [| |s]; [|done|]; constructor; [|done| |done]; simpl.
  - eapply value_ok_weaken; [apply Nat.le_0_l|]. apply value_null.
  - apply text_json_value. specialize (H 0%nat s eq_refl). by rewrite Nat.add_0_r in H.
Qed.

Lemma row_json_value rel k cs :
  row_ok rel cs -> value_ok maxNestingDepth (maxNestingDepth - 1) (row_json rel k cs).
Proof.
  intros H. unfold row_json. rewrite <- str_app_assoc.
  apply (open_close _ (maxNestingDepth - 2) (0 + length (carried rel k 0 cs))).
  apply members_open; [apply open_start|]. by apply carried_values.
Qed.

(** *** Numbers that are not JSON *)

(** What Postgres prints for the values of numeric and float columns that JSON
    has no number for. *)
Definition non_finite (s : string) : Prop := s ∈ ["NaN"; "Infinity"; "-Infinity"]%string.

Lemma non_finite_fails maxd stk s t :
  non_finite s -> jrun maxd (Some (BeginValue, stk)) (s +:+ t) = None.
Proof.
  unfold non_finite. rewrite !elem_of_cons, elem_of_nil.
  intros [->|[->|[->|[]]]]; rewrite jrun_app; apply jrun_None.
Qed.

(** A member with such a value ends the scan of the object it is written to. *)
Lemma open_non_finite d n sb k v t :
  open_ok maxNestingDepth d n sb -> (S d <= maxNestingDepth)%nat -> body_ok maxNestingDepth k -> non_finite v ->
  json_valid (sb +:+ sep n +:+ member k v +:+ t) = false.
Proof.
  intros Ho Hd Hk Hv. unfold json_valid, valid_upto, member. rewrite !str_app_assoc.
  rewrite (open_sep maxNestingDepth d) by done. rewrite jrun_app, Hk.
  unfold dquote. rewrite jrun_app, jrun_byte by lia.
  change (jstep maxNestingDepth InString [ObjectKey] 34) with (Some (EndValue, [ObjectKey])).
  change (":"%string) with (byte1 58). rewrite jrun_app, jrun_byte by lia.
  change (jstep maxNestingDepth EndValue [ObjectKey] 58) with (Some (BeginValue, [ObjectValue])).
  by rewrite non_finite_fails.
Qed.

Lemma carried_app rel i cs cs' :
  carried rel false i (cs ++ cs') = carried rel false i cs ++ carried rel false (i + length cs) cs'.
Proof.
  revert i. induction cs as [|c cs IH]; intros i; simpl; [by rewrite Nat.add_0_r|].
  rewrite IH, Nat.add_succ_r. by destruct c.
Qed.

Lemma members_app w l l' : members w (l ++ l') = members w l +:+ members (w + length l) l'.
Proof.
  revert w. induction l as [|[k v] l IH]; intros w; simpl; [by rewrite Nat.add_0_r|].
  by rewrite IH, Nat.add_succ_r, !str_app_assoc.
Qed.

(** A row with such a number is not JSON, whatever comes after it. *)
Lemma row_json_non_finite rel pre s post :
  row_ok rel pre -> isNumericOID (column_oid rel (length pre)) = true -> non_finite s ->
  json_valid (row_json rel false (pre ++ CText s :: post)) = false.
Proof.
  intros Hpre Hn Hs. unfold row_json. rewrite carried_app, members_app. simpl carried. unfold text_json. rewrite Hn.
  cbn [members]. rewrite !str_app_assoc, <- (str_app_assoc "{").
  eapply (open_non_finite (maxNestingDepth - 2)); [|vm_compute; lia|apply body_escape|done].
  apply members_open; [apply open_start|]. by apply carried_values.
Qed.

Lemma body_word maxd k : k ∈ ["old"; "new"; "options"]%string -> body_ok maxd k.
Proof.
  intros Hk stk. repeat (apply elem_of_cons in Hk as [->|Hk]); [done..|by apply elem_of_nil in Hk].
Qed.

Lemma update_json_value rel old new :
  (forall k o, old = Some (k, o) -> row_ok rel o) -> row_ok rel new ->
  value_ok maxNestingDepth maxNestingDepth (update_json rel old new).
Proof.
  intros Ho Hn. unfold update_json.
  destruct old as [[k o]|].
  - match goal with |- value_ok _ _ ?s => replace s with
      ((("{" +:+ sep 0 +:+ member "old" (row_json rel k o)) +:+ sep 1
         +:+ member "new" (row_json rel false new)) +:+ "}") end.
    + apply (open_close _ (maxNestingDepth - 1) 2).
      apply open_member; [apply open_member; [apply open_start| |]| |];
        try (apply body_word; set_solver); apply row_json_value; eauto.
    + simpl. by rewrite !str_app_assoc.
  - match goal with |- value_ok _ _ ?s => replace s with
      (("{" +:+ sep 0 +:+ member "new" (row_json rel false new)) +:+ "}") end.
    + apply (open_close _ (maxNestingDepth - 1) 1). apply open_member; [apply open_start| |].
      * apply body_word. set_solver.
      * by apply row_json_value.
    + simpl. by rewrite !str_app_assoc.
Qed.

Lemma truncate_data_valid (a : ascii) : json_valid (truncate_data (code a)) = true.
Proof. destruct a as [[] [] [] [] [] [] [] []]; vm_compute; reflexivity. Qed.

(** Every event a message produces, in the order they reach the bus: the ones
    for the handler, then the returned one. *)
Definition handled (effs : list effect) : list Event :=
  omap (fun x => match x with Handle e => Some e | Save_ _ => None end) effs.
Definition events_of (o : parsed) : list Event :=
  let '(_, effs, ret) := o in handled effs ++ option_list ret.

(** The raw texts of a message are JSON values, per the relation it refers to. *)
Definition msg_ok (p : Parser) (m : pgmsg) : Prop :=
  forall rel,
    match m with
    | MInsert id new => relationMap p !! id = Some rel -> row_ok rel new
    | MUpdate id old new => relationMap p !! id = Some rel ->
        (forall k o, old = Some (k, o) -> row_ok rel o) /\ row_ok rel new
    | MDelete id _ old => relationMap p !! id = Some rel -> row_ok rel old
    | _ => True
    end.

Lemma handled_map l : handled (map Handle l) = l.
Proof. induction l as [|e l IH]; simpl; [done | by rewrite IH]. Qed.

(** ** What holds of the events of any bytes at all *)

(** [P] holds of every value [m] can return. *)
Definition rpost {A} (P : A -> Prop) (m : R A) : Prop := forall r a r', m r = Some (a, r') -> P a.

Lemma rpost_ret {A} (P : A -> Prop) a : P a -> rpost P (mret a).
Proof. by intros H r b r' [= <- <-]. Qed.

Lemma rpost_bind {A B} (P : B -> Prop) (m : R A) (f : A -> R B) :
  (forall a, rpost P (f a)) -> rpost P (m ≫= f).
Proof.
  intros Hf r b r'. unfold mbind, R_bind. destruct (m r) as [[a r1]|]; [|done]. apply Hf.
Qed.

Lemma rpost_strong {A B} (Q : A -> Prop) (P : B -> Prop) (m : R A) (f : A -> R B) :
  rpost Q m -> (forall a, Q a -> rpost P (f a)) -> rpost P (m ≫= f).
Proof.
  intros Hm Hf r b r'. unfold mbind, R_bind. destruct (m r) as [[a r1]|] eqn:E; [|done].
  apply Hf. by eapply Hm.
Qed.

Section Filter.
Context (clock : nat -> Z) (lsn : string) (p : Parser).

(** A row event names a relation the parser knows and lets through. *)
Definition selected (e : Event) : Prop :=
  isTableEvent (Type_ e) = true ->
  passesFilter p (Table e) = true /\
  exists id rel, relationMap p !! id = Some rel /\ Namespace rel = Schema e /\ Name rel = Table e.

Definition all_selected (o : parsed) : Prop := Forall selected (events_of o).

Lemma all_selected_none p' : all_selected (p', [], None).
Proof. constructor. Qed.

Lemma all_selected_one p' e : selected e -> all_selected (p', [], Some e).
Proof. intros H. by constructor. Qed.

Lemma selected_row id rel typ data raw ks :
  relationMap p !! id = Some rel -> passesFilter p (Name rel) = true ->
  selected (set_key_columns ks (NewEvent (clock 0%nat) typ (Namespace rel) (Name rel) data raw lsn)).
Proof. intros Hid Hf _. simpl. split; [done|]. by exists id, rel. Qed.

Lemma truncate_selected o n i effs first :
  Forall selected (handled effs ++ option_list first) ->
  rpost (fun x => Forall selected (handled x.1 ++ option_list x.2))
    (truncate_loop clock lsn p o n i effs first).
Proof.
  revert i effs first. induction n as [|n IH]; intros i effs first H; cbn [truncate_loop].
  { by apply rpost_ret. }
  apply rpost_bind. intros id. destruct (relationMap p !! id) as [rel|] eqn:Er; [|by apply IH].
  destruct (passesFilter p (Name rel)) eqn:Ef; [|by apply IH]. cbn [negb]. cbv zeta.
  set (e := NewEvent _ _ _ _ _ _ _). assert (He : selected e) by (intros _; simpl; split; [done|by exists id, rel]).
  destruct first as [e0|]; [destruct (eventHandler p)|]; apply IH; [|done|].
  - unfold handled in *. rewrite omap_app. rewrite !Forall_app in *. simpl.
    destruct H as [H1 H2]. split_and!; [done| |done]. by constructor.
  - rewrite Forall_app in *. destruct H. split; [done|]. by constructor.
Qed.

Lemma Parse_selected data o : Parse clock lsn p data = Some o -> all_selected o.
Proof.
  intros H. unfold Parse in H. destruct data as [|t data]; [simplify_eq; apply all_selected_none|].
  cbv zeta in H.
  assert (Hrun : forall m r, rpost all_selected m -> fst <$> m r = Some o -> all_selected o).
  { intros m r Hm E. destruct (m r) as [[a r']|] eqn:Er; simplify_eq/=. by eapply Hm. }
  assert (Hnot : forall e : Event, isTableEvent (Type_ e) = false -> selected e).
  { intros e E. unfold selected. by rewrite E. }
  repeat (case_match; [revert H; apply Hrun|]); [| | | | | | |simplify_eq; apply all_selected_none].
  - apply rpost_bind. intros r. destruct (_ <=? _); repeat (apply rpost_bind; intros ?);
      by apply rpost_ret, all_selected_one, Hnot.
  - apply rpost_bind. intros r. destruct (_ <=? _); repeat (apply rpost_bind; intros ?);
      by apply rpost_ret, all_selected_one, Hnot.
  - unfold parseRelation. repeat (apply rpost_bind; intros ?). repeat case_match; apply rpost_ret;
      unfold all_selected; simpl; repeat case_match; constructor.
  - apply rpost_bind. intros id. destruct (relationMap p !! id) as [rel|] eqn:Er;
      [|apply rpost_ret, all_selected_none].
    destruct (_ && _).
    { repeat (apply rpost_bind; intros ?). by apply rpost_ret, all_selected_one, Hnot. }
    destruct (passesFilter _ _) eqn:Ef; [|apply rpost_ret, all_selected_none].
    repeat (apply rpost_bind; intros ?). by eapply rpost_ret, all_selected_one, selected_row.
  - apply rpost_bind. intros id. destruct (relationMap p !! id) as [rel|] eqn:Er;
      [|apply rpost_ret, all_selected_none].
    destruct (passesFilter _ _) eqn:Ef; [|apply rpost_ret, all_selected_none].
    repeat (apply rpost_bind; intros ?). by eapply rpost_ret, all_selected_one, selected_row.
  - apply rpost_bind. intros id. destruct (relationMap p !! id) as [rel|] eqn:Er;
      [|apply rpost_ret, all_selected_none].
    destruct (passesFilter _ _) eqn:Ef; [|apply rpost_ret, all_selected_none].
    apply rpost_bind. intros r. destruct (_ <? _).
    + repeat (apply rpost_bind; intros ?). by eapply rpost_ret, all_selected_one, selected_row.
    + apply rpost_ret, all_selected_one. intros _. simpl. split; [done|by exists id, rel].
  - unfold parseTruncate. do 2 (apply rpost_bind; intros ?).
    eapply rpost_strong; [by apply truncate_selected|]. intros [effs first] Hs. by apply rpost_ret.
Qed.

End Filter.

(** ** Properties *)

(** C8: no byte sequence makes the decoder panic, in any parser state: a
    truncated or corrupt message runs every bounds check into the error flag,
    never into an index outside the data, and decoding always returns. *)
Theorem Parse_total (clock : nat -> Z) (lsn : string) (p : Parser) (data : list ascii) :
  exists o, Parse clock lsn p data = Some o.
Proof. apply Parse_no_panic. Qed.

(** C7: decoding the wire form of a pgoutput message gives exactly what the
    message means: the transaction positions, the relation entered into the
    cache with its key columns, one event per row change of a known relation
    that passes the filter with the column values it carries, and one event per
    truncated relation, the later ones through the handler. *)
Theorem Parse_decodes (clock : nat -> Z) (lsn : string) (p : Parser) (m : pgmsg) :
  wf_msg m -> Parse clock lsn p (encode m) = Some (interp clock lsn p m).
Proof. apply Parse_encode. Qed.

(** C20: the data of every row event decoded from a message is valid JSON,
    whatever its column names and text values hold, provided the values of
    number columns are JSON numbers (and documents of json columns are not
    nested up to the scanner's limit). *)
Theorem Parse_valid_json (clock : nat -> Z) (lsn : string) (p : Parser) (m : pgmsg) (o : parsed) :
  wf_msg m -> msg_ok p m -> Parse clock lsn p (encode m) = Some o ->
  Forall (fun e => isTableEvent (Type_ e) = true -> json_valid (Data e) = true) (events_of o).
Proof.
  intros Hwf Hok. rewrite Parse_encode by done. intros [= <-].
  assert (Hval : forall d s, (d <= maxNestingDepth)%nat -> value_ok maxNestingDepth d s -> json_valid s = true)
    by (intros; by eapply value_valid).
  destruct m; simpl; try (constructor; simpl; done).
  - by destruct (schemaStore p).
  - unfold on_relation. destruct (relationMap p !! id) as [rel|] eqn:E; [|done].
    destruct (captureDDL p && _); [by constructor|]. destruct (passesFilter _ _); [|done].
    constructor; [|done]. intros _. simpl. eapply Hval, row_json_value, (Hok rel E). lia.
  - unfold on_relation. destruct (relationMap p !! id) as [rel|] eqn:E; [|done].
    destruct (passesFilter _ _); [|done]. constructor; [|done]. intros _. simpl.
    eapply Hval, update_json_value; [done|apply (Hok rel E)..].
  - unfold on_relation. destruct (relationMap p !! id) as [rel|] eqn:E; [|done].
    destruct (passesFilter _ _); [|done]. constructor; [|done]. intros _. simpl.
    eapply Hval, row_json_value, (Hok rel E). lia.
  - assert (Hall : forall i, Forall (fun e => isTableEvent (Type_ e) = true -> json_valid (Data e) = true)
        (truncated clock lsn p (code options) i ids)).
    { clear. induction ids as [|id ids IH]; intros i; simpl; [done|]. unfold on_relation.
      destruct (relationMap p !! id); [|done]. destruct (passesFilter _ _); [|done].
      constructor; [|done]. intros _. apply truncate_data_valid. }
    specialize (Hall 0%nat). destruct (truncated _ _ _ _ _ _) as [|e l]; simpl.
    + by destruct (eventHandler p).
    + inversion Hall; subst. destruct (eventHandler p); simpl; rewrite ?handled_map.
      * apply Forall_app. split; [done|]. by constructor.
      * by constructor.
Qed.

(** C21: whatever bytes arrive, a row event is only produced for a relation the
    server announced whose table passes the filter; in particular never for the
    watcher's own slot-owner table and never for a table outside a configured
    list. *)
Theorem Parse_respects_filter (clock : nat -> Z) (lsn : string) (p : Parser) (data : list ascii)
    (o : parsed) (e : Event) :
  Parse clock lsn p data = Some o -> e ∈ events_of o -> isTableEvent (Type_ e) = true ->
  Table e <> slotOwnersTable /\ (tableFilter p = [] \/ Table e ∈ tableFilter p) /\
  exists id rel, relationMap p !! id = Some rel /\ Namespace rel = Schema e /\ Name rel = Table e.
Proof.
  intros H He Ht. apply Parse_selected in H. unfold all_selected in H.
  rewrite Forall_forall in H. destruct (H e He Ht) as [Hf Hrel]. split_and!; [..|done].
  - intros E. unfold passesFilter in Hf. by rewrite bool_decide_eq_true_2 in Hf.
  - unfold passesFilter in Hf. case_bool_decide; [done|]. destruct (tableFilter p); [by left|].
    right. by apply bool_decide_eq_true in Hf.
Qed.

(** ** Witnesses *)

Definition demo_cols : list colspec :=
  [mkCol true "id" 23 4294967295; mkCol false "name" 25 4294967295; mkCol false "ok" 16 4294967295].
Definition demo_parser : Parser :=
  SetEventHandler (set_relation 7 (rel_of "public" "users" demo_cols) (NewParser ["users"%string] true false)).
Definition demo_update : pgmsg :=
  MUpdate 7 (Some (true, [CText "1"; CNull; CNull])) [CText "1"; CText "Ann"; CText "t"].

Lemma demo_update_wf : wf_msg demo_update.
Proof. split_and!; repeat constructor; simpl; lia. Qed.

Lemma Parse_decodes_witness :
  Parse (fun _ => 5) "0/1" demo_parser (encode demo_update)
  = Some (demo_parser, [],
      Some (set_key_columns ["id"%string]
        (NewEvent 5 Update "public" "users"
           ("{" +:+ member "old" ("{" +:+ member "id" "1" +:+ "}") +:+ ", "
             +:+ member "new" ("{" +:+ member "id" "1" +:+ ", "
                   +:+ member "name" (dquote +:+ "Ann" +:+ dquote) +:+ ", "
                   +:+ member "ok" "true" +:+ "}") +:+ "}") "UPDATE" "0/1"))).
Proof.
  rewrite (Parse_decodes (fun _ => 5) "0/1" demo_parser demo_update demo_update_wf).
  vm_compute. reflexivity.
Defined.

Lemma Parse_valid_json_witness :
  Forall (fun e => isTableEvent (Type_ e) = true -> json_valid (Data e) = true)
    (events_of (interp (fun _ => 5) "0/1" demo_parser demo_update)).
Proof.
  apply (Parse_valid_json (fun _ => 5) "0/1" demo_parser demo_update).
  - apply demo_update_wf.
  - intros rel Hrel. vm_compute in Hrel. injection Hrel as <-. split.
    + intros k o [= <- <-] [|[|[|i]]] s; simpl; intros; simplify_eq; split; by vm_compute.
    + intros [|[|[|i]]] s; simpl; intros; simplify_eq; split; by vm_compute.
  - vm_compute. reflexivity.
Defined.

Lemma Parse_respects_filter_witness :
  exists o e, Parse (fun _ => 5) "0/1" demo_parser (encode demo_update) = Some o /\
    e ∈ events_of o /\ Table e <> slotOwnersTable /\
    (tableFilter demo_parser = [] \/ Table e ∈ tableFilter demo_parser) /\
    exists id rel, relationMap demo_parser !! id = Some rel /\ Namespace rel = Schema e /\ Name rel = Table e.
Proof.
  eexists _, _. split; [vm_compute; reflexivity|]. split; [left|].
  eapply (Parse_respects_filter (fun _ => 5) "0/1" demo_parser (encode demo_update)).
  - vm_compute. reflexivity.
  - left.
  - reflexivity.
Defined.
