(* ===== verification/Lag.v ===== *)
(** * internal/postgres/lag.go and internal/metrics: the lag gauge

    Times are nanoseconds; the zero [time.Time] is [None]. *)

From stdpp Require Import base list strings gmap.
From Stdlib Require Import ZArith Lia Ascii.
From S2P Require Import Prelude.

Local Open Scope Z_scope.

Record lagTracker := mkLag {
  lastCommit : option Z;
  caughtUp : bool;
  lag_gauge : Z                       (* cdc_lag_seconds, in nanoseconds *)
}.

Definition newLagTracker : lagTracker := mkLag None false 0.

(** [time.Time.Sub] saturates at the range of [time.Duration]. *)
Definition time_sub (a b : Z) : Z := Z.max (- 2 ^ 63) (Z.min (2 ^ 63 - 1) (a - b)).

Definition Lag (now : Z) (t : lagTracker) : Z :=
  if caughtUp t then 0
  else match lastCommit t with
       | None => 0
       | Some c => Z.max (time_sub now c) 0
       end.

Definition Publish (now : Z) (t : lagTracker) : lagTracker :=
  mkLag (lastCommit t) (caughtUp t) (Lag now t).

Definition ObserveCommit (now commitTS : Z) (t : lagTracker) : lagTracker :=
  Publish now (mkLag (Some commitTS) false (lag_gauge t)).

Definition ObserveCaughtUp (now : Z) (t : lagTracker) : lagTracker :=
  Publish now (mkLag (lastCommit t) true (lag_gauge t)).

(** The operations of the listener and of the sampler's ticker, each at the
    time it happens. *)
Inductive lag_op := LCommit (commitTS : Z) | LCaughtUp | LTick.

Definition lag_step (t : lagTracker) (o : Z * lag_op) : lagTracker :=
  match o with
  | (now, LCommit c) => ObserveCommit now c t
  | (now, LCaughtUp) => ObserveCaughtUp now t
  | (now, LTick) => Publish now t
  end.
Definition lag_run (os : list (Z * lag_op)) : lagTracker := foldl lag_step newLagTracker os.

(** What the gauge should show: the age of the newest commit seen after the
    last time the watcher was caught up, never negative. *)
Fixpoint behind (os : list (Z * lag_op)) (since : option Z) : option Z :=
  match os with
  | [] => since
  | (_, LCommit c) :: os => behind os (Some c)
  | (_, LCaughtUp) :: os => behind os None
  | (_, LTick) :: os => behind os since
  end.

Definition tracked (t : lagTracker) : option Z := if caughtUp t then None else lastCommit t.

Lemma Lag_tracked now t :
  Lag now t = match tracked t with None => 0 | Some c => Z.max (time_sub now c) 0 end.
Proof. unfold Lag, tracked. by destruct (caughtUp t). Qed.

Lemma behind_app os os' since : behind (os ++ os') since = behind os' (behind os since).
Proof. revert since. induction os as [|[n []] os IH]; intros since; simpl; auto. Qed.

Lemma tracked_run os : tracked (lag_run os) = behind os None.
Proof.
  unfold lag_run. induction os as [|[n o] os IH] using rev_ind; [done|].
  rewrite foldl_snoc, behind_app, <- IH. by destruct o.
Qed.

(** After any history of commits, keepalives that found the watcher caught
    up and sampler ticks, the gauge shows the age of the last commit seen since
    it was last caught up, zero when there is none, and never a negative or
    overflowing duration. *)
Theorem lag_gauge_correct (os : list (Z * lag_op)) (now : Z) (o : lag_op) :
  lag_gauge (lag_run (os ++ [(now, o)])) =
    match behind (os ++ [(now, o)]) None with
    | None => 0
    | Some c => Z.max 0 (Z.min (2 ^ 63 - 1) (now - c))
    end.
Proof.
  rewrite <- tracked_run. unfold lag_run. rewrite foldl_snoc. set (t := foldl _ _ _).
  assert (E : lag_gauge (lag_step t (now, o)) = Lag now (lag_step t (now, o))) by (by destruct o).
  rewrite E, Lag_tracked. destruct (tracked _); [|done]. unfold time_sub. lia.
Qed.
