(* ===== verification/PgListener.v ===== *)
(** * internal/postgres/listener.go: the streaming session

    The listener decodes the replication stream, numbers and emits the events,
    and answers the primary with the position the ack gate allows.  What is not
    under src/ is a parameter: how pglogrepl prints an LSN and how it decodes
    the two message headers.  The clock is read once per handled message.  The
    acks of the publisher arrive before a message or while it is handled, as the
    input of each turn says. *)

From stdpp Require Import base list strings gmap.
From Stdlib Require Import ZArith Lia Ascii Sorting.Sorted.
From S2P Require Import Prelude GoStrings Json Escape Event AckGate Service History PgReader PgParser Lag.

Local Open Scope Z_scope.

Definition heartbeatInterval : Z := 30 * 1000000000.
Definition statusInterval : Z := 10 * 1000000000.
Definition maxReconnectDelay : Z := 30 * 1000000000.

Record Listener := mkListener {
  service : Service;
  parser : Parser;
  store : option FileHistoryStore;
  lag : lagTracker;
  ack : ackGate;
  txnIndex : Z
}.

Definition set_service (s : Service) (l : Listener) : Listener :=
  mkListener s (parser l) (store l) (lag l) (ack l) (txnIndex l).
Definition set_parser (p : Parser) (l : Listener) : Listener :=
  mkListener (service l) p (store l) (lag l) (ack l) (txnIndex l).
Definition set_store (h : option FileHistoryStore) (l : Listener) : Listener :=
  mkListener (service l) (parser l) h (lag l) (ack l) (txnIndex l).
Definition set_lag (t : lagTracker) (l : Listener) : Listener :=
  mkListener (service l) (parser l) (store l) t (ack l) (txnIndex l).
Definition set_ack (g : ackGate) (l : Listener) : Listener :=
  mkListener (service l) (parser l) (store l) (lag l) g (txnIndex l).
Definition set_txnIndex (n : Z) (l : Listener) : Listener :=
  mkListener (service l) (parser l) (store l) (lag l) (ack l) n.

(** [NewListener]; [history] is the store opened when a directory is
    configured. *)
Definition NewListener (tables : list string) (captureDDL : bool)
    (history : option FileHistoryStore) (s : Service) : Listener :=
  mkListener s
    (SetEventHandler (NewParser tables captureDDL
       (match history with Some _ => true | None => false end)))
    history newLagTracker newAckGate 0.

(** [PublishedObserver]: enables gating; the callback is [ObservePublished]. *)
Definition PublishedObserver (l : Listener) : Listener := set_ack (Enable (ack l)) l.
Definition observe (ev : Event) (l : Listener) : Listener := set_ack (ObservePublished (ack l) ev) l.

Record replicationState := mkState {
  receivedLSN : Z;
  lastFlushSent : Z;
  lastStatus : Z;
  lastMessage : Z
}.

Inductive conn_error := ParseKeepaliveErr | ParseXLogErr | SendStatusErr.

Section Listener.

(** pglogrepl: [LSN.String], [ParseXLogData] (WALStart and WALData) and
    [ParsePrimaryKeepaliveMessage] (ServerWALEnd and ReplyRequested). *)
Context (lsn_string : Z -> string).
Context (ParseXLogData : list ascii -> option (Z * list ascii)).
Context (ParsePrimaryKeepaliveMessage : list ascii -> option (Z * bool)).

Definition source_id (l : Listener) : string :=
  "pg:" +:+ lsn_string (TransactionLSN (parser l)) +:+ ":" +:+ itoa (txnIndex l).

(** [l.service.HandleEvent]. *)
Definition handle (now : Z) (acts : list act) (l : Listener) (ev : Event)
    : outcome (Listener * list act * bool) :=
  '(s, acts, ok) ← HandleEvent now acts (service l) ev;
  Returned (set_service s l, acts, ok).

Definition emit (now : Z) (acts : list act) (l : Listener) (event : Event)
    : outcome (Listener * list act) :=
  match Type_ event with
  | Begin =>
      let l := set_txnIndex 0 l in
      let l := set_ack (gate_Begin (ack l)) l in
      '(l, acts, _) ← handle now acts l event; Returned (l, acts)
  | Commit =>
      let l := set_ack (Committed (ack l) (CommitEndLSN (parser l))) l in
      '(l, acts, _) ← handle now acts l event; Returned (l, acts)
  | t =>
      if IsPublishable t then
        let event := set_source_id (source_id l) event in
        let l := set_txnIndex (i64 (txnIndex l + 1)) l in
        let '(g, event) := Hand (ack l) event in
        let l := set_ack g l in
        '(l, acts, ok) ← handle now acts l event;
        Returned (if ok : bool then l else set_ack (Unhand (ack l)) l, acts)
      else '(l, acts, _) ← handle now acts l event; Returned (l, acts)
  end.

(** The effects of one decoded message, in order; [disk] answers each save. *)
Fixpoint run_effects (now : Z) (disk : disk_answer) (acts : list act) (l : Listener)
    (effs : list effect) : outcome (Listener * list act) :=
  match effs with
  | [] => Returned (l, acts)
  | Handle e :: effs =>
      '(l, acts) ← emit now acts l e; run_effects now disk acts l effs
  | Save_ entry :: effs =>
      let l := match store l with
               | Some h => set_store (Some (Save now disk entry h).1) l   (* an error is logged *)
               | None => l
               end in
      run_effects now disk acts l effs
  end.

(** A session: the listener, its state, what happens on the bus meanwhile, and
    the positions sent to the primary so far. *)
Record session := mkSession {
  lst : Listener;
  st : replicationState;
  todo : list act;
  sent : list Z
}.

Definition answer : Type := outcome (session * result conn_error unit).

(** [sendStatus]; [sendOk] is whether the write to the connection succeeds. *)
Definition sendStatus (now : Z) (sendOk : bool) (w : session) : session * result conn_error unit :=
  let '(g, flush) := Flush (ack (lst w)) in
  let l := set_ack g (lst w) in
  if sendOk
  then (mkSession l (mkState (receivedLSN (st w)) flush now (lastMessage (st w))) (todo w)
          (sent w ++ [flush]), Ok tt)
  else (mkSession l (st w) (todo w) (sent w), Err SendStatusErr).

Definition handleKeepalive (now : Z) (sendOk : bool) (data : list ascii) (w : session)
    : session * result conn_error unit :=
  match ParsePrimaryKeepaliveMessage data with
  | None => (w, Err ParseKeepaliveErr)
  | Some (serverWALEnd, replyRequested) =>
      let s := st w in
      let s := if receivedLSN s <? serverWALEnd
               then mkState serverWALEnd (lastFlushSent s) (lastStatus s) (lastMessage s) else s in
      let l := lst w in
      let l := if negb (Pending (ack l)) then set_lag (ObserveCaughtUp now (lag l)) l else l in
      let l := set_ack (Idle (ack l) serverWALEnd) l in
      let '(quiet, l) :=
        if negb replyRequested then
          let '(g, f) := Flush (ack l) in (f =? lastFlushSent s, set_ack g l)
        else (false, l) in
      let w := mkSession l s (todo w) (sent w) in
      if quiet then (w, Ok tt) else sendStatus now sendOk w
  end.

Definition handleXLogData (now : Z) (clock : nat -> Z) (disk : disk_answer) (data : list ascii)
    (w : session) : answer :=
  match ParseXLogData data with
  | None => Returned (w, Err ParseXLogErr)
  | Some (walStart, walData) =>
      let s := mkState (u64 (walStart + Z.of_nat (length walData))) (lastFlushSent (st w))
                 (lastStatus (st w)) now in
      let lsn := lsn_string (receivedLSN s) in
      let l := lst w in
      match Parse clock lsn (SetLSNProvider lsn (parser l)) walData with
      | None => Panicked
      | Some (p, effs, event) =>
          '(l, acts) ← run_effects now disk (todo w) (set_parser p l) effs;
          match event with
          | None => Returned (mkSession l s acts (sent w), Ok tt)
          | Some e =>
              let l := if bool_decide (Type_ e = Commit) && (0 <? SourceTimestamp e)
                       then set_lag (ObserveCommit now (SourceTimestamp e * 1000000) (lag l)) l
                       else l in
              '(l, acts) ← emit now acts l e;
              Returned (mkSession l s acts (sent w), Ok tt)
          end
      end
  end.

(** A backend message: CopyData with its bytes, or anything else. *)
Inductive backend := CopyData (data : list ascii) | OtherMessage.

Definition handleMessage (now : Z) (clock : nat -> Z) (disk : disk_answer) (sendOk : bool)
    (msg : backend) (w : session) : answer :=
  match msg with
  | OtherMessage => Returned (w, Ok tt)
  | CopyData [] => Panicked                       (* copyData.Data[0] *)
  | CopyData (kind :: rest) =>
      if code kind =? 107 then Returned (handleKeepalive now sendOk rest w)
      else if code kind =? 119 then handleXLogData now clock disk rest w
      else Returned (w, Ok tt)
  end.

Definition maintainHeartbeatAndStatus (now : Z) (sendOk : bool) (w : session) : answer :=
  let '(w, r) := if statusInterval <=? now - lastStatus (st w)
                 then sendStatus now sendOk w else (w, Ok tt) in
  match r with
  | Err e => Returned (w, Err e)
  | Ok _ =>
      if heartbeatInterval <=? now - lastMessage (st w) then
        let e := NewEvent (now / 1000000) Heartbeat "" "" "" "HEARTBEAT"
                   (lsn_string (receivedLSN (st w))) in
        '(l, acts, _) ← handle now (todo w) (lst w) e;
        let s := mkState (receivedLSN (st w)) (lastFlushSent (st w)) (lastStatus (st w)) now in
        Returned (sendStatus now sendOk (mkSession l s acts (sent w)))
      else Returned (w, Ok tt)
  end.

(** The start of a session ([connectAndStream], once replication started). *)
Definition newSession (now : Z) (acts : list act) (l : Listener) : session :=
  mkSession (set_ack (NewSession (ack l)) l) (mkState 0 0 now now) acts [].

(** The messages of a session, each with the clock readings, the disk and the
    connection at that time, and the events the publisher has reported as acked
    since the last one and while the message was handled. *)
Record input := mkInput {
  i_acks : list Event; i_late : list Event;
  i_now : Z; i_clock : nat -> Z; i_disk : disk_answer; i_send : bool; i_msg : backend
}.

(** The observer is called for each of these events. *)
Definition observed (evs : list Event) (w : session) : session :=
  mkSession (foldl (fun l ev => observe ev l) (lst w) evs) (st w) (todo w) (sent w).

(** One turn of the loop of [connectAndStream]: a received message, then the
    periodic work; the first error ends the session. *)
Definition turn (i : input) (w : session) : answer :=
  '(w, r) ← handleMessage (i_now i) (i_clock i) (i_disk i) (i_send i) (i_msg i) (observed (i_acks i) w);
  match r with
  | Err e => Returned (w, Err e)
  | Ok _ => maintainHeartbeatAndStatus (i_now i) (i_send i) (observed (i_late i) w)
  end.

Fixpoint stream (ins : list input) (w : session) : answer :=
  match ins with
  | [] => Returned (w, Ok tt)
  | i :: ins =>
      '(w, r) ← turn i w;
      match r with Err e => Returned (w, Err e) | Ok _ => stream ins w end
  end.

End Listener.

(** ** Safety: nothing in a session panics *)

Section Safety.
Context (lsn_string : Z -> string).
Context (ParseXLogData : list ascii -> option (Z * list ascii)).
Context (ParsePrimaryKeepaliveMessage : list ascii -> option (Z * bool)).

(** [o] returns or blocks, and a returned value satisfies [P]. *)
Definition fine {A} (P : A -> Prop) (o : outcome A) : Prop :=
  match o with Returned a => P a | Blocked => True | Panicked => False end.

Lemma fine_bind {A B} (Q : A -> Prop) (P : B -> Prop) (o : outcome A) (f : A -> outcome B) :
  fine Q o -> (forall a, Q a -> fine P (f a)) -> fine P (o ≫= f).
Proof. destruct o; simpl; auto. Qed.

Definition lwf (l : Listener) : Prop := Service.wf (service l).

(** What every step of the listener keeps: the bus is well formed and the
    confirmable position does not fall. *)
Definition lstep (l l' : Listener) : Prop :=
  lwf l' /\ confirmable (ack l) <= confirmable (ack l').

Lemma lstep_refl l : lwf l -> lstep l l.
Proof. split; [done|lia]. Qed.

Lemma lstep_trans l1 l2 l3 : lstep l1 l2 -> lstep l2 l3 -> lstep l1 l3.
Proof. intros [? ?] [? ?]. split; [done|lia]. Qed.

Lemma handle_fine now acts l ev :
  lwf l ->
  fine (fun x => lwf x.1.1 /\ ack x.1.1 = ack l /\ txnIndex x.1.1 = txnIndex l
                 /\ parser x.1.1 = parser l) (handle now acts l ev).
Proof.
  intros H. unfold handle. pose proof (HandleEvent_safe now acts (service l) ev H) as Hs.
  destruct (HandleEvent now acts (service l) ev) as [[[s a] ok]| |]; simpl; [|done|done].
  by destruct Hs.
Qed.

Lemma settle_mono g : confirmable g <= confirmable (settle g).
Proof.
  unfold settle. destruct (settle_loop _ _ _) as [cs c] eqn:E. simpl. revert E.
  generalize (confirmable g). induction (commits g) as [|p ps IH]; intros z E; simpl in E.
  - by simplify_eq.
  - destruct (_ <? _); [by simplify_eq|]. apply IH in E. lia.
Qed.

Lemma Idle_mono g p : confirmable g <= confirmable (Idle g p).
Proof.
  pose proof (settle_mono g). unfold Idle. destruct (_ || _); simpl; lia.
Qed.

Lemma emit_fine now acts l ev :
  lwf l -> fine (fun x => lstep l x.1) (emit lsn_string now acts l ev).
Proof.
  intros H.
  assert (Hh : forall l0 (f : Listener * list act * bool -> outcome (Listener * list act)),
    service l0 = service l -> confirmable (ack l) <= confirmable (ack l0) ->
    (forall l1 a ok, lwf l1 -> ack l1 = ack l0 -> fine (fun x => lstep l x.1) (f (l1, a, ok))) ->
    fine (fun x => lstep l x.1) (handle now acts l0 ev ≫= f)).
  { intros l0 f Hs Hc Hf. eapply fine_bind; [apply handle_fine; unfold lwf; by rewrite Hs|].
    intros [[l1 a] ok] (? & ? & _). by apply Hf. }
  assert (Hret : forall l0, service l0 = service l -> confirmable (ack l) <= confirmable (ack l0) ->
    fine (fun x => lstep l x.1)
      ('(l1, acts1, _) ← handle now acts l0 ev; Returned (l1, acts1))).
  { intros l0 Hs Hc. apply Hh; [done..|]. intros l1 a ok Hw Ha. split; simpl; [done|]. by rewrite Ha. }
  unfold emit. destruct (Type_ ev) eqn:Et; simpl IsPublishable; cbv iota; try (by apply Hret);
    (cbn [Hand]; eapply fine_bind;
      [by apply handle_fine|];
     intros [[l1 a] ok] (? & Ha & _); destruct ok; split; simpl in *; try done; rewrite Ha; simpl; lia).
Qed.

Lemma run_effects_fine now disk acts l effs :
  lwf l -> fine (fun x => lstep l x.1) (run_effects lsn_string now disk acts l effs).
Proof.
  revert acts l. induction effs as [|[e|h] effs IH]; intros acts l H; cbn [run_effects].
  - by apply lstep_refl.
  - eapply fine_bind; [by apply emit_fine|]. intros [l1 a] Hs. simpl in Hs.
    pose proof (IH a l1 (proj1 Hs)) as Hf. destruct (run_effects _ _ _ _ _ _) as [[]| |]; simpl in *; try done.
    by eapply lstep_trans.
  - set (l' := match store l with
      | Some h0 => set_store (Some (Save now disk h h0).1) l | None => l end).
    assert (E : service l' = service l /\ ack l' = ack l) by (unfold l'; by destruct (store l)).
    destruct E as [E1 E2]. assert (H' : lwf l') by (unfold lwf; by rewrite E1).
    pose proof (IH acts l' H') as Hf. destruct (run_effects _ _ _ _ _ _) as [[]| |]; simpl in *; try done.
    destruct Hf. split; [done|]. by rewrite <- E2.
Qed.

(** What a session keeps: the positions sent only grow, and stay at or below
    the confirmable position of the gate. *)
Record swf (w : session) : Prop := mkSwf {
  swf_bus : lwf (lst w);
  swf_sorted : Sorted Z.le (sent w);
  swf_bound : Forall (fun z => z <= confirmable (ack (lst w))) (sent w)
}.

Lemma swf_step w l s acts :
  swf w -> lstep (lst w) l -> swf (mkSession l s acts (sent w)).
Proof.
  intros [H1 H2 H3] [Hl Hc]. constructor; simpl; [done..|].
  eapply Forall_impl; [exact H3|]. simpl. lia.
Qed.

Lemma Sorted_snoc l x : Sorted Z.le l -> Forall (fun z => z <= x) l -> Sorted Z.le (l ++ [x]).
Proof.
  induction 1 as [|a l Hs IH Hd]; intros Hall; simpl; [repeat constructor|].
  inversion Hall; subst. constructor; [auto|]. destruct Hd; simpl; constructor; lia.
Qed.

Lemma sendStatus_swf now ok w w' r : sendStatus now ok w = (w', r) -> swf w -> swf w'.
Proof.
  unfold sendStatus, Flush. intros E H. pose proof (settle_mono (ack (lst w))) as Hm.
  assert (Hs : lstep (lst w) (set_ack (settle (ack (lst w))) (lst w))) by (split; [apply H|done]).
  destruct ok; simplify_eq; [|by apply swf_step].
  destruct (swf_step w _ (st w) (todo w) H Hs) as [H1 H2 H3]. constructor; simpl in *; [done| |].
  - by apply Sorted_snoc.
  - apply Forall_app. split; [done|]. constructor; [lia|done].
Qed.

Lemma handleKeepalive_swf now ok data w w' r :
  handleKeepalive ParsePrimaryKeepaliveMessage now ok data w = (w', r) -> swf w -> swf w'.
Proof.
  unfold handleKeepalive. destruct (ParsePrimaryKeepaliveMessage data) as [[e rr]|]; intros E H;
    [|by simplify_eq].
  set (l1 := if negb (Pending (ack (lst w))) then _ else lst w) in E.
  assert (E1 : service l1 = service (lst w) /\ ack l1 = ack (lst w)) by (unfold l1; by destruct (negb _)).
  destruct E1 as [Es Ea].
  assert (Hl2 : lstep (lst w) (set_ack (Idle (ack l1) e) l1)).
  { split; simpl; [unfold lwf; simpl; rewrite Es; apply H|]. rewrite Ea. apply Idle_mono. }
  destruct rr; cbn [negb] in E.
  - eapply sendStatus_swf; [exact E|]. by apply swf_step.
  - unfold Flush in E. simpl in E.
    assert (Hl3 : lstep (lst w) (set_ack (settle (Idle (ack l1) e)) l1)).
    { eapply lstep_trans; [exact Hl2|]. split; [apply Hl2|]. apply settle_mono. }
    destruct (_ =? _).
    + simplify_eq. by apply swf_step.
    + eapply sendStatus_swf; [exact E|]. by apply swf_step.
Qed.

Lemma handleXLogData_fine now clock disk data w :
  swf w -> fine (fun x => swf x.1) (handleXLogData lsn_string ParseXLogData now clock disk data w).
Proof.
  intros H. unfold handleXLogData. destruct (ParseXLogData data) as [[start wal]|]; [|done].
  set (p0 := SetLSNProvider _ _). set (lsn := lsn_string _).
  destruct (Parse_no_panic clock lsn p0 wal) as [[[p effs] ev] ->].
  assert (Hp : lwf (set_parser p (lst w))) by apply H.
  eapply fine_bind; [by apply run_effects_fine|]. intros [l acts] [Hl Hc]. simpl in Hc.
  assert (Hs : lstep (lst w) l) by done.
  destruct ev as [e|]; [|by apply swf_step].
  set (l' := if bool_decide _ && _ then _ else l).
  assert (El : service l' = service l /\ ack l' = ack l) by (unfold l'; by destruct (_ && _)).
  destruct El as [El1 El2]. assert (Hl' : lwf l') by (unfold lwf; by rewrite El1).
  eapply fine_bind; [by apply emit_fine|]. intros [l2 a2] Hs2. simpl in Hs2.
  apply swf_step; [done|]. eapply lstep_trans; [exact Hs|]. destruct Hs2. split; [done|]. by rewrite <- El2.
Qed.

Lemma maintain_fine now ok w :
  swf w -> fine (fun x => swf x.1) (maintainHeartbeatAndStatus lsn_string now ok w).
Proof.
  intros H. unfold maintainHeartbeatAndStatus.
  destruct (if statusInterval <=? _ then _ else _) as [w1 r] eqn:E.
  assert (H1 : swf w1). { destruct (_ <=? _); [by eapply sendStatus_swf|by simplify_eq]. }
  clear E. destruct r; [|done]. destruct (heartbeatInterval <=? _); [|done].
  eapply fine_bind; [apply handle_fine, H1|]. intros [[l acts] b] (Hw & Ha & _). simpl in *.
  destruct (sendStatus _ _ _) as [w2 r2] eqn:E2. simpl. eapply sendStatus_swf; [exact E2|].
  apply swf_step; [done|]. split; [done|]. rewrite Ha. lia.
Qed.

(** Acks move nothing but the acked sequence. *)
Lemma observed_swf evs w : swf w -> swf (observed evs w).
Proof.
  intros H. unfold observed. apply (swf_step w); [done|].
  assert (Hg : forall l, service (foldl (fun l ev => observe ev l) l evs) = service l /\
    confirmable (ack (foldl (fun l ev => observe ev l) l evs)) = confirmable (ack l)).
  { induction evs as [|ev evs IH]; intros l; [done|]. simpl. destruct (IH (observe ev l)) as [-> ->].
    unfold observe, ObservePublished. simpl. by destruct (_ =? _). }
  destruct (Hg (lst w)) as [Es Ec]. split; [unfold lwf; rewrite Es; apply H|]. rewrite Ec. lia.
Qed.

(** A session panics on a CopyData message without a byte and nowhere else. *)
Definition safely (ins : list input) (o : answer) : Prop :=
  match o with
  | Returned (w, _) => swf w
  | Blocked => True
  | Panicked => exists i, i ∈ ins /\ i_msg i = CopyData []
  end.

Lemma turn_fine i w :
  swf w -> i_msg i <> CopyData [] ->
  fine (fun x => swf x.1) (turn lsn_string ParseXLogData ParsePrimaryKeepaliveMessage i w).
Proof.
  intros H Hne. apply (observed_swf (i_acks i)) in H. unfold turn. eapply fine_bind with (Q := fun x => swf x.1).
  - unfold handleMessage. destruct (i_msg i) as [[|k rest]|]; [done| |done].
    destruct (code k =? 107).
    { destruct (handleKeepalive _ _ _ _ _) as [w1 r] eqn:E. simpl. by eapply handleKeepalive_swf. }
    destruct (code k =? 119); [by apply handleXLogData_fine|done].
  - intros [w1 [[]|e]] H1; [by apply maintain_fine, observed_swf|done].
Qed.

Lemma stream_fine ins w :
  swf w -> safely ins (stream lsn_string ParseXLogData ParsePrimaryKeepaliveMessage ins w).
Proof.
  revert w. induction ins as [|i ins IH]; intros w H; [done|]. cbn [stream].
  assert (Hd : i_msg i = CopyData [] \/ i_msg i <> CopyData []) by (destruct (i_msg i) as [[|]|]; by (left + right)).
  destruct Hd as [E|Hne].
  { unfold turn, handleMessage. rewrite E. simpl. exists i. split; [constructor|done]. }
  pose proof (turn_fine i w H Hne) as Ht.
  destruct (turn _ _ _ _ _) as [[w1 [[]|e]]| |]; simpl in *; try done.
  specialize (IH w1 Ht). destruct (stream _ _ _ _ _) as [[w2 r]| |]; simpl in *; try done.
  destruct IH as (x & Hx & Ex). exists x. split; [by constructor|done].
Qed.

End Safety.

(** ** Message identities *)

Lemma source_id_inj (lsn_string : Z -> string) a b n m :
  (forall x y, is_u64 x -> is_u64 y -> lsn_string x = lsn_string y -> x = y) ->
  (forall x, no_char ":" (lsn_string x) = true) ->
  is_u64 a -> is_u64 b ->
  "pg:" +:+ lsn_string a +:+ ":" +:+ itoa n = "pg:" +:+ lsn_string b +:+ ":" +:+ itoa m ->
  a = b /\ n = m.
Proof.
  intros Hinj Hno Ha Hb H. apply str_app_inj_l in H. rewrite !str_app_cons, !str_app_nil_l in H.
  apply split_at_inj in H as [H1 H2]; [|done..]. split; [by apply Hinj|]. by apply pretty.pretty_Z_inj in H2.
Qed.


(** ** Properties *)

(** C16: a replication session panics on nothing the primary sends but a CopyData
    message without a single byte, whatever the bytes of the other messages are,
    however the bus, the disk and the connection answer, and whatever acks arrive
    before a message or while it is handled; and the flush positions it reports
    to the primary never go backwards and never exceed what the gate confirms. *)
Theorem session_safe (lsn_string : Z -> string)
    (ParseXLogData : list ascii -> option (Z * list ascii))
    (ParsePrimaryKeepaliveMessage : list ascii -> option (Z * bool))
    (now : Z) (acts : list act) (l : Listener) (ins : list input) :
  Service.wf (service l) ->
  match stream lsn_string ParseXLogData ParsePrimaryKeepaliveMessage ins (newSession now acts l) with
  | Returned (w, _) => Sorted Z.le (sent w) /\ Forall (fun z => z <= confirmable (ack (lst w))) (sent w)
  | Blocked => True
  | Panicked => exists i, i ∈ ins /\ i_msg i = CopyData []
  end.
Proof.
  intros Hwf. assert (H : swf (newSession now acts l)) by (constructor; [done|constructor..]).
  pose proof (stream_fine lsn_string ParseXLogData ParsePrimaryKeepaliveMessage ins _ H) as Hs.
  destruct (stream _ _ _ _ _) as [[w r]| |]; simpl in *; [by destruct Hs|done..].
Qed.

(** An empty CopyData message does panic: [copyData.Data[0]] is out of range. *)
Lemma empty_copydata_panics (lsn_string : Z -> string)
    (ParseXLogData : list ascii -> option (Z * list ascii))
    (ParsePrimaryKeepaliveMessage : list ascii -> option (Z * bool)) (i : input) (ins : list input) (w : session) :
  i_msg i = CopyData [] ->
  stream lsn_string ParseXLogData ParsePrimaryKeepaliveMessage (i :: ins) w = Panicked.
Proof. intros E. cbn [stream]. unfold turn, handleMessage. by rewrite E. Qed.

(** A row change whose data is not valid JSON reaches no subscriber and is
    not counted by the gate: emitting it changes nothing but the index of the
    transaction, so its commit is confirmed as if the change did not exist. *)
Lemma emit_invalid_dropped (lsn_string : Z -> string) (now : Z) (acts : list act) (l : Listener)
    (ev : Event) :
  isTableEvent (Type_ ev) = true -> Data ev <> ""%string -> json_valid (Data ev) = false ->
  0 <= handed (ack l) < 2 ^ 64 - 1 ->
  emit lsn_string now acts l ev = Returned (set_txnIndex (i64 (txnIndex l + 1)) l, acts).
Proof.
  intros Ht Hd Hv Hh. unfold emit.
  assert (Hr : forall ev', Type_ ev' = Type_ ev -> Data ev' = Data ev -> refused (service l) ev' = true).
  { intros ev' E1 E2. unfold refused, isValidJSON. rewrite E1, E2, Ht, Hv.
    rewrite bool_decide_eq_false_2 by done. by rewrite orb_true_r. }
  assert (Hu : u64 (handed (ack l) + 1 - 1) = handed (ack l)) by (rewrite u64_small; lia).
  destruct (Type_ ev) eqn:Et; try done; simpl;
    unfold handle, HandleEvent; rewrite Hr by done; simpl;
    unfold set_ack, Unhand; simpl; rewrite (u64_small (handed (ack l) + 1)) by lia;
    rewrite Hu; by destruct l as [? ? ? ? []].
Qed.

(** When every numbered event is acked, a commit is confirmed by the next flush. *)
Lemma settle_confirms a fin cs conf :
  conf <= fin -> Forall (fun c => lastSequence c <= a /\ end_ c <= fin) cs ->
  conf = fin \/ (exists c, c ∈ cs /\ end_ c = fin) -> (settle_loop a cs conf).2 = fin.
Proof.
  intros Hc Hcs. revert conf Hc. induction Hcs as [|c cs [Hl He] _ IH]; intros conf Hc Hx; simpl.
  - destruct Hx as [?|(c & Hin & _)]; [done|]. by apply elem_of_nil in Hin.
  - replace (a <? lastSequence c) with false by lia. apply IH; [lia|].
    destruct Hx as [->|(d & [->|Hd]%elem_of_cons & Ed)]; [left; lia..|]. right. eauto.
Qed.

Lemma committed_confirms g fin :
  Pending g = false -> confirmable g <= fin ->
  Forall (fun c => lastSequence c <= handed g /\ end_ c <= fin) (commits g) ->
  (Flush (Committed g fin)).2 = fin.
Proof.
  intros Hp Hc Hcs. unfold Flush, settle. destruct (settle_loop _ _ _) as [cs' conf'] eqn:E. simpl.
  replace conf' with (settle_loop (ackedSequence (Committed g fin)) (commits (Committed g fin)) (confirmable g)).2
    by (change (confirmable g) with (confirmable (Committed g fin)); by rewrite E).
  clear E cs' conf'. unfold Pending in Hp. apply Z.ltb_ge in Hp.
  assert (Hw : Forall (fun c => lastSequence c <= ackedSequence (Committed g fin) /\ end_ c <= fin) (commits g)).
  { eapply Forall_impl; [exact Hcs|]. intros c [? ?]. unfold ackedSequence in *. simpl. lia. }
  assert (Hh : handed g <= ackedSequence (Committed g fin)) by done.
  generalize dependent (ackedSequence (Committed g fin)). intros a Hw Hh.
  apply settle_confirms; [done| |right]; unfold Committed; simpl.
  - destruct (last (commits g)) as [c|] eqn:El; [|by apply Forall_app; split; [|constructor; [split; simpl; [done|lia]|]]].
    destruct (_ =? _); [|by apply Forall_app; split; [|constructor; [split; simpl; [done|lia]|]]].
    apply Forall_insert; [done|]. simpl. apply last_Some_elem_of in El. rewrite Forall_forall in Hw. specialize (Hw c El). lia.
  - exists (match last (commits g) with
            | Some c => if lastSequence c =? handed g then mkPending (lastSequence c) (Z.max (end_ c) fin)
                        else mkPending (handed g) fin
            | None => mkPending (handed g) fin end).
    destruct (last (commits g)) as [c|] eqn:El; [|by split; [apply elem_of_app; right; constructor|]].
    destruct (_ =? _); [|by split; [apply elem_of_app; right; constructor|]]. split.
    + eapply list_elem_of_lookup_2, list_lookup_insert_eq. destruct (commits g); [done|]. simpl. lia.
    + simpl. apply last_Some_elem_of in El. rewrite Forall_forall in Hcs. specialize (Hcs c El). lia.
Qed.

(** C39: an inserted NaN, Infinity or -Infinity is lost. Of a captured table, an
    INSERT whose row holds one of them in a number column (the columns before it
    being well formed) is decoded and dropped: nothing is put on the bus, the ack
    gate is as before, and when everything handed over so far is acked, the end
    of its transaction is confirmed to the primary by the next status. *)
Theorem nan_change_lost (lsn_string : Z -> string) (ParseXLogData : list ascii -> option (Z * list ascii))
    (now : Z) (clock : nat -> Z) (disk : disk_answer) (data : list ascii) (w : session)
    (start id : Z) (rel : RelationInfo) (pre : list colval) (s : string) (post : list colval) :
  let row := pre ++ CText s :: post in
  let p := parser (lst w) in
  let g := ack (lst w) in
  ParseXLogData data = Some (start, encode (MInsert id row)) -> wf_msg (MInsert id row) ->
  relationMap p !! id = Some rel -> passesFilter p (Name rel) = true -> Name rel <> ddlLogTable ->
  row_ok rel pre -> isNumericOID (column_oid rel (length pre)) = true -> non_finite s ->
  0 <= handed g < 2 ^ 64 - 1 ->
  exists w', handleXLogData lsn_string ParseXLogData now clock disk data w = Returned (w', Ok tt) /\
    service (lst w') = service (lst w) /\ ack (lst w') = g /\ todo w' = todo w /\ sent w' = sent w /\
    forall fin, Pending g = false -> confirmable g <= fin ->
      Forall (fun c => lastSequence c <= handed g /\ end_ c <= fin) (commits g) ->
      (Flush (Committed (ack (lst w')) fin)).2 = fin.
Proof.
  intros row p g Hx Hwf Hrel Hf Hddl Hpre Hn Hs Hh. unfold handleXLogData. rewrite Hx.
  set (lsn := lsn_string _). rewrite Parse_encode by done.
  cbn [interp run_effects]. unfold on_relation. change (relationMap (SetLSNProvider lsn (parser (lst w)))) with (relationMap p).
  change (passesFilter (SetLSNProvider lsn (parser (lst w)))) with (passesFilter p).
  rewrite Hrel, bool_decide_eq_false_2, andb_false_r, Hf by done. simpl.
  rewrite emit_invalid_dropped; [simpl|done| |by apply row_json_non_finite|done].
  - eexists. split_and!; [done..|]. intros fin. by apply committed_confirms.
  - unfold row_event. simpl. unfold row_json. done.
Qed.

(** ** Witnesses *)

(** The textual form pg_lsn has: two hexadecimal halves. *)
Definition pg_lsn_text (z : Z) : string := hexU (z / 2 ^ 32 mod 2 ^ 64) +:+ "/" +:+ hexU (z mod 2 ^ 32).

Lemma pg_lsn_text_no_colon x : no_char ":" (pg_lsn_text x) = true.
Proof.
  unfold pg_lsn_text. rewrite !no_char_app, !hexU_no_char; [done|..];
    intros d Hd E; apply (f_equal code) in E; unfold hexdigitU in E; revert E; bcase;
    rewrite code_chr by lia; change (code ":") with 58; lia.
Qed.

Lemma pg_lsn_text_inj x y : is_u64 x -> is_u64 y -> pg_lsn_text x = pg_lsn_text y -> x = y.
Proof.
  unfold is_u64, pg_lsn_text. intros Hx Hy H. rewrite !str_app_cons, !str_app_nil_l in H.
  assert (Hno : forall z, no_char "/" (hexU z) = true).
  { intros z. apply hexU_no_char. intros d Hd E. apply (f_equal code) in E.
    unfold hexdigitU in E. revert E. bcase; rewrite code_chr by lia; change (code "/") with 47; lia. }
  apply split_at_inj in H as [H1 H2]; [|done..].
  pose proof (Z.mod_pos_bound x (2 ^ 32)). pose proof (Z.mod_pos_bound y (2 ^ 32)).
  apply hexU_inj in H1; [|apply Z.mod_pos_bound; lia..]. apply hexU_inj in H2; [|lia..].
  assert (forall z, 0 <= z < 2 ^ 64 -> 0 <= z / 2 ^ 32 < 2 ^ 64) as Hdiv.
  { intros z Hz. split; [apply Z.div_pos; lia|]. apply Z.div_lt_upper_bound; lia. }
  rewrite !Z.mod_small in H1 by auto.
  rewrite (Z.div_mod x (2 ^ 32)), (Z.div_mod y (2 ^ 32)) by lia. by rewrite H1, H2.
Qed.

(** Wire headers: nothing but a position, then the payload. *)
Definition demo_xlog (data : list ascii) : option (Z * list ascii) :=
  Some (be (take 8 data), drop 8 data).
Definition demo_keepalive (data : list ascii) : option (Z * bool) :=
  Some (be (take 8 data), true).
Definition demo_input (msg : list ascii) : input :=
  mkInput [] [] 0 (fun _ => 0) DiskOk true (CopyData msg).
Definition demo_wal (pos : Z) (m : pgmsg) : input :=
  demo_input (chr 119 :: be_bytes 8 pos ++ encode m).
Definition demo_alive (pos : Z) : input := demo_input (chr 107 :: be_bytes 8 pos).

(** A transaction that inserts NaN into a float8 column; the publisher acks
    nothing. *)
Definition nan_txn : list input :=
  [demo_wal 100 (MRelation 9 "public" "m" (chr 100) [mkCol true "v" 701 0]);
   demo_wal 110 (MBegin 200 0 1);
   demo_wal 120 (MInsert 9 [CText "NaN"]);
   demo_wal 130 (MCommit (chr 0) 200 216 0);
   demo_alive 300].

Definition demo_new : Listener :=
  PublishedObserver (NewListener [] false None demo_service).

(** The whole session of that transaction: the primary is told a position past
    its commit (end 216), and no INSERT ever reached the bus. *)
Example nan_session :
  exists w, stream pg_lsn_text demo_xlog demo_keepalive nan_txn (newSession 0 [] demo_new)
              = Returned (w, Ok tt) /\
    gated (ack (lst w)) = true /\ acked (ack (lst w)) = 0 /\ sent w = [300] /\
    map Type_ (history (service (lst w)) 0%nat) = [Begin; Commit].
Proof. eexists. split; [vm_compute; reflexivity|]. done. Qed.

(** The session after the table was announced and the transaction begun. *)
Definition nan_begun : session :=
  match stream pg_lsn_text demo_xlog demo_keepalive (take 2 nan_txn) (newSession 0 [] demo_new) with
  | Returned (w, _) => w
  | _ => newSession 0 [] demo_new
  end.

Lemma nan_change_lost_witness :
  exists w', handleXLogData pg_lsn_text demo_xlog 0 (fun _ => 0) DiskOk
               (be_bytes 8 120 ++ encode (MInsert 9 [CText "NaN"])) nan_begun = Returned (w', Ok tt) /\
    service (lst w') = service (lst nan_begun) /\ (Flush (Committed (ack (lst w')) 216)).2 = 216.
Proof.
  destruct (nan_change_lost pg_lsn_text demo_xlog 0 (fun _ => 0) DiskOk
    (be_bytes 8 120 ++ encode (MInsert 9 [CText "NaN"])) nan_begun 120 9
    (mkRel "public" "m" ["v"%string] [701] ["v"%string]) [] "NaN" []) as (w' & E & Es & _ & _ & _ & Hfin).
  - vm_compute. reflexivity.
  - split_and!; repeat constructor; simpl; lia.
  - vm_compute. reflexivity.
  - vm_compute. reflexivity.
  - discriminate.
  - intros i s Hi. discriminate Hi.
  - vm_compute. reflexivity.
  - constructor.
  - vm_compute. split; [discriminate|reflexivity].
  - exists w'. split; [exact E|]. split; [exact Es|]. apply Hfin; [vm_compute; reflexivity|vm_compute; discriminate|constructor].
Defined.

Lemma session_safe_witness :
  exists w, stream pg_lsn_text demo_xlog demo_keepalive nan_txn (newSession 0 [] demo_new)
              = Returned (w, Ok tt) /\
    Sorted Z.le (sent w) /\ Forall (fun z => z <= confirmable (ack (lst w))) (sent w).
Proof.
  eexists. split; [vm_compute; reflexivity|].
  apply (session_safe pg_lsn_text demo_xlog demo_keepalive 0 [] demo_new nan_txn). apply demo_wf.
Defined.
