(* ===== verification/Publisher.v ===== *)
(** * internal/nats: the JetStream publisher

    One goroutine takes events off the bus and publishes each until the broker
    acks it.  What the outside does is input: the answer to each publish
    attempt, the state of the connection when an attempt fails, the polls while
    it is down, and whether the context ended meanwhile.  An operation for which
    the inputs run out has not returned ([None]). *)

From stdpp Require Import base list strings gmap.
From Stdlib Require Import ZArith Lia Ascii.
From S2P Require Import Prelude GoStrings Json Event Truncate.

Local Open Scope Z_scope.

(** Durations in nanoseconds. *)
Definition defaultRetryBaseDelay : Z := 500 * 1000000.
Definition maxRetryDelay : Z := 10 * 1000000000.
Definition reconnectBaseDelay : Z := 500 * 1000000.
Definition reconnectMaxDelay : Z := 30 * 1000000000.

(** ** connection.go *)

(** [backoff.delay]: the loop over [i < attempt && step < max]; [left] is how
    many iterations the first test allows. *)
Fixpoint backoff_step (n : nat) (step max : Z) : Z :=
  match n with
  | O => step
  | S n => if step <? max then backoff_step n (i64 (step * 2)) max else step
  end.

(** [rand n] is [randInt63n(n)], in [0, n). *)
Definition backoff_delay (base max : Z) (rand : Z -> Z) (attempt : Z) : Z :=
  let step := backoff_step (Z.to_nat (attempt - 1)) base max in
  let step := Z.min step max in
  let half := Z.quot step 2 in
  half + rand (step - half + 1).

Inductive nats_error :=
| ErrMaxPayload
| APIError (code : Z)
| OtherError.

Inductive pub_error :=
| SendError (e : nats_error)
| ErrConnectionClosed
| CtxErr
| ErrStreamMissing.

Definition streamMessageTooLarge : Z := 10054.

Definition nats_too_large (e : nats_error) : bool :=
  match e with
  | ErrMaxPayload => true
  | APIError c => c =? streamMessageTooLarge
  | OtherError => false
  end.

Definition isTooLarge (r : result pub_error unit) : bool :=
  match r with
  | Err (SendError e) => nats_too_large e
  | _ => false
  end.

(** One turn of the polling loop: what the connection says, and whether the
    context is done when the turn waits. *)
Record poll := mkPoll { p_connected : bool; p_closed : bool; p_ctx : bool }.

Fixpoint waitConnected (ps : list poll) : option (result pub_error unit) :=
  match ps with
  | [] => None
  | p :: ps =>
      if p_connected p then Some (Ok tt)
      else if p_closed p then Some (Err ErrConnectionClosed)
      else if p_ctx p then Some (Err CtxErr)
      else waitConnected ps
  end.

(** ** publisher.go *)

Definition shouldPublish (t : EventType) : bool := IsPublishable t.

(** [strings.NewReplacer(".", "_", "*", "_", ">", "_", " ", "_")]. *)
Definition reserved (a : ascii) : bool :=
  Ascii.eqb a "." || Ascii.eqb a "*" || Ascii.eqb a ">" || Ascii.eqb a " ".
Fixpoint sanitizeSubjectToken (s : string) : string :=
  match s with
  | EmptyString => EmptyString
  | String a s => String (if reserved a then "_"%char else a) (sanitizeSubjectToken s)
  end.

Definition buildSubject (prefix schema table : string) : string :=
  let schema := if bool_decide (schema = ""%string) then "default"%string else schema in
  let table := if bool_decide (table = ""%string) then "_ddl"%string else table in
  prefix +:+ "." +:+ sanitizeSubjectToken schema +:+ "." +:+ sanitizeSubjectToken table.

(** A message as it goes out: subject, payload (the event that is marshalled)
    and message id. *)
Record message := mkMessage { subject : string; payload : Event; msgID : string }.

(** One publish attempt: the broker's answer and, when it failed, whether the
    connection is down, the polls until it is back, and whether the context
    ends during the delay. *)
Record attempt := mkAttempt {
  a_answer : result nats_error unit;
  a_lost : bool;
  a_polls : list poll;
  a_ctx : bool
}.

Record Publisher := mkPublisher {
  subjectPrefix : string;
  streamVerified : bool;
  stopping : bool;
  failed : option pub_error;           (* the failure channel, capacity 1 *)
  lastAckedLSN : string;
  (* what the publisher did: every attempt sent, every delay slept, the events
     the observers were called with, and the counters *)
  tried : list message;
  slept : list Z;
  observed : list Event;
  nats_errors : Z;
  oversized : gmap string Z;
  published : gmap string Z
}.

Definition NewPublisher (prefix : string) : Publisher :=
  mkPublisher prefix false false None "" [] [] [] 0 ∅ ∅.

Definition LastAckedLSN (p : Publisher) : string := lastAckedLSN p.

(** [fail]: the channel holds one error; later ones are dropped. *)
Definition fail_ (e : pub_error) (p : Publisher) : Publisher :=
  mkPublisher (subjectPrefix p) (streamVerified p) (stopping p)
    (match failed p with None => Some e | f => f end)
    (lastAckedLSN p) (tried p) (slept p) (observed p) (nats_errors p) (oversized p) (published p).

Definition set_verified (p : Publisher) : Publisher :=
  mkPublisher (subjectPrefix p) true (stopping p) (failed p) (lastAckedLSN p) (tried p) (slept p)
    (observed p) (nats_errors p) (oversized p) (published p).

Definition set_stopping (p : Publisher) : Publisher :=
  mkPublisher (subjectPrefix p) (streamVerified p) true (failed p) (lastAckedLSN p) (tried p)
    (slept p) (observed p) (nats_errors p) (oversized p) (published p).

Definition add_try (m : message) (p : Publisher) : Publisher :=
  mkPublisher (subjectPrefix p) (streamVerified p) (stopping p) (failed p) (lastAckedLSN p)
    (tried p ++ [m]) (slept p) (observed p) (nats_errors p) (oversized p) (published p).

Definition inc_error (p : Publisher) : Publisher :=
  mkPublisher (subjectPrefix p) (streamVerified p) (stopping p) (failed p) (lastAckedLSN p)
    (tried p) (slept p) (observed p) (nats_errors p + 1) (oversized p) (published p).

Definition add_sleep (d : Z) (p : Publisher) : Publisher :=
  mkPublisher (subjectPrefix p) (streamVerified p) (stopping p) (failed p) (lastAckedLSN p)
    (tried p) (slept p ++ [d]) (observed p) (nats_errors p) (oversized p) (published p).

Definition bump (k : string) (m : gmap string Z) : gmap string Z := <[k := default 0 (m !! k) + 1]> m.

Definition inc_oversized (e : Event) (p : Publisher) : Publisher :=
  mkPublisher (subjectPrefix p) (streamVerified p) (stopping p) (failed p) (lastAckedLSN p)
    (tried p) (slept p) (observed p) (nats_errors p) (bump (EventType_String (Type_ e)) (oversized p))
    (published p).

(** After the broker's ack: counter, last position, observers. *)
Definition record_ack (e : Event) (p : Publisher) : Publisher :=
  mkPublisher (subjectPrefix p) (streamVerified p) (stopping p) (failed p)
    (if bool_decide (LSN e = ""%string) then lastAckedLSN p else LSN e)
    (tried p) (slept p) (observed p ++ [e]) (nats_errors p) (oversized p)
    (bump (EventType_String (Type_ e)) (published p)).

(** [messageID]; [fresh] is [nuid.Next()]. *)
Definition messageID (fresh : string) (p : Publisher) (e : Event) : string :=
  if bool_decide (SourceID e = ""%string) then fresh else subjectPrefix p +:+ "/" +:+ SourceID e.

Fixpoint publishWithRetry (delay : Z) (m : message) (ats : list attempt) (p : Publisher)
    : option (Publisher * list attempt * result pub_error unit) :=
  match ats with
  | [] => None
  | a :: rest =>
      let p := add_try m p in
      match a_answer a with
      | Ok _ => Some (p, rest, Ok tt)
      | Err e =>
          if nats_too_large e then Some (p, rest, Err (SendError e))
          else
            let p := inc_error p in
            if a_lost a then
              match waitConnected (a_polls a) with
              | None => None
              | Some (Err e) => Some (p, rest, Err e)
              | Some (Ok _) => publishWithRetry delay m rest p
              end
            else if a_ctx a then Some (p, rest, Err CtxErr)
            else publishWithRetry (Z.min (delay * 2) maxRetryDelay) m rest (add_sleep delay p)
      end
  end.

(** [send]: marshalling an event cannot fail. *)
Definition send (subj : string) (e : Event) (id : string) (ats : list attempt) (p : Publisher)
    : option (Publisher * list attempt * result pub_error unit) :=
  publishWithRetry defaultRetryBaseDelay (mkMessage subj e id) ats p.

Definition sendTruncated (subj : string) (e : Event) (id : string) (ats : list attempt) (p : Publisher)
    : option (Publisher * list attempt * result pub_error unit) :=
  '(p, ats, r) ← send subj (Truncated e) id ats (inc_oversized e p);
  if isTooLarge r then send subj (Stripped e) id ats p else Some (p, ats, r).

Definition publish (fresh : string) (e : Event) (ats : list attempt) (p : Publisher)
    : option (Publisher * list attempt * result pub_error unit) :=
  let subj := buildSubject (subjectPrefix p) (Schema e) (Table e) in
  let id := messageID fresh p e in
  '(p, ats, r) ← send subj e id ats p;
  '(p, ats, r) ← (if isTooLarge r then sendTruncated subj e id ats p else Some (p, ats, r));
  match r with
  | Err err => Some (p, ats, Err err)
  | Ok _ => Some (record_ack e p, ats, Ok tt)
  end.

(** [deliver]: whether the loop may continue. *)
Definition deliver (fresh : string) (e : Event) (ats : list attempt) (p : Publisher)
    : option (Publisher * list attempt * bool) :=
  if negb (shouldPublish (Type_ e)) then Some (p, ats, true)
  else
    '(p, ats, r) ← publish fresh e ats p;
    match r with
    | Err ErrConnectionClosed => Some (p, ats, false)
    | _ => Some (p, ats, true)       (* any other error is logged *)
    end.

(** What the loop's [select] takes: an event with the inputs its delivery
    meets, the closed channel, or the end of the context. *)
Inductive loop_input :=
| Receive (e : Event) (fresh : string) (ats : list attempt)
| ChannelClosed
| CtxDone.

(** How far the loop got. *)
Inductive loop_end := Waiting | Publishing | Left_.

Fixpoint publishLoop (ins : list loop_input) (p : Publisher) : Publisher * loop_end :=
  match ins with
  | [] => (p, Waiting)
  | ChannelClosed :: _ => (p, Left_)
  | CtxDone :: _ => (p, Left_)
  | Receive e fresh ats :: ins =>
      match deliver fresh e ats p with
      | None => (p, Publishing)
      | Some (p, _, true) => publishLoop ins p
      | Some (p, _, false) => (p, Left_)
      end
  end.

(** ** Stream verification *)

(** What looking up the stream can say: it exists, it does not, another
    error. *)
Inductive lookup := Found | NotFound | LookupFails.

Definition ensureStream (l : lookup) : result pub_error unit :=
  match l with
  | Found => Ok tt
  | NotFound => Err ErrStreamMissing
  | LookupFails => Err (SendError OtherError)
  end.

Definition is_missing (r : result pub_error unit) : bool :=
  match r with Err ErrStreamMissing => true | _ => false end.

(** [verifyStreamIfConnected]: the error it returns, if any. *)
Definition verifyStreamIfConnected (connected : bool) (l : lookup) (p : Publisher)
    : Publisher * option pub_error :=
  if negb connected then (p, None)
  else match ensureStream l with
       | Ok _ => (set_verified p, None)
       | Err ErrStreamMissing => (p, Some ErrStreamMissing)
       | Err _ => (p, None)
       end.

(** One round of [awaitStream]: the polls until connected, the lookup, whether
    the context was done after it, and during the delay. *)
Record await_round := mkRound {
  r_polls : list poll; r_lookup : lookup; r_ctx : bool; r_sleep_ctx : bool
}.

Fixpoint awaitStream (rounds : list await_round) (p : Publisher)
    : option (Publisher * result pub_error unit) :=
  match rounds with
  | [] => None
  | r :: rounds =>
      match waitConnected (r_polls r) with
      | None => None
      | Some (Err e) => Some (p, Err e)
      | Some (Ok _) =>
          match ensureStream (r_lookup r) with
          | Ok _ => Some (set_verified p, Ok tt)
          | Err e =>
              if is_missing (Err e) || r_ctx r then Some (p, Err e)
              else if r_sleep_ctx r then Some (p, Err CtxErr)
              else awaitStream rounds p
          end
      end
  end.

(** The goroutine [Start] launches: publish only on a verified stream; when
    verification fails for good the failure is reported, unless the context
    ended. *)
Definition run_loop (rounds : list await_round) (ctxDone : bool) (ins : list loop_input)
    (p : Publisher) : Publisher * loop_end :=
  if streamVerified p then publishLoop ins p
  else match awaitStream rounds p with
       | None => (p, Waiting)
       | Some (p, Err e) => (if ctxDone then p else fail_ e p, Left_)
       | Some (p, Ok _) => publishLoop ins p
       end.

(** [onClosed]. *)
Definition onClosed (p : Publisher) : Publisher :=
  if stopping p then p else fail_ ErrConnectionClosed p.

Definition Ready (connected : option bool) (p : Publisher) : bool :=
  match connected with Some true => streamVerified p | _ => false end.
Definition Stop (p : Publisher) : Publisher := set_stopping p.

(** ** Lemmas *)

(** A failed attempt that is retried: not too large, and either the connection
    is up and the context lives, or it comes back. *)
Definition retryable (a : attempt) : bool :=
  match a_answer a with
  | Ok _ => false
  | Err e =>
      negb (nats_too_large e) &&
      (if a_lost a then match waitConnected (a_polls a) with Some (Ok _) => true | _ => false end
       else negb (a_ctx a))
  end.

Definition acked_attempt (a : attempt) : bool := is_ok (a_answer a).

(** The delays between the attempts: doubled up to the maximum, and only when
    the connection was up. *)
Fixpoint delays (d : Z) (fs : list attempt) : list Z :=
  match fs with
  | [] => []
  | a :: fs => if a_lost a then delays d fs else d :: delays (Z.min (d * 2) maxRetryDelay) fs
  end.

(** The publisher after retryable failures [fs] of message [m]. *)
Definition after_failures (d : Z) (m : message) (fs : list attempt) (p : Publisher) : Publisher :=
  mkPublisher (subjectPrefix p) (streamVerified p) (stopping p) (failed p) (lastAckedLSN p)
    (tried p ++ replicate (length fs) m) (slept p ++ delays d fs) (observed p)
    (nats_errors p + Z.of_nat (length fs)) (oversized p) (published p).

Lemma retry_failures d m fs ats p :
  Forall (fun a => retryable a = true) fs ->
  exists d', publishWithRetry d m (fs ++ ats) p = publishWithRetry d' m ats (after_failures d m fs p).
Proof.
  intros H. revert d p. induction H as [|a fs Ha _ IH]; intros d p.
  { exists d. unfold after_failures. simpl. rewrite !app_nil_r, Z.add_0_r. by destruct p. }
  cbn [app publishWithRetry]. unfold retryable in Ha.
  destruct (a_answer a) as [|e]; [done|]. apply andb_true_iff in Ha as [Hl Ha].
  apply negb_true_iff in Hl. rewrite Hl.
  assert (Hlen : nats_errors p + 1 + Z.of_nat (length fs) = nats_errors p + Z.of_nat (S (length fs))) by lia.
  destruct (a_lost a) eqn:El.
  - destruct (waitConnected (a_polls a)) as [[u|]|]; try done.
    destruct (IH d (inc_error (add_try m p))) as [d' E]. exists d'. rewrite E. f_equal.
    unfold after_failures. cbn. rewrite El, Hlen, <- app_assoc. done.
  - apply negb_true_iff in Ha. rewrite Ha.
    destruct (IH (Z.min (d * 2) maxRetryDelay) (add_sleep d (inc_error (add_try m p)))) as [d' E].
    exists d'. rewrite E. f_equal. unfold after_failures. cbn. rewrite El, Hlen, <- !app_assoc. done.
Qed.

(** How the attempt that ends a run explains its result. *)
Definition ends (a : attempt) (r : result pub_error unit) : Prop :=
  r = Ok tt /\ acked_attempt a = true \/
  (exists e, r = Err (SendError e) /\ a_answer a = Err e /\ nats_too_large e = true) \/
  r = Err ErrConnectionClosed \/
  r = Err CtxErr /\ (a_ctx a = true \/ Exists (fun q => p_ctx q = true) (a_polls a)).

(** A run is retryable failures and then the attempt that ends it; it notifies
    nobody. *)
Definition retry_shape (m : message) (p : Publisher) (ats : list attempt) (p' : Publisher)
    (rest : list attempt) (r : result pub_error unit) : Prop :=
  exists fs a, ats = fs ++ a :: rest /\ Forall (fun a => retryable a = true) fs /\
    retryable a = false /\ observed p' = observed p /\ subjectPrefix p' = subjectPrefix p /\
    tried p' = tried p ++ replicate (S (length fs)) m /\ ends a r.

Lemma waitConnected_err ps e :
  waitConnected ps = Some (Err e) ->
  e = ErrConnectionClosed \/ e = CtxErr /\ Exists (fun q => p_ctx q = true) ps.
Proof.
  induction ps as [|q qs IH]; simpl; intros H; [done|].
  destruct (p_connected q); [done|]. destruct (p_closed q); [simplify_eq; by left|].
  destruct (p_ctx q) eqn:Eq; [simplify_eq; right; split; [done|]; by left|].
  apply IH in H as [->|[-> ?]]; [by left|right]. split; [done|]. by right.
Qed.

Lemma retry_result d m ats p p' rest r :
  publishWithRetry d m ats p = Some (p', rest, r) -> retry_shape m p ats p' rest r.
Proof.
  revert d p. induction ats as [|a ats IH]; intros d p H; [done|]. cbn [publishWithRetry] in H.
  assert (Hend : forall p0 r0, observed p0 = observed p -> subjectPrefix p0 = subjectPrefix p ->
    tried p0 = tried p ++ [m] -> Some (p0, ats, r0) = Some (p', rest, r) -> retryable a = false ->
    ends a r0 -> retry_shape m p (a :: ats) p' rest r).
  { intros p0 r0 Ho Hs Ht [= <- <- <-] Hr Hc. exists [], a. by split_and!. }
  assert (Hgo : forall d0 p0, observed p0 = observed p -> subjectPrefix p0 = subjectPrefix p ->
    tried p0 = tried p ++ [m] -> publishWithRetry d0 m ats p0 = Some (p', rest, r) ->
    retryable a = true -> retry_shape m p (a :: ats) p' rest r).
  { intros d0 p0 Ho Hs Ht E Hr. apply IH in E as (fs & a' & -> & Hfs & Ha' & Ho' & Hs' & Ht' & Hc).
    exists (a :: fs), a'. split_and!; try done; [by constructor|congruence|congruence|].
    by rewrite Ht', Ht, <- app_assoc. }
  unfold retryable, ends, acked_attempt in *. destruct (a_answer a) as [u|e] eqn:Ea.
  { eapply Hend; [..|exact H| |]; [done..|]. by left. }
  destruct (nats_too_large e) eqn:El; simpl in *.
  { eapply Hend; [..|exact H| |]; [done..|]. right. left. eauto. }
  destruct (a_lost a) eqn:Elost.
  - destruct (waitConnected (a_polls a)) as [[u|w]|] eqn:Ew; [by eapply Hgo; [..|exact H|]| |done].
    eapply Hend; [..|exact H| |]; [done..|].
    apply waitConnected_err in Ew as [->|[-> ?]]; [by auto|]. right. right. right. auto.
  - destruct (a_ctx a) eqn:Ec; simpl in *; [|by eapply Hgo; [..|exact H|]].
    eapply Hend; [..|exact H| |]; [done..|]. right. right. right. auto.
Qed.

(** ** What becomes of an event *)

(** The messages an event may go out as: itself, cut down to its key, or without
    data, always on its subject and under its message id. *)
Definition message_of (fresh : string) (p : Publisher) (e payload : Event) : message :=
  mkMessage (buildSubject (subjectPrefix p) (Schema e) (Table e)) payload (messageID fresh p e).
Definition forms (e : Event) : list Event := [e; Truncated e; Stripped e].

(** The broker stored message [m]; it refused every form as too large, which
    were the messages sent and the answers met; or the context or the
    connection ended first. *)
Inductive fate := Delivered (m : message) | Refused (ms : list message) (ats : list attempt) | Interrupted.

Definition large (a : attempt) : Prop := exists e, a_answer a = Err e /\ nats_too_large e = true.
#[export] Instance large_dec a : Decision (large a).
Proof.
  unfold large. destruct (a_answer a) as [u|e]; [right; by intros (e & ? & _)|].
  destruct (nats_too_large e) eqn:E; [left; by exists e|right].
  intros (e' & [= <-] & E'). congruence.
Defined.

(** The context ends in one of the attempts. *)
Definition cancelled (ats : list attempt) : Prop :=
  Exists (fun a => a_ctx a = true \/ Exists (fun q => p_ctx q = true) (a_polls a)) ats.

(** What a fate says about the event and the inputs its delivery met. *)
Definition explained (fresh : string) (p : Publisher) (e : Event) (ats : list attempt) (f : fate) : Prop :=
  match f with
  | Delivered m => exists x, x ∈ forms e /\ m = message_of fresh p e x /\ Exists (fun a => acked_attempt a = true) ats
  | Refused ms used =>
      Forall (fun x => message_of fresh p e x ∈ ms) (forms e) /\ used = ats /\ (3 <= length (filter large ats))%nat
  | Interrupted => cancelled ats
  end.

(** How [publish] ended, as a fate; a closed connection ends the loop. *)
Definition fate_of (p p' : Publisher) (ats : list attempt) (r : result pub_error unit) : option fate :=
  match r with
  | Ok _ => Delivered <$> last (tried p')
  | Err (SendError _) => Some (Refused (drop (length (tried p)) (tried p')) ats)
  | Err ErrConnectionClosed => None
  | Err _ => Some Interrupted
  end.

Definition delivered (f : fate) : bool := match f with Delivered _ => true | _ => false end.

(** One form, sent until it is accepted, refused or interrupted. *)
Lemma send_result subj x id ats p p' rest r :
  send subj x id ats p = Some (p', rest, r) ->
  exists n used, ats = used ++ rest /\ tried p' = tried p ++ replicate (S n) (mkMessage subj x id) /\
    observed p' = observed p /\ subjectPrefix p' = subjectPrefix p /\
    match r with
    | Ok _ => Exists (fun a => acked_attempt a = true) used
    | Err (SendError e) => nats_too_large e = true /\ Exists large used
    | Err CtxErr => cancelled used
    | Err e => e = ErrConnectionClosed
    end.
Proof.
  intros H. apply retry_result in H as (fs & a & -> & _ & _ & Ho & Hs & Ht & He).
  exists (length fs), (fs ++ [a]). rewrite <- app_assoc. split_and!; try done.
  destruct He as [[-> ?]|[(e & -> & ? & ?)|[->|[-> ?]]]]; try done;
    [|split; [done|]|]; apply Exists_app; right; left; [done|by exists e|done].
Qed.

Lemma filter_large_pos ats : Exists large ats -> (1 <= length (filter large ats))%nat.
Proof.
  intros (a & Ha & Hl)%Exists_exists. assert (Hin : a ∈ filter large ats) by (by apply list_elem_of_filter).
  destruct (filter large ats); [by apply elem_of_nil in Hin|simpl; lia].
Qed.

Lemma last_tried (l : list message) n m : last (l ++ replicate (S n) m) = Some m.
Proof. rewrite replicate_S_end, app_assoc. apply last_snoc. Qed.

Lemma in_replicate_S (m : message) n : m ∈ replicate (S n) m.
Proof. left. Qed.

(** The result of [publish] has its explanation, and the observers are told of
    the event exactly when it was delivered. *)
Definition publish_ok (fresh : string) (e : Event) (ats : list attempt) (p p' : Publisher)
    (r : result pub_error unit) : Prop :=
  subjectPrefix p' = subjectPrefix p /\
  match fate_of p p' ats r with
  | Some f => explained fresh p e ats f /\ observed p' = observed p ++ (if delivered f then [e] else [])
  | None => r = Err ErrConnectionClosed /\ observed p' = observed p
  end.

Lemma Exists_used_l {P : attempt -> Prop} (a b : list attempt) : Exists P a -> Exists P (a ++ b).
Proof. intros. apply Exists_app. by left. Qed.

Lemma ended_ok fresh e ats p p' p1 r n used rest ms x :
  x ∈ forms e -> subjectPrefix p' = subjectPrefix p -> observed p' = observed p ->
  tried p' = ms ++ replicate (S n) (message_of fresh p e x) -> (exists pre, ats = pre ++ used ++ rest) ->
  match r with
  | Ok _ => Exists (fun a => acked_attempt a = true) used /\ p1 = record_ack e p'
  | Err CtxErr => cancelled used /\ p1 = p'
  | Err e => e = ErrConnectionClosed /\ p1 = p'
  end ->
  publish_ok fresh e ats p p1 r.
Proof.
  intros Hx Hs Ho Ht (pre & ->) Hr. destruct r as [[]|[]]; destruct Hr as [Hr ->]; try done.
  - split; [done|]. simpl. rewrite Ht, last_tried. simpl. split; [|by rewrite Ho].
    exists x. split_and!; [done..|]. apply Exists_app. right. by apply Exists_used_l.
  - split; [done|]. simpl. rewrite app_nil_r. split; [|done]. unfold cancelled. apply Exists_app. right.
    by apply Exists_used_l.
Qed.

Lemma publish_result fresh e ats p p' rest r :
  publish fresh e ats p = Some (p', rest, r) -> publish_ok fresh e ats p p' r.
Proof.
  unfold publish. intros H.
  destruct (send _ e _ ats p) as [[[p1 at1] r1]|] eqn:E1; [|done]. simpl in H.
  apply send_result in E1 as (n1 & u1 & -> & Ht1 & Ho1 & Hs1 & Hr1). fold (message_of fresh p e e) in Ht1.
  destruct (isTooLarge r1) eqn:L1.
  2:{ eapply (ended_ok _ _ _ _ p1 _ _ n1 u1 at1 (tried p) e); try done; [left|by exists []|].
      destruct r1 as [[]|[]]; simpl in H, L1; simplify_eq; try done. by destruct Hr1 as [? _]; congruence. }
  unfold sendTruncated in H.
  destruct (send _ (Truncated e) _ at1 _) as [[[p2 at2] r2]|] eqn:E2; [|done]. simpl in H.
  apply send_result in E2 as (n2 & u2 & -> & Ht2 & Ho2 & Hs2 & Hr2). fold (message_of fresh p e (Truncated e)) in Ht2.
  simpl in Ht2, Ho2, Hs2.
  destruct (isTooLarge r2) eqn:L2.
  2:{ eapply (ended_ok _ _ _ _ p2 _ _ n2 u2 at2 (tried p1) (Truncated e)); try done;
        [right; left|congruence|congruence|by exists u1|].
      destruct r2 as [[]|[]]; simpl in H, L2; simplify_eq; try done. by destruct Hr2 as [? _]; congruence. }
  destruct (send _ (Stripped e) _ at2 _) as [[[p3 at3] r3]|] eqn:E3; [|done]. simpl in H.
  apply send_result in E3 as (n3 & u3 & -> & Ht3 & Ho3 & Hs3 & Hr3). fold (message_of fresh p e (Stripped e)) in Ht3.
  destruct (isTooLarge r3) eqn:L3.
  2:{ eapply (ended_ok _ _ _ _ p3 _ _ n3 u3 at3 (tried p2) (Stripped e)); try done;
        [right; right; left|congruence|congruence|by exists (u1 ++ u2); rewrite <- app_assoc|].
      destruct r3 as [[]|[]]; simpl in H, L3; simplify_eq; try done. by destruct Hr3 as [? _]; congruence. }
  destruct r1 as [[]|[]], r2 as [[]|[]], r3 as [[]|[]]; try done. simpl in H. simplify_eq.
  destruct Hr1 as [_ Hr1], Hr2 as [_ Hr2], Hr3 as [_ Hr3].
  split; [congruence|]. simpl. rewrite app_nil_r. split; [|congruence].
  rewrite Ht3, Ht2, Ht1, <- !app_assoc, drop_app_length. split_and!; [|done|].
  - repeat constructor; rewrite !elem_of_app; eauto using in_replicate_S.
  - apply filter_large_pos in Hr1, Hr2, Hr3. rewrite !filter_app, !length_app. lia.
Qed.

(** ** Fates, as the pipelines record them *)

(** The message for event [e] with payload [x]; the events of the listeners have
    a source id. *)
Definition as_message (prefix : string) (e x : Event) : message :=
  mkMessage (buildSubject prefix (Schema e) (Table e)) x (prefix +:+ "/" +:+ SourceID e).

(** What the fate of an event says: the broker acked it, in full, cut to its key
    or without its data; or it was sent in all three forms and at least three
    answers said too large. *)
Definition fate_ok (prefix : string) (e : Event) (f : fate) : Prop :=
  match f with
  | Delivered m => exists x, x ∈ forms e /\ m = as_message prefix e x
  | Refused ms ats =>
      Forall (fun x => as_message prefix e x ∈ ms) (forms e) /\ (3 <= length (filter large ats))%nat
  | Interrupted => False
  end.

Lemma explained_ok prefix fresh p ev ats f :
  subjectPrefix p = prefix -> explained fresh p ev ats f -> f <> Interrupted ->
  SourceID ev <> ""%string -> fate_ok prefix ev f.
Proof.
  intros Hp Hx Hf Hid. assert (E : forall x, message_of fresh p ev x = as_message prefix ev x).
  { intros x. unfold message_of, messageID, as_message. by rewrite Hp, bool_decide_eq_false_2. }
  destruct f as [m|ms at'|]; simpl in Hx; [| |done].
  - destruct Hx as (x & Hx & -> & _). exists x. rewrite E. by split.
  - destruct Hx as (Hx & -> & Hl). split; [|done]. eapply Forall_impl; [exact Hx|]. intros x. simpl. by rewrite E.
Qed.

(** ** In-order delivery *)

(** The publishable events the loop was given, with what their delivery met. *)
Definition received (ins : list loop_input) : list (Event * string * list attempt) :=
  omap (fun i => match i with
                 | Receive e fresh ats => if shouldPublish (Type_ e) then Some (e, fresh, ats) else None
                 | _ => None end) ins.

(** The events among these that were delivered. *)
Definition deliveries (l : list ((Event * string * list attempt) * fate)) : list Event :=
  omap (fun x => if delivered x.2 then Some x.1.1.1 else None) l.

Lemma received_cons e fresh ats ins :
  received (Receive e fresh ats :: ins)
  = (if shouldPublish (Type_ e) then [(e, fresh, ats)] else []) ++ received ins.
Proof. unfold received. cbn [omap list_omap]. by destruct (shouldPublish (Type_ e)). Qed.

Lemma publishLoop_fates ins p :
  exists fs, (length fs <= length (received ins))%nat /\
    observed (publishLoop ins p).1 = observed p ++ deliveries (zip (received ins) fs) /\
    Forall2 (fun x f => explained x.1.2 p x.1.1 x.2 f) (take (length fs) (received ins)) fs /\
    ((publishLoop ins p).2 = Waiting -> length fs = length (received ins)).
Proof.
  assert (Hstop : forall p1 en l, observed p1 = observed p -> en <> Waiting ->
    exists fs : list fate, (length fs <= length l)%nat /\
      observed (p1, en).1 = observed p ++ deliveries (zip l fs) /\
      Forall2 (fun x f => explained x.1.2 p x.1.1 x.2 f) (take (length fs) l) fs /\
      ((p1, en).2 = Waiting -> length fs = length l)).
  { intros p1 en l Ho Hen. exists []. rewrite zip_with_nil_r, app_nil_r. split_and!; [simpl; lia|done|constructor|done]. }
  revert p Hstop. induction ins as [|i ins IH]; intros p Hstop; cbn [publishLoop].
  { exists []. rewrite app_nil_r. split_and!; [done..|constructor|done]. }
  destruct i as [e fresh ats| |]; [|by apply Hstop..].
  rewrite received_cons. unfold deliver. destruct (shouldPublish (Type_ e)); cbn [negb app]; [|by apply IH].
  destruct (publish fresh e ats p) as [[[p1 at1] r]|] eqn:E; cbn [mbind option_bind]; [|by apply Hstop].
  apply publish_result in E as [Hs Hf]. destruct (fate_of p p1 ats r) as [f|] eqn:Ef.
  2:{ destruct Hf as [-> Ho]. by apply Hstop. }
  destruct Hf as [Hx Ho]. assert (Hpx : forall fr ev at' g, explained fr p1 ev at' g -> explained fr p ev at' g).
  { intros fr ev at' g. destruct g; simpl; unfold message_of, messageID; by rewrite ?Hs. }
  replace (match r with Err ErrConnectionClosed => Some (p1, at1, false) | _ => Some (p1, at1, true) end)
    with (Some (p1, at1, true)) by (by destruct r as [|[]]).
  destruct (IH p1) as (fs & Hl & Hob & Hex & Hw).
  { intros p2 en l Hp2 Hen. exists []. rewrite zip_with_nil_r, app_nil_r. split_and!; [simpl; lia|done|constructor|done]. }
  exists (f :: fs). cbn [length take zip_with deliveries omap list_omap fst snd]. split_and!.
  - lia.
  - rewrite Hob, Ho. destruct (delivered f); by rewrite <- ?app_assoc, ?app_nil_r.
  - constructor; [done|]. eapply Forall2_impl; [exact Hex|]. intros x g. apply Hpx.
  - intros E. by rewrite (Hw E).
Qed.

(** The [i]-th delay is the base doubled [i] times, up to the maximum. *)
Lemma delays_double d fs i x :
  0 < d <= maxRetryDelay -> delays d fs !! i = Some x -> x = Z.min (d * 2 ^ Z.of_nat i) maxRetryDelay.
Proof.
  revert d i. induction fs as [|a fs IH]; intros d i Hd; [done|]. cbn [delays].
  destruct (a_lost a); [by apply IH|]. destruct i as [|i]; intros H.
  { injection H as <-. simpl. lia. }
  change (delays (Z.min (d * 2) maxRetryDelay) fs !! i = Some x) in H. apply IH in H as ->; [|lia]. rewrite Nat2Z.inj_succ, Z.pow_succ_r by lia.
  pose proof (Z.pow_pos_nonneg 2 (Z.of_nat i) ltac:(lia) ltac:(lia)).
  destruct (Z.le_gt_cases (d * 2) maxRetryDelay) as [?|?]; [rewrite (Z.min_l (d * 2)) by lia; f_equal; lia|].
  rewrite (Z.min_r (d * 2)) by lia. rewrite !Z.min_r; nia.
Qed.

Lemma delays_count d fs :
  length (delays d fs) = length (filter (fun a => a_lost a = false) fs).
Proof.
  revert d. induction fs as [|a fs IH]; intros d; [done|]. cbn [delays]. rewrite filter_cons.
  destruct (a_lost a); simpl; by rewrite IH.
Qed.

Lemma sanitize_plain s :
  (forall c, reserved c = true -> no_char c s = true) -> sanitizeSubjectToken s = s.
Proof.
  induction s as [|a s IH]; intros H; [done|]. simpl. rewrite IH.
  - destruct (reserved a) eqn:E; [|done]. apply H in E. simpl in E. by rewrite Ascii.eqb_refl in E.
  - intros c Hc. apply H in Hc. simpl in Hc. by apply andb_true_iff in Hc as [_ ?].
Qed.

Lemma sanitize_clean s c : reserved c = true -> no_char c (sanitizeSubjectToken s) = true.
Proof.
  intros Hc. induction s as [|a s IH]; simpl; [done|]. rewrite IH, andb_true_r.
  apply negb_true_iff, Ascii.eqb_neq. intros E. destruct (reserved a) eqn:Ea; subst; [done|congruence].
Qed.

Lemma backoff_step_range n step max :
  0 < step -> step <= max -> max < 2 ^ 62 ->
  step <= backoff_step n step max < 2 * max + 1.
Proof.
  revert step. induction n as [|n IH]; intros step H1 H2 H3; simpl; [lia|].
  destruct (Z.ltb_spec step max); [|lia]. rewrite i64_small by lia.
  destruct (Z.le_gt_cases (step * 2) max) as [?|?].
  - specialize (IH (step * 2) ltac:(lia) ltac:(lia) H3). lia.
  - destruct n; simpl; [lia|]. destruct (Z.ltb_spec (step * 2) max); lia.
Qed.

(** ** Properties *)

(** C17: the publisher takes the events in the order they came off the bus and
    each of them meets one fate, whatever the broker, the connection and the
    context do: it is delivered, under its own message id and on its own subject,
    in full, cut to its key or without data, after an attempt the broker acked;
    or all three forms were sent and at least three answers said too large; or
    the context ended during its attempts.  The observers are told of exactly
    the delivered ones, in order, and when the loop waits for more no event is
    left out. *)
Theorem publishLoop_in_order (prefix : string) (ins : list loop_input) :
  exists fs, (length fs <= length (received ins))%nat /\
    observed (publishLoop ins (NewPublisher prefix)).1 = deliveries (zip (received ins) fs) /\
    Forall2 (fun x f => explained x.1.2 (NewPublisher prefix) x.1.1 x.2 f)
      (take (length fs) (received ins)) fs /\
    ((publishLoop ins (NewPublisher prefix)).2 = Waiting -> length fs = length (received ins)).
Proof. destruct (publishLoop_fates ins (NewPublisher prefix)) as (fs & H). exists fs. exact H. Qed.

(** The subject of an event and the id it is deduplicated by. *)
Definition addressed_to (prefix fresh : string) (e : Event) (m : message) : Prop :=
  msgID m = (if decide (SourceID e = ""%string) then fresh else prefix +:+ "/" +:+ SourceID e) /\
  exists a b, subject m = prefix +:+ "." +:+ a +:+ "." +:+ b /\
    (forall c, reserved c = true -> no_char c a = true /\ no_char c b = true) /\
    (Schema e <> ""%string -> (forall c, reserved c = true -> no_char c (Schema e) = true) -> a = Schema e) /\
    (Table e <> ""%string -> (forall c, reserved c = true -> no_char c (Table e) = true) -> b = Table e).

Lemma message_addressed fresh p e x : addressed_to (subjectPrefix p) fresh e (message_of fresh p e x).
Proof.
  split.
  - simpl. unfold messageID. destruct (decide (SourceID e = ""%string)) as [->|H]; [done|].
    by rewrite bool_decide_eq_false_2.
  - simpl. unfold buildSubject. eexists _, _. split_and!; [done|..].
    + intros c Hc. by split; apply sanitize_clean.
    + intros Hn Hp. rewrite bool_decide_eq_false_2 by done. by apply sanitize_plain.
    + intros Hn Hp. rewrite bool_decide_eq_false_2 by done. by apply sanitize_plain.
Qed.

(** C18: publishing retries through any number of transient failures until the
    broker acks: every attempt carries the same message, whose id is the
    prefix and the event's source id (or a fresh one without it) and whose
    subject is the prefix with the schema and the table as they are when they
    hold no reserved character; the pause before each retry over a live
    connection starts at the base and doubles up to the maximum, and the
    observers are told exactly once, after the ack. *)
Theorem publish_retries_until_ack (fresh : string) (e : Event) (fs : list attempt) (a : attempt)
    (rest : list attempt) (p : Publisher) :
  Forall (fun a => retryable a = true) fs -> acked_attempt a = true ->
  exists p' m, publish fresh e (fs ++ a :: rest) p = Some (p', rest, Ok tt) /\
    tried p' = tried p ++ replicate (S (length fs)) m /\
    payload m = e /\ addressed_to (subjectPrefix p) fresh e m /\
    observed p' = observed p ++ [e] /\
    exists ds, slept p' = slept p ++ ds /\
      length ds = length (filter (fun a => a_lost a = false) fs) /\
      forall i d, ds !! i = Some d -> d = Z.min (500000000 * 2 ^ Z.of_nat i) 10000000000.
Proof.
  intros Hfs Ha. unfold publish, send.
  fold (message_of fresh p e e). set (m := message_of fresh p e e).
  destruct (retry_failures defaultRetryBaseDelay m fs (a :: rest) p Hfs) as [d' ->].
  cbn [publishWithRetry]. unfold acked_attempt in Ha. destruct (a_answer a) as [u|]; [|done]. simpl.
  eexists _, m. split; [done|]. cbn. split_and!; [|done|apply message_addressed|done|].
  - rewrite <- app_assoc. f_equal. symmetry. apply (replicate_S_end (length fs) m).
  - exists (delays defaultRetryBaseDelay fs). split_and!; [done|apply delays_count|].
    intros i d Hd. apply delays_double in Hd; [done|]. unfold defaultRetryBaseDelay, maxRetryDelay. lia.
Qed.

(** An event the broker rejects as too large even without its data is
    given up on and the loop goes on: the next event is acked, so its higher
    sequence number covers the one that was never stored. *)
Theorem oversized_event_skipped (p : Publisher) (e1 e2 : Event) (f1 f2 : string) :
  shouldPublish (Type_ e1) = true -> shouldPublish (Type_ e2) = true ->
  let large := mkAttempt (Err ErrMaxPayload) false [] false in
  let ack := mkAttempt (Ok tt) false [] false in
  let '(p', en) := publishLoop [Receive e1 f1 [large; large; large]; Receive e2 f2 [ack]] p in
  en = Waiting /\ observed p' = observed p ++ [e2].
Proof.
  intros H1 H2. cbn [publishLoop]. unfold deliver. rewrite H1, H2. cbn. done.
Qed.

(** The schema and table tokens of a subject hold no separator, wildcard or
    blank and are never empty, so an event is published exactly two levels below
    the configured prefix whatever its table is called. *)
Theorem buildSubject_tokens (prefix schema table : string) :
  exists a b, buildSubject prefix schema table = prefix +:+ "." +:+ a +:+ "." +:+ b /\
    a <> ""%string /\ b <> ""%string /\
    forall c, reserved c = true -> no_char c a = true /\ no_char c b = true.
Proof.
  unfold buildSubject. eexists _, _. split; [done|].
  assert (Hne : forall s d : string, d <> ""%string ->
    sanitizeSubjectToken (if bool_decide (s = ""%string) then d else s) <> ""%string).
  { intros s d Hd. case_bool_decide; [by destruct d|by destruct s]. }
  split_and!; [by apply Hne..|]. intros c Hc. by split; apply sanitize_clean.
Qed.

(** The reconnect delay of every attempt lies between half the step and
    the step, the step being the base doubled per attempt and capped, so no
    delay is zero, overflows or exceeds the maximum. *)
Theorem backoff_delay_bounds (rand : Z -> Z) (attempt : Z) :
  (forall n, 0 < n -> 0 <= rand n < n) ->
  reconnectBaseDelay / 2 <= backoff_delay reconnectBaseDelay reconnectMaxDelay rand attempt
    <= reconnectMaxDelay.
Proof.
  intros Hr. unfold backoff_delay. set (s := backoff_step _ _ _).
  pose proof (backoff_step_range (Z.to_nat (attempt - 1)) reconnectBaseDelay reconnectMaxDelay) as Hs.
  fold s in Hs. unfold reconnectBaseDelay, reconnectMaxDelay in *.
  specialize (Hs ltac:(lia) ltac:(lia) ltac:(lia)).
  set (t := Z.min s (30 * 1000000000)). assert (Ht : 500 * 1000000 <= t <= 30 * 1000000000) by lia.
  rewrite Z.quot_div_nonneg by lia. pose proof (Z.div_mod t 2 ltac:(lia)).
  pose proof (Z.mod_pos_bound t 2 ltac:(lia)). specialize (Hr (t - t / 2 + 1) ltac:(lia)).
  change (500 * 1000000 / 2) with 250000000. lia.
Qed.

(** Publishing never starts on an unverified stream: the loop runs only
    once the lookup found the stream, a missing stream is reported on the failure
    channel instead (unless the context ended), and nothing is tried before. *)
Theorem run_loop_needs_stream (rounds : list await_round) (ins : list loop_input) (p : Publisher) :
  streamVerified p = false -> failed p = None ->
  let '(p', en) := run_loop rounds false ins p in
  (en = Waiting /\ p' = p) \/ (en = Left_ /\ tried p' = tried p /\ failed p' <> None) \/
  exists r, r ∈ rounds /\ r_lookup r = Found /\ (p', en) = publishLoop ins (set_verified p).
Proof.
  intros Hv Hf. unfold run_loop. rewrite Hv.
  assert (H : awaitStream rounds p = None \/
    (exists e, awaitStream rounds p = Some (p, Err e)) \/
    exists r, r ∈ rounds /\ r_lookup r = Found /\ awaitStream rounds p = Some (set_verified p, Ok tt)).
  { induction rounds as [|r rounds IH]; [by left|]. cbn [awaitStream].
    destruct (waitConnected (r_polls r)) as [[u|e]|]; [|by eauto|by left].
    destruct (r_lookup r) eqn:El; cbn [ensureStream is_missing orb].
    - right. right. exists r. split; [left|done].
    - by eauto.
    - destruct (r_ctx r); [by eauto|]. destruct (r_sleep_ctx r); [by eauto|].
      destruct IH as [?|[?|(r' & ? & ? & ?)]]; [by left|by eauto|].
      right. right. exists r'. split; [by right|done]. }
  destruct H as [->|[[e ->]|(r & Hin & Hl & ->)]].
  - by left.
  - right. left. simpl. by rewrite Hf.
  - destruct (publishLoop ins (set_verified p)) as [p' en] eqn:E. right. right. by exists r.
Qed.

(** ** Witnesses *)

Definition demo_pub : Publisher := NewPublisher "cdc.acme".
Definition demo_change (n : Z) : Event :=
  set_sequence n (set_source_id "pg:0/1:0" (NewEvent 0 Insert "public" "users" "{}" "INSERT" "0/1")).
Definition demo_ack : attempt := mkAttempt (Ok tt) false [] false.
Definition demo_fail : attempt := mkAttempt (Err OtherError) false [] false.
Definition demo_outage : attempt :=
  mkAttempt (Err OtherError) true [mkPoll false false false; mkPoll true false false] false.
Definition demo_large : attempt := mkAttempt (Err (APIError 10054)) false [] false.

(** One event after an outage, one cut to its key, one refused altogether. *)
Example demo_fates :
  observed (publishLoop [Receive (demo_change 1) "" [demo_fail; demo_outage; demo_ack];
                         Receive (demo_change 2) "" [demo_large; demo_ack];
                         Receive (demo_change 3) "" [demo_large; demo_large; demo_large]] demo_pub).1
  = [demo_change 1; demo_change 2].
Proof. vm_compute. reflexivity. Qed.

Lemma publish_retries_until_ack_witness :
  exists p' m,
    publish "" (demo_change 1) ([demo_fail; demo_outage; demo_fail] ++ demo_ack :: []) demo_pub
      = Some (p', [], Ok tt) /\
    tried p' = replicate 4 m /\ msgID m = "cdc.acme/pg:0/1:0"%string /\
    exists ds, slept p' = ds /\ length ds = 2%nat /\
      forall i d, ds !! i = Some d -> d = Z.min (500000000 * 2 ^ Z.of_nat i) 10000000000.
Proof.
  destruct (publish_retries_until_ack "" (demo_change 1) [demo_fail; demo_outage; demo_fail] demo_ack [] demo_pub)
    as (p' & m & H1 & H2 & _ & [H3 _] & _ & ds & H4 & H5 & H6).
  - repeat constructor.
  - reflexivity.
  - exists p', m. split; [exact H1|]. split; [exact H2|]. split; [rewrite H3; vm_compute; reflexivity|].
    exists ds. split; [exact H4|]. split; [rewrite H5; vm_compute; reflexivity|exact H6].
Defined.

Lemma oversized_event_skipped_witness :
  let large := mkAttempt (Err ErrMaxPayload) false [] false in
  let '(p', en) := publishLoop [Receive (demo_change 1) "" [large; large; large];
                                Receive (demo_change 2) "" [demo_ack]] demo_pub in
  en = Waiting /\ observed p' = observed demo_pub ++ [demo_change 2].
Proof. apply (oversized_event_skipped demo_pub (demo_change 1) (demo_change 2) "" ""); reflexivity. Defined.

Lemma backoff_delay_bounds_witness :
  reconnectBaseDelay / 2 <= backoff_delay reconnectBaseDelay reconnectMaxDelay (fun n => n - 1) 9
    <= reconnectMaxDelay.
Proof. apply (backoff_delay_bounds (fun n => n - 1) 9). lia. Defined.

Lemma run_loop_needs_stream_witness :
  let '(p', en) := run_loop [mkRound [mkPoll true false false] LookupFails false false;
                             mkRound [mkPoll true false false] NotFound false false] false
                     [Receive (demo_change 1) "" [demo_ack]] demo_pub in
  (en = Waiting /\ p' = demo_pub) \/ (en = Left_ /\ tried p' = tried demo_pub /\ failed p' <> None) \/
  exists r, r ∈ [mkRound [mkPoll true false false] LookupFails false false;
                 mkRound [mkPoll true false false] NotFound false false] /\ r_lookup r = Found /\
    (p', en) = publishLoop [Receive (demo_change 1) "" [demo_ack]] (set_verified demo_pub).
Proof.
  apply (run_loop_needs_stream
    [mkRound [mkPoll true false false] LookupFails false false;
     mkRound [mkPoll true false false] NotFound false false]
    [Receive (demo_change 1) "" [demo_ack]] demo_pub); reflexivity.
Defined.
