(* ===== verification/Client.v ===== *)
(** * internal/nats: connecting and starting the publisher

    The options handed to the NATS client, the observers, [Start] up to the
    goroutine of Publisher.v, and the reconnect delay.  The client itself is
    not under src/: what connecting, creating JetStream and looking up the
    stream answer are arguments. *)

From stdpp Require Import base list strings gmap.
From Stdlib Require Import ZArith Lia Ascii.
From S2P Require Import Prelude GoStrings Config Json Event Truncate Service Publisher.

Local Open Scope Z_scope.

Inductive nats_option :=
| MaxReconnects (n : Z)
| RetryOnFailedConnect (b : bool)
| ReconnectBufSize (n : Z)
| CustomReconnectDelay
| ReconnectErrHandler
| DisconnectErrHandler
| ConnectHandler
| ReconnectHandler
| ClosedHandler
| ErrorHandler
| UserInfo (user password : string)
| CustomInboxPrefix (p : string).

#[export] Instance nats_option_eq_dec : EqDecision nats_option.
Proof. solve_decision. Defined.

Definition connectOptions (cfg : NATSConfig) : list nats_option :=
  [MaxReconnects (-1); RetryOnFailedConnect true; ReconnectBufSize (-1); CustomReconnectDelay;
   ReconnectErrHandler; DisconnectErrHandler; ConnectHandler; ReconnectHandler; ClosedHandler; ErrorHandler]
  ++ (if bool_decide (nats_Username cfg = ""%string) then []
      else [UserInfo (nats_Username cfg) (nats_Password cfg)])
  ++ (if bool_decide (nats_InboxPrefix cfg = ""%string) then []
      else [CustomInboxPrefix (nats_InboxPrefix cfg)]).

(** [defaultBackoff] and [nextReconnectDelay]; the log line is not modelled. *)
Definition nextReconnectDelay (rand : Z -> Z) (attempt : Z) : Z :=
  backoff_delay reconnectBaseDelay reconnectMaxDelay rand attempt.

(** A connection, if there is one, and whether it is up. *)
Definition connectionLost (conn : option bool) : bool :=
  match conn with Some up => negb up | None => false end.

(** [sleepContext]: whichever comes first. *)
Definition sleepContext (ctxFirst : bool) : result pub_error unit := if ctxFirst then Err CtxErr else Ok tt.

(** The observers are copied on every addition; the publisher goroutine calls
    the list it loads, in order. *)
Definition AddOnPublished {O : Type} (fn : O) (observers : option (list O)) : option (list O) :=
  Some (match observers with Some current => current ++ [fn] | None => [fn] end).
Definition notify {O S : Type} (call : O -> Event -> S -> S) (observers : option (list O)) (e : Event) (s : S) : S :=
  match observers with Some fns => foldl (fun s fn => call fn e s) s fns | None => s end.

(** ** Start *)

Inductive connect_error := ConnectError | JetStreamError | StreamMissingError.

(** What the client answers while starting. *)
Record client := mkClient {
  cl_connect : bool;
  cl_jetstream : bool;
  cl_connected : bool;
  cl_lookup : Publisher.lookup
}.

(** The publisher with its connection and its subscription on the bus. *)
Record started := mkStarted { pb : Publisher; pb_conn : bool; pb_sub : option nat }.

(** [Start]: the connection is closed again when JetStream or the stream is
    missing; otherwise the subscription is taken before the goroutine runs. *)
Definition Publisher_Start (c : client) (s : Service) (p : Publisher)
    : Service * started * result connect_error unit :=
  if negb (cl_connect c) then (s, mkStarted p false None, Err ConnectError)
  else if negb (cl_jetstream c) then (s, mkStarted p false None, Err JetStreamError)
  else
    match verifyStreamIfConnected (cl_connected c) (cl_lookup c) p with
    | (p, Some _) => (s, mkStarted p false None, Err StreamMissingError)
    | (p, None) =>
        let '(s', id) := SubscribeAll s in
        (s', mkStarted p true (Some id), Ok tt)
    end.

(** [Publisher.Stop], with the subscription the goroutine drops on its way out. *)
Definition Publisher_Stop (s : Service) (x : started) : Service * started :=
  (match pb_sub x with Some id => unsubscribeAll id s | None => s end,
   mkStarted (Publisher.Stop (pb x)) false None).

(** ** Properties *)

(** Starting the publisher either takes the subscription or leaves no trace.
    It fails exactly when the client cannot be created or a live connection
    reports the stream missing, and then the bus is as before and the connection
    closed; otherwise (an unreachable server included) the bus has one more
    global subscriber, so that everything handed over from then on waits for it,
    and the stream counts as verified only when it was found. *)
Theorem Publisher_Start_subscribes (c : client) (s : Service) (p : Publisher) :
  streamVerified p = false ->
  let '(s', x, r) := Publisher_Start c s p in
  (r = Ok tt <-> cl_connect c = true /\ cl_jetstream c = true /\
                 ~ (cl_connected c = true /\ cl_lookup c = NotFound)) /\
  match r with
  | Ok _ =>
      s' = (SubscribeAll s).1 /\ pb_sub x = Some (next s) /\ globalSubs s' = globalSubs s ++ [next s] /\
      subs s' !! next s = Some newSubscriber /\ pb_conn x = true /\
      (streamVerified (pb x) = true <-> cl_connected c = true /\ cl_lookup c = Found)
  | Err _ => s' = s /\ pb_conn x = false /\ pb_sub x = None /\ streamVerified (pb x) = false
  end.
Proof.
  intros Hv. unfold Publisher_Start, verifyStreamIfConnected.
  destruct c as [[] [] [] []]; simpl; rewrite ?lookup_insert_eq; split_and!; try done; try (by split; [|intros (?&?&?)]);
    intuition (try congruence).
Qed.

(** The client keeps trying for ever, buffers nothing, reports a closed
    connection, and logs in exactly when a user is configured. *)
Lemma connectOptions_persist (cfg : NATSConfig) (u p : string) :
  MaxReconnects (-1) ∈ connectOptions cfg /\ RetryOnFailedConnect true ∈ connectOptions cfg /\
  ReconnectBufSize (-1) ∈ connectOptions cfg /\ ClosedHandler ∈ connectOptions cfg /\
  (UserInfo u p ∈ connectOptions cfg <->
     nats_Username cfg <> ""%string /\ u = nats_Username cfg /\ p = nats_Password cfg).
Proof.
  unfold connectOptions. split_and!; [apply elem_of_app; left; by repeat constructor..|].
  rewrite !elem_of_app. repeat case_bool_decide; set_unfold; naive_solver.
Qed.

(** ** Witnesses *)

Lemma Publisher_Start_subscribes_witness :
  (Publisher_Start (mkClient true true false NotFound) NewService (NewPublisher "cdc")).2 = Ok tt /\
  (Publisher_Start (mkClient true true true NotFound) NewService (NewPublisher "cdc")).1.1 = NewService.
Proof.
  pose proof (Publisher_Start_subscribes (mkClient true true false NotFound) NewService (NewPublisher "cdc") eq_refl) as H1.
  pose proof (Publisher_Start_subscribes (mkClient true true true NotFound) NewService (NewPublisher "cdc") eq_refl) as H2.
  destruct (Publisher_Start (mkClient true true false NotFound) _ _) as [[s x] r].
  destruct (Publisher_Start (mkClient true true true NotFound) NewService (NewPublisher "cdc")) as [[s' x'] r'] eqn:E.
  destruct H1 as [[_ H1] _]. split; [apply H1; split; [reflexivity|split; [reflexivity|intros [? _]; discriminate]]|].
  destruct H2 as [_ H2]. vm_compute in E. injection E as <- <- <-. apply H2.
Defined.
