(* ===== verification/Pipeline.v ===== *)
(** * The whole pipeline: server, listener, bus, publisher, slot

    The components put together as a transition system: a server that commits
    transactions and streams them from the slot's confirmed position, the
    listener with its ack gate, the bus, the publisher with everything
    [publish] can come to (an ack of the event in full, cut to its key or
    stripped, giving up on it, the end of the context or the connection), and
    the process that may crash and the connection that may drop at any point.
    The theorem is the guarantee the watcher exists for: what the slot has
    confirmed has been through the broker.

    A listener that is blocked on a full buffer is a step that is not enabled
    until there is room again; the publisher may take and ack meanwhile.  Acks
    only raise [acked], which the gate's other operations do not write, so this
    order of effects is the one the code has. *)

From stdpp Require Import base list strings gmap sorting.
From Stdlib Require Import ZArith Lia Ascii Sorting.Sorted.
From S2P Require Import Prelude GoStrings Json Event AckGate Service Bus PgReader PgParser Lag PgListener Publisher.

Local Open Scope Z_scope.

(** A committed transaction: commit LSN, end LSN and its decoded changes. *)
Record txn := mkTxn { final : Z; end_lsn : Z; changes : list Event }.

(** LSNs are 64-bit, the commit record has a length, and the changes are the ones
    [Parse] returns for publication. *)
Definition wf_txn (t : txn) : Prop :=
  (0 <= final t < end_lsn t /\ end_lsn t < 2 ^ 64) /\ Forall (fun e => IsPublishable (Type_ e) = true) (changes t).

(** What the walsender still has to send in this connection: the rest of the
    open transaction, then whole transactions. *)
Record walsender := mkSender { cur : option (txn * list Event); upcoming : list txn }.

Record world := mkWorld {
  wal : list txn;
  walpos : Z;
  slot : Z;                       (* confirmed_flush_lsn *)
  conn : option walsender;
  li : Listener;
  pubr : Publisher;
  inflight : option Event;        (* taken by the publisher, not finished yet *)
  ended : bool;                   (* the context or the NATS connection is over *)
  done_ : list (Event * fate)     (* what became of each event, for ever *)
}.

(** The events the publisher is through with: delivered, or given up on. *)
Definition settled (w : world) : list Event := map fst (done_ w).

(** A fresh process: a bus with the publisher subscribed, a gated listener. *)
Definition boot (tables : list string) (ddl : bool) : Listener :=
  PublishedObserver (NewListener tables ddl None (SubscribeAll NewService).1).

Definition set_li (l : Listener) (w : world) : world :=
  mkWorld (wal w) (walpos w) (slot w) (conn w) l (pubr w) (inflight w) (ended w) (done_ w).
Definition set_conn (c : option walsender) (w : world) : world :=
  mkWorld (wal w) (walpos w) (slot w) c (li w) (pubr w) (inflight w) (ended w) (done_ w).
Definition set_walpos (p : Z) (w : world) : world :=
  mkWorld (wal w) p (slot w) (conn w) (li w) (pubr w) (inflight w) (ended w) (done_ w).
Definition set_publisher (i : option Event) (over : bool) (w : world) : world :=
  mkWorld (wal w) (walpos w) (slot w) (conn w) (li w) (pubr w) i over (done_ w).

(** A transaction is committed. *)
Definition committed (t : txn) (w : world) : world :=
  mkWorld (wal w ++ [t]) (end_lsn t) (slot w)
    ((fun c => mkSender (cur c) (upcoming c ++ [t])) <$> conn w) (li w) (pubr w) (inflight w) (ended w) (done_ w).

(** [handleKeepalive] and [sendStatus], as far as the gate and the slot go. *)
Definition keepalive (p : Z) (w : world) : world := set_li (set_ack (Idle (ack (li w)) p) (li w)) w.
Definition status (w : world) : world :=
  mkWorld (wal w) (walpos w) (Z.max (slot w) (Flush (ack (li w))).2) (conn w)
    (set_ack (Flush (ack (li w))).1 (li w)) (pubr w) (inflight w) (ended w) (done_ w).

(** The publisher takes the next event off its channel. *)
Definition take_event (ev : Event) (w : world) : world :=
  set_publisher (if shouldPublish (Type_ ev) then Some ev else None) (ended w)
    (set_li (set_service (update_sub dequeue pub (service (li w))) (li w)) w).

(** [publish] has returned: an ack calls the observer, giving up does not, and
    the end of the context or the connection is the end of publishing. *)
Definition finish (p : Publisher) (ev : Event) (f : option fate) (w : world) : world :=
  let next l over fs := mkWorld (wal w) (walpos w) (slot w) (conn w) l p None over (done_ w ++ fs) in
  match f with
  | Some (Delivered m) => next (observe ev (li w)) (ended w) [(ev, Delivered m)]
  | Some (Refused ms ats) => next (li w) (ended w) [(ev, Refused ms ats)]
  | _ => next (li w) true []
  end.

Section Pipeline.
Context (lsn_string : Z -> string) (tables : list string) (ddl : bool) (prefix : string).

(** The process dies and is started again: what the broker stored and the slot
    are outside it. *)
Definition restarted (w : world) : world :=
  mkWorld (wal w) (walpos w) (slot w) None (boot tables ddl) (NewPublisher prefix) None false (done_ w).

(** Every transaction the walsender has not finished sending ends after [p]. *)
Definition unsent_after (p : Z) (c : walsender) : Prop :=
  Forall (fun t => p < end_lsn t) (option_list (fst <$> cur c) ++ upcoming c).

Inductive step : world -> world -> Prop :=
| S_commit w t :
    walpos w <= final t -> wf_txn t -> step w (committed t w)
| S_write w p :                      (* WAL that holds nothing for this slot *)
    walpos w < p -> step w (set_walpos p w)
| S_connect w :
    conn w = None ->
    step w (set_conn (Some (mkSender None (filter (fun t => slot w < end_lsn t) (wal w))))
              (set_li (set_ack (NewSession (ack (li w))) (li w)) w))
| S_disconnect w :
    step w (set_conn None w)
| S_begin w t ts now ev l :
    conn w = Some (mkSender None (t :: ts)) -> Type_ ev = Begin -> Sequence ev = 0 ->
    emit lsn_string now [] (set_parser (set_finalLSN (final t) (parser (li w))) (li w)) ev = Returned (l, []) ->
    step w (set_conn (Some (mkSender (Some (t, changes t)) ts)) (set_li l w))
| S_change w t ev evs ts now l :
    conn w = Some (mkSender (Some (t, ev :: evs)) ts) ->
    emit lsn_string now [] (li w) ev = Returned (l, []) ->
    step w (set_conn (Some (mkSender (Some (t, evs)) ts)) (set_li l w))
| S_end w t ts now ev l :
    conn w = Some (mkSender (Some (t, [])) ts) -> Type_ ev = Commit -> Sequence ev = 0 ->
    emit lsn_string now [] (set_parser (set_endLSN (end_lsn t) (parser (li w))) (li w)) ev = Returned (l, []) ->
    step w (set_conn (Some (mkSender None ts)) (set_li l w))
| S_keepalive w c p :
    conn w = Some c -> p <= walpos w -> unsent_after p c -> step w (keepalive p w)
| S_status w c :
    conn w = Some c -> step w (status w)
| S_take w u ev evs :
    inflight w = None -> subs (service (li w)) !! pub = Some u -> ch u = ev :: evs ->
    step w (take_event ev w)
| S_publish w ev fresh ats p rest r :
    inflight w = Some ev -> ended w = false -> publish fresh ev ats (pubr w) = Some (p, rest, r) ->
    step w (finish p ev (fate_of (pubr w) p ats r) w)
| S_cancel w :
    step w (set_publisher (inflight w) true w)
| S_skip w ev :                      (* [publish] fails at once when the context is over *)
    inflight w = Some ev -> ended w = true -> step w (set_publisher None true w)
| S_other w ev now s ok :
    Sequence ev = 0 -> HandleEvent now [] (service (li w)) ev = Returned (s, [], ok) ->
    step w (set_li (set_service s (li w)) w)
| S_crash w :
    step w (restarted w).

(** The world before anything happened, and the worlds reachable in [n] steps
    from a new slot at position [p] of an empty history. *)
Definition initial (p : Z) : world :=
  mkWorld [] p p None (boot tables ddl) (NewPublisher prefix) None false [].

Inductive reachable (p : Z) : nat -> world -> Prop :=
| R_init : reachable p 0 (initial p)
| R_step n w w' : reachable p n w -> step w w' -> reachable p (S n) w'.

(** ** The guarantee *)

Definition change_id (t : txn) (i : nat) : string :=
  "pg:" +:+ lsn_string (final t) +:+ ":" +:+ itoa (Z.of_nat i).

(** [e] is change [i] of [t] as published: numbered, with its identity. *)
Definition copy_of (t : txn) (i : nat) (ev e : Event) : Prop :=
  exists n, e = set_sequence n (set_source_id (change_id t i) ev).

(** Every acceptable change of [t] has a copy in [l]. *)
Definition covered (l : list Event) (t : txn) : Prop :=
  forall i ev, changes t !! i = Some ev -> acceptable ev = true -> exists e, e ∈ l /\ copy_of t i ev e.

Definition safe (ts : list txn) (l : list Event) (p : Z) : Prop :=
  forall t, t ∈ ts -> end_lsn t <= p -> covered l t.


(** ** The invariant *)

Definition numbered (e : Event) : Prop := Sequence e <> 0.
#[local] Instance numbered_dec e : Decision (numbered e).
Proof. unfold numbered. apply _. Defined.

(** The numbered events in hand-off order. *)
Definition hist (u : subscriber) : list Event := filter numbered (taken u ++ ch u).

Definition session_ok (w : world) (h : list Event) (c : walsender) : Prop :=
  exists pre, wal w = pre ++ option_list (fst <$> cur c) ++ upcoming c /\
    Forall (covered (settled w ++ h)) pre /\
    match cur c with
    | None => True
    | Some (t, evs) =>
        exists sentc, changes t = sentc ++ evs /\ txnIndex (li w) = Z.of_nat (length sentc) /\
          txnFinalLSN (parser (li w)) = final t /\
          forall i ev, sentc !! i = Some ev -> acceptable ev = true ->
            exists e, e ∈ settled w ++ h /\ copy_of t i ev e
    end.

(** [e] is a change of a committed transaction. *)
Definition genuine (ts : list txn) (e : Event) : Prop :=
  exists t i ev, t ∈ ts /\ changes t !! i = Some ev /\ copy_of t i ev e.

(** Transactions are committed one after the other. *)
Definition lt_end (a b : txn) : Prop := end_lsn a <= final b /\ final b < end_lsn b.

Record inv (n : nat) (w : world) (u : subscriber) (s : Spec.spec) : Prop := mkInv {
  i_bus : bus (service (li w)) u;
  i_sorted : StronglySorted lt_end (wal w);
  i_walpos : Forall (fun t => end_lsn t <= walpos w /\ wf_txn t) (wal w);
  i_sim : sim (ack (li w)) s;
  i_gated : Spec.s_gated s = true;
  i_seq : forall i e, hist u !! i = Some e -> Sequence e = Z.of_nat i + 1;
  i_len : Spec.s_handed s = Z.of_nat (length (hist u));
  i_bound : Spec.s_handed s <= Z.of_nat n;
  i_pubs : Forall (fun e => numbered e -> IsPublishable (Type_ e) = true) (taken u ++ ch u);
  i_taken : exists tk, taken u = tk ++ option_list (inflight w) /\
              Spec.s_acked s <= Z.of_nat (length (filter numbered tk)) /\
              (ended w = false -> forall e, e ∈ tk -> numbered e -> e ∈ settled w);
  i_acked : 0 <= Spec.s_acked s <= Spec.s_handed s /\ forall e, e ∈ take (Z.to_nat (Spec.s_acked s)) (hist u) -> e ∈ settled w;
  i_commits : Forall (fun c => 0 <= lastSequence c /\ end_ c <= walpos w /\
                safe (wal w) (settled w ++ take (Z.to_nat (lastSequence c)) (hist u)) (end_ c)) (Spec.s_commits s);
  i_idle : Spec.s_idle s <= walpos w /\ safe (wal w) (settled w) (Spec.s_idle s);
  i_slot : slot w <= walpos w /\ safe (wal w) (settled w) (slot w);
  i_index : 0 <= txnIndex (li w) <= Z.of_nat n;
  i_conn : forall c, conn w = Some c -> session_ok w (hist u) c;
  i_inTxn : forall c, conn w = Some c -> cur c = None -> Spec.s_inTxn s = false;
  i_genuine : Forall (genuine (wal w)) (filter numbered (settled w) ++ hist u);
  i_prefix : subjectPrefix (pubr w) = prefix;
  i_fates : Forall (fun x => SourceID x.1 <> ""%string -> fate_ok prefix x.1 x.2) (done_ w)
}.

(** *** Monotonicity *)

Lemma covered_mono l l' t : (forall e, e ∈ l -> e ∈ l') -> covered l t -> covered l' t.
Proof. intros Hl H i ev Hi Ha. destruct (H i ev Hi Ha) as (e & He & Hc). eauto. Qed.

Lemma safe_mono ts l l' p : (forall e, e ∈ l -> e ∈ l') -> safe ts l p -> safe ts l' p.
Proof. intros Hl H t Ht Hp. eapply covered_mono; [done|]. by apply H. Qed.

Lemma safe_max ts l p q : safe ts l p -> safe ts l q -> safe ts l (Z.max p q).
Proof. intros Hp Hq t Ht He. destruct (Z.max_spec p q) as [[? E]|[? E]]; rewrite E in He; auto. Qed.

(** A transaction committed after [p] does not matter for it. *)
Lemma safe_snoc ts l p t : p < end_lsn t -> safe ts l p -> safe (ts ++ [t]) l p.
Proof.
  intros Hp H t' [Ht|Ht]%elem_of_app He; [by apply H|].
  apply list_elem_of_singleton in Ht as ->. lia.
Qed.

(** The confirmed position of the gate is safe once acked events are settled. *)
Lemma safe_upto ts st h a cs base :
  (forall e, e ∈ take (Z.to_nat a) h -> e ∈ st) -> safe ts st base ->
  Forall (fun c => safe ts (st ++ take (Z.to_nat (lastSequence c)) h) (end_ c)) cs ->
  safe ts st (Spec.upto a cs base).
Proof.
  intros Ha Hb. induction 1 as [|c cs Hc _ IH]; simpl; [done|].
  destruct (Z.leb_spec (lastSequence c) a); [|done]. apply safe_max; [|done].
  eapply safe_mono; [|exact Hc]. intros e [He|He]%elem_of_app; [done|]. apply Ha.
  eapply take_weaken; [|exact He]. lia.
Qed.

(** *** Appending to the bus *)

Lemma hist_other ev u : Sequence ev = 0 -> hist (enqueue ev u) = hist u.
Proof.
  intros E. unfold hist. simpl. rewrite app_assoc, filter_app, (filter_cons_False numbered).
  - by rewrite filter_nil, app_nil_r.
  - unfold numbered. lia.
Qed.

Lemma hist_numbered ev u : numbered ev -> hist (enqueue ev u) = hist u ++ [ev].
Proof.
  intros E. unfold hist. simpl. by rewrite app_assoc, filter_app, filter_cons_True, filter_nil.
Qed.

(** The subscriber after an event that carries no number, taken or refused. *)
Definition quietly (u u' : subscriber) : Prop :=
  u' = u \/ exists ev, Sequence ev = 0 /\ u' = enqueue ev u.

Lemma quietly_hist u u' : quietly u u' -> hist u' = hist u /\ taken u' = taken u.
Proof. intros [->|(ev & E & ->)]; [done|]. split; [by apply hist_other|done]. Qed.

Lemma quietly_pubs (u u' : subscriber) :
  quietly u u' -> Forall (fun e => numbered e -> IsPublishable (Type_ e) = true) (taken u ++ ch u) ->
  Forall (fun e => numbered e -> IsPublishable (Type_ e) = true) (taken u' ++ ch u').
Proof.
  intros [->|(ev & E & ->)] H; [done|]. simpl. rewrite app_assoc. apply Forall_app. split; [done|].
  constructor; [|done]. unfold numbered. lia.
Qed.

(** The steps that number nothing and store nothing: the listener, the gate and
    the connection change, the hand-off history does not. *)
Lemma inv_frame n w u s l' u' s' c' :
  inv n w u s -> bus (service l') u' -> quietly u u' -> sim (ack l') s' ->
  Spec.s_gated s' = true -> Spec.s_handed s' = Spec.s_handed s -> Spec.s_acked s' = Spec.s_acked s ->
  Forall (fun c => 0 <= lastSequence c /\ end_ c <= walpos w /\
    safe (wal w) (settled w ++ take (Z.to_nat (lastSequence c)) (hist u)) (end_ c)) (Spec.s_commits s') ->
  (Spec.s_idle s' <= walpos w /\ safe (wal w) (settled w) (Spec.s_idle s')) ->
  0 <= txnIndex l' <= Z.of_nat n ->
  (forall c, c' = Some c -> session_ok (set_conn c' (set_li l' w)) (hist u) c) ->
  (forall c, c' = Some c -> cur c = None -> Spec.s_inTxn s' = false) ->
  inv (S n) (set_conn c' (set_li l' w)) u' s'.
Proof.
  intros [] Hbus Hq Hsim Hg Hh Ha Hc Hi Hx Hs Hin.
  pose proof (quietly_pubs u u' Hq i_pubs0) as Hp.
  destruct (quietly_hist u u' Hq) as [Eh Et].
  constructor; simpl; rewrite ?Eh, ?Hh, ?Ha; try done; [lia|by rewrite Et|lia].
Qed.

(** *** What [emit] does on this bus *)

Lemma handle_bus now l u ev l' acts ok :
  bus (service l) u -> handle now [] l ev = Returned (l', acts, ok) ->
  acts = [] /\ ok = acceptable ev /\ exists s', l' = set_service s' l /\ bus s' (if ok then enqueue ev u else u).
Proof.
  intros Hb H. unfold handle in H.
  destruct (HandleEvent now [] (service l) ev) as [[[s' a] ok']| |] eqn:E; simpl in H; simplify_eq.
  apply (bus_handle _ _ u) in E as (-> & -> & Hb'); [|done]. eauto 10.
Qed.

Lemma emit_begin now l u ev l' :
  bus (service l) u -> Type_ ev = Begin -> Sequence ev = 0 ->
  emit lsn_string now [] l ev = Returned (l', []) ->
  exists s' u', bus s' u' /\ quietly u u' /\
    l' = set_service s' (set_ack (gate_Begin (ack l)) (set_txnIndex 0 l)).
Proof.
  intros Hb Ht Hs H. unfold emit in H. rewrite Ht in H.
  destruct (handle _ _ _ _) as [[[l1 a] ok]| |] eqn:E; simpl in H; simplify_eq.
  apply (handle_bus _ _ u) in E as (_ & _ & s' & -> & Hb'); [|done].
  eexists s', _. split_and!; [exact Hb'| |done]. destruct ok; [|by left]. right. eauto.
Qed.

Lemma emit_commit now l u ev l' :
  bus (service l) u -> Type_ ev = Commit -> Sequence ev = 0 ->
  emit lsn_string now [] l ev = Returned (l', []) ->
  exists s' u', bus s' u' /\ quietly u u' /\
    l' = set_service s' (set_ack (Committed (ack l) (txnEndLSN (parser l))) l).
Proof.
  intros Hb Ht Hs H. unfold emit in H. rewrite Ht in H.
  destruct (handle _ _ _ _) as [[[l1 a] ok]| |] eqn:E; simpl in H; simplify_eq.
  apply (handle_bus _ _ u) in E as (_ & _ & s' & -> & Hb'); [|done].
  eexists s', _. split_and!; [exact Hb'| |done]. destruct ok; [|by left]. right. eauto.
Qed.

(** A change: the gate steps like [GChange], and an accepted one is appended
    with its number and identity. *)
Lemma emit_change now l u ev l' :
  bus (service l) u -> IsPublishable (Type_ ev) = true ->
  emit lsn_string now [] l ev = Returned (l', []) ->
  let e := set_sequence (u64 (handed (ack l) + 1)) (set_source_id (source_id lsn_string l) ev) in
  exists s', bus s' (if acceptable ev then enqueue e u else u) /\
    service l' = s' /\ ack l' = gate_step (ack l) (GChange ev (acceptable ev)) /\
    txnIndex l' = i64 (txnIndex l + 1) /\ parser l' = parser l.
Proof.
  intros Hb Ht H e. unfold emit in H.
  assert (Hacc : acceptable e = acceptable ev) by done.
  destruct (Type_ ev) eqn:Et; try discriminate Ht; simpl in H;
    (destruct (handle _ _ _ _) as [[[l1 a] ok]| |] eqn:E; simpl in H; simplify_eq;
     apply (handle_bus _ _ u) in E as (_ & Eok & s' & -> & Hb'); [|done];
     exists s'; rewrite <- Hacc; unfold e; rewrite <- Eok in *;
     destruct ok; (split_and!; [exact Hb'|done..])).
Qed.

(** *** The steps preserve the invariant *)

Lemma inv_spec_run n w u s o :
  inv n w u s -> Z.of_nat n < 2 ^ 63 -> sim (gate_step (ack (li w)) o) (Spec.step s o).
Proof. intros H Hn. destruct H. apply sim_step; [done|]. rewrite i_len0 in *. lia. Qed.

Lemma Forall_covered_mono l l' ts :
  (forall e, e ∈ l -> e ∈ l') -> Forall (covered l) ts -> Forall (covered l') ts.
Proof. intros Hl H. eapply Forall_impl; [exact H|]. intros t. by apply covered_mono. Qed.

(** The transactions up to a position are a prefix of the sorted history. *)
Lemma filter_suffix ts p :
  StronglySorted lt_end ts ->
  exists pre, ts = pre ++ filter (fun t => p < end_lsn t) ts /\ Forall (fun t => end_lsn t <= p) pre.
Proof.
  induction 1 as [|t ts Hs (pre & IH & Hp) Ht]; [by exists []|].
  destruct (Z.lt_ge_cases p (end_lsn t)) as [Hlt|Hge].
  - exists []. split; [|done]. simpl. rewrite filter_cons_True by done. f_equal.
    symmetry. apply filter_all. eapply Forall_impl; [exact Ht|]. unfold lt_end. simpl. lia.
  - exists (t :: pre). rewrite filter_cons_False by lia. split; [simpl; by rewrite <- IH|]. by constructor.
Qed.

Lemma inv_commit n w u s t :
  inv n w u s -> walpos w <= final t -> wf_txn t -> inv (S n) (committed t w) u s.
Proof.
  intros [] Ht Hwf. pose proof Hwf as [Hlt _]. constructor; simpl; try done; try lia.
  - apply StronglySorted_snoc; [done|]. eapply Forall_impl; [exact i_walpos0|].
    unfold lt_end. simpl. lia.
  - apply Forall_app. split; [|constructor; [by split|done]].
    eapply Forall_impl; [exact i_walpos0|]. simpl. intros x [? ?]. split; [lia|done].
  - eapply Forall_impl; [exact i_commits0|]. simpl. intros c (? & ? & ?).
    split_and!; [done|lia|]. apply safe_snoc; [lia|done].
  - destruct i_idle0. split; [lia|]. apply safe_snoc; [lia|done].
  - destruct i_slot0. split; [lia|]. apply safe_snoc; [lia|done].
  - intros c Hc. destruct (conn w) as [c0|] eqn:Ec; simplify_eq/=.
    destruct (i_conn0 c0 eq_refl) as (pre & E & Hp & Hcur). exists pre. simpl.
    split_and!; [by rewrite E, <- !app_assoc|done|done].
  - intros c Hc. destruct (conn w) as [c0|] eqn:Ec; simplify_eq/=. by apply i_inTxn0.
  - eapply Forall_impl; [exact i_genuine0|]. intros e (x & i & ev & Hx & ?).
    exists x, i, ev. split; [apply elem_of_app; by left|done].
Qed.

Lemma inv_write n w u s p : inv n w u s -> walpos w < p -> inv (S n) (set_walpos p w) u s.
Proof.
  intros [] Hp. constructor; simpl; try done; try lia.
  - eapply Forall_impl; [exact i_walpos0|]. simpl. intros x [? ?]. split; [lia|done].
  - eapply Forall_impl; [exact i_commits0|]. simpl. intros c (? & ? & ?). split_and!; [done|lia|done].
  - destruct i_idle0. split; [lia|done].
  - destruct i_slot0. split; [lia|done].
Qed.

Lemma inv_connect n w u s :
  inv n w u s -> Z.of_nat n < 2 ^ 63 ->
  inv (S n) (set_conn (Some (mkSender None (filter (fun t => slot w < end_lsn t) (wal w))))
              (set_li (set_ack (NewSession (ack (li w))) (li w)) w)) u (Spec.step s GNewSession).
Proof.
  intros H Hn. pose proof (inv_spec_run n w u s GNewSession H Hn) as Hsim. pose proof H as [].
  eapply inv_frame; try done; [by left|].
  intros c [= <-]. destruct (filter_suffix (wal w) (slot w) i_sorted0) as (pre & E & Hp).
  exists pre. simpl. split_and!; [done| |done].
  apply Forall_forall. intros t Ht. apply covered_mono with (settled w).
  { intros e He. apply elem_of_app. by left. }
  rewrite Forall_forall in Hp. apply i_slot0; [|by apply Hp]. rewrite E. apply elem_of_app. by left.
Qed.

Lemma inv_disconnect n w u s : inv n w u s -> inv (S n) (set_conn None w) u s.
Proof.
  intros H. pose proof H as [].
  replace (set_conn None w) with (set_conn None (set_li (li w) w)) by (by destruct w).
  eapply inv_frame; try done. by left.
Qed.

Lemma inv_begin n w u s t ts now ev l :
  inv n w u s -> Z.of_nat n < 2 ^ 63 ->
  conn w = Some (mkSender None (t :: ts)) -> Type_ ev = Begin -> Sequence ev = 0 ->
  emit lsn_string now [] (set_parser (set_finalLSN (final t) (parser (li w))) (li w)) ev = Returned (l, []) ->
  exists u', inv (S n) (set_conn (Some (mkSender (Some (t, changes t)) ts)) (set_li l w)) u' (Spec.step s GBegin).
Proof.
  intros H Hn Hc Ht Hs He. pose proof (inv_spec_run n w u s GBegin H Hn) as Hsim. pose proof H as [].
  apply (emit_begin _ _ u) in He as (sv & u' & Hb & Hq & ->); [|done..].
  exists u'. eapply inv_frame; try done; [simpl; lia| |by intros c [= <-]].
  intros c [= <-]. destruct (i_conn0 _ Hc) as (pre & E & Hp & _). exists pre. simpl in *.
  split_and!; [done|done|]. exists []. by split_and!.
Qed.

(** The change the walsender is about to send is the next one of its
    transaction. *)
Lemma current_change w h t ev evs ts :
  session_ok w h (mkSender (Some (t, ev :: evs)) ts) ->
  t ∈ wal w /\ 0 <= txnIndex (li w) /\ txnFinalLSN (parser (li w)) = final t /\
  changes t !! Z.to_nat (txnIndex (li w)) = Some ev.
Proof.
  intros (pre & E & _ & sentc & Ech & Hidx & Hfin & _). simpl in *. split_and!; [|lia|done|].
  - rewrite E. apply elem_of_app. right. left.
  - rewrite Ech, Hidx, Nat2Z.id. by apply list_lookup_middle.
Qed.

(** Sending it, with its copy among the [new] events when the bus took it. *)
Lemma session_sent w w' h new t ev evs ts :
  session_ok w h (mkSender (Some (t, ev :: evs)) ts) ->
  wal w' = wal w -> settled w' = settled w -> parser (li w') = parser (li w) ->
  txnIndex (li w') = txnIndex (li w) + 1 ->
  (acceptable ev = true -> exists e, e ∈ new /\ copy_of t (Z.to_nat (txnIndex (li w))) ev e) ->
  session_ok w' (h ++ new) (mkSender (Some (t, evs)) ts).
Proof.
  intros (pre & E & Hp & sentc & Ech & Hidx & Hfin & Hsent) Hw Hst Hpar Hti Hnew. simpl in *.
  assert (Hgrow : forall x, x ∈ settled w ++ h -> x ∈ settled w ++ h ++ new).
  { intros x. rewrite !elem_of_app. tauto. }
  exists pre. rewrite Hw, Hst, Hpar, Hti. simpl. split_and!; [done| |].
  { eapply Forall_covered_mono; [exact Hgrow|exact Hp]. }
  exists (sentc ++ [ev]). rewrite length_app, <- app_assoc. simpl. split_and!; [done|lia|done|].
  intros i x [Hi|[Hle Hi]]%lookup_app_Some Hacc.
  - destruct (Hsent i x Hi Hacc) as (y & Hy & ?). exists y. split; [by apply Hgrow|done].
  - apply list_lookup_singleton_Some in Hi as [Hi <-]. destruct (Hnew Hacc) as (e & He & Hc).
    exists e. split; [rewrite !elem_of_app; by right; right|].
    by replace i with (Z.to_nat (txnIndex (li w))) by lia.
Qed.

(** The steps that number events: the history grows by [new], the gate counts
    what was added. *)
Lemma inv_grow n w u s l' u' s' c' new :
  inv n w u s -> bus (service l') u' -> sim (ack l') s' ->
  taken u' = taken u -> ch u' = ch u ++ new ->
  Forall (fun e => numbered e /\ IsPublishable (Type_ e) = true /\ genuine (wal w) e) new ->
  (forall i e, new !! i = Some e -> Sequence e = Z.of_nat (length (hist u) + i) + 1) ->
  Spec.s_gated s' = true -> Spec.s_handed s' = Spec.s_handed s + Z.of_nat (length new) ->
  Spec.s_handed s' <= Z.of_nat (S n) ->
  Spec.s_acked s' = Spec.s_acked s -> Spec.s_commits s' = Spec.s_commits s -> Spec.s_idle s' = Spec.s_idle s ->
  0 <= txnIndex l' <= Z.of_nat (S n) ->
  (forall c, c' = Some c -> session_ok (set_conn c' (set_li l' w)) (hist u ++ new) c) ->
  (forall c, c' = Some c -> cur c <> None) ->
  inv (S n) (set_conn c' (set_li l' w)) u' s'.
Proof.
  intros [] Hbus Hsim Htk Hch Hnew Hseq Hg Hh Hb Ha Hc Hi Hx Hs Hin.
  assert (Eh : hist u' = hist u ++ new).
  { unfold hist. rewrite Htk, Hch, app_assoc, filter_app. f_equal. apply filter_all.
    eapply Forall_impl; [exact Hnew|]. by intros ? (? & _). }
  constructor; simpl; rewrite ?Eh, ?Ha, ?Hc, ?Hi; try done.
  - intros i e [?|[Hle Hi']]%lookup_app_Some; [by apply i_seq0|]. rewrite (Hseq _ _ Hi'). lia.
  - rewrite length_app. lia.
  - rewrite Htk, Hch, app_assoc. apply Forall_app. split; [done|].
    eapply Forall_impl; [exact Hnew|]. by intros ? (_ & ? & _).
  - by rewrite Htk.
  - destruct i_acked0 as [Hr Hst]. split; [lia|]. intros e He. apply Hst.
    by rewrite take_app_le in He by lia.
  - eapply Forall_impl; [exact i_commits0|]. intros c (? & ? & Hsafe). split_and!; [done..|].
    eapply safe_mono; [|exact Hsafe]. intros e. rewrite take_app, !elem_of_app. tauto.
  - intros c Hc' Hn. by destruct (Hin c Hc').
  - rewrite app_assoc. apply Forall_app. split; [done|].
    eapply Forall_impl; [exact Hnew|]. by intros ? (_ & _ & ?).
Qed.

Lemma inv_change n w u s t ev evs ts now l :
  inv n w u s -> Z.of_nat n < 2 ^ 63 - 1 ->
  conn w = Some (mkSender (Some (t, ev :: evs)) ts) ->
  emit lsn_string now [] (li w) ev = Returned (l, []) ->
  exists u' s', inv (S n) (set_conn (Some (mkSender (Some (t, evs)) ts)) (set_li l w)) u' s'.
Proof.
  intros H Hn Hc He.
  pose proof (inv_spec_run n w u s (GChange ev (acceptable ev)) H ltac:(lia)) as Hsim.
  pose proof H as []. pose proof (i_conn0 _ Hc) as Hsess.
  destruct (current_change _ _ _ _ _ _ Hsess) as (Ht & Hidx & Hfin & Hev).
  assert (Hpub : IsPublishable (Type_ ev) = true).
  { rewrite Forall_forall in i_walpos0. destruct (i_walpos0 t Ht) as [_ Hw].
    destruct Hw as [_ Hw]. rewrite Forall_forall in Hw. apply Hw. by eapply list_elem_of_lookup_2. }
  apply (emit_change _ _ u) in He as (sv & Hb & Hsv & Hack & Hti & Hpar); [|done..].
  rewrite i64_small in Hti by lia. set (e := set_sequence _ _) in Hb.
  assert (Hseq : Sequence e = Z.of_nat (length (hist u)) + 1).
  { unfold e. simpl. rewrite (sim_handed _ _ i_sim0), i_len0. apply u64_small. lia. }
  assert (Hcopy : copy_of t (Z.to_nat (txnIndex (li w))) ev e).
  { exists (Sequence e). unfold e, source_id, change_id, TransactionLSN. simpl.
    by rewrite Hfin, Z2Nat.id. }
  exists (if acceptable ev then enqueue e u else u), (Spec.step s (GChange ev (acceptable ev))).
  apply (inv_grow n w u s) with (new := if acceptable ev then [e] else []); try done.
  - by rewrite Hsv.
  - by rewrite Hack.
  - by destruct (acceptable ev).
  - destruct (acceptable ev); [done|by rewrite app_nil_r].
  - destruct (acceptable ev); [|done]. constructor; [|done]. unfold numbered.
    split_and!; [lia|done|]. exists t, (Z.to_nat (txnIndex (li w))), ev. by split_and!.
  - intros i x Hx. destruct (acceptable ev); [|done].
    apply list_lookup_singleton_Some in Hx as [-> <-]. lia.
  - simpl. destruct (acceptable ev); simpl; lia.
  - simpl. destruct (acceptable ev); simpl; lia.
  - lia.
  - intros c [= <-]. eapply session_sent; [exact Hsess|done..|]. intros ->. exists e. split; [left|done].
  - by intros c [= <-].
Qed.

Lemma sorted_app_lt (pre : list txn) t ts :
  StronglySorted lt_end (pre ++ t :: ts) -> Forall (fun x => end_lsn t < end_lsn x) ts.
Proof.
  intros H. apply StronglySorted_app in H as (_ & _ & H). apply StronglySorted_inv in H as [_ H].
  eapply Forall_impl; [exact H|]. unfold lt_end. simpl. lia.
Qed.

Lemma inv_end n w u s t ts now ev l :
  inv n w u s -> Z.of_nat n < 2 ^ 63 ->
  conn w = Some (mkSender (Some (t, [])) ts) -> Type_ ev = Commit -> Sequence ev = 0 ->
  emit lsn_string now [] (set_parser (set_endLSN (end_lsn t) (parser (li w))) (li w)) ev = Returned (l, []) ->
  exists u', inv (S n) (set_conn (Some (mkSender None ts)) (set_li l w)) u' (Spec.step s (GCommitted (end_lsn t))).
Proof.
  intros H Hn Hc Ht Hs He. pose proof (inv_spec_run n w u s (GCommitted (end_lsn t)) H Hn) as Hsim.
  pose proof H as []. apply (emit_commit _ _ u) in He as (sv & u' & Hb & Hq & ->); [|done..].
  destruct (i_conn0 _ Hc) as (pre & E & Hp & sentc & Ech & Hidx & Hfin & Hsent). simpl in E.
  rewrite app_nil_r in Ech. subst sentc.
  assert (Hpt : Forall (covered (settled w ++ hist u)) (pre ++ [t])).
  { apply Forall_app. split; [done|]. constructor; [|done]. exact Hsent. }
  exists u'. eapply inv_frame; try done.
  - simpl. apply Forall_app. split; [done|]. constructor; [|done]. simpl. split_and!; [lia| |].
    + rewrite Forall_forall in i_walpos0. apply (i_walpos0 t). rewrite E. apply elem_of_app. right. left.
    + rewrite take_ge by lia. intros x Hx Hle. rewrite E in Hx.
      change (pre ++ t :: ts) with (pre ++ [t] ++ ts) in Hx. rewrite app_assoc in Hx.
      apply elem_of_app in Hx as [Hx|Hx].
      * rewrite Forall_forall in Hpt. by apply Hpt.
      * rewrite E in i_sorted0. apply sorted_app_lt in i_sorted0.
        rewrite Forall_forall in i_sorted0. specialize (i_sorted0 x Hx). lia.
  - intros c [= <-]. exists (pre ++ [t]). simpl. split_and!; [by rewrite E, <- app_assoc|done|done].
Qed.

Lemma inv_keepalive n w u s c p :
  inv n w u s -> Z.of_nat n < 2 ^ 63 -> conn w = Some c -> p <= walpos w -> unsent_after p c ->
  inv (S n) (keepalive p w) u (Spec.step s (GIdle p)).
Proof.
  unfold keepalive. intros H Hn Hc Hp Hun. pose proof (inv_spec_run n w u s (GIdle p) H Hn) as Hsim. pose proof H as [].
  set (l' := set_ack _ _).
  replace (set_li l' w) with (set_conn (conn w) (set_li l' w)) by (by destruct w).
  eapply inv_frame; try done; [by left|].
  - simpl. destruct (Spec.quiet s) eqn:Eq; [|done]. destruct i_idle0 as [Hi Hsi]. split; [lia|].
    apply safe_max; [done|].
    assert (Hall : forall e, e ∈ settled w ++ hist u -> e ∈ settled w).
    { intros e [He|He]%elem_of_app; [done|]. apply i_acked0. rewrite take_ge; [done|].
      unfold Spec.quiet, Spec.level in Eq. rewrite i_gated0 in Eq. lia. }
    intros t Ht Hle. eapply covered_mono; [exact Hall|].
    destruct (i_conn0 _ Hc) as (pre & E & Hpre & _). rewrite Forall_forall in Hpre. apply Hpre.
    rewrite E in Ht. apply elem_of_app in Ht as [Ht|Ht]; [done|].
    unfold unsent_after in Hun. rewrite Forall_forall in Hun. specialize (Hun t Ht). lia.
Qed.

Lemma inv_status n w u s :
  inv n w u s -> Z.of_nat n < 2 ^ 63 ->
  inv (S n) (status w) u s.
Proof.
  unfold status. intros H Hn. destruct (sim_settle _ _ (i_sim _ _ _ _ H)) as (Hsim & _ & Hconf). destruct H.
  assert (Hflush : Spec.confirm s <= walpos w /\ safe (wal w) (settled w) (Spec.confirm s)).
  { unfold Spec.confirm, Spec.level. rewrite i_gated0. split.
    - destruct i_idle0 as [Hi _]. revert Hi. generalize (Spec.s_idle s). intros b Hi.
      induction i_commits0 as [|c cs (_ & ? & _) _ IH]; simpl; [done|]. destruct (_ <=? _); lia.
    - apply safe_upto with (hist u); [apply i_acked0|apply i_idle0|].
      eapply Forall_impl; [exact i_commits0|]. simpl. by intros c (_ & _ & ?). }
  unfold Flush. simpl. rewrite Hconf.
  constructor; simpl; try done; try lia.
  destruct i_slot0, Hflush. split; [lia|]. by apply safe_max.
Qed.

Lemma session_ok_mono w w' h h' c :
  (forall e, e ∈ settled w ++ h -> e ∈ settled w' ++ h') -> wal w' = wal w ->
  txnIndex (li w') = txnIndex (li w) -> parser (li w') = parser (li w) ->
  session_ok w h c -> session_ok w' h' c.
Proof.
  intros Hm Ew Ei Ep (pre & E & Hp & Hcur). exists pre. split_and!; [by rewrite Ew| |].
  - by eapply Forall_covered_mono.
  - destruct (cur c) as [[t evs]|]; [|done]. destruct Hcur as (sc & E1 & E2 & E3 & H).
    exists sc. rewrite Ei, Ep. split_and!; try done. intros i ev Hi Ha.
    destruct (H i ev Hi Ha) as (e & He & ?). eauto.
Qed.

Lemma inv_take n w u s v ev evs :
  inv n w u s -> inflight w = None -> subs (service (li w)) !! pub = Some v -> ch v = ev :: evs ->
  exists u', inv (S n) (take_event ev w) u' s.
Proof.
  intros [] Hin Hv Hch. pose proof i_bus0 as []. rewrite bus_sub in Hv. injection Hv as <-.
  assert (Ehist : hist (dequeue u) = hist u) by (unfold hist; by rewrite dequeue_history).
  exists (dequeue u). constructor; simpl; rewrite ?Ehist; try done; try lia.
  - constructor; simpl; try done; [by rewrite lookup_alter_eq, bus_sub|]. by rewrite dequeue_closed.
  - by rewrite dequeue_history.
  - destruct i_taken0 as (tk & Etk & Hak & Hst). rewrite Hin in Etk. simpl in Etk. rewrite app_nil_r in Etk.
    assert (Edq : taken (dequeue u) = tk ++ [ev]) by (unfold dequeue; rewrite Hch; simpl; by rewrite Etk).
    rewrite Edq. unfold shouldPublish. destruct (IsPublishable (Type_ ev)) eqn:Ep; [by exists tk|].
    assert (Hnum : ~ numbered ev).
    { intros Hne. rewrite Forall_forall in i_pubs0. rewrite i_pubs0 in Ep; [done| |done].
      apply elem_of_app. right. rewrite Hch. left. }
    exists (tk ++ [ev]). simpl. rewrite app_nil_r. split_and!; [done| |].
    { by rewrite filter_app, filter_cons_False, filter_nil, app_nil_r. }
    intros Hend e [He|He]%elem_of_app Hne; [by apply Hst|]. by apply list_elem_of_singleton in He as ->.
Qed.

(** The event in flight is the one after everything the publisher is through
    with. *)
Lemma inflight_next n w u s ev :
  inv n w u s -> inflight w = Some ev -> numbered ev ->
  exists pre, hist u = pre ++ ev :: filter numbered (ch u) /\
    Spec.s_acked s <= Z.of_nat (length pre) /\ Sequence ev = Z.of_nat (length pre) + 1 /\
    (ended w = false -> forall e, e ∈ pre -> e ∈ settled w).
Proof.
  intros [] Hin Hne. destruct i_taken0 as (tk & Etk & Hak & Hst). rewrite Hin in Etk. simpl in Etk.
  assert (Hh : hist u = filter numbered tk ++ ev :: filter numbered (ch u)).
  { unfold hist. rewrite Etk, !filter_app, filter_cons_True by done. by rewrite filter_nil, <- app_assoc. }
  exists (filter numbered tk). split_and!; [done|done| |].
  - apply i_seq0. rewrite Hh. by apply list_lookup_middle.
  - intros Hend e [? ?]%list_elem_of_filter. by apply Hst.
Qed.

(** Its ack moves the gate at most to it, and everything up to it is settled. *)
Lemma acked_settled n w u s ev (s' := Spec.step s (GPublished ev)) :
  inv n w u s -> inflight w = Some ev -> ended w = false ->
  0 <= Spec.s_acked s' <= Spec.s_handed s /\
  Spec.s_acked s' <= Z.of_nat (length (filter numbered (taken u))) /\
  forall e, e ∈ take (Z.to_nat (Spec.s_acked s')) (hist u) -> e ∈ settled w ++ [ev].
Proof.
  intros H Hin Hend. subst s'. pose proof (inflight_next n w u s ev H Hin) as Hnext.
  destruct H. destruct i_acked0 as [Hr Hold], i_taken0 as (tk & Etk & Hak & _). rewrite Hin in Etk. simpl in Etk.
  simpl. unfold numbered in Hnext at 1.
  assert (Htk : length (filter numbered (taken u)) = (length (filter numbered tk) + length (filter numbered [ev]))%nat)
    by (by rewrite Etk, filter_app, length_app).
  destruct (Z.eqb_spec (Sequence ev) 0) as [E0|E0].
  { split_and!; [lia..|]. intros e He. apply elem_of_app. left. by apply Hold. }
  destruct (Hnext E0) as (pre & Hh & Hp & Hs & Hpre).
  assert (Hpre' : filter numbered tk = pre).
  { assert (E : filter numbered tk ++ ev :: filter numbered (ch u) = pre ++ ev :: filter numbered (ch u)).
    { rewrite <- Hh. unfold hist. rewrite Etk, !filter_app, filter_cons_True by done.
      by rewrite filter_nil, <- app_assoc. }
    by apply app_inv_tail in E. }
  assert (Hlen : (length pre < length (hist u))%nat) by (rewrite Hh, length_app; simpl; lia).
  rewrite Z.max_r by lia. split_and!; [lia|lia| |].
  - rewrite Htk, filter_cons_True, filter_nil, Hpre' by done. simpl. lia.
  - intros e. rewrite Hs, Hh. replace (Z.to_nat _) with (length pre + 1)%nat by lia.
    rewrite take_app_add, !elem_of_app. intros [He|He]; [left; by apply Hpre|by right].
Qed.

(** An event is settled: the history of the bus is unchanged, the list of
    settled events grows by one, and an ack moves the gate. *)
Lemma inv_settle n w u s ev f p (b : bool) :
  inv n w u s -> Z.of_nat n < 2 ^ 63 -> inflight w = Some ev -> ended w = false ->
  subjectPrefix p = prefix -> (SourceID ev <> ""%string -> fate_ok prefix ev f) ->
  inv (S n) (mkWorld (wal w) (walpos w) (slot w) (conn w) (if b then observe ev (li w) else li w) p None
              (ended w) (done_ w ++ [(ev, f)])) u (if b then Spec.step s (GPublished ev) else s).
Proof.
  intros H Hn Hin Hend Hpre Hf. pose proof (inv_spec_run n w u s (GPublished ev) H Hn) as Hsim.
  pose proof (inflight_next n w u s ev H Hin) as Hnext.
  destruct (acked_settled n w u s ev H Hin Hend) as (Hr & Ha & Hst'). destruct H.
  set (w' := mkWorld _ _ _ _ _ _ _ _ _). set (s' := if b then _ else _).
  assert (Ew : settled w' = settled w ++ [ev]) by (unfold settled; simpl; by rewrite map_app).
  assert (Hsub : forall l e, e ∈ settled w ++ l -> e ∈ settled w' ++ l).
  { intros l e. rewrite Ew, !elem_of_app. tauto. }
  assert (Hsub' : forall e, e ∈ settled w -> e ∈ settled w') by (intros; rewrite Ew; apply elem_of_app; by left).
  assert (Es : Spec.s_handed s' = Spec.s_handed s /\ Spec.s_gated s' = Spec.s_gated s /\
    Spec.s_commits s' = Spec.s_commits s /\ Spec.s_idle s' = Spec.s_idle s /\ Spec.s_inTxn s' = Spec.s_inTxn s)
    by (unfold s'; by destruct b). destruct Es as (E1 & E2 & E3 & E4 & E5).
  destruct i_taken0 as (tk & Etk & Hak & Hst). rewrite Hin in Etk. simpl in Etk.
  constructor; rewrite ?E1, ?E2, ?E3, ?E4, ?E5; simpl; try done; try lia.
  - by destruct b.
  - unfold s'. by destruct b.
  - exists (taken u). split_and!; [by rewrite app_nil_r| |].
    + unfold s'. destruct b; [done|]. rewrite Etk, filter_app, length_app. lia.
    + intros _ e. rewrite Etk, Ew, !elem_of_app. intros [He|He] Hne; [left; by apply Hst|by right].
  - unfold s'. destruct b; [by rewrite Ew; simpl in *|]. destruct i_acked0 as [? Hold].
    split; [done|]. intros e He. by apply Hsub', Hold.
  - eapply Forall_impl; [exact i_commits0|]. intros c (? & ? & Hc). split_and!; [done..|].
    eapply safe_mono; [|exact Hc]. apply Hsub.
  - destruct i_idle0 as [? Hc]. split; [done|]. by eapply safe_mono; [|exact Hc].
  - destruct i_slot0 as [? Hc]. split; [done|]. by eapply safe_mono; [|exact Hc].
  - destruct b; simpl; lia.
  - intros c Hc. eapply session_ok_mono; [..|by apply i_conn0]; try (by destruct b). apply Hsub.
  - rewrite Ew, filter_app, <- app_assoc, filter_cons, filter_nil. apply Forall_app in i_genuine0 as [Hg1 Hg2].
    apply Forall_app. split; [done|]. apply Forall_app. split; [|done].
    destruct (decide (numbered ev)) as [Hne|]; [|done]. constructor; [|done].
    rewrite Forall_forall in Hg2. apply Hg2. destruct (Hnext Hne) as (? & -> & _).
    apply elem_of_app. right. left.
  - apply Forall_app. split; [done|]. by constructor.
Qed.

(** Publishing is over: nothing is settled, and nothing will be. *)
Lemma inv_over n w u s p (i : option Event) :
  inv n w u s -> i = inflight w \/ i = None -> subjectPrefix p = prefix ->
  inv (S n) (mkWorld (wal w) (walpos w) (slot w) (conn w) (li w) p i true (done_ w)) u s.
Proof.
  intros [] Hi Hp. constructor; simpl; try done; try lia.
  destruct i_taken0 as (tk & Etk & Hak & _). destruct Hi as [->| ->]; [by exists tk|].
  exists (taken u). split_and!; [by rewrite app_nil_r| |done]. rewrite Etk, filter_app, length_app. lia.
Qed.

Lemma inv_publish n w u s ev fresh ats p rest r :
  inv n w u s -> Z.of_nat n < 2 ^ 63 -> inflight w = Some ev -> ended w = false ->
  publish fresh ev ats (pubr w) = Some (p, rest, r) ->
  exists s', inv (S n) (finish p ev (fate_of (pubr w) p ats r) w) u s'.
Proof.
  intros H Hn Hin Hend Hp. apply publish_result in Hp as [Hs Hf].
  pose proof (i_prefix _ _ _ _ H) as Hpre. rewrite Hpre in Hs.
  unfold finish. destruct (fate_of (pubr w) p ats r) as [f|].
  2:{ exists s. rewrite app_nil_r. apply inv_over; auto. }
  destruct Hf as [Hx _]. pose proof (explained_ok prefix fresh (pubr w) ev ats f Hpre Hx) as Hok.
  destruct f as [m|ms at'|].
  - eexists. apply (inv_settle n w u s ev _ p true H Hn Hin Hend Hs). by apply Hok.
  - eexists. apply (inv_settle n w u s ev _ p false H Hn Hin Hend Hs). by apply Hok.
  - exists s. rewrite app_nil_r. apply inv_over; auto.
Qed.

Lemma inv_other n w u s ev now sv ok :
  inv n w u s -> Sequence ev = 0 -> HandleEvent now [] (service (li w)) ev = Returned (sv, [], ok) ->
  exists u', inv (S n) (set_li (set_service sv (li w)) w) u' s.
Proof.
  intros H Hs He. pose proof H as []. apply (bus_handle _ _ u) in He as (_ & _ & Hb); [|done].
  set (l' := set_service sv (li w)).
  replace (set_li l' w) with (set_conn (conn w) (set_li l' w)) by (by destruct w).
  eexists. eapply inv_frame; try done. destruct ok; [right; eauto|by left].
Qed.

Lemma inv_boot n (ts : list txn) pos sl fs :
  StronglySorted lt_end ts -> Forall (fun t => end_lsn t <= pos /\ wf_txn t) ts ->
  sl <= pos /\ safe ts (map fst fs) sl -> Forall (genuine ts) (filter numbered (map fst fs)) ->
  Forall (fun x => SourceID x.1 <> ""%string -> fate_ok prefix x.1 x.2) fs -> 0 <= sl ->
  exists s, inv n (mkWorld ts pos sl None (boot tables ddl) (NewPublisher prefix) None false fs) newSubscriber s.
Proof.
  intros Hs Hp [Hsl Hsafe] Hg Hf H0. exists (Spec.init true).
  constructor; simpl; try done; try lia.
  - apply (sim_init true).
  - exists []. split_and!; [done..|]. intros _ e He. by apply elem_of_nil in He.
  - split; [lia|]. intros e He. by apply elem_of_nil in He.
  - split; [lia|]. intros t Ht Hle. apply Hsafe; [done|lia].
  - by rewrite app_nil_r.
Qed.

Lemma reachable_inv p n w :
  0 <= p -> reachable p n w -> Z.of_nat n < 2 ^ 63 - 1 -> 0 <= slot w /\ exists u s, inv n w u s.
Proof.
  intros Hp0. induction 1 as [|n w w' Hr IH Hstep]; intros Hn.
  { split; [done|]. exists newSubscriber. apply (inv_boot 0 [] p p []); try done; [constructor|].
    split; [lia|]. intros t Ht. by apply elem_of_nil in Ht. }
  destruct IH as (H0 & u & s & H); [lia|]. assert (Hn' : Z.of_nat n < 2 ^ 63 - 1) by lia.
  split. { destruct Hstep; simpl; try lia. unfold finish. by destruct (fate_of _ _ _ _) as [[]|]. }
  destruct Hstep.
  - eexists _, _. by apply inv_commit.
  - eexists _, _. by apply inv_write.
  - eexists _, _. apply inv_connect; [done|lia].
  - eexists _, _. by apply inv_disconnect.
  - edestruct inv_begin as [u' ?]; [exact H|lia|done..|]. eauto.
  - edestruct inv_change as (u' & s' & ?); [exact H|lia|done..|]. eauto.
  - edestruct inv_end as [u' ?]; [exact H|lia|done..|]. eauto.
  - eexists _, _. eapply inv_keepalive; [done|lia|done..].
  - eexists _, _. apply inv_status; [done|lia].
  - edestruct inv_take as [u' ?]; [exact H|done..|]. eauto.
  - exists u. eapply inv_publish; [exact H|lia|done..].
  - exists u, s. apply inv_over; [done|by left|apply H].
  - exists u, s. apply inv_over; [done|by right|apply H].
  - edestruct inv_other as [u' ?]; [exact H|done..|]. eauto.
  - destruct H. exists newSubscriber. apply inv_boot; try done.
    by apply Forall_app in i_genuine0 as [? _].
Qed.

(** ** Identity *)

Lemma final_inj (ts : list txn) t1 t2 :
  StronglySorted lt_end ts -> Forall (fun t => final t < end_lsn t) ts ->
  t1 ∈ ts -> t2 ∈ ts -> final t1 = final t2 -> t1 = t2.
Proof.
  induction 1 as [|t ts Hs IH Ht]; intros Hf H1 H2 E; [by apply elem_of_nil in H1|].
  apply Forall_cons in Hf as [Hft Hf]. rewrite Forall_forall in Ht.
  apply elem_of_cons in H1 as [->|H1], H2 as [->|H2]; [done|..|by apply IH].
  - destruct (Ht _ H2). lia.
  - destruct (Ht _ H1). lia.
Qed.

(** What the message ids rest on: pglogrepl prints 64-bit LSNs injectively and
    without a colon. *)
Definition lsn_printer : Prop :=
  (forall x y, is_u64 x -> is_u64 y -> lsn_string x = lsn_string y -> x = y) /\
  (forall x, no_char ":" (lsn_string x) = true).

Lemma change_id_inj t1 i1 t2 i2 :
  lsn_printer -> wf_txn t1 -> wf_txn t2 ->
  change_id t1 i1 = change_id t2 i2 -> final t1 = final t2 /\ i1 = i2.
Proof.
  intros [Hinj Hno] [? _] [? _] E. unfold is_u64 in *.
  apply source_id_inj in E as [? ?]; [|done|done|unfold is_u64; lia..]. split; [done|]. lia.
Qed.

(** ** Properties *)

(** C1: at least once, as far as the broker takes it. In every reachable state of
    the pipeline, through any interleaving of commits, deliveries, acks,
    refusals, keepalives, status updates, dropped connections, cancelled
    contexts and crashes, every change the bus accepts (valid JSON) of every
    transaction at or before the position the slot has confirmed has met the
    broker, under the identity of that change: the broker acked it, in full, cut
    to its key or stripped of its data, or it was sent in all three forms and
    at least three answers said it is too large.  So the server may forget only
    what was delivered or can never be. *)
Theorem at_least_once (p : Z) (n : nat) (w : world) :
  0 <= p -> reachable p n w -> Z.of_nat n < 2 ^ 63 - 1 ->
  forall t, t ∈ wal w -> end_lsn t <= slot w ->
  forall i ev, changes t !! i = Some ev -> acceptable ev = true ->
  exists e f, (e, f) ∈ done_ w /\ copy_of t i ev e /\ fate_ok prefix e f.
Proof.
  intros Hp Hr Hn t Ht Hle i ev Hi Ha. destruct (reachable_inv p n w Hp Hr Hn) as (_ & u & s & []).
  destruct i_slot0 as [_ Hsafe]. destruct (Hsafe t Ht Hle i ev Hi Ha) as (e & He & Hc).
  apply list_elem_of_fmap in He as ([e' f] & -> & He). exists e', f. split_and!; [done..|].
  rewrite Forall_forall in i_fates0. apply (i_fates0 _ He). simpl in *. destruct Hc as [k ->]. done.
Qed.

(** C5: nothing is made up. Every message the broker acked for a numbered event
    is a change of a transaction the server committed, at its index in it: the
    change in full, cut to its key or stripped of its data, under the message id
    and on the subject of that change. *)
Theorem nothing_invented (p : Z) (n : nat) (w : world) :
  0 <= p -> reachable p n w -> Z.of_nat n < 2 ^ 63 - 1 ->
  forall e m, (e, Delivered m) ∈ done_ w -> Sequence e <> 0 ->
  exists t i ev x, t ∈ wal w /\ changes t !! i = Some ev /\ copy_of t i ev e /\
    x ∈ forms e /\ m = as_message prefix e x.
Proof.
  intros Hp Hr Hn e m He Hne. destruct (reachable_inv p n w Hp Hr Hn) as (_ & u & s & []).
  apply Forall_app in i_genuine0 as [Hg _]. rewrite Forall_forall in Hg. destruct (Hg e) as (t & i & ev & Ht & Hi & Hc).
  { apply list_elem_of_filter. split; [done|]. by apply (list_elem_of_fmap_2 fst _ (e, Delivered m)). }
  rewrite Forall_forall in i_fates0. destruct (i_fates0 _ He) as (x & Hx & Em).
  { simpl. destruct Hc as [k ->]. done. }
  by exists t, i, ev, x.
Qed.

(** C26: the message id identifies the change. Of two messages the broker acked
    for numbered events, whatever crashes and reconnections lie between them,
    the ids are equal exactly when they are for the same change: the same
    transaction and the same index in it.  So a change that is streamed again is
    dropped as a duplicate, and different changes never are. *)
Theorem message_id_identifies (p : Z) (n : nat) (w : world) :
  lsn_printer -> 0 <= p -> reachable p n w -> Z.of_nat n < 2 ^ 63 - 1 ->
  forall e1 m1 e2 m2,
    (e1, Delivered m1) ∈ done_ w -> (e2, Delivered m2) ∈ done_ w -> Sequence e1 <> 0 -> Sequence e2 <> 0 ->
  exists t1 i1 ev1 t2 i2 ev2,
    changes t1 !! i1 = Some ev1 /\ copy_of t1 i1 ev1 e1 /\
    changes t2 !! i2 = Some ev2 /\ copy_of t2 i2 ev2 e2 /\
    (msgID m1 = msgID m2 <-> t1 = t2 /\ i1 = i2).
Proof.
  intros Hpr Hp Hr Hn e1 m1 e2 m2 H1 H2 N1 N2.
  destruct (reachable_inv p n w Hp Hr Hn) as (_ & u & s & []). rewrite Forall_forall in i_fates0. rewrite Forall_forall in i_walpos0.
  assert (Hg : forall e m, (e, Delivered m) ∈ done_ w -> Sequence e <> 0 -> exists t i ev,
    t ∈ wal w /\ changes t !! i = Some ev /\ copy_of t i ev e /\
    msgID m = (prefix +:+ "/" +:+ change_id t i)%string).
  { intros e m He Hne. apply Forall_app in i_genuine0 as [Hg _]. rewrite Forall_forall in Hg.
    destruct (Hg e) as (t & i & ev & Ht & Hi & Hc).
    { apply list_elem_of_filter. split; [done|]. by apply (list_elem_of_fmap_2 fst _ (e, Delivered m)). }
    exists t, i, ev. split_and!; [done..|]. destruct (i_fates0 _ He) as (x & _ & ->); destruct Hc as [k ->]; done. }
  destruct (Hg _ _ H1 N1) as (t1 & i1 & ev1 & T1 & C1 & K1 & ->), (Hg _ _ H2 N2) as (t2 & i2 & ev2 & T2 & C2 & K2 & ->).
  exists t1, i1, ev1, t2, i2, ev2. split_and!; [done..|]. split; [|by intros [-> ->]].
  intros E. do 2 apply str_app_inj_l in E. apply change_id_inj in E as [E ->]; [|done|by apply i_walpos0..]. split; [|done].
  eapply final_inj; [exact i_sorted0| |done..]. apply Forall_forall. intros t Ht. destruct (i_walpos0 t Ht) as (_ & ? & _). lia.
Qed.

(** C3: the slot does not stay behind. When the walsender has sent everything
    and every event handed over is acked, the next keepalive, at the server's
    position, and the status update after it bring the slot to that position,
    also when the WAL went on with nothing for this slot after the last
    transaction; so the server can recycle it. *)
Theorem slot_catches_up (p : Z) (n : nat) (w : world) :
  0 <= p -> reachable p n w -> Z.of_nat n < 2 ^ 63 - 3 ->
  conn w = Some (mkSender None []) -> Pending (ack (li w)) = false ->
  step w (keepalive (walpos w) w) /\
  step (keepalive (walpos w) w) (status (keepalive (walpos w) w)) /\
  slot (status (keepalive (walpos w) w)) = walpos w.
Proof.
  intros Hp Hr Hn Hc Hpend.
  destruct (reachable_inv p n w Hp Hr ltac:(lia)) as (_ & u & s & H). set (w1 := keepalive (walpos w) w).
  split_and!; [eapply S_keepalive; [exact Hc|lia|constructor]|by eapply (S_status w1)|].
  pose proof (inv_keepalive n w u s _ (walpos w) H ltac:(lia) Hc ltac:(lia) ltac:(constructor)) as Hi.
  pose proof (inv_status _ _ _ _ Hi ltac:(lia)) as Hst.
  destruct (sim_settle _ _ (i_sim _ _ _ _ Hi)) as (_ & _ & Hconf). destruct H as [].
  assert (Hq : Spec.quiet s = true).
  { unfold Spec.quiet, Spec.level. rewrite i_gated0, (i_inTxn0 _ Hc eq_refl). simpl.
    unfold Pending in Hpend. rewrite (sim_level _ _ i_sim0), (sim_handed _ _ i_sim0) in Hpend.
    unfold Spec.level in Hpend. rewrite i_gated0 in Hpend. lia. }
  assert (Hge : walpos w <= (Flush (ack (li w1))).2).
  { unfold w1, Flush. simpl. simpl in Hconf. rewrite Hconf. unfold Spec.confirm. simpl. rewrite Hq.
    etransitivity; [|apply upto_ge_base]. lia. }
  pose proof (i_slot _ _ _ _ Hst) as [Hle _]. unfold w1 in *. simpl in *. lia.
Qed.

End Pipeline.

(** ** An executable schedule

    A scheduler that picks steps of the system; a schedule that runs is a proof
    that its last world is reachable. *)

Section Schedule.
Context (lsn_string : Z -> string) (tables : list string) (ddl : bool) (prefix : string).

Inductive action :=
| ACommit (t : txn) | AWrite (p : Z) | AConnect | ADisconnect | ASendNext | AKeepalive (p : Z) | AStatus
| ATake | APublish (ats : list attempt) | ACancel | ASkip | ACrash.

Definition begin_event : Event := NewEvent 0 Begin "" "" "" "BEGIN" "".
Definition commit_event : Event := NewEvent 0 Commit "" "" "" "COMMIT" "".

(** The next message of the walsender. *)
Definition send_next (w : world) (c : walsender) : option world :=
  match cur c with
  | None =>
      match upcoming c with
      | [] => None
      | t :: ts =>
          match emit lsn_string 0 [] (set_parser (set_finalLSN (final t) (parser (li w))) (li w)) begin_event with
          | Returned (l, []) => Some (set_conn (Some (mkSender (Some (t, changes t)) ts)) (set_li l w))
          | _ => None
          end
      end
  | Some (t, ev :: evs) =>
      match emit lsn_string 0 [] (li w) ev with
      | Returned (l, []) => Some (set_conn (Some (mkSender (Some (t, evs)) (upcoming c))) (set_li l w))
      | _ => None
      end
  | Some (t, []) =>
      match emit lsn_string 0 [] (set_parser (set_endLSN (end_lsn t) (parser (li w))) (li w)) commit_event with
      | Returned (l, []) => Some (set_conn (Some (mkSender None (upcoming c))) (set_li l w))
      | _ => None
      end
  end.

Definition wf_txnb (t : txn) : bool :=
  (0 <=? final t) && (final t <? end_lsn t) && (end_lsn t <? 2 ^ 64) &&
  forallb (fun e => IsPublishable (Type_ e)) (changes t).

Lemma wf_txnb_ok t : wf_txnb t = true -> wf_txn t.
Proof.
  unfold wf_txnb. rewrite !andb_true_iff. intros [H1 H2]. split; [lia|].
  apply Forall_forall. intros e He. rewrite forallb_forall in H2. apply H2. by apply list_elem_of_In.
Qed.

Definition exec (w : world) (a : action) : option world :=
  match a with
  | ACommit t => if (walpos w <=? final t) && wf_txnb t then Some (committed t w) else None
  | AWrite p => if walpos w <? p then Some (set_walpos p w) else None
  | AConnect =>
      match conn w with
      | None => Some (set_conn (Some (mkSender None (filter (fun t => slot w < end_lsn t) (wal w))))
                        (set_li (set_ack (NewSession (ack (li w))) (li w)) w))
      | Some _ => None
      end
  | ADisconnect => Some (set_conn None w)
  | ASendNext => c ← conn w; send_next w c
  | AKeepalive p =>
      c ← conn w;
      if (p <=? walpos w) && forallb (fun t => p <? end_lsn t) (option_list (fst <$> cur c) ++ upcoming c)
      then Some (keepalive p w) else None
  | AStatus => _ ← conn w; Some (status w)
  | ATake =>
      match inflight w, subs (service (li w)) !! pub with
      | None, Some u => match ch u with ev :: _ => Some (take_event ev w) | [] => None end
      | _, _ => None
      end
  | APublish ats =>
      if ended w then None
      else ev ← inflight w;
           '(p, _, r) ← publish "" ev ats (pubr w);
           Some (finish p ev (fate_of (pubr w) p ats r) w)
  | ACancel => Some (set_publisher (inflight w) true w)
  | ASkip => if ended w then _ ← inflight w; Some (set_publisher None true w) else None
  | ACrash => Some (restarted tables ddl prefix w)
  end.

Fixpoint exec_all (w : world) (acts : list action) : option world :=
  match acts with [] => Some w | a :: acts => w ← exec w a; exec_all w acts end.

Notation step := (step lsn_string tables ddl prefix).

Lemma send_next_sound w c w' : conn w = Some c -> send_next w c = Some w' -> step w w'.
Proof.
  unfold send_next. destruct c as [[[t [|ev evs]]|] ts]; simpl; intros Hc H.
  - destruct (emit _ _ _ _ _) as [[l [|]]| |] eqn:E; simplify_eq. by eapply (S_end _ _ _ _ _ _ _ 0 commit_event).
  - destruct (emit _ _ _ _ _) as [[l [|]]| |] eqn:E; simplify_eq. by eapply S_change.
  - destruct ts as [|t ts]; [done|].
    destruct (emit _ _ _ _ _) as [[l [|]]| |] eqn:E; simplify_eq. by eapply (S_begin _ _ _ _ _ _ _ 0 begin_event).
Qed.

Lemma exec_sound w a w' : exec w a = Some w' -> step w w'.
Proof.
  destruct a; simpl; intros H.
  - destruct (_ && _) eqn:E; simplify_eq. apply andb_true_iff in E as [E1 E2].
    apply S_commit; [lia|by apply wf_txnb_ok].
  - destruct (_ <? _) eqn:E; simplify_eq. apply S_write. lia.
  - destruct (conn w) eqn:E; simplify_eq. by apply S_connect.
  - simplify_eq. apply S_disconnect.
  - destruct (conn w) as [c|] eqn:E; simplify_eq/=. by eapply send_next_sound.
  - destruct (conn w) as [c|] eqn:E; simplify_eq/=. destruct (_ && _) eqn:Eb; simplify_eq.
    apply andb_true_iff in Eb as [E1 E2]. eapply S_keepalive; [done|lia|]. apply Forall_forall.
    intros t Ht. rewrite forallb_forall in E2. specialize (E2 t). apply Z.ltb_lt, E2.
    by apply list_elem_of_In.
  - destruct (conn w) as [c|] eqn:E; simplify_eq/=. by eapply S_status.
  - destruct (inflight w) eqn:E1; [done|]. destruct (subs _ !! pub) as [u|] eqn:E2; [|done].
    destruct (ch u) as [|ev evs] eqn:E3; simplify_eq. by eapply S_take.
  - destruct (ended w) eqn:E; [done|]. destruct (inflight w) as [ev|] eqn:Ei; simplify_eq/=.
    destruct (publish _ _ _ _) as [[[p rest] r]|] eqn:Ep; simplify_eq/=. by eapply S_publish.
  - simplify_eq. apply S_cancel.
  - destruct (ended w) eqn:E; [|done]. destruct (inflight w) as [ev|] eqn:Ei; simplify_eq/=. by eapply S_skip.
  - simplify_eq. apply S_crash.
Qed.

Lemma exec_all_reachable p n w acts w' :
  reachable lsn_string tables ddl prefix p n w -> exec_all w acts = Some w' ->
  reachable lsn_string tables ddl prefix p (n + length acts) w'.
Proof.
  revert n w. induction acts as [|a acts IH]; intros n w Hr H; simpl in *.
  - simplify_eq. by rewrite Nat.add_0_r.
  - destruct (exec w a) as [w1|] eqn:E; [|done]. simpl in H. rewrite Nat.add_succ_r.
    apply (IH (S n) w1); [|done]. eapply R_step; [exact Hr|]. by eapply exec_sound.
Qed.

End Schedule.

(** ** Witnesses *)

Definition demo_insert : Event := NewEvent 0 Insert "public" "users" "{}" "INSERT" "0/C8".
Definition demo_txn : txn := mkTxn 200 216 [demo_insert; demo_insert; demo_insert].

(** A transaction of three changes is committed and streamed, the process crashes
    after the first is taken but before its ack, and everything is streamed
    again: the first is acked in full, the second cut to its key, the third is
    refused in every form.  Then a transaction with one change follows. *)
Definition demo_txn2 : txn := mkTxn 240 256 [demo_insert].
Definition demo_send (n : nat) : list action := replicate n ASendNext.
Definition demo_drained : list action :=
  [ACommit demo_txn; AConnect] ++ demo_send 5 ++ [ATake; ATake; ACrash; AConnect] ++ demo_send 5
  ++ [ATake; ATake; APublish [demo_ack]; ATake; APublish [demo_large; demo_ack];
      ATake; APublish [demo_large; demo_large; demo_large]; ACommit demo_txn2] ++ demo_send 3
  ++ [ATake; ATake; ATake; APublish [demo_fail; demo_ack]; ATake; AWrite 300].
Definition demo_world (acts : list action) : world :=
  default (initial [] false "cdc" 100) (exec_all pg_lsn_text [] false "cdc" (initial [] false "cdc" 100) acts).

Lemma demo_reachable acts :
  is_Some (exec_all pg_lsn_text [] false "cdc" (initial [] false "cdc" 100) acts) ->
  reachable pg_lsn_text [] false "cdc" 100 (length acts) (demo_world acts).
Proof.
  intros [w E]. unfold demo_world. rewrite E.
  by apply (exec_all_reachable _ _ _ _ 100 0 (initial [] false "cdc" 100) acts w); [constructor|].
Qed.

Definition demo_confirmed : list action := demo_drained ++ [AKeepalive 300; AStatus].

(** The refused change of the first transaction is behind the slot. *)
Lemma at_least_once_witness :
  let w := demo_world demo_confirmed in
  slot w = 300 /\
  forall i, (i < 3)%nat -> exists e f, (e, f) ∈ done_ w /\ copy_of pg_lsn_text demo_txn i demo_insert e /\ fate_ok "cdc" e f.
Proof.
  split; [vm_compute; reflexivity|]. intros i Hi.
  apply (at_least_once pg_lsn_text [] false "cdc" 100 (length demo_confirmed) (demo_world demo_confirmed))
    with (t := demo_txn).
  - lia.
  - apply (demo_reachable demo_confirmed). vm_compute. eauto.
  - simpl. lia.
  - vm_compute. left.
  - vm_compute. discriminate.
  - destruct i as [|[|[|i]]]; [reflexivity..|lia].
  - vm_compute. reflexivity.
Defined.

(** The fates in this run: acked in full, acked cut to its key, refused, acked. *)
Example demo_run_fates :
  map (fun x => match x.2 with Delivered m => Some (Data (payload m)) | _ => None end) (done_ (demo_world demo_drained))
  = [Some "{}"; Some "{}"; None; Some "{}"]%string.
Proof. vm_compute. reflexivity. Qed.

(** The second message, cut to its key. *)
Lemma nothing_invented_witness :
  let w := demo_world demo_drained in
  exists e m, done_ w !! 1%nat = Some (e, Delivered m) /\
  exists t i ev x, t ∈ wal w /\ changes t !! i = Some ev /\ copy_of pg_lsn_text t i ev e /\
    x ∈ forms e /\ m = as_message "cdc" e x.
Proof.
  eexists _, _. split; [vm_compute; reflexivity|].
  apply (nothing_invented pg_lsn_text [] false "cdc" 100 (length demo_drained) (demo_world demo_drained)).
  - lia.
  - apply (demo_reachable demo_drained). vm_compute. eauto.
  - simpl. lia.
  - apply (list_elem_of_lookup_2 _ 1%nat). vm_compute. reflexivity.
  - vm_compute. discriminate.
Defined.

(** The first message and the last, of the other transaction. *)
Lemma message_id_identifies_witness :
  let w := demo_world demo_drained in
  exists e1 m1 e2 m2, done_ w !! 0%nat = Some (e1, Delivered m1) /\ done_ w !! 3%nat = Some (e2, Delivered m2) /\
  exists t1 i1 ev1 t2 i2 ev2,
    changes t1 !! i1 = Some ev1 /\ copy_of pg_lsn_text t1 i1 ev1 e1 /\
    changes t2 !! i2 = Some ev2 /\ copy_of pg_lsn_text t2 i2 ev2 e2 /\
    (msgID m1 = msgID m2 <-> t1 = t2 /\ i1 = i2).
Proof.
  eexists _, _, _, _. split; [vm_compute; reflexivity|]. split; [vm_compute; reflexivity|].
  apply (message_id_identifies pg_lsn_text [] false "cdc" 100 (length demo_drained) (demo_world demo_drained)).
  - split; [exact pg_lsn_text_inj|exact pg_lsn_text_no_colon].
  - lia.
  - apply (demo_reachable demo_drained). vm_compute. eauto.
  - simpl. lia.
  - apply (list_elem_of_lookup_2 _ 0%nat). vm_compute. reflexivity.
  - apply (list_elem_of_lookup_2 _ 3%nat). vm_compute. reflexivity.
  - vm_compute. discriminate.
  - vm_compute. discriminate.
Defined.

(** The WAL went on to 300 after the transaction that ended at 256. *)
Lemma slot_catches_up_witness :
  let w := demo_world demo_drained in
  walpos w = 300 /\ slot (status (keepalive 300 w)) = 300.
Proof.
  split; [vm_compute; reflexivity|].
  destruct (slot_catches_up pg_lsn_text [] false "cdc" 100 (length demo_drained) (demo_world demo_drained))
    as (_ & _ & E).
  - lia.
  - apply (demo_reachable demo_drained). vm_compute. eauto.
  - simpl. lia.
  - vm_compute. reflexivity.
  - vm_compute. reflexivity.
  - exact E.
Defined.
