(* ===== verification/CommitGate.v ===== *)
(** * internal/mysql/ackgate.go and offset.go: the resume offset

    [commitGate] counts the events handed to the bus and acked by the broker,
    and offers the newest transaction boundary whose events are all acked.  The
    implementation merges boundaries that wait for the same events and forgets
    settled ones; module [Spec] remembers every boundary, and
    [CommitGate_refines] shows both offer the same position.  [FileOffsetStore]
    persists it. *)

From stdpp Require Import base list strings gmap sorting.
From Stdlib Require Import ZArith Lia Ascii Sorting.Sorted.
From S2P Require Import Prelude GoStrings Json Event History.

Local Open Scope Z_scope.
Local Open Scope go_scope.

Record BinlogPosition := mkPos { File : string; Position : Z }.

#[export] Instance BinlogPosition_eq_dec : EqDecision BinlogPosition.
Proof. solve_decision. Defined.

(** The zero value. *)
Definition no_pos : BinlogPosition := mkPos "" 0.

Definition BinlogPosition_String (p : BinlogPosition) : string := File p +:+ ":" +:+ itoa (Position p).

Record pendingCommit := mkPending { lastHanded : Z; pos : BinlogPosition }.

Record commitGate := mkGate {
  gated : bool;
  acked : Z;
  handed : Z;
  commits : list pendingCommit;
  confirmable : BinlogPosition
}.

Definition sourcePrefix : string := "mysql:".
Definition minBinlogPosition : Z := 4.

Definition newCommitGate : commitGate := mkGate false 0 0 [] no_pos.

Definition Enable (g : commitGate) : commitGate :=
  mkGate true (acked g) (handed g) (commits g) (confirmable g).

Definition Hand (g : commitGate) : commitGate :=
  mkGate (gated g) (acked g) (handed g +u 1) (commits g) (confirmable g).

(** A position replication can resume from. *)
Definition resumable (p : BinlogPosition) : bool :=
  negb (bool_decide (File p = ""%string) || (Position p <? minBinlogPosition)).

Definition Committed (p : BinlogPosition) (g : commitGate) : commitGate :=
  if negb (resumable p) then g
  else
    let cs :=
      match last (commits g) with
      | Some c =>
          if lastHanded c =? handed g
          then <[(length (commits g) - 1)%nat := mkPending (lastHanded c) p]> (commits g)
          else commits g ++ [mkPending (handed g) p]
      | None => commits g ++ [mkPending (handed g) p]
      end in
    mkGate (gated g) (acked g) (handed g) cs (confirmable g).

Definition ownEvent (e : Event) : bool := String.prefix sourcePrefix (SourceID e) && IsPublishable (Type_ e).

Definition ObservePublished (e : Event) (g : commitGate) : commitGate :=
  if ownEvent e then mkGate (gated g) (acked g +u 1) (handed g) (commits g) (confirmable g) else g.

Definition ackedCount (g : commitGate) : Z := if gated g then acked g else handed g.

Fixpoint settle_loop (a : Z) (cs : list pendingCommit) (conf : BinlogPosition)
    : list pendingCommit * BinlogPosition :=
  match cs with
  | [] => ([], conf)
  | c :: rest => if a <? lastHanded c then (cs, conf) else settle_loop a rest (pos c)
  end.

(** [Confirmable]: the gate after it, the position and whether there is one. *)
Definition Confirmable (g : commitGate) : commitGate * BinlogPosition * bool :=
  let '(cs, conf) := settle_loop (ackedCount g) (commits g) (confirmable g) in
  (mkGate (gated g) (acked g) (handed g) cs conf, conf, negb (bool_decide (File conf = ""%string))).

(** ** Operation sequences and the reference definition *)

Inductive gop :=
| GHand
| GCommitted (p : BinlogPosition)
| GPublished (e : Event)
| GConfirm.

Definition gate_step (g : commitGate) (o : gop) : commitGate :=
  match o with
  | GHand => Hand g
  | GCommitted p => Committed p g
  | GPublished e => ObservePublished e g
  | GConfirm => (Confirmable g).1.1
  end.
Definition gate_run (g : commitGate) (os : list gop) : commitGate := foldl gate_step g os.

Module Spec.

Record spec := mkSpec {
  s_gated : bool;
  s_acked : Z;
  s_handed : Z;
  s_commits : list pendingCommit     (* every boundary, oldest first *)
}.

Definition init (b : bool) : spec := mkSpec b 0 0 [].

Definition level (s : spec) : Z := if s_gated s then s_acked s else s_handed s.

Definition step (s : spec) (o : gop) : spec :=
  match o with
  | GHand => mkSpec (s_gated s) (s_acked s) (s_handed s + 1) (s_commits s)
  | GCommitted p =>
      if resumable p
      then mkSpec (s_gated s) (s_acked s) (s_handed s) (s_commits s ++ [mkPending (s_handed s) p])
      else s
  | GPublished e =>
      if ownEvent e then mkSpec (s_gated s) (s_acked s + 1) (s_handed s) (s_commits s) else s
  | GConfirm => s
  end.
Definition run (s : spec) (os : list gop) : spec := foldl step s os.

(** The newest boundary among those whose events are all acked. *)
Definition newest (a : Z) (cs : list pendingCommit) (base : BinlogPosition) : BinlogPosition :=
  foldl (fun acc c => if lastHanded c <=? a then pos c else acc) base cs.

Definition confirm (s : spec) : BinlogPosition := newest (level s) (s_commits s) no_pos.

End Spec.
Import Spec.

(** ** Refinement *)

Definition seq_lt (c d : pendingCommit) : Prop := lastHanded c < lastHanded d.

Lemma newest_app a l l' b : newest a (l ++ l') b = newest a l' (newest a l b).
Proof. apply foldl_app. Qed.

Lemma newest_none a l b : Forall (fun c => a < lastHanded c) l -> newest a l b = b.
Proof.
  intros H. induction H as [|c l Hc _ IH]; [done|]. unfold newest in *. simpl.
  replace (lastHanded c <=? a) with false by lia. done.
Qed.

Lemma cg_settle_loop_spec a cs conf rest conf' :
  StronglySorted seq_lt cs -> settle_loop a cs conf = (rest, conf') ->
  conf' = newest a cs conf /\ (exists pre, cs = pre ++ rest) /\
  StronglySorted seq_lt rest /\
  forall A, a <= A -> newest A rest conf' = newest A cs conf.
Proof.
  revert conf. induction cs as [|c cs IH]; intros conf Hs H; simpl in H.
  { simplify_eq. split_and!; try done. by exists []. }
  apply StronglySorted_inv in Hs as [Hs Hall].
  destruct (Z.ltb_spec a (lastHanded c)).
  - simplify_eq. split_and!; [|by exists []|by constructor|done].
    symmetry. apply newest_none. constructor; [done|].
    eapply Forall_impl; [exact Hall|]. unfold seq_lt. simpl. lia.
  - apply IH in H as (-> & [pre ->] & Hs' & HA); [|done]. unfold newest in *. simpl.
    replace (lastHanded c <=? a) with true by lia. split_and!; try done; [by exists (c :: pre)|].
    intros A Ha. replace (lastHanded c <=? A) with true by lia. by apply HA.
Qed.

Record sim (g : commitGate) (s : spec) : Prop := mkSim {
  sim_gated : gated g = s_gated s;
  sim_acked : acked g = s_acked s;
  sim_handed : handed g = s_handed s;
  sim_sorted : StronglySorted seq_lt (commits g);
  sim_le : Forall (fun c => lastHanded c <= handed g) (commits g);
  sim_newest : forall A, level s <= A ->
    newest A (commits g) (confirmable g) = newest A (s_commits s) no_pos
}.

Lemma cg_sim_init (b : bool) : sim (if b then Enable newCommitGate else newCommitGate) (init b).
Proof. destruct b; constructor; try done; constructor. Qed.

Lemma cg_sim_level g s : sim g s -> ackedCount g = level s.
Proof. intros []. unfold ackedCount, level. by rewrite sim_gated0, sim_acked0, sim_handed0. Qed.

Lemma sim_confirm g s :
  sim g s -> sim (Confirmable g).1.1 s /\ (Confirmable g).1.2 = confirm s.
Proof.
  intros H. pose proof (cg_sim_level _ _ H) as Hl. destruct H. unfold Confirmable.
  destruct (settle_loop _ _ _) as [cs conf] eqn:E.
  apply cg_settle_loop_spec in E as (-> & [pre Hpre] & Hs & HA); [|done].
  rewrite Hl in *. simpl. split; [|by apply sim_newest0].
  constructor; simpl; try done.
  - rewrite Hpre in sim_le0. by apply Forall_app in sim_le0 as [_ ?].
  - intros A Ha. rewrite HA by done. auto.
Qed.

Lemma cg_sim_committed g s p : sim g s -> sim (Committed p g) (step s (GCommitted p)).
Proof.
  intros H. unfold Committed. simpl. destruct (resumable p); simpl; [|done]. destruct H.
  assert (Happ : Forall (fun c => lastHanded c < handed g) (commits g) ->
    sim (mkGate (gated g) (acked g) (handed g) (commits g ++ [mkPending (handed g) p]) (confirmable g))
        (mkSpec (s_gated s) (s_acked s) (s_handed s) (s_commits s ++ [mkPending (s_handed s) p]))).
  { intros Hlt. constructor; simpl; try done.
    - by apply StronglySorted_snoc.
    - apply Forall_app. split; [done|]. repeat constructor. simpl. lia.
    - intros A Ha. rewrite !newest_app. unfold newest at 1 3. simpl. rewrite <- sim_handed0.
      destruct (_ <=? _); [done|]. by apply sim_newest0. }
  destruct (last (commits g)) as [c|] eqn:El.
  2:{ apply last_None in El. apply Happ. rewrite El. constructor. }
  apply lookup_last_index in El as [l El]. rewrite El in *.
  apply Forall_app in sim_le0 as [Hle Hc]. apply Forall_cons in Hc as [Hc _].
  pose proof sim_sorted0 as Hsorted. apply StronglySorted_app in Hsorted as (Hxy & Hl & _).
  assert (Hx : Forall (fun d => seq_lt d c) l).
  { apply Forall_forall. intros d Hd. apply (Hxy d c Hd). by apply list_elem_of_singleton. }
  destruct (Z.eqb_spec (lastHanded c) (handed g)) as [E|E].
  - clear Happ. rewrite insert_last. constructor; simpl; try done.
    + by apply StronglySorted_snoc.
    + apply Forall_app. split; [done|]. repeat constructor. simpl. lia.
    + intros A Ha. specialize (sim_newest0 A Ha). rewrite newest_app in *.
      rewrite newest_app, <- sim_newest0. unfold newest at 1 3 4. simpl.
      rewrite <- sim_handed0, <- E. by destruct (_ <=? _).
  - apply Happ. apply Forall_app. split; [|repeat constructor; lia].
    eapply Forall_impl; [exact Hx|]. unfold seq_lt. simpl. lia.
Qed.

Lemma cg_sim_step g s o :
  sim g s -> 0 <= s_handed s < 2 ^ 64 - 1 -> 0 <= s_acked s < 2 ^ 64 - 1 ->
  sim (gate_step g o) (step s o).
Proof.
  intros H Hh Ha. destruct o as [|p|e|]; [|by apply cg_sim_committed| |by apply sim_confirm].
  - destruct H. assert (E : handed g +u 1 = s_handed s + 1) by (rewrite sim_handed0; apply u64_small; lia).
    constructor; simpl; rewrite ?E; try done.
    + eapply Forall_impl; [exact sim_le0|]. simpl. lia.
    + intros A HA. apply sim_newest0. unfold level in *. simpl in HA. destruct (s_gated s); lia.
  - simpl. unfold ObservePublished. destruct (ownEvent e); [|done]. destruct H.
    assert (E : acked g +u 1 = s_acked s + 1) by (rewrite sim_acked0; apply u64_small; lia).
    constructor; simpl; rewrite ?E; try done.
    intros A HA. apply sim_newest0. unfold level in *. simpl in HA. destruct (s_gated s); lia.
Qed.

Lemma counters_step s o :
  s_handed s <= s_handed (step s o) <= s_handed s + 1 /\ s_acked s <= s_acked (step s o) <= s_acked s + 1.
Proof. destruct o; simpl; repeat case_match; simpl; lia. Qed.

Lemma cg_sim_run os g s :
  sim g s -> 0 <= s_handed s -> 0 <= s_acked s ->
  s_handed s + Z.of_nat (length os) < 2 ^ 64 -> s_acked s + Z.of_nat (length os) < 2 ^ 64 ->
  sim (gate_run g os) (run s os).
Proof.
  revert g s. induction os as [|o os IH]; intros g s H H0 H1 Hb Hb'; [done|]. simpl in *.
  pose proof (counters_step s o). apply IH; [|lia..]. apply cg_sim_step; [done|lia..].
Qed.

Definition start_gate (b : bool) : commitGate := if b then Enable newCommitGate else newCommitGate.

Lemma cg_gate_run_sim b os :
  Z.of_nat (length os) < 2 ^ 64 -> sim (gate_run (start_gate b) os) (run (init b) os).
Proof. intros. apply cg_sim_run; simpl; [apply cg_sim_init|lia..]. Qed.

(** ** offset.go: the file the position is kept in

    As in the history store, the file is what decoding it gives. *)

Inductive offset_file := NoFile | Holds (p : BinlogPosition) | BadFile | UnreadableFile.

Definition clean_pos (p : BinlogPosition) : BinlogPosition := mkPos (utf8_clean (File p)) (Position p).

Definition Save (disk : disk_answer) (p : BinlogPosition) (f : offset_file)
    : offset_file * result store_error unit :=
  match disk with
  | WriteFails => (f, Err WriteError)
  | RenameFails => (f, Err RenameError)
  | DiskOk => (Holds (clean_pos p), Ok tt)
  end.

Definition Load (f : offset_file) : result store_error (option BinlogPosition) :=
  match f with
  | NoFile => Ok None
  | Holds p => Ok (Some p)
  | BadFile => Err DecodeError
  | UnreadableFile => Err ReadError
  end.

(** The interface [OffsetStore] and what the listener relies on: a save that
    succeeded is what the next load gives (up to the encoding of the name), one
    that failed changes nothing. *)
Class OffsetStore (T : Type) := {
  os_save : disk_answer -> BinlogPosition -> T -> T * result store_error unit;
  os_load : T -> result store_error (option BinlogPosition);
  os_load_save d p s s' : os_save d p s = (s', Ok tt) -> os_load s' = Ok (Some (clean_pos p));
  os_load_failed d p s s' e : os_save d p s = (s', Err e) -> os_load s' = os_load s
}.

#[export] Program Instance FileOffsetStore : OffsetStore offset_file := {
  os_save := Save;
  os_load := Load
}.
Next Obligation. by intros [] p s s' [=<-]. Qed.
Next Obligation. by intros [] p s s' e [=<- _]. Qed.

(** [saveConfirmedOffset]: writes when the confirmable position moved. *)
Record saver {T : Type} := mkSaver { s_gate : commitGate; savedOffset : BinlogPosition; s_file : T }.
Arguments saver : clear implicits.
Arguments mkSaver {T} _ _ _.
Arguments s_gate {T} _.
Arguments savedOffset {T} _.
Arguments s_file {T} _.

Definition saveConfirmedOffset `{OffsetStore T} (disk : disk_answer) (s : saver T)
    : saver T * result store_error unit :=
  let '(g, p, ok) := Confirmable (s_gate s) in
  if negb ok || bool_decide (p = savedOffset s) then (mkSaver g (savedOffset s) (s_file s), Ok tt)
  else
    let '(f, r) := os_save disk p (s_file s) in
    match r with
    | Err e => (mkSaver g (savedOffset s) f, Err e)
    | Ok _ => (mkSaver g p f, Ok tt)
    end.

(** ** Properties *)

(** C19: after any sequence of hand-offs, boundaries, acks and saves (fewer than
    2^64), the position offered as resume offset is the one of the reference
    definition: the newest transaction boundary recorded when no more events
    had been handed than are acked now. *)
Theorem CommitGate_refines (b : bool) (os : list gop) :
  Z.of_nat (length os) < 2 ^ 64 ->
  (Confirmable (gate_run (start_gate b) os)).1.2 = confirm (run (init b) os).
Proof. intros H. by apply sim_confirm, cg_gate_run_sim. Qed.

(** The offset file only ever holds a boundary all of whose events are
    acked: after a save that succeeded the file is the reference position, or
    what it was when there is none or it did not move; a failed write leaves the
    file as it was, so the next save writes again. *)
Theorem saveConfirmedOffset_safe (b : bool) (os : list gop) (saved : BinlogPosition) (f : offset_file)
    (disk : disk_answer) :
  Z.of_nat (length os) < 2 ^ 64 ->
  let p := confirm (run (init b) os) in
  let '(s, r) := saveConfirmedOffset disk (mkSaver (gate_run (start_gate b) os) saved f) in
  match r with
  | Err _ => s_file s = f /\ savedOffset s = saved
  | Ok _ =>
      if bool_decide (File p = ""%string) || bool_decide (p = saved)
      then s_file s = f /\ savedOffset s = saved
      else s_file s = Holds (clean_pos p) /\ savedOffset s = p
  end.
Proof.
  intros H. pose proof (cg_gate_run_sim b os H) as Hs. apply sim_confirm in Hs as [_ Hp].
  unfold saveConfirmedOffset. simpl. unfold Confirmable in *.
  destruct (settle_loop _ _ _) as [cs conf]. simpl in *. subst conf. rewrite negb_involutive.
  destruct (_ || _); [done|]. by destruct disk.
Qed.

(** ** Witnesses *)

Definition demo_own : Event :=
  set_source_id "mysql:bin.1:200:0" (NewEvent 0 Event.Insert "db" "t" "{}" "INSERT" "bin.1:200").
Definition demo_ops : list gop :=
  [GHand; GHand; GCommitted (mkPos "bin.1" 300); GPublished demo_own; GConfirm; GPublished demo_own].

Lemma CommitGate_refines_witness :
  (Confirmable (gate_run (start_gate true) (take 5 demo_ops))).1.2 = no_pos /\
  (Confirmable (gate_run (start_gate true) demo_ops)).1.2 = mkPos "bin.1" 300.
Proof.
  rewrite (CommitGate_refines true (take 5 demo_ops)), (CommitGate_refines true demo_ops);
    [split; reflexivity|simpl; lia..].
Defined.

Lemma saveConfirmedOffset_safe_witness :
  (saveConfirmedOffset DiskOk (mkSaver (gate_run (start_gate true) demo_ops) no_pos NoFile)).1.(s_file)
  = Holds (mkPos "bin.1" 300).
Proof.
  pose proof (saveConfirmedOffset_safe true demo_ops no_pos NoFile DiskOk) as H.
  destruct (saveConfirmedOffset _ _) as [s r] eqn:E. simpl. cbv zeta in H.
  assert (Hlt : Z.of_nat (length demo_ops) < 2 ^ 64) by (simpl; lia).
  specialize (H Hlt). vm_compute in E. injection E as <- <-. vm_compute in H. apply H.
Defined.
