(* ===== verification/MysqlListener.v ===== *)
(** * internal/mysql/listener.go: the binlog handler

    The callbacks canal makes ([OnRow], [OnGTID], [OnRotate], [OnDDL], [OnXID]),
    the JSON of a row, and where streaming starts.  canal and go-mysql are not
    under src/: a binlog event is what their types carry.  A value of a row comes
    with the text Go's formatting gives for the kinds the code prints ([%v] of a
    float, a formatted time, [json.Marshal] of anything else). *)

From stdpp Require Import base list strings gmap.
From Stdlib Require Import ZArith Lia Ascii.
From S2P Require Import Prelude GoStrings Json Escape Event Service History CommitGate.

Local Open Scope Z_scope.

Inductive value :=
| VNil
| VInt (z : Z)
| VUint (z : Z)
| VFloat (text : string)
| VBool (b : bool)
| VBytes (s : string)
| VString (s : string)
| VTime (text : string)
| VOther (marshalled : option string) (printed : string).

(** [col.Type == schema.TYPE_JSON] is [col_json]. *)
Record column := mkColumn { col_name : string; col_json : bool }.

Inductive row_action := InsertAction | UpdateAction | DeleteAction | OtherAction.

Record RowsEvent := mkRows {
  re_schema : string;
  re_table : string;
  re_columns : list column;
  re_action : row_action;
  re_rows : list (list value);
  re_header : option Z                 (* Header.LogPos *)
}.

(** ** Rows as JSON *)

(** [fmt.Sprintf("%v", v)] of a value that is neither bytes nor a string. *)
Definition sprint (v : value) : string :=
  match v with
  | VNil => "<nil>"
  | VInt z | VUint z => itoa z
  | VFloat t | VTime t => t
  | VBool b => if b then "true" else "false"
  | VBytes s | VString s => s
  | VOther _ p => p
  end.

Definition quoted (s : string) : string := dquote +:+ EscapeString s +:+ dquote.

(** The value switch of [appendValue]. *)
Definition plain_value (v : value) : string :=
  match v with
  | VInt z | VUint z => itoa z
  | VFloat t => t
  | VBool b => if b then "true" else "false"
  | VBytes s | VString s => quoted s
  | VTime t => dquote +:+ t +:+ dquote
  | VOther (Some data) _ => data
  | VOther None p => dquote +:+ p +:+ dquote
  | VNil => "null"                      (* json.Marshal(nil) *)
  end.

Definition appendValue (v : value) (isJSON : bool) : string :=
  if isJSON && json_valid (sprint v) then sprint v else plain_value v.

(** The column loop of [rowToJSON], at column [i]. *)
Fixpoint row_loop (i : nat) (cols : list column) (row : list value) (sb : string) : string :=
  match cols with
  | [] => sb
  | col :: cols =>
      let sb := if (0 <? i)%nat then sb +:+ ", " else sb in
      let sb := sb +:+ dquote in
      let sb := sb +:+ EscapeString (col_name col) in
      let sb := sb +:+ dquote +:+ ":" in
      let sb := match row !! i with
                | None | Some VNil => sb +:+ "null"
                | Some v => sb +:+ appendValue v (col_json col)
                end in
      row_loop (S i) cols row sb
  end.

Definition rowToJSON (cols : list column) (row : list value) : string :=
  row_loop 0 cols row "{" +:+ "}".

(** ** The handler *)

Record eventHandler := mkHandler {
  h_service : Service;
  h_gate : commitGate;
  currentFile : string;
  txn : BinlogPosition;
  txnRows : Z
}.

Definition set_h_service (s : Service) (h : eventHandler) : eventHandler :=
  mkHandler s (h_gate h) (currentFile h) (txn h) (txnRows h).
Definition set_h_gate (g : commitGate) (h : eventHandler) : eventHandler :=
  mkHandler (h_service h) g (currentFile h) (txn h) (txnRows h).
Definition set_txn (p : BinlogPosition) (rows : Z) (h : eventHandler) : eventHandler :=
  mkHandler (h_service h) (h_gate h) (currentFile h) p rows.
Definition set_file (f : string) (h : eventHandler) : eventHandler :=
  mkHandler (h_service h) (h_gate h) f (txn h) (txnRows h).

Definition emit (now : Z) (acts : list act) (e : Event) (h : eventHandler)
    : outcome (eventHandler * list act) :=
  '(s, acts, ok) ← HandleEvent now acts (h_service h) e;
  let h := set_h_service s h in
  Returned (if ok && ownEvent e then set_h_gate (Hand (h_gate h)) h else h, acts).

Definition committed (p : BinlogPosition) (h : eventHandler) : eventHandler :=
  set_h_gate (Committed p (h_gate h)) h.

Definition rowCount (e : RowsEvent) : Z :=
  match re_action e with
  | UpdateAction => Z.quot (Z.of_nat (length (re_rows e))) 2
  | _ => Z.of_nat (length (re_rows e))
  end.

(** How the rows of an event are named: not at all, by the event's own position,
    or by the enclosing transaction and the row's place in it. *)
Inductive naming := Unnamed | ByPosition (lsn : string) | ByTxn (lsn : string) (first : Z).

Definition naming_lsn (n : naming) : string :=
  match n with Unnamed => "" | ByPosition l => l | ByTxn l _ => l end.

Definition row_id (n : naming) (row : Z) : option string :=
  match n with
  | Unnamed => None
  | ByPosition lsn => Some (sourcePrefix +:+ lsn +:+ ":" +:+ itoa row)
  | ByTxn lsn first => Some (sourcePrefix +:+ lsn +:+ ":txn:" +:+ itoa (first + row))
  end.

Inductive handler_error := ErrUnplacedRow.

Definition rowIDs (e : RowsEvent) (h : eventHandler)
    : eventHandler * result handler_error naming :=
  let file := currentFile h in
  match re_header e with
  | None => (h, Ok Unnamed)
  | Some logPos =>
      if bool_decide (file = ""%string) then (h, Ok Unnamed)
      else if negb (logPos =? 0) then (h, Ok (ByPosition (file +:+ ":" +:+ itoa logPos)))
      else if bool_decide (File (txn h) = ""%string) then (h, Err ErrUnplacedRow)
      else
        let lsn := BinlogPosition_String (txn h) in
        let first := txnRows h in
        (set_txn (txn h) (first + rowCount e) h, Ok (ByTxn lsn first))
  end.

(** [publish]: names the event and emits it. *)
Definition publish (now : Z) (acts : list act) (n : naming) (e : Event) (row : Z) (h : eventHandler)
    : outcome (eventHandler * list act) :=
  let e := match row_id n row with Some id => set_source_id id e | None => e end in
  emit now acts e h.

Section OnRow.
Context (now : Z) (clock : Z -> Z) (n : naming) (e : RowsEvent).

Definition row_event (typ : EventType) (raw : string) (i : Z) (data : string) : Event :=
  NewEvent (clock i) typ (re_schema e) (re_table e) data raw (naming_lsn n).

(** One event per row. *)
Fixpoint each_row (typ : EventType) (raw : string) (i : Z) (rows : list (list value))
    (acts : list act) (h : eventHandler) : outcome (eventHandler * list act) :=
  match rows with
  | [] => Returned (h, acts)
  | row :: rows =>
      '(h, acts) ← publish now acts n (row_event typ raw i (rowToJSON (re_columns e) row)) i h;
      each_row typ raw (i + 1) rows acts h
  end.

Definition update_data (old new : list value) : string :=
  "{" +:+ dquote +:+ "old" +:+ dquote +:+ ":" +:+ rowToJSON (re_columns e) old +:+ ", " +:+
  dquote +:+ "new" +:+ dquote +:+ ":" +:+ rowToJSON (re_columns e) new +:+ "}".

(** One event per pair of rows; an odd last row is left out. *)
Fixpoint each_pair (i : Z) (rows : list (list value)) (acts : list act) (h : eventHandler)
    : outcome (eventHandler * list act) :=
  match rows with
  | old :: new :: rows =>
      '(h, acts) ← publish now acts n (row_event Update "UPDATE" i (update_data old new)) i h;
      each_pair (i + 1) rows acts h
  | _ => Returned (h, acts)
  end.

End OnRow.

Definition OnRow (now : Z) (clock : Z -> Z) (acts : list act) (e : RowsEvent) (h : eventHandler)
    : outcome (eventHandler * list act * result handler_error unit) :=
  let '(h, r) := rowIDs e h in
  match r with
  | Err err => Returned (h, acts, Err err)
  | Ok n =>
      '(h, acts) ← (match re_action e with
                    | InsertAction => each_row now clock n e Insert "INSERT" 0 (re_rows e) acts h
                    | UpdateAction => each_pair now clock n e 0 (re_rows e) acts h
                    | DeleteAction => each_row now clock n e Delete "DELETE" 0 (re_rows e) acts h
                    | OtherAction => Returned (h, acts)
                    end);
      Returned (h, acts, Ok tt)
  end.

(** [OnGTID]; the header carries LogPos and EventSize. *)
Definition OnGTID (header : option (Z * Z)) (h : eventHandler) : eventHandler :=
  let h := set_txn no_pos 0 h in
  match header with
  | None => h
  | Some (logPos, eventSize) =>
      if bool_decide (currentFile h = ""%string) || (logPos =? 0) then h
      else
        let h := set_txn (mkPos (currentFile h) logPos) 0 h in
        if eventSize <=? logPos then committed (mkPos (currentFile h) (logPos - eventSize)) h else h
  end.

Definition OnRotate (nextLogName : string) (position : Z) (h : eventHandler) : eventHandler :=
  committed (mkPos nextLogName (u32 position)) (set_file nextLogName h).

Definition OnDDL (now clk : Z) (acts : list act) (nextPos : BinlogPosition) (schema query : string)
    (h : eventHandler) : outcome (eventHandler * list act) :=
  let event := NewEvent clk DDL schema "" query "DDL" "" in
  let event := if bool_decide (File nextPos = ""%string) then event
    else set_source_id (sourcePrefix +:+ File nextPos +:+ ":" +:+ itoa (Position nextPos) +:+ ":ddl") event in
  '(h, acts) ← emit now acts event h;
  Returned (committed nextPos h, acts).

Definition OnXID (now clk : Z) (acts : list act) (nextPos : BinlogPosition) (h : eventHandler)
    : outcome (eventHandler * list act) :=
  '(s, acts, _) ← HandleEvent now acts (h_service h) (NewEvent clk Commit "" "" "" "COMMIT" "");
  Returned (committed nextPos (set_h_service s h), acts).

(** ** Where streaming starts *)

Definition getStartPosition `{OffsetStore T} (store : option T)
    : result store_error (option BinlogPosition) :=
  match store with None => Ok None | Some f => os_load f end.

(** [resolveStartPosition]: the stored offset, else the server's position, saved
    as the first offset when there is a store.  The result is the position, the
    file and the offset remembered as saved. *)
Definition resolveStartPosition `{OffsetStore T} (store : option T) (disk : disk_answer)
    (masterPos : result store_error BinlogPosition) (saved : BinlogPosition)
    : result store_error BinlogPosition * option T * BinlogPosition :=
  match getStartPosition store with
  | Err e => (Err e, store, saved)
  | Ok (Some p) => (Ok p, store, saved)
  | Ok None =>
      match masterPos with
      | Err e => (Err e, store, saved)
      | Ok p =>
          match store with
          | None => (Ok p, store, saved)
          | Some f =>
              let '(f, r) := os_save disk p f in
              (Ok p, Some f, match r with Ok _ => p | Err _ => saved end)
          end
      end
  end.

(** [generateServerID]: [h = h*31 + uint32(c)] over the runes; the conversion
    to float64 and back is exact below 2^53. *)
Fixpoint hash_runes (h : Z) (cs : list Z) : Z :=
  match cs with [] => h | c :: cs => hash_runes (u32 (h * 31 + u32 c)) cs end.
Definition generateServerID (host : string) : Z :=
  u32 (65536 + Z.abs (hash_runes 0 (runes host)) mod 65536).

(** ** Rows are valid JSON *)

(** The texts written without escaping: a float, a formatted time, and what
    encoding/json produced; and a JSON document must not be nested up to the
    scanner's limit. *)
Definition value_clean (D : nat) (v : value) (isJSON : bool) : Prop :=
  (isJSON = true -> json_valid (sprint v) = true -> valid_upto D (sprint v) = true) /\
  match v with
  | VFloat t => valid_upto D t = true
  | VTime t => body_ok maxNestingDepth t
  | VOther (Some d) _ => valid_upto D d = true
  | VOther None p => body_ok maxNestingDepth p
  | _ => True
  end.

Lemma value_0 d v : value_ok maxNestingDepth 0 v -> value_ok maxNestingDepth d v.
Proof. apply value_ok_weaken. lia. Qed.

Lemma appendValue_value D v b :
  value_clean D v b -> value_ok maxNestingDepth D (appendValue v b).
Proof.
  intros [Hj Hv]. unfold appendValue. destruct (b && json_valid (sprint v)) eqn:E.
  { apply andb_true_iff in E as [-> E]. apply value_embed. by apply Hj. }
  destruct v as [|z|z|t|bo|s|s|t|[d|] p]; simpl; try (by apply value_embed); apply value_0.
  - apply value_itoa.
  - apply value_itoa.
  - destruct bo; [apply value_true|apply value_false].
  - apply value_string, body_escape.
  - apply value_string, body_escape.
  - by apply value_string.
  - by apply value_string.
Qed.

Definition row_clean (D : nat) (cols : list column) (row : list value) : Prop :=
  forall i c v, cols !! i = Some c -> row !! i = Some v -> value_clean D v (col_json c).

Lemma row_loop_open D i cols row sb :
  (forall j c v, cols !! j = Some c -> row !! (i + j)%nat = Some v -> value_clean D v (col_json c)) ->
  open_ok maxNestingDepth D i sb ->
  open_ok maxNestingDepth D (i + length cols) (row_loop i cols row sb).
Proof.
  revert i sb. induction cols as [|c cols IH]; intros i sb Hc Ho; cbn [row_loop length].
  { by rewrite Nat.add_0_r. }
  rewrite Nat.add_succ_r. apply (IH (S i)).
  { intros j d v Hj Hv. apply (Hc (S j) d v Hj). by rewrite Nat.add_succ_r. }
  set (val := match row !! i with None | Some VNil => "null"%string | Some v => appendValue v (col_json c) end).
  match goal with |- open_ok _ _ _ ?s =>
    replace s with (sb +:+ sep i +:+ member (EscapeString (col_name c)) val) end.
  - apply open_member; [done|apply body_escape|]. unfold val.
    destruct (row !! i) as [v|] eqn:Ev; [|apply value_0, value_null].
    assert (Hval : value_ok maxNestingDepth D (appendValue v (col_json c))).
    { apply appendValue_value, (Hc 0%nat c v eq_refl). by rewrite Nat.add_0_r. }
    destruct v; try done. apply value_0, value_null.
  - unfold val, member. destruct (row !! i) as [[]|]; destruct i; simpl; by rewrite ?str_app_assoc.
Qed.

Lemma rowToJSON_value D cols row :
  row_clean D cols row -> value_ok maxNestingDepth (S D) (rowToJSON cols row).
Proof.
  intros H. apply (open_close _ D (0 + length cols)). apply row_loop_open; [|apply open_start].
  intros j c v. apply H.
Qed.

(** ** Identities *)

(** The identities the handler gives: a row of an event with its own position,
    a row of a transaction, a DDL statement. *)
Inductive identity :=
| RowAt (p : BinlogPosition) (row : Z)
| RowInTxn (p : BinlogPosition) (k : Z)
| DDLAt (p : BinlogPosition).

Definition identity_pos (x : identity) : BinlogPosition :=
  match x with RowAt p _ | RowInTxn p _ | DDLAt p => p end.

Definition identity_tail (x : identity) : string :=
  match x with RowAt _ r => itoa r | RowInTxn _ k => "txn:" +:+ itoa k | DDLAt _ => "ddl" end.

Definition identity_string (x : identity) : string :=
  sourcePrefix +:+ BinlogPosition_String (identity_pos x) +:+ ":" +:+ identity_tail x.

Lemma numeral_no_char c s :
  (forall a, is_digit (code a) = true -> a <> c) -> numeral s -> no_char c s = true.
Proof.
  intros Hc Hs.
  assert (Hd : forall t, all_digits t = true -> no_char c t = true).
  { induction t as [|a t IH]; [done|]. simpl. intros [Ha Ht]%andb_true_iff.
    rewrite IH, andb_true_r by done. by apply negb_true_iff, Ascii.eqb_neq, Hc. }
  apply Hd. destruct Hs as [->|(a & t & -> & Ha & Ht)]; [done|]. simpl. rewrite Ht, andb_true_r.
  unfold is_digit. lia.
Qed.

Lemma itoa_no_char c z :
  (forall a, is_digit (code a) = true -> a <> c) -> c <> "-"%char -> no_char c (itoa z) = true.
Proof.
  intros Hc Hm. destruct (itoa_numeral z) as [H|(t & -> & H)]; [by apply numeral_no_char|].
  cbn [no_char]. rewrite numeral_no_char by done. rewrite andb_true_r.
  apply negb_true_iff, Ascii.eqb_neq. congruence.
Qed.

Lemma itoa_no_colon z : no_char ":" (itoa z) = true.
Proof. apply itoa_no_char; [|done]. intros a Ha ->. discriminate Ha. Qed.

Lemma itoa_head z a t : itoa z = String a t -> a = "-"%char \/ is_digit (code a) = true.
Proof.
  intros E. destruct (itoa_numeral z) as [[H|(b & u & H & Hb & _)]|(u & H & _)]; rewrite H in E; simplify_eq.
  - by right.
  - right. unfold is_digit. lia.
  - by left.
Qed.

Lemma identity_inj x y :
  no_char ":" (File (identity_pos x)) = true -> no_char ":" (File (identity_pos y)) = true ->
  identity_string x = identity_string y -> x = y.
Proof.
  intros Hx Hy H. unfold identity_string, BinlogPosition_String in H.
  apply str_app_inj_l in H. rewrite !str_app_assoc, !str_app_cons, !str_app_nil_l in H.
  apply split_at_inj in H as [Hf H]; [|done..].
  apply split_at_inj in H as [Hp H]; [|apply itoa_no_colon..].
  apply pretty.pretty_Z_inj in Hp.
  assert (E : identity_pos x = identity_pos y).
  { destruct (identity_pos x), (identity_pos y). simpl in *. by subst. }
  destruct x as [p r|p r|p], y as [q r'|q r'|q]; simpl in E, H; subst q; try done.
  - by apply pretty.pretty_Z_inj in H as ->.
  - apply itoa_head in H as [?|?]; done.
  - apply itoa_head in H as [?|?]; done.
  - symmetry in H. apply itoa_head in H as [?|?]; done.
  - apply str_app_inj_l in H. by apply pretty.pretty_Z_inj in H as ->.
  - symmetry in H. apply itoa_head in H as [?|?]; done.
Qed.

(** ** Properties *)

(** C27: the JSON of a MySQL row, and of an update's pair of rows, is valid
    whatever the column names, strings and bytes hold, provided the float and
    time texts Go formats are JSON and document values are not nested up to the
    scanner's limit. *)
Theorem mysql_rows_valid_json (e : RowsEvent) (old new : list value) :
  row_clean (maxNestingDepth - 2) (re_columns e) old ->
  row_clean (maxNestingDepth - 2) (re_columns e) new ->
  json_valid (rowToJSON (re_columns e) new) = true /\ json_valid (update_data e old new) = true.
Proof.
  intros Ho Hn. apply rowToJSON_value in Ho. apply rowToJSON_value in Hn.
  replace (S (maxNestingDepth - 2)) with (maxNestingDepth - 1)%nat in * by (vm_compute; reflexivity).
  split; [by eapply value_valid, Hn; lia|].
  unfold update_data. eapply (value_valid _ maxNestingDepth); [done|].
  match goal with |- value_ok _ _ ?s => replace s with
    ((("{" +:+ sep 0 +:+ member "old" (rowToJSON (re_columns e) old)) +:+ sep 1
       +:+ member "new" (rowToJSON (re_columns e) new)) +:+ "}") end.
  - apply (open_close _ (maxNestingDepth - 1) 2).
    apply open_member; [apply open_member; [apply open_start| |]| |]; try done; by intros stk.
  - unfold member. simpl. by rewrite !str_app_assoc.
Qed.

(** The server id derived from the host name always lies in
    [65536, 131072): above the range ordinary replicas use, and within 32
    bits. *)
Theorem generateServerID_range (host : string) : 65536 <= generateServerID host < 131072.
Proof.
  unfold generateServerID. pose proof (Z.mod_pos_bound (Z.abs (hash_runes 0 (runes host))) 65536).
  rewrite u32_small; lia.
Qed.

(** ** Witnesses *)

Definition demo_rows : RowsEvent :=
  mkRows "db" "t" [mkColumn "id" false; mkColumn "doc" true; mkColumn "price" false] InsertAction
    [[VInt (-7); VString "[1]"; VFloat "1.5"]] (Some 300).

Lemma mysql_rows_valid_json_witness :
  let row := [VInt (-7); VString "[1]"; VFloat "1.5"] in
  json_valid (rowToJSON (re_columns demo_rows) row) = true /\
  json_valid (update_data demo_rows row row) = true.
Proof.
  apply (mysql_rows_valid_json demo_rows);
    intros [|[|[|i]]] c v Hc Hv; simpl in Hc, Hv; simplify_eq; split; by vm_compute.
Defined.
