(* ===== verification/MysqlBinlog.v ===== *)
(** * The binlog and what its units mean

    canal is not under src/: what it delivers is modelled here, a binlog as a
    list of units (transactions, statements, rotations), the calls canal makes
    to the handler for each ([callbacks]), the events those calls stand for
    ([unit_changes]), and the positions in front of a unit ([resumes]).
    [OnRow_emits] ties the list of events to the handler's code. *)

From stdpp Require Import base list strings gmap sorting.
From Stdlib Require Import ZArith Lia Ascii Sorting.Sorted.
From S2P Require Import Prelude GoStrings Json Event Service Bus History Publisher CommitGate MysqlListener.
Import CommitGate.Spec.

Local Open Scope Z_scope.

(** ** What a binlog unit means *)

(** How the rows of an event are named, from the file, the open transaction and
    the rows seen in it; [None] when they cannot be. *)
Definition name_rows (file : string) (t : BinlogPosition) (first : Z) (e : RowsEvent)
    : option (naming * Z) :=
  match re_header e with
  | None => Some (Unnamed, first)
  | Some logPos =>
      if bool_decide (file = ""%string) then Some (Unnamed, first)
      else if negb (logPos =? 0) then Some (ByPosition (file +:+ ":" +:+ itoa logPos), first)
      else if bool_decide (File t = ""%string) then None
      else Some (ByTxn (BinlogPosition_String t) first, first + rowCount e)
  end.

Lemma rowIDs_name e h :
  rowIDs e h = match name_rows (currentFile h) (txn h) (txnRows h) e with
               | Some (n, k) => (set_txn (txn h) k h, Ok n)
               | None => (h, Err ErrUnplacedRow)
               end.
Proof.
  unfold rowIDs, name_rows. destruct h as [s g f t k]; simpl.
  destruct (re_header e) as [p|]; [|done]. destruct (bool_decide (f = ""%string)); [done|].
  destruct (p =? 0); simpl; [|done]. by destruct (bool_decide _).
Qed.

Definition named (n : naming) (row : Z) (e : Event) : Event :=
  match row_id n row with Some id => set_source_id id e | None => e end.

Fixpoint row_list (clock : Z -> Z) (n : naming) (e : RowsEvent) (typ : EventType) (raw : string)
    (i : Z) (rows : list (list value)) : list Event :=
  match rows with
  | [] => []
  | row :: rows =>
      named n i (row_event clock n e typ raw i (rowToJSON (re_columns e) row))
      :: row_list clock n e typ raw (i + 1) rows
  end.

Fixpoint pair_list (clock : Z -> Z) (n : naming) (e : RowsEvent) (i : Z) (rows : list (list value))
    : list Event :=
  match rows with
  | old :: new :: rows =>
      named n i (row_event clock n e Update "UPDATE" i (update_data e old new))
      :: pair_list clock n e (i + 1) rows
  | _ => []
  end.

(** The events of a rows event, in the order they are emitted. *)
Definition rows_events (clock : Z -> Z) (n : naming) (e : RowsEvent) : list Event :=
  match re_action e with
  | InsertAction => row_list clock n e Insert "INSERT" 0 (re_rows e)
  | UpdateAction => pair_list clock n e 0 (re_rows e)
  | DeleteAction => row_list clock n e Delete "DELETE" 0 (re_rows e)
  | OtherAction => []
  end.

Fixpoint emit_all (now : Z) (acts : list act) (evs : list Event) (h : eventHandler)
    : outcome (eventHandler * list act) :=
  match evs with
  | [] => Returned (h, acts)
  | ev :: evs => '(h, acts) ← emit now acts ev h; emit_all now acts evs h
  end.

Lemma each_row_emits now clock n e typ raw i rows acts h :
  each_row now clock n e typ raw i rows acts h
  = emit_all now acts (row_list clock n e typ raw i rows) h.
Proof.
  revert i acts h. induction rows as [|row rows IH]; intros i acts h; [done|].
  cbn [each_row row_list emit_all]. unfold publish at 1. fold (named n i (row_event clock n e typ raw i (rowToJSON (re_columns e) row))).
  destruct (emit _ _ _ _) as [[h' a']| |]; simpl; auto.
Qed.

Lemma each_pair_emits now clock n e : forall rows i acts h,
  each_pair now clock n e i rows acts h = emit_all now acts (pair_list clock n e i rows) h.
Proof.
  fix IH 1. intros [|a [|b rows]] i acts h; [done..|].
  cbn [each_pair pair_list emit_all]. unfold publish at 1.
  fold (named n i (row_event clock n e Update "UPDATE" i (update_data e a b))).
  destruct (emit _ _ _ _) as [[h' a']| |]; simpl; auto.
Qed.

(** [OnRow] names the rows, then emits them one by one: the steps below take it
    apart at the rows, so that other goroutines run in between. *)
Lemma OnRow_emits now clock acts e h :
  OnRow now clock acts e h =
    match name_rows (currentFile h) (txn h) (txnRows h) e with
    | None => Returned (h, acts, Err ErrUnplacedRow)
    | Some (n, k) =>
        '(h, acts) ← emit_all now acts (rows_events clock n e) (set_txn (txn h) k h);
        Returned (h, acts, Ok tt)
    end.
Proof.
  unfold OnRow. rewrite rowIDs_name. destruct (name_rows _ _ _ _) as [[n k]|]; [|done].
  unfold rows_events. destruct (re_action e); by rewrite ?each_row_emits, ?each_pair_emits.
Qed.

(** *** Units *)

(** A committed transaction: its GTID event (end position and size), its rows,
    the position its XID event carries and the one behind it, which differ when
    the transaction is a compressed payload; a statement logged as DDL; a
    rotation to the next file. *)
Inductive unit_ :=
| UTxn (file : string) (lp sz : Z) (rows : list RowsEvent) (xid fin : BinlogPosition)
| UDDL (file : string) (lp sz : Z) (schema query : string) (next : BinlogPosition)
| URotate (file next : string) (p : Z).

(** The calls canal makes on the handler. *)
Inductive callback :=
| CGtid (lp sz : Z)
| CRows (e : RowsEvent)
| CXid (next : BinlogPosition)
| CDDL (schema query : string) (next : BinlogPosition)
| CRotate (next : string) (p : Z).

Definition callbacks (u : unit_) : list callback :=
  match u with
  | UTxn _ lp sz rows xid _ => CGtid lp sz :: map CRows rows ++ [CXid xid]
  | UDDL _ lp sz schema query next => [CGtid lp sz; CDDL schema query next]
  | URotate _ next p => [CRotate next p]
  end.

Definition u_file (u : unit_) : string :=
  match u with UTxn f _ _ _ _ _ | UDDL f _ _ _ _ _ | URotate f _ _ => f end.

(** The position behind the unit, and the one in front of its GTID event. *)
Definition u_end (u : unit_) : BinlogPosition :=
  match u with
  | UTxn _ _ _ _ _ fin => fin
  | UDDL _ _ _ _ _ next => next
  | URotate _ next p => mkPos next (u32 p)
  end.
Definition u_start (u : unit_) : option BinlogPosition :=
  match u with
  | UTxn f lp sz _ _ _ | UDDL f lp sz _ _ _ => Some (mkPos f (lp - sz))
  | URotate _ _ _ => None
  end.

(** Rows come with their header; a transaction ends in the file it is in; an XID
    event carries the position behind it, or none that can be resumed from. *)
Definition wf_unit (u : unit_) : Prop :=
  u_file u <> ""%string /\ File (u_end u) <> ""%string /\
  match u with
  | UTxn f _ _ rows xid fin =>
      Forall (fun e => is_Some (re_header e)) rows /\ File fin = f /\ (xid = fin \/ resumable xid = false)
  | UDDL f _ _ _ _ next => File next = f
  | URotate _ _ _ => True
  end.

(** The end of the unit is offered to the gate: it is no compressed payload. *)
Definition recorded (u : unit_) : Prop :=
  resumable (u_end u) = true /\ match u with UTxn _ _ _ _ xid fin => xid = fin | _ => True end.

Definition ddl_event (clk : Z) (schema query : string) (next : BinlogPosition) : Event :=
  set_source_id (sourcePrefix +:+ File next +:+ ":" +:+ itoa (Position next) +:+ ":ddl")
    (NewEvent clk DDL schema "" query "DDL" "").

(** The changes a call announces, and the naming state after it. *)
Definition interp_cb (file : string) (st : BinlogPosition * Z) (cb : callback)
    : option (list Event * (BinlogPosition * Z)) :=
  match cb with
  | CGtid lp _ => Some ([], (if lp =? 0 then no_pos else mkPos file lp, 0))
  | CRows e =>
      match name_rows file st.1 st.2 e with
      | None => None
      | Some (n, k) => Some (rows_events (fun _ => 0) n e, (st.1, k))
      end
  | CXid _ | CRotate _ _ => Some ([], st)
  | CDDL schema query next => Some ([ddl_event 0 schema query next], st)
  end.

Fixpoint interp_cbs (file : string) (st : BinlogPosition * Z) (cbs : list callback)
    : option (list Event * (BinlogPosition * Z)) :=
  match cbs with
  | [] => Some ([], st)
  | cb :: cbs =>
      match interp_cb file st cb with
      | None => None
      | Some (evs, st) =>
          match interp_cbs file st cbs with
          | None => None
          | Some (evs', st) => Some (evs ++ evs', st)
          end
      end
  end.

(** The changes of a unit under their identities; [None] when a row cannot be
    given one. *)
Definition unit_changes (u : unit_) : option (list Event) :=
  fst <$> interp_cbs (u_file u) (no_pos, 0) (callbacks u).

(** *** The binlog *)

(** Position [p] lies in front of unit [k]. *)
Definition resumes (base : BinlogPosition) (log : list unit_) (p : BinlogPosition) (k : nat) : Prop :=
  (k = 0%nat /\ p = base) \/
  (exists j u, k = S j /\ log !! j = Some u /\ u_end u = p) \/
  (exists u, log !! k = Some u /\ u_start u = Some p).

(** Positions are not reused and name the file they lie in; file names survive
    being written to the offset file. *)
Record wf_log (base : BinlogPosition) (log : list unit_) : Prop := mkWfLog {
  wl_units : Forall wf_unit log;
  wl_unique : forall p k k', resumes base log p k -> resumes base log p k' -> k = k';
  wl_file : forall p k u, resumes base log p k -> log !! k = Some u -> File p = u_file u;
  wl_clean : forall p k, resumes base log p k -> clean_pos p = p /\ File p <> ""%string
}.

