(* ===== verification/MysqlPipeline.v ===== *)
(** * The MySQL pipeline: binlog, handler, bus, publisher, offset file

    The MySQL side of the watcher put together as a transition system: a server
    that appends transactions, statements and rotations to its binlog, canal
    calling the event handler for each of them from the stored offset on, the
    commit gate, the bus, the publisher with everything [publish] can come to,
    the saver that writes the offset, and a process that may crash at any point
    and start again.  The theorem is what the offset promises: everything before
    it has been through the broker, so a restart from it loses nothing the broker
    would take.

    What canal does is not under src/: the calls it makes for a binlog unit are
    [callbacks], in binlog order, and starting from a position means starting
    with the unit that position lies in front of ([resumes]).  The store is any
    instance of the [OffsetStore] interface. *)

From stdpp Require Import base list strings gmap sorting.
From Stdlib Require Import ZArith Lia Ascii Sorting.Sorted.
From S2P Require Import Prelude GoStrings Json Event Service Bus History Publisher CommitGate MysqlListener MysqlBinlog.
Import CommitGate.Spec.

Local Open Scope Z_scope.

(** ** The transition system *)

(** Where canal is: in front of unit [k], or inside it with these calls and
    these rows of the current call to go. *)
Definition cursor : Type := nat * option (list callback * list Event).

Record world {T : Type} := mkWorld {
  log : list unit_;
  store : T;
  at_ : option cursor;                (* [None]: the listener is not running *)
  hd : eventHandler;
  saved : BinlogPosition;
  pubr : Publisher;
  inflight : option Event;            (* taken by the publisher, not finished yet *)
  ended : bool;                       (* the context or the NATS connection is over *)
  done_ : list (Event * fate);        (* what became of each event, for ever *)
  origin : nat                        (* the unit streaming started at when the
                                         store was last found empty *)
}.
Arguments world : clear implicits.
Arguments mkWorld {T} _ _ _ _ _ _ _ _ _ _.
Arguments log {T} _.
Arguments store {T} _.
Arguments at_ {T} _.
Arguments hd {T} _.
Arguments saved {T} _.
Arguments pubr {T} _.
Arguments inflight {T} _.
Arguments ended {T} _.
Arguments done_ {T} _.
Arguments origin {T} _.

(** The events the publisher is through with: delivered, or given up on. *)
Definition settled {T} (w : world T) : list Event := map fst (done_ w).

(** A fresh process: a bus with the publisher subscribed, a gated handler. *)
Definition boot : eventHandler :=
  mkHandler (SubscribeAll NewService).1 (Enable newCommitGate) "" no_pos 0.

Section Pipeline.
Context `{OffsetStore T} (base : BinlogPosition) (prefix : string).

(** The listener moves: its cursor and its handler change. *)
Definition move (a : option cursor) (h : eventHandler) (w : world T) : world T :=
  mkWorld (log w) (store w) a h (saved w) (pubr w) (inflight w) (ended w) (done_ w) (origin w).
Definition go (c : cursor) (h : eventHandler) (w : world T) : world T := move (Some c) h w.

Definition appended (u : unit_) (w : world T) : world T :=
  mkWorld (log w ++ [u]) (store w) (at_ w) (hd w) (saved w) (pubr w) (inflight w) (ended w) (done_ w) (origin w).

(** Streaming starts in front of unit [k], which position [p] lies in front of. *)
Definition started (st : T) (k : nat) (p sv : BinlogPosition) (w : world T) : world T :=
  mkWorld (log w) st (Some (k, None)) (set_file (File p) (hd w)) sv (pubr w) (inflight w) (ended w) (done_ w)
    (match os_load (store w) with Ok None => length (log w) | _ => origin w end).

Definition saved_as (sv : saver T) (w : world T) : world T :=
  mkWorld (log w) (s_file sv) (at_ w) (set_h_gate (s_gate sv) (hd w)) (savedOffset sv) (pubr w)
    (inflight w) (ended w) (done_ w) (origin w).

Definition set_publisher (i : option Event) (over : bool) (w : world T) : world T :=
  mkWorld (log w) (store w) (at_ w) (hd w) (saved w) (pubr w) i over (done_ w) (origin w).

(** The publisher takes the next event off its channel. *)
Definition take_event (ev : Event) (w : world T) : world T :=
  set_publisher (if shouldPublish (Type_ ev) then Some ev else None) (ended w)
    (move (at_ w) (set_h_service (update_sub dequeue pub (h_service (hd w))) (hd w)) w).

(** [publish] has returned: an ack calls the observer, giving up does not, and
    the end of the context or the connection is the end of publishing. *)
Definition finish (p : Publisher) (ev : Event) (f : option fate) (w : world T) : world T :=
  let next h over fs := mkWorld (log w) (store w) (at_ w) h (saved w) p None over (done_ w ++ fs) (origin w) in
  match f with
  | Some (Delivered m) =>
      next (set_h_gate (ObservePublished ev (h_gate (hd w))) (hd w)) (ended w) [(ev, Delivered m)]
  | Some (Refused ms ats) => next (hd w) (ended w) [(ev, Refused ms ats)]
  | _ => next (hd w) true []
  end.

(** The process dies; what the broker stored and the offset are outside it. *)
Definition crashed (w : world T) : world T :=
  mkWorld (log w) (store w) None boot no_pos (NewPublisher prefix) None false (done_ w) (origin w).

Inductive step : world T -> world T -> Prop :=
| S_append w u :
    wf_log base (log w ++ [u]) -> step w (appended u w)
| S_start w disk m p st sv k :
    at_ w = None -> resumes base (log w) m (length (log w)) ->
    resolveStartPosition (Some (store w)) disk (Ok m) (saved w) = (Ok p, Some st, sv) ->
    resumes base (log w) p k -> step w (started st k p sv w)
| S_enter w k u :
    at_ w = Some (k, None) -> log w !! k = Some u ->
    step w (go (k, Some (callbacks u, [])) (hd w) w)
| S_leave w k :
    at_ w = Some (k, Some ([], [])) ->
    step w (go (S k, None) (hd w) w)
| S_gtid w k lp sz cbs :
    at_ w = Some (k, Some (CGtid lp sz :: cbs, [])) ->
    step w (go (k, Some (cbs, [])) (OnGTID (Some (lp, sz)) (hd w)) w)
| S_rows w k e cbs clock n h :
    at_ w = Some (k, Some (CRows e :: cbs, [])) -> rowIDs e (hd w) = (h, Ok n) ->
    step w (go (k, Some (cbs, rows_events clock n e)) h w)
| S_row w k cbs ev evs now h :
    at_ w = Some (k, Some (cbs, ev :: evs)) -> emit now [] ev (hd w) = Returned (h, []) ->
    step w (go (k, Some (cbs, evs)) h w)
| S_xid w k next cbs now clk h :
    at_ w = Some (k, Some (CXid next :: cbs, [])) -> OnXID now clk [] next (hd w) = Returned (h, []) ->
    step w (go (k, Some (cbs, [])) h w)
| S_ddl w k schema query next cbs now clk h :
    at_ w = Some (k, Some (CDDL schema query next :: cbs, [])) ->
    OnDDL now clk [] next schema query (hd w) = Returned (h, []) ->
    step w (go (k, Some (cbs, [])) h w)
| S_rotate w k next p cbs :
    at_ w = Some (k, Some (CRotate next p :: cbs, [])) ->
    step w (go (k, Some (cbs, [])) (OnRotate next p (hd w)) w)
| S_save w c disk sv r :
    at_ w = Some c ->
    saveConfirmedOffset disk (mkSaver (h_gate (hd w)) (saved w) (store w)) = (sv, r) ->
    step w (saved_as sv w)
| S_take w u ev evs :
    inflight w = None -> subs (h_service (hd w)) !! pub = Some u -> ch u = ev :: evs ->
    step w (take_event ev w)
| S_publish w ev fresh ats p rest r :
    inflight w = Some ev -> ended w = false -> Publisher.publish fresh ev ats (pubr w) = Some (p, rest, r) ->
    step w (finish p ev (fate_of (pubr w) p ats r) w)
| S_cancel w :
    step w (set_publisher (inflight w) true w)
| S_skip w ev :                      (* publishing fails at once when the context is over *)
    inflight w = Some ev -> ended w = true -> step w (set_publisher None true w)
| S_other w ev now s ok :
    ownEvent ev = false -> HandleEvent now [] (h_service (hd w)) ev = Returned (s, [], ok) ->
    step w (move (at_ w) (set_h_service s (hd w)) w)
| S_crash w :
    step w (crashed w).

(** Worlds reachable in [n] steps, from an empty binlog and store [s0]. *)
Definition initial (s0 : T) : world T :=
  mkWorld [] s0 None boot no_pos (NewPublisher prefix) None false [] 0.

Inductive reachable (s0 : T) : nat -> world T -> Prop :=
| R_init : reachable s0 0 (initial s0)
| R_step n w w' : reachable s0 n w -> step w w' -> reachable s0 (S n) w'.

(** ** The guarantee *)

(** An event but for the time it was built at. *)
Definition untimed (e : Event) : Event :=
  mkEvent (Type_ e) (Schema e) (Table e) (Data e) (RawMessage e) (LSN e) 0 (SourceTimestamp e)
    (SourceID e) (Sequence e) (DataTruncated e) (KeyColumns e).

(** Every row of the unit has an identity, and every change the bus takes is in
    [l] under it. *)
Definition covered (l : list Event) (u : unit_) : Prop :=
  exists evs, unit_changes u = Some evs /\
    forall ev, ev ∈ evs -> acceptable ev = true -> exists e, e ∈ l /\ untimed e = ev.

(** Units [from] to [k] are covered. *)
Definition safe (from : nat) (us : list unit_) (k : nat) (l : list Event) : Prop :=
  forall j u, (from <= j < k)%nat -> us !! j = Some u -> covered l u.

(** ** The invariant *)

Definition own (e : Event) : Prop := ownEvent e = true.
#[local] Instance own_dec e : Decision (own e).
Proof. unfold own. apply _. Defined.

(** The counted events in hand-off order. *)
Definition hist (u : subscriber) : list Event := filter own (taken u ++ ch u).

(** Inside unit [u]: the calls made are a prefix of it, the naming state is
    theirs, and their changes are handed over up to the pending rows. *)
Definition inside (h : eventHandler) (l : list Event) (u : unit_) (todo : list callback)
    (pending : list Event) : Prop :=
  exists made st0 evs,
    callbacks u = made ++ todo /\
    interp_cbs (u_file u) st0 made = Some (evs ++ map untimed pending, (txn h, txnRows h)) /\
    (forall ev, ev ∈ evs -> acceptable ev = true -> exists e, e ∈ l /\ untimed e = ev) /\
    Forall own pending /\
    currentFile h = (match todo with [] => File (u_end u) | _ => u_file u end).

Definition cursor_ok (w : world T) (l : list Event) (c : cursor) : Prop :=
  safe (origin w) (log w) c.1 l /\
  match c.2 with
  | None => exists p, resumes base (log w) p c.1 /\ File p = currentFile (hd w)
  | Some (todo, pending) => exists u, log w !! c.1 = Some u /\ inside (hd w) l u todo pending
  end.

(** A recorded boundary: what lies before it was handed over by then, and is
    settled or still among the first [lastHanded] events. *)
Definition commit_ok (w : world T) (l : list Event) (c : pendingCommit) : Prop :=
  0 <= lastHanded c /\ exists k, resumes base (log w) (pos c) k /\
    safe (origin w) (log w) k (settled w ++ take (Z.to_nat (lastHanded c)) l).

Record inv (n : nat) (w : world T) (u : subscriber) (s : spec) : Prop := mkInv {
  i_bus : bus (h_service (hd w)) u;
  i_wf : wf_log base (log w);
  i_sim : sim (h_gate (hd w)) s;
  i_gated : s_gated s = true;
  i_len : s_handed s = Z.of_nat (length (hist u));
  i_bound : s_handed s <= Z.of_nat n;
  i_taken : exists tk, taken u = tk ++ option_list (inflight w) /\
              0 <= s_acked s <= Z.of_nat (length (filter own tk)) /\
              (ended w = false -> forall e, e ∈ tk -> own e -> e ∈ settled w);
  i_acked : forall e, e ∈ take (Z.to_nat (s_acked s)) (hist u) -> e ∈ settled w;
  i_commits : Forall (commit_ok w (hist u)) (s_commits s);
  i_store : forall p, os_load (store w) = Ok (Some p) ->
              exists k, resumes base (log w) p k /\ safe (origin w) (log w) k (settled w);
  i_cursor : forall c, at_ w = Some c -> cursor_ok w (settled w ++ hist u) c;
  i_prefix : subjectPrefix (pubr w) = prefix;
  i_fates : Forall (fun x => own x.1 -> fate_ok prefix x.1 x.2) (done_ w)
}.

(** *** Monotonicity *)

Lemma my_covered_mono l l' u : (forall e, e ∈ l -> e ∈ l') -> covered l u -> covered l' u.
Proof.
  intros Hl (evs & E & Hc). exists evs. split; [done|]. intros ev Hev Ha.
  destruct (Hc ev Hev Ha) as (e & He & Eu). eauto.
Qed.

Lemma my_safe_mono o us k l l' : (forall e, e ∈ l -> e ∈ l') -> safe o us k l -> safe o us k l'.
Proof. intros Hl H0 j u Hj Hu. eapply my_covered_mono; [done|]. by eapply H0. Qed.

Lemma safe_app_l o us k l l' : safe o us k l -> safe o us k (l ++ l').
Proof. apply my_safe_mono. intros e He. apply elem_of_app. by left. Qed.

Lemma resumes_bound p us k : resumes base us p k -> (k <= length us)%nat.
Proof.
  intros [[-> _]|[(j & u & -> & Hu & _)|(u & Hu & _)]]; [lia| |]; apply lookup_lt_Some in Hu; lia.
Qed.

Lemma resumes_app p us k u : resumes base us p k -> resumes base (us ++ [u]) p k.
Proof.
  intros [?|[(j & x & ? & Hx & ?)|(x & Hx & ?)]].
  - by left.
  - right. left. exists j, x. split_and!; try done. by apply lookup_app_l_Some.
  - right. right. exists x. split; [|done]. by apply lookup_app_l_Some.
Qed.

(** Units appended later do not matter for a position that is already there. *)
Lemma safe_append o us k l u : (k <= length us)%nat -> safe o us k l -> safe o (us ++ [u]) k l.
Proof. intros Hk Hs j x Hj Hx. apply (Hs j x Hj). rewrite lookup_app_l in Hx; [done|lia]. Qed.

Lemma inside_mono h l l' u todo pending :
  (forall e, e ∈ l -> e ∈ l') -> inside h l u todo pending -> inside h l' u todo pending.
Proof.
  intros Hl (made & st0 & evs & ? & ? & Hc & ? & ?). exists made, st0, evs. split_and!; try done.
  intros ev Hev Ha. destruct (Hc ev Hev Ha) as (e & He & E). eauto.
Qed.

Lemma cursor_ok_mono w l l' c : (forall e, e ∈ l -> e ∈ l') -> cursor_ok w l c -> cursor_ok w l' c.
Proof.
  intros Hl [Hs Hc]. split; [by eapply my_safe_mono|]. destruct c.2 as [[todo pending]|]; [|done].
  destruct Hc as (u & Hu & Hi). exists u. split; [done|]. by eapply inside_mono.
Qed.

(** *** The acked events are settled *)

Lemma acked_handed n w u s : inv n w u s -> 0 <= s_acked s <= s_handed s.
Proof.
  intros []. destruct i_taken0 as (tk & Et & Ea & _). rewrite i_len0. unfold hist.
  rewrite Et, <- app_assoc, filter_app, length_app. lia.
Qed.

(** The position the gate offers, when there is one, is safe. *)
Lemma newest_in a cs b : newest a cs b = b \/
  exists c, c ∈ cs /\ lastHanded c <= a /\ newest a cs b = pos c.
Proof.
  revert b. induction cs as [|c cs IH] using rev_ind; intros b; [by left|].
  rewrite newest_app. unfold newest at 1 3. simpl. destruct (Z.leb_spec (lastHanded c) a).
  - right. exists c. split_and!; try done. apply elem_of_app. right. left.
  - destruct (IH b) as [->|(d & Hd & ? & ->)]; [by left|]. right. exists d. split_and!; try done.
    apply elem_of_app. by left.
Qed.

Lemma confirm_safe n w u s :
  inv n w u s -> File (confirm s) <> ""%string ->
  exists k, resumes base (log w) (confirm s) k /\ safe (origin w) (log w) k (settled w).
Proof.
  intros Hi Hf. pose proof (i_acked _ _ _ _ Hi) as Hst. destruct Hi.
  unfold confirm, level in *. rewrite i_gated0 in *.
  destruct (newest_in (s_acked s) (s_commits s) no_pos) as [E|(c & Hc & Hle & E)];
    [by rewrite E in Hf|]. rewrite E.
  destruct (proj1 (Forall_forall _ _) i_commits0 c Hc) as (H0 & k & Hr & Hs).
  exists k. split; [done|]. eapply my_safe_mono; [|exact Hs].
  intros e [He|He]%elem_of_app; [done|]. apply Hst. eapply take_weaken; [|exact He]. lia.
Qed.

(** *** Calls and their meaning *)

Lemma interp_snoc file st a evs st1 cb evs' st2 :
  interp_cbs file st a = Some (evs, st1) -> interp_cb file st1 cb = Some (evs', st2) ->
  interp_cbs file st (a ++ [cb]) = Some (evs ++ evs', st2).
Proof.
  revert st evs. induction a as [|x a IH]; intros st evs; simpl.
  - intros [= <- <-] ->. by rewrite app_nil_r.
  - destruct (interp_cb file st x) as [[e0 s0]|]; [|done].
    destruct (interp_cbs file s0 a) as [[e1 s1]|] eqn:E; [|done]. intros [= <- <-] Hcb.
    rewrite (IH s0 e1 E Hcb). by rewrite app_assoc.
Qed.

(** A unit starts by setting the naming state, so what it means does not depend
    on what came before. *)
Lemma interp_unit u st evs st' :
  interp_cbs (u_file u) st (callbacks u) = Some (evs, st') -> unit_changes u = Some evs.
Proof. unfold unit_changes. destruct u; simpl; [by intros ->|by intros [= <- _]..]. Qed.

(** Where in a unit each call stands. *)
Definition call_at (u : unit_) (made : list callback) (cb : callback) (cbs : list callback) : Prop :=
  match cb with
  | CGtid lp sz => made = [] /\ cbs <> [] /\ u_start u = Some (mkPos (u_file u) (lp - sz))
  | CRows e => cbs <> [] /\ (wf_unit u -> is_Some (re_header e))
  | CXid next => cbs = [] /\ (recorded u -> next = u_end u) /\
      (wf_unit u -> File (u_end u) = u_file u /\ (next = u_end u \/ resumable next = false))
  | CDDL _ _ next => cbs = [] /\ next = u_end u /\ (wf_unit u -> File (u_end u) = u_file u)
  | CRotate next p => cbs = [] /\ u_end u = mkPos next (u32 p)
  end.

Lemma rows_call (rows : list RowsEvent) xid made cb cbs :
  map CRows rows ++ [CXid xid] = made ++ cb :: cbs ->
  (cb = CXid xid /\ cbs = []) \/ exists e, cb = CRows e /\ e ∈ rows /\ cbs <> [].
Proof.
  revert made. induction rows as [|r rows IH]; intros [|m made] E; simpl in E; injection E as ? E; subst.
  - by left.
  - by destruct made.
  - right. exists r. split_and!; [done|constructor|by destruct rows].
  - destruct (IH made E) as [?|(e & ? & ? & ?)]; [by left|]. right. exists e. by split_and!; [|constructor|].
Qed.

Lemma callbacks_at u made cb cbs : callbacks u = made ++ cb :: cbs -> call_at u made cb cbs.
Proof.
  destruct u as [f lp sz rows xid fin|f lp sz sc q next|f next p]; simpl;
    destruct made as [|m made]; intros E; injection E as ? E; subst.
  - split_and!; [done|by destruct rows|done].
  - apply rows_call in E as [[-> ->]|(e & -> & He & Hn)]; simpl.
    { by split_and!; [|intros [_ ?]|intros (_ & _ & _ & ?)]. }
    split; [done|].
    intros (_ & _ & Hr & _). by apply (proj1 (Forall_forall _ _) Hr).
  - done.
  - destruct made as [|m' made]; injection E as ? E; subst; [|by destruct made].
    by split_and!; [..|intros (_ & _ & ?)].
  - done.
  - by destruct made.
Qed.

(** *** Identities and clocks *)

Lemma untimed_own e : ownEvent (untimed e) = ownEvent e.
Proof. done. Qed.
Lemma untimed_acceptable e : acceptable (untimed e) = acceptable e.
Proof. done. Qed.

Lemma untimed_rows clock n e : map untimed (rows_events clock n e) = rows_events (fun _ => 0) n e.
Proof.
  assert (Hr : forall typ raw rows i,
    map untimed (row_list clock n e typ raw i rows) = row_list (fun _ => 0) n e typ raw i rows).
  { intros typ raw rows. induction rows as [|r rows IH]; intros i; simpl; [done|]. rewrite IH. f_equal.
    unfold named. by destruct (row_id n i). }
  assert (Hp : forall k rows i, (length rows <= k)%nat ->
    map untimed (pair_list clock n e i rows) = pair_list (fun _ => 0) n e i rows).
  { intros k. induction k as [|k IH]; intros [|a [|b rows]] i Hk; simpl in *; try done; try lia.
    rewrite IH by lia. f_equal. unfold named. by destruct (row_id n i). }
  unfold rows_events. destruct (re_action e); eauto.
Qed.

Lemma named_own n i e : n <> Unnamed -> IsPublishable (Type_ e) = true -> own (named n i e).
Proof.
  intros Hn He. unfold own, ownEvent, named. destruct n; [done| |]; simpl; by rewrite He, prefix_app.
Qed.

(** The rows of an event that has a name are counted by the gate. *)
Lemma rows_own clock n e : n <> Unnamed -> Forall own (rows_events clock n e).
Proof.
  intros Hn. assert (Hr : forall typ raw rows i, IsPublishable typ = true ->
    Forall own (row_list clock n e typ raw i rows)).
  { intros typ raw rows. induction rows as [|r rows IH]; intros i Ht; constructor; auto. by apply named_own. }
  assert (Hp : forall k rows i, (length rows <= k)%nat -> Forall own (pair_list clock n e i rows)).
  { intros k. induction k as [|k IH]; intros [|a [|b rows]] i Hk; simpl in *; try lia;
      [apply Forall_nil_2..|]; try (by apply Forall_nil_2).
    apply Forall_cons. split; [by apply named_own|]. apply IH. lia. }
  unfold rows_events. destruct (re_action e); eauto.
Qed.

Lemma name_rows_named file t first e n k :
  file <> ""%string -> is_Some (re_header e) -> name_rows file t first e = Some (n, k) -> n <> Unnamed.
Proof.
  intros Hf [p Hp]. unfold name_rows. rewrite Hp, bool_decide_eq_false_2 by done.
  destruct (p =? 0); simpl; [destruct (bool_decide _)|]; intros [=]; by subst.
Qed.

(** Every change of a unit is one the gate counts. *)
Lemma interp_own file cbs : file <> ""%string ->
  Forall (fun cb => match cb with CRows e => is_Some (re_header e) | _ => True end) cbs ->
  forall st evs st', interp_cbs file st cbs = Some (evs, st') -> Forall own evs.
Proof.
  intros Hf. induction 1 as [|cb cbs Hh Hcbs IH]; intros st evs st' E; simpl in E; [by simplify_eq|].
  destruct (interp_cb file st cb) as [[xs st1]|] eqn:E1; [|done].
  destruct (interp_cbs file st1 cbs) as [[ys st2]|] eqn:E2; simplify_eq.
  apply Forall_app. split; [|by eapply IH]. destruct cb as [lp sz|e|nx|sc q nx|nx p]; simpl in E1; simplify_eq; try done.
  - destruct (name_rows file st.1 st.2 e) as [[nm k]|] eqn:En; simplify_eq.
    by eapply rows_own, name_rows_named.
  - constructor; [|done]. unfold own, ownEvent. simpl. by rewrite prefix_app.
Qed.

Lemma unit_changes_own u evs : wf_unit u -> unit_changes u = Some evs -> Forall own evs.
Proof.
  intros (Hf & _ & Hu) E. unfold unit_changes in E. apply fmap_Some in E as ([xs st'] & E & ->).
  eapply interp_own; [exact Hf| |exact E]. destruct u; simpl; repeat constructor.
  apply Forall_app. split; [|by repeat constructor]. apply Forall_map. by apply Hu.
Qed.

(** *** Emitting on this bus *)

Lemma hist_enqueue ev u : hist (enqueue ev u) = hist u ++ (if ownEvent ev then [ev] else []).
Proof.
  unfold hist. simpl. rewrite app_assoc, filter_app. f_equal. destruct (ownEvent ev) eqn:E.
  - by rewrite filter_cons_True, filter_nil.
  - rewrite filter_cons_False, filter_nil; [done|]. unfold own. by rewrite E.
Qed.

Lemma emit_bus now h u ev h' acts :
  bus (h_service h) u -> emit now [] ev h = Returned (h', acts) ->
  acts = [] /\ exists s, bus s (if acceptable ev then enqueue ev u else u) /\
    h' = set_h_gate (if acceptable ev && ownEvent ev then Hand (h_gate h) else h_gate h) (set_h_service s h).
Proof.
  intros Hb He. unfold emit in He. destruct (HandleEvent _ _ _ _) as [[[s a] ok]| |] eqn:E; simplify_eq/=.
  apply (bus_handle _ _ u) in E as (-> & -> & Hb'); [|done]. split; [done|]. exists s. split; [done|].
  destruct h. by destruct (acceptable ev && ownEvent ev).
Qed.

(** *** The listener's moves *)

Lemma take_grow {A} k (l l' : list A) e : e ∈ take k l -> e ∈ take k (l ++ l').
Proof. rewrite take_app. intros. apply elem_of_app. by left. Qed.

Lemma commit_ok_grow w l l' c : commit_ok w l c -> commit_ok w (l ++ l') c.
Proof.
  intros (H0 & k & Hr & Hs). split; [done|]. exists k. split; [done|]. eapply my_safe_mono; [|exact Hs].
  intros e [He|He]%elem_of_app; apply elem_of_app; [by left|right]. by apply take_grow.
Qed.

(** What the listener hands over in one step: [new], one counted event at most,
    to the channel and to the gate. *)
Record emitted (w : world T) (u : subscriber) (s : spec) (svc : Service) (g : commitGate)
    (u' : subscriber) (s' : spec) (new : list Event) : Prop := mkEmitted {
  e_bus : bus svc u';
  e_taken : taken u' = taken u;
  e_hist : hist u' = hist u ++ new;
  e_one : (length new <= 1)%nat;
  e_sim : sim g s';
  e_gated : s_gated s' = s_gated s;
  e_acked : s_acked s' = s_acked s;
  e_handed : s_handed s' = s_handed s + Z.of_nat (length new);
  e_commits : s_commits s' = s_commits s
}.

Lemma emitted_nothing n w u s : inv n w u s -> emitted w u s (h_service (hd w)) (h_gate (hd w)) u s [].
Proof. intros []. constructor; simpl; rewrite ?app_nil_r; try done; lia. Qed.

Lemma counters_ok n w u s : inv n w u s -> Z.of_nat n < 2 ^ 64 - 1 ->
  0 <= s_handed s < 2 ^ 64 - 1 /\ 0 <= s_acked s < 2 ^ 64 - 1.
Proof. intros Hi Hn. pose proof (acked_handed _ _ _ _ Hi). destruct Hi. lia. Qed.

Definition handed_over (ev : Event) : list Event := if acceptable ev && ownEvent ev then [ev] else [].

Lemma emitted_event n w u s now ev h acts :
  inv n w u s -> Z.of_nat n < 2 ^ 64 - 1 -> emit now [] ev (hd w) = Returned (h, acts) ->
  exists svc g u' s', h = set_h_gate g (set_h_service svc (hd w)) /\
    emitted w u s svc g u' s' (handed_over ev).
Proof.
  intros Hi Hn He. pose proof (counters_ok _ _ _ _ Hi Hn) as [Hh Ha].
  apply (emit_bus _ _ u) in He as (_ & svc & Hb & ->); [|apply Hi].
  eexists svc, _, (if acceptable ev then enqueue ev u else u), (if acceptable ev && ownEvent ev then Spec.step s GHand else s). split; [done|].
  pose proof (cg_sim_step _ _ GHand (i_sim _ _ _ _ Hi) Hh Ha) as Hsim.
  destruct Hi. unfold handed_over. destruct (acceptable ev); simpl.
  - pose proof (hist_enqueue ev u) as Eh. destruct (ownEvent ev); constructor; simpl; try done; try lia.
  - constructor; rewrite ?app_nil_r; simpl; try done; lia.
Qed.

(** An event that is not the handler's own goes through uncounted. *)
Lemma emitted_other n w u s now ev svc acts ok :
  inv n w u s -> ownEvent ev = false -> HandleEvent now [] (h_service (hd w)) ev = Returned (svc, acts, ok) ->
  exists u', emitted w u s svc (h_gate (hd w)) u' s [].
Proof.
  intros [] Ho He. apply (bus_handle _ _ u) in He as (_ & _ & Hb); [|done]. eexists.
  pose proof (hist_enqueue ev u) as Eh. rewrite Ho in Eh.
  constructor; [exact Hb|destruct ok..]; simpl; rewrite ?app_nil_r in *; try done; lia.
Qed.

Lemma inv_move n w u s a h svc g u' s' new :
  inv n w u s -> emitted w u s svc g u' s' new -> h_service h = svc -> h_gate h = g ->
  (forall c, a = Some c -> cursor_ok (move a h w) (settled w ++ hist u ++ new) c) ->
  inv (S n) (move a h w) u' s'.
Proof.
  intros Hi [] <- <- Hcur. pose proof (acked_handed _ _ _ _ Hi) as Ha. destruct Hi.
  constructor; simpl; rewrite ?e_hist0, ?e_taken0, ?e_gated0, ?e_acked0, ?e_handed0, ?e_commits0, ?length_app;
    try done; try lia.
  - intros e He. apply i_acked0. by rewrite take_app_le in He by lia.
  - eapply Forall_impl; [exact i_commits0|]. exact (commit_ok_grow w _ _).
Qed.

(** A boundary is recorded at a position everything before which was handed
    over. *)
Lemma my_inv_commit n w u s c h svc g u' s' new p k :
  inv n w u s -> emitted w u s svc g u' s' new -> h_service h = svc -> h_gate h = Committed p g ->
  (resumable p = true -> resumes base (log w) p k) ->
  safe (origin w) (log w) k (settled w ++ hist u ++ new) ->
  cursor_ok (go c h w) (settled w ++ hist u ++ new) c ->
  exists s'', inv (S n) (go c h w) u' s''.
Proof.
  intros Hi He Hs Hg Hr Hk Hc. exists (Spec.step s' (GCommitted p)).
  assert (Hm : inv (S n) (go c (set_h_gate g h) w) u' s').
  { eapply inv_move; [exact Hi|exact He|done..|]. intros ? [= <-]. exact Hc. }
  destruct Hm. simpl in *. pose proof (e_hist _ _ _ _ _ _ _ _ He) as Eh.
  constructor; simpl; try done; try (by destruct (resumable p)).
  - by rewrite Hg; apply cg_sim_committed.
  - destruct (resumable p); [|done]. apply Forall_app. split; [exact i_commits0|]. constructor; [|done].
    split; simpl; [lia|]. exists k. split; [by apply Hr|]. by rewrite i_len0, Nat2Z.id, firstn_all, Eh.
Qed.

(** *** One lemma per step *)

Lemma inside_call h h' l u cb cbs evs pending :
  inside h l u (cb :: cbs) [] ->
  interp_cb (u_file u) (txn h, txnRows h) cb = Some (evs, (txn h', txnRows h')) ->
  map untimed pending = evs -> Forall own pending ->
  currentFile h' = (match cbs with [] => File (u_end u) | _ => u_file u end) ->
  inside h' l u cbs pending.
Proof.
  intros (made & st0 & done_ & Hc & Hi & Hcov & _ & Hf) Hcb Hp Ho Hf'.
  exists (made ++ [cb]), st0, done_. split_and!; try done; [by rewrite <- app_assoc|].
  simpl in Hi. rewrite app_nil_r in Hi. rewrite Hp. by eapply interp_snoc.
Qed.

Lemma inv_enter n w u s k x :
  inv n w u s -> at_ w = Some (k, None) -> log w !! k = Some x ->
  inv (S n) (go (k, Some (callbacks x, [])) (hd w) w) u s.
Proof.
  intros Hi Ha Hx. eapply inv_move; [done|by eapply emitted_nothing|done..|]. intros ? [= <-].
  destruct Hi. destruct (i_cursor0 _ Ha) as (Hs & p & Hr & Hf). rewrite app_nil_r. split; [done|].
  exists x. split; [done|]. exists [], (txn (hd w), txnRows (hd w)), [].
  split_and!; try done. { intros ev Hev. by apply elem_of_nil in Hev. }
  simpl in *. rewrite <- Hf, (wl_file _ _ i_wf0 _ _ _ Hr Hx). by destruct x.
Qed.

Lemma inside_done h l u : inside h l u [] [] -> covered l u /\ currentFile h = File (u_end u).
Proof.
  intros (made & st0 & evs & Hc & Hi & Hcov & _ & Hf). split; [|done]. exists evs. split; [|done].
  rewrite !app_nil_r in *. rewrite <- Hc in Hi. by eapply interp_unit.
Qed.

Lemma my_safe_snoc o us k l u :
  safe o us k l -> us !! k = Some u -> covered l u -> safe o us (S k) l.
Proof.
  intros Hs Hu Hc j v Hj Hv. destruct (decide (j = k)) as [->|]; [by simplify_eq|]. apply (Hs j v); [lia|done].
Qed.

Lemma inv_leave n w u s k :
  inv n w u s -> at_ w = Some (k, Some ([], [])) -> inv (S n) (go (S k, None) (hd w) w) u s.
Proof.
  intros Hi Ha. eapply inv_move; [done|by eapply emitted_nothing|done..|]. intros ? [= <-].
  destruct Hi. destruct (i_cursor0 _ Ha) as (Hs & x & Hx & Hin). apply inside_done in Hin as [Hc Hf].
  rewrite app_nil_r. split; [by eapply my_safe_snoc|]. exists (u_end x). split; [|done].
  right. left. by exists k, x.
Qed.

(** The unit a call belongs to. *)
Lemma at_call n w u s k cb cbs :
  inv n w u s -> at_ w = Some (k, Some (cb :: cbs, [])) ->
  exists x made, log w !! k = Some x /\ wf_unit x /\ call_at x made cb cbs /\
    currentFile (hd w) = u_file x /\ safe (origin w) (log w) k (settled w ++ hist u) /\
    inside (hd w) (settled w ++ hist u) x (cb :: cbs) [].
Proof.
  intros [] Ha. destruct (i_cursor0 _ Ha) as (Hs & x & Hx & Hin).
  pose proof Hin as (made & st0 & evs & Hc & Hi & _ & _ & Hf). exists x, made.
  split_and!; try done; [by eapply Forall_lookup_1, Hx; apply i_wf0|]. by apply callbacks_at.
Qed.

Lemma resumes_start us k u p : us !! k = Some u -> u_start u = Some p -> resumes base us p k.
Proof. intros. right. right. by exists u. Qed.
Lemma resumes_end us k u : us !! k = Some u -> resumes base us (u_end u) (S k).
Proof. intros. right. left. by exists k, u. Qed.

Lemma inv_gtid n w u s k lp sz cbs :
  inv n w u s -> at_ w = Some (k, Some (CGtid lp sz :: cbs, [])) ->
  exists s', inv (S n) (go (k, Some (cbs, [])) (OnGTID (Some (lp, sz)) (hd w)) w) u s'.
Proof.
  intros Hi Ha. destruct (at_call _ _ _ _ _ _ _ Hi Ha) as (x & made & Hx & (Hf & _) & (_ & Hn & Hst) & Ef & Hs & Hin).
  set (h' := OnGTID _ _).
  assert (Hin' : inside h' (settled w ++ hist u) x cbs []).
  { eapply inside_call; [exact Hin| |done..|].
    - simpl. unfold h', OnGTID. simpl. rewrite Ef, bool_decide_eq_false_2 by done. simpl.
      destruct (lp =? 0); [done|]. by destruct (sz <=? lp).
    - transitivity (u_file x); [|by destruct cbs]. rewrite <- Ef. unfold h', OnGTID. simpl.
      by repeat case_match. }
  assert (Hcur : cursor_ok (go (k, Some (cbs, [])) h' w) (settled w ++ hist u ++ []) (k, Some (cbs, []))).
  { rewrite app_nil_r. split; [done|]. by exists x. }
  pose proof (emitted_nothing _ _ _ _ Hi) as He.
  assert (Hsv : h_service h' = h_service (hd w)) by (unfold h', OnGTID; simpl; by repeat case_match).
  assert (Hg : h_gate h' = h_gate (hd w) \/ h_gate h' = Committed (mkPos (u_file x) (lp - sz)) (h_gate (hd w))).
  { rewrite <- Ef. unfold h', OnGTID. simpl. repeat case_match; by auto. }
  destruct Hg as [Hg|Hg].
  - exists s. eapply inv_move; [exact Hi|exact He|done..|]. by intros ? [= <-].
  - eapply my_inv_commit; [exact Hi|exact He|done..| | |exact Hcur].
    + intros _. by eapply resumes_start.
    + by rewrite app_nil_r.
Qed.

Lemma inv_rows n w u s k e cbs clock nm h :
  inv n w u s -> at_ w = Some (k, Some (CRows e :: cbs, [])) -> rowIDs e (hd w) = (h, Ok nm) ->
  inv (S n) (go (k, Some (cbs, rows_events clock nm e)) h w) u s.
Proof.
  intros Hi Ha Hr. destruct (at_call _ _ _ _ _ _ _ Hi Ha) as (x & made & Hx & Hw & (Hn & Hh) & Ef & Hs & Hin).
  rewrite rowIDs_name, Ef in Hr. destruct (name_rows _ _ _ _) as [[n' c]|] eqn:En; simplify_eq.
  eapply inv_move; [exact Hi|by eapply emitted_nothing|done..|]. intros ? [= <-]. rewrite app_nil_r.
  split; [done|]. exists x. split; [done|]. eapply inside_call; [exact Hin| |apply untimed_rows|..]; simpl.
  - by rewrite En.
  - apply rows_own. eapply name_rows_named; [|by apply Hh|exact En]. apply Hw.
  - rewrite Ef. by destruct cbs.
Qed.

Lemma inv_row n w u s k cbs ev evs now h :
  inv n w u s -> Z.of_nat n < 2 ^ 64 - 1 -> at_ w = Some (k, Some (cbs, ev :: evs)) ->
  emit now [] ev (hd w) = Returned (h, []) ->
  exists u' s', inv (S n) (go (k, Some (cbs, evs)) h w) u' s'.
Proof.
  intros Hi Hn Ha He. destruct (emitted_event _ _ _ _ _ _ _ _ Hi Hn He) as (svc & g & u' & s' & -> & Hem).
  exists u', s'. eapply inv_move; [exact Hi|exact Hem|done..|]. intros ? [= <-].
  destruct Hi. destruct (i_cursor0 _ Ha) as (Hs & x & Hx & made & st0 & evs0 & Hc & Hin & Hcov & Ho & Hf).
  rewrite app_assoc. split; [by apply safe_app_l|]. exists x. split; [done|].
  apply Forall_cons in Ho as [Ho Hos]. exists made, st0, (evs0 ++ [untimed ev]). split_and!; try done.
  - by rewrite <- app_assoc.
  - intros d [Hd|Hd]%elem_of_app Had.
    + destruct (Hcov d Hd Had) as (e & Hel & Ee). exists e. split; [|done]. apply elem_of_app. by left.
    + apply list_elem_of_singleton in Hd as ->. exists ev. split; [|done]. apply elem_of_app. right.
      unfold handed_over. rewrite untimed_acceptable in Had. rewrite Had, Ho. by apply list_elem_of_singleton.
Qed.

(** The last call of a unit records its end. *)
Lemma inv_last n w u s k x h svc g u' s' new p :
  inv n w u s -> emitted w u s svc g u' s' new -> h_service h = svc -> h_gate h = Committed p g ->
  p = u_end x \/ resumable p = false ->
  log w !! k = Some x -> safe (origin w) (log w) k (settled w ++ hist u) ->
  inside h (settled w ++ hist u ++ new) x [] [] ->
  exists s'', inv (S n) (go (k, Some ([], [])) h w) u' s''.
Proof.
  intros Hi He Hs Hg Hp Hx Hk Hin. pose proof (inside_done _ _ _ Hin) as [Hc _].
  assert (Hk' : safe (origin w) (log w) k (settled w ++ hist u ++ new)) by (rewrite app_assoc; by apply safe_app_l).
  eapply (my_inv_commit _ _ _ _ _ _ _ _ _ _ _ _ (S k)); [exact Hi|exact He|done|exact Hg| | |].
  - destruct Hp as [-> | ->]; [|done]. intros _. by apply resumes_end.
  - by eapply my_safe_snoc.
  - split; [done|]. by exists x.
Qed.

Lemma inv_xid n w u s k next cbs now clk h :
  inv n w u s -> at_ w = Some (k, Some (CXid next :: cbs, [])) ->
  OnXID now clk [] next (hd w) = Returned (h, []) ->
  exists u' s', inv (S n) (go (k, Some (cbs, [])) h w) u' s'.
Proof.
  intros Hi Ha Hx. destruct (at_call _ _ _ _ _ _ _ Hi Ha) as (x & made & Hl & Hw & (-> & _ & Hf) & Ef & Hs & Hin).
  destruct (Hf Hw) as [Hfin Hnext]. unfold OnXID in Hx. destruct (HandleEvent _ _ _ _) as [[[sv a] ok]| |] eqn:E; simplify_eq/=.
  assert (Ho : ownEvent (NewEvent clk Commit "" "" "" "COMMIT" "") = false) by done.
  destruct (emitted_other _ _ _ _ _ _ _ _ _ Hi Ho E) as [u' He]. exists u'.
  eapply inv_last; [exact Hi|exact He|done|done|exact Hnext|done|done|]. rewrite app_nil_r.
  eapply inside_call; [exact Hin|done..|]. simpl. by rewrite Ef, Hfin.
Qed.

Lemma inv_ddl n w u s k schema query next cbs now clk h :
  inv n w u s -> Z.of_nat n < 2 ^ 64 - 1 -> at_ w = Some (k, Some (CDDL schema query next :: cbs, [])) ->
  OnDDL now clk [] next schema query (hd w) = Returned (h, []) ->
  exists u' s', inv (S n) (go (k, Some (cbs, [])) h w) u' s'.
Proof.
  intros Hi Hn Ha Hx. destruct (at_call _ _ _ _ _ _ _ Hi Ha) as (x & made & Hl & Hw & (-> & -> & Hf) & Ef & Hs & Hin).
  unfold OnDDL in Hx. rewrite bool_decide_eq_false_2 in Hx by (apply Hw).
  fold (ddl_event clk schema query (u_end x)) in Hx. destruct (emit _ _ _ _) as [[h1 a]| |] eqn:E; simplify_eq/=.
  destruct (emitted_event _ _ _ _ _ _ _ _ Hi Hn E) as (svc & g & u' & s' & -> & He). exists u'.
  eapply inv_last; [exact Hi|exact He|done|done|by left|done|done|].
  destruct Hin as (m & st0 & evs & Hc & Hin & Hcov & _ & Hfile). simpl in Hin. rewrite app_nil_r in Hin.
  exists (m ++ [CDDL schema query (u_end x)]), st0, (evs ++ [ddl_event 0 schema query (u_end x)]).
  split_and!; try done.
  - by rewrite app_nil_r.
  - simpl. rewrite app_nil_r. by eapply interp_snoc.
  - intros d [Hd|Hd]%elem_of_app Had.
    + destruct (Hcov d Hd Had) as (e & Hel & Ee). exists e. split; [|done]. rewrite app_assoc. apply elem_of_app. by left.
    + apply list_elem_of_singleton in Hd as ->. exists (ddl_event clk schema query (u_end x)). split; [|done].
      assert (Ho : ownEvent (ddl_event clk schema query (u_end x)) = true) by (unfold ownEvent; simpl; by rewrite prefix_app).
      unfold handed_over. rewrite Ho. change (acceptable (ddl_event clk schema query (u_end x))) with true. simpl.
      set_solver.
  - simpl. by rewrite Ef, Hf.
Qed.

Lemma inv_rotate n w u s k next p cbs :
  inv n w u s -> at_ w = Some (k, Some (CRotate next p :: cbs, [])) ->
  exists s', inv (S n) (go (k, Some (cbs, [])) (OnRotate next p (hd w)) w) u s'.
Proof.
  intros Hi Ha. destruct (at_call _ _ _ _ _ _ _ Hi Ha) as (x & made & Hl & Hw & (-> & Hu) & Ef & Hs & Hin).
  eapply inv_last; [exact Hi|by eapply emitted_nothing|done|reflexivity|left; by rewrite Hu|done|done|].
  rewrite app_nil_r. eapply inside_call; [exact Hin|done..|]. simpl. by rewrite Hu.
Qed.

Lemma inv_append n w u s x :
  inv n w u s -> wf_log base (log w ++ [x]) ->
  inv (S n) (appended x w) u s.
Proof.
  intros [] Hw. constructor; simpl; try done; try lia.
  - eapply Forall_impl; [exact i_commits0|]. intros c (H0 & k & Hr & Hs). split; [done|]. exists k.
    split; [by apply resumes_app|]. eapply safe_append; [by eapply resumes_bound|done].
  - intros p Hp. destruct (i_store0 p Hp) as (k & Hr & Hs). exists k.
    split; [by apply resumes_app|]. eapply safe_append; [by eapply resumes_bound|done].
  - intros c Hc. destruct (i_cursor0 c Hc) as [Hs Hk]. unfold cursor_ok. simpl.
    destruct c.2 as [[todo pending]|].
    + destruct Hk as (y & Hy & Hin). split.
      * apply safe_append; [|done]. apply lookup_lt_Some in Hy. lia.
      * exists y. split; [by apply lookup_app_l_Some|done].
    + destruct Hk as (p & Hr & Hf). split; [by eapply safe_append, Hs; eapply resumes_bound|].
      exists p. by split; [apply resumes_app|].
Qed.

Lemma inv_start n w u s disk m p st sv k :
  inv n w u s -> at_ w = None -> resumes base (log w) m (length (log w)) ->
  resolveStartPosition (Some (store w)) disk (Ok m) (saved w) = (Ok p, Some st, sv) ->
  resumes base (log w) p k ->
  inv (S n) (started st k p sv w) u s.
Proof.
  unfold started. intros [] Ha Hm Hr Hk. unfold resolveStartPosition in Hr. simpl in Hr.
  destruct (os_load (store w)) as [[q|]|] eqn:El; simplify_eq/=.
  - constructor; simpl; try done; try lia; [|intros c [= <-]].
    + rewrite El. exact i_store0.
    + destruct (i_store0 _ eq_refl) as (k' & Hr' & Hs'). rewrite (wl_unique _ _ i_wf0 _ _ _ Hk Hr').
      split; [by apply safe_app_l|]. by exists p.
  - destruct (os_save disk m (store w)) as [f r] eqn:Es. simplify_eq/=.
    rewrite (wl_unique _ _ i_wf0 _ _ _ Hk Hm).
    assert (He : forall j l, (j <= length (log w))%nat -> safe (length (log w)) (log w) j l)
      by (intros j l Hj i x Hi; lia).
    constructor; simpl; try done; try lia.
    + eapply Forall_impl; [exact i_commits0|]. intros c (H0 & j & Hrj & _). split; [done|]. exists j.
      split; [done|]. by eapply He, resumes_bound.
    + intros q Hq. destruct r as [[]|e].
      * rewrite (os_load_save _ _ _ _ Es) in Hq. rewrite (proj1 (wl_clean _ _ i_wf0 _ _ Hm)) in Hq. simplify_eq.
        exists (length (log w)). split; [done|]. by apply He.
      * rewrite (os_load_failed _ _ _ _ _ Es), El in Hq. done.
    + intros c [= <-]. split; [by apply He|]. by exists p.
Qed.

Lemma inv_save n w u s disk c sv r :
  inv n w u s -> at_ w = Some c ->
  saveConfirmedOffset disk (mkSaver (h_gate (hd w)) (saved w) (store w)) = (sv, r) ->
  inv (S n) (saved_as sv w) u s.
Proof.
  intros Hi Ha Hs. pose proof (confirm_safe _ _ _ _ Hi) as Hc. destruct Hi.
  pose proof (sim_confirm _ _ i_sim0) as [Hsim Hp]. unfold saveConfirmedOffset in Hs. simpl in Hs.
  destruct (Confirmable (h_gate (hd w))) as [[g p] ok] eqn:E. simpl in Hsim, Hp. subst p.
  assert (Eok : ok = negb (bool_decide (File (confirm s) = ""%string))).
  { unfold Confirmable in E. destruct (settle_loop _ _ _). by simplify_eq. }
  assert (Hg : s_gate sv = g).
  { destruct (_ || _); [by simplify_eq|]. destruct (os_save _ _ _) as [f []]; by simplify_eq. }
  constructor; simpl; rewrite ?Hg; try done; try lia.
  intros q Hq. clear Hg. destruct (negb ok || bool_decide (confirm s = saved w)) eqn:Eb; simplify_eq/=; [by apply i_store0|].
  apply orb_false_iff in Eb as [Eb _]. rewrite negb_involutive in Eb.
  apply bool_decide_eq_false_1 in Eb. destruct (Hc Eb) as (k & Hr & Hk).
  destruct (os_save disk (confirm s) (store w)) as [f [[]|e]] eqn:Es; simplify_eq/=.
  - rewrite (os_load_save _ _ _ _ Es) in Hq. rewrite (proj1 (wl_clean _ _ i_wf0 _ _ Hr)) in Hq. simplify_eq.
    by exists k.
  - rewrite (os_load_failed _ _ _ _ _ Es) in Hq. by apply i_store0.
Qed.

Lemma my_inv_take n w u s v ev evs :
  inv n w u s -> inflight w = None -> subs (h_service (hd w)) !! pub = Some v -> ch v = ev :: evs ->
  inv (S n) (take_event ev w) (dequeue u) s.
Proof.
  intros [] Hin Hv Hch. pose proof i_bus0 as []. rewrite bus_sub in Hv. injection Hv as <-.
  assert (Ehist : hist (dequeue u) = hist u) by (unfold hist; by rewrite dequeue_history).
  constructor; simpl; rewrite ?Ehist; try done; try lia.
  - constructor; simpl; try done; [by rewrite lookup_alter_eq, bus_sub|]. by rewrite dequeue_closed.
  - destruct i_taken0 as (tk & Etk & Hak & Hst). rewrite Hin in Etk. simpl in Etk. rewrite app_nil_r in Etk.
    assert (Edq : taken (dequeue u) = tk ++ [ev]) by (unfold dequeue; rewrite Hch; simpl; by rewrite Etk).
    rewrite Edq. unfold shouldPublish. destruct (IsPublishable (Type_ ev)) eqn:Ep; [by exists tk|].
    assert (Hno : ~ own ev) by (unfold own, ownEvent; by rewrite Ep, andb_false_r).
    exists (tk ++ [ev]). simpl. rewrite app_nil_r. split; [done|]. split.
    { by rewrite filter_app, filter_cons_False, filter_nil, app_nil_r. }
    intros Hend e [He|He]%elem_of_app Hne; [by apply Hst|]. by apply list_elem_of_singleton in He as ->.
Qed.

(** An event is settled: the history of the bus is unchanged, the list of
    settled events grows by one, and an ack of an own event is counted. *)
Lemma my_inv_settle n w u s ev f p (b : bool) :
  inv n w u s -> Z.of_nat n < 2 ^ 64 - 1 -> inflight w = Some ev -> ended w = false ->
  subjectPrefix p = prefix -> (own ev -> fate_ok prefix ev f) ->
  inv (S n) (mkWorld (log w) (store w) (at_ w)
      (if b then set_h_gate (ObservePublished ev (h_gate (hd w))) (hd w) else hd w)
      (saved w) p None (ended w) (done_ w ++ [(ev, f)]) (origin w)) u (if b then Spec.step s (GPublished ev) else s).
Proof.
  intros Hi Hn Hin Hend Hp Hf. pose proof (counters_ok _ _ _ _ Hi Hn) as [Hh Ha]. destruct Hi.
  pose proof (cg_sim_step _ _ (GPublished ev) i_sim0 Hh Ha) as Hsim.
  set (w' := mkWorld _ _ _ _ _ _ _ _ _ _). set (s' := if b then _ else _).
  assert (Ew : settled w' = settled w ++ [ev]) by (unfold settled; simpl; by rewrite map_app).
  assert (Hsub : forall l e, e ∈ settled w ++ l -> e ∈ settled w' ++ l)
    by (intros l e; rewrite Ew, !elem_of_app; tauto).
  assert (Hsub0 : forall e, e ∈ settled w -> e ∈ settled w') by (intros e; rewrite Ew, elem_of_app; tauto).
  assert (Es : s_handed s' = s_handed s /\ s_gated s' = s_gated s /\ s_commits s' = s_commits s /\
    s_acked s <= s_acked s' <= s_acked s + (if ownEvent ev then 1 else 0)).
  { unfold s'. simpl. destruct b, (ownEvent ev); simpl; split_and!; done || lia. }
  destruct Es as (E1 & E2 & E3 & E4).
  destruct i_taken0 as (tk & Etk & Hak & Hst). rewrite Hin in Etk. simpl in Etk.
  assert (Hl : Z.of_nat (length (filter own (taken u)))
    = Z.of_nat (length (filter own tk)) + (if ownEvent ev then 1 else 0)).
  { rewrite Etk, filter_app, length_app. destruct (ownEvent ev) eqn:Eo.
    - rewrite filter_cons_True, filter_nil by done. simpl. lia.
    - rewrite filter_cons_False, filter_nil by (unfold own; by rewrite Eo). simpl. lia. }
  assert (Htk : forall e, e ∈ taken u -> own e -> e ∈ settled w').
  { intros e. rewrite Etk, Ew, !elem_of_app. intros [He|He] Ho; [left; by apply Hst|by right]. }
  constructor; rewrite ?E1, ?E2, ?E3; simpl; try done; try lia.
  - by destruct b.
  - unfold s'. by destruct b.
  - exists (taken u). split_and!; [by rewrite app_nil_r|lia|lia|done].
  - intros e He. unfold hist in He. rewrite filter_app, take_app_le in He by lia.
    apply elem_of_take in He as (i & Hi & _). apply list_elem_of_lookup_2, list_elem_of_filter in Hi as [? ?]. by apply Htk.
  - eapply Forall_impl; [exact i_commits0|]. intros c (? & k & Hr & Hk). split; [done|].
    exists k. split; [done|]. eapply my_safe_mono; [|exact Hk]. apply Hsub.
  - intros q Hq. destruct (i_store0 q Hq) as (k & Hr & Hk). exists k. split; [done|].
    by eapply my_safe_mono; [|exact Hk].
  - intros c Hc. pose proof (cursor_ok_mono w _ _ c (Hsub (hist u)) (i_cursor0 c Hc)) as Hk.
    unfold cursor_ok in *. simpl. by destruct b.
  - apply Forall_app. split; [done|]. by constructor.
Qed.

(** Publishing is over: nothing is settled, and nothing will be. *)
Lemma my_inv_over n w u s p (i : option Event) :
  inv n w u s -> i = inflight w \/ i = None -> subjectPrefix p = prefix ->
  inv (S n) (mkWorld (log w) (store w) (at_ w) (hd w) (saved w) p i true (done_ w) (origin w)) u s.
Proof.
  intros [] Hi Hp. constructor; simpl; try done; try lia.
  destruct i_taken0 as (tk & Etk & Hak & _). destruct Hi as [->| ->]; [by exists tk|].
  exists (taken u). split_and!; [by rewrite app_nil_r|lia| |done]. rewrite Etk, filter_app, length_app. lia.
Qed.

Lemma own_id e : own e -> SourceID e <> ""%string.
Proof. unfold own, ownEvent. intros [Hpre _]%andb_true_iff E. by rewrite E in Hpre. Qed.

Lemma my_inv_publish n w u s ev fresh ats p rest r :
  inv n w u s -> Z.of_nat n < 2 ^ 64 - 1 -> inflight w = Some ev -> ended w = false ->
  Publisher.publish fresh ev ats (pubr w) = Some (p, rest, r) ->
  exists s', inv (S n) (finish p ev (fate_of (pubr w) p ats r) w) u s'.
Proof.
  intros Hi Hn Hin Hend Hp. apply publish_result in Hp as [Hs Hf].
  pose proof (i_prefix _ _ _ _ Hi) as Hpre. rewrite Hpre in Hs.
  unfold finish. destruct (fate_of (pubr w) p ats r) as [f|].
  2:{ exists s. rewrite app_nil_r. apply my_inv_over; auto. }
  destruct Hf as [Hx _]. pose proof (explained_ok prefix fresh (pubr w) ev ats f Hpre Hx) as Hok.
  destruct f as [m|ms at'|].
  - eexists. apply (my_inv_settle n w u s ev _ p true Hi Hn Hin Hend Hs). intros ?%own_id. by apply Hok.
  - eexists. apply (my_inv_settle n w u s ev _ p false Hi Hn Hin Hend Hs). intros ?%own_id. by apply Hok.
  - exists s. rewrite app_nil_r. apply my_inv_over; auto.
Qed.

Lemma my_inv_boot n lg st a fs o :
  wf_log base lg ->
  (forall p, os_load st = Ok (Some p) -> exists k, resumes base lg p k /\ safe o lg k (map fst fs)) ->
  Forall (fun x => own x.1 -> fate_ok prefix x.1 x.2) fs ->
  inv n (mkWorld lg st None boot a (NewPublisher prefix) None false fs o) newSubscriber (init true).
Proof.
  intros Hw Hs Hf. constructor; simpl; try done; try lia.
  - apply (cg_sim_init true).
  - exists []. split_and!; [done..|]. intros _ e He. by apply elem_of_nil in He.
  - intros e He. by apply elem_of_nil in He.
Qed.

Lemma my_reachable_inv s0 n w :
  wf_log base [] -> os_load s0 = Ok None -> reachable s0 n w -> Z.of_nat n < 2 ^ 64 - 1 ->
  exists u s, inv n w u s.
Proof.
  intros Hw H0. induction 1 as [|n w w' Hr IH Hstep]; intros Hn.
  { eexists _, _. apply my_inv_boot; [done| |done]. intros p Hp. by rewrite H0 in Hp. }
  destruct IH as (u & s & Hi); [lia|]. assert (Hn' : Z.of_nat n < 2 ^ 64 - 1) by lia. destruct Hstep.
  - eexists _, _. by apply inv_append.
  - eexists _, _. by eapply inv_start.
  - eexists _, _. by apply inv_enter.
  - eexists _, _. by apply inv_leave.
  - edestruct inv_gtid as [s' ?]; [exact Hi|done|]. eauto.
  - eexists _, _. by eapply inv_rows.
  - edestruct inv_row as (u' & s' & ?); [exact Hi|done..|]. eauto.
  - edestruct inv_xid as (u' & s' & ?); [exact Hi|done..|]. eauto.
  - edestruct inv_ddl as (u' & s' & ?); [exact Hi|done..|]. eauto.
  - edestruct inv_rotate as (s' & ?); [exact Hi|done..|]. eauto.
  - eexists _, _. by eapply inv_save.
  - eexists _, _. by eapply my_inv_take.
  - eexists. by eapply my_inv_publish.
  - eexists _, _. apply my_inv_over; [done|by left|apply Hi].
  - eexists _, _. apply my_inv_over; [done|by right|apply Hi].
  - edestruct emitted_other as [u' He]; [exact Hi|done..|]. eexists _, _.
    eapply inv_move; [exact Hi|exact He|done..|]. intros c Hc. rewrite app_nil_r.
    destruct Hi. exact (i_cursor0 c Hc).
  - eexists _, _. destruct Hi. by apply my_inv_boot.
Qed.

(** ** Properties *)

(** C2: the MySQL side delivers at least once, as far as the broker takes it. In
    every reachable state, through any interleaving of binlog writes, handler
    callbacks, saves that succeed or fail, acks, refusals, foreign events,
    cancelled contexts, crashes and restarts, when the store holds an offset in
    front of unit [k], every change the bus accepts (valid JSON) of every unit from
    the origin up to [k] has met the broker under the identity it has on every
    replay: the broker acked it, in full, cut to its key or stripped of its data,
    or it was sent in all three forms and at least three answers said too large.
    The origin is the unit streaming started at when the store was last found
    empty, and it stays while the store holds an offset. *)
Theorem mysql_at_least_once (s0 : T) (n : nat) (w : world T) (p : BinlogPosition) (k : nat) :
  wf_log base [] -> os_load s0 = Ok None -> reachable s0 n w -> Z.of_nat n < 2 ^ 64 - 1 ->
  os_load (store w) = Ok (Some p) -> resumes base (log w) p k ->
  (forall j u, (origin w <= j < k)%nat -> log w !! j = Some u ->
     exists evs, unit_changes u = Some evs /\
       forall ev, ev ∈ evs -> acceptable ev = true ->
       exists e f, (e, f) ∈ done_ w /\ untimed e = ev /\ fate_ok prefix e f) /\
  forall w', step w w' -> origin w' = origin w.
Proof.
  intros Hw H0 Hr Hn Hp Hk. destruct (my_reachable_inv s0 n w Hw H0 Hr Hn) as (u & s & []). split.
  - destruct (i_store0 p Hp) as (k' & Hr' & Hs). rewrite (wl_unique _ _ i_wf0 _ _ _ Hk Hr').
    intros j x Hj Hx. destruct (Hs j x Hj Hx) as (evs & E & Hc). exists evs. split; [done|].
    intros ev Hev Hacc. destruct (Hc ev Hev Hacc) as (e & He & Eu).
    apply list_elem_of_fmap in He as ([e' f] & -> & He). exists e', f. split_and!; [done..|].
    rewrite Forall_forall in i_fates0. apply (i_fates0 _ He). unfold own. simpl in *.
    rewrite <- untimed_own, Eu. pose proof (wl_units _ _ i_wf0) as Hu. rewrite Forall_lookup in Hu.
    pose proof (unit_changes_own _ _ (Hu _ _ Hx) E) as Ho. rewrite Forall_forall in Ho. by apply Ho.
  - intros w' Hs. destruct Hs; try done; [by simpl; rewrite Hp|]. unfold finish. by destruct (fate_of _ _ _ _) as [[]|].
Qed.

(** ** Running schedules *)

(** The next thing the listener does. *)
Definition advance (w : world T) : option (world T) :=
  match at_ w with
  | None => None
  | Some (k, None) => u ← log w !! k; Some (go (k, Some (callbacks u, [])) (hd w) w)
  | Some (k, Some (cbs, ev :: evs)) =>
      match emit 0 [] ev (hd w) with
      | Returned (h, []) => Some (go (k, Some (cbs, evs)) h w)
      | _ => None
      end
  | Some (k, Some ([], [])) => Some (go (S k, None) (hd w) w)
  | Some (k, Some (CGtid lp sz :: cbs, [])) => Some (go (k, Some (cbs, [])) (OnGTID (Some (lp, sz)) (hd w)) w)
  | Some (k, Some (CRows e :: cbs, [])) =>
      match rowIDs e (hd w) with
      | (h, Ok n) => Some (go (k, Some (cbs, rows_events (fun _ => 0) n e)) h w)
      | _ => None
      end
  | Some (k, Some (CXid next :: cbs, [])) =>
      match OnXID 0 0 [] next (hd w) with
      | Returned (h, []) => Some (go (k, Some (cbs, [])) h w)
      | _ => None
      end
  | Some (k, Some (CDDL schema query next :: cbs, [])) =>
      match OnDDL 0 0 [] next schema query (hd w) with
      | Returned (h, []) => Some (go (k, Some (cbs, [])) h w)
      | _ => None
      end
  | Some (k, Some (CRotate next p :: cbs, [])) =>
      Some (go (k, Some (cbs, [])) (OnRotate next p (hd w)) w)
  end.

Inductive action := AStream | ATake | APublish (ats : list attempt) | ASave | ACrash.

Definition exec (w : world T) (a : action) : option (world T) :=
  match a with
  | AStream => advance w
  | ATake =>
      match inflight w, subs (h_service (hd w)) !! pub with
      | None, Some u => match ch u with ev :: _ => Some (take_event ev w) | [] => None end
      | _, _ => None
      end
  | APublish ats =>
      if ended w then None
      else ev ← inflight w;
           '(p, _, r) ← Publisher.publish "" ev ats (pubr w);
           Some (finish p ev (fate_of (pubr w) p ats r) w)
  | ASave =>
      _ ← at_ w;
      let '(sv, _) := saveConfirmedOffset DiskOk (mkSaver (h_gate (hd w)) (saved w) (store w)) in
      Some (saved_as sv w)
  | ACrash => Some (crashed w)
  end.

Fixpoint exec_all (w : world T) (acts : list action) : option (world T) :=
  match acts with [] => Some w | a :: acts => w ← exec w a; exec_all w acts end.

Lemma advance_sound w w' : advance w = Some w' -> step w w'.
Proof.
  unfold advance. destruct (at_ w) as [[k [[[|cb cbs] [|ev evs]]|]]|] eqn:Ea; try done.
  - intros [= <-]. by eapply S_leave.
  - destruct (emit _ _ _ _) as [[h [|]]| |] eqn:E; intros [= <-]. by eapply S_row.
  - destruct cb as [lp sz|e|next|sc q next|next p].
    + intros [= <-]. by eapply S_gtid.
    + destruct (rowIDs _ _) as [h [nm|]] eqn:E; intros [= <-]. by eapply S_rows.
    + destruct (OnXID _ _ _ _ _) as [[h [|]]| |] eqn:E; intros [= <-]. by eapply S_xid.
    + destruct (OnDDL _ _ _ _ _ _ _) as [[h [|]]| |] eqn:E; intros [= <-]. by eapply S_ddl.
    + intros [= <-]. by eapply S_rotate.
  - assert (Hrow : match emit 0 [] ev (hd w) with
                   | Returned (h, []) => Some (go (k, Some (cb :: cbs, evs)) h w)
                   | _ => None
                   end = Some w' -> step w w').
    { destruct (emit _ _ _ _) as [[h [|]]| |] eqn:E; intros [= <-]. by eapply S_row. }
    by destruct cb.
  - destruct (log w !! k) as [u|] eqn:E; [|done]. intros [= <-]. by eapply S_enter.
Qed.

Lemma my_exec_sound w a w' : exec w a = Some w' -> step w w'.
Proof.
  destruct a; cbn [exec]; intros Hx.
  - by apply advance_sound.
  - destruct (inflight w) eqn:E1; [done|]. destruct (subs _ !! pub) as [u|] eqn:E2; [|done].
    destruct (ch u) as [|ev evs] eqn:E3; simplify_eq. by eapply S_take.
  - destruct (ended w) eqn:E; [done|]. destruct (inflight w) as [ev|] eqn:Ei; simplify_eq/=.
    destruct (Publisher.publish _ _ _ _) as [[[p rest] r]|] eqn:Ep; simplify_eq/=. by eapply S_publish.
  - destruct (at_ w) as [c|] eqn:E; simplify_eq/=. destruct (saveConfirmedOffset _ _) as [sv r] eqn:Es.
    simplify_eq. by eapply S_save.
  - simplify_eq. apply S_crash.
Qed.

Lemma my_exec_all_reachable s0 n w acts w' :
  reachable s0 n w -> exec_all w acts = Some w' -> reachable s0 (n + length acts) w'.
Proof.
  revert n w. induction acts as [|a acts IH]; intros n w Hr Hx; simpl in *.
  - simplify_eq. by rewrite Nat.add_0_r.
  - destruct (exec w a) as [w1|] eqn:E; [|done]. simpl in Hx. rewrite Nat.add_succ_r.
    apply (IH (S n) w1); [|done]. eapply R_step; [exact Hr|]. by apply (my_exec_sound w a).
Qed.
End Pipeline.

(** ** Witnesses *)

(** A transaction of one row, written after streaming started at the head of an
    empty binlog; a crash before it is read; a restart from the offset saved at
    first; the row is streamed, settled, acked, and the offset behind it saved. *)
Definition demo_base : BinlogPosition := mkPos "bin.1" 4.
Definition demo_unit : unit_ := UTxn "bin.1" 83 79 [demo_rows] (mkPos "bin.1" 331) (mkPos "bin.1" 331).

Definition demo_started (st : offset_file) (log : list unit_) (o : nat) (fs : list (Event * fate)) (sv : BinlogPosition)
    : world offset_file :=
  mkWorld log st (Some (0%nat, None)) (set_file "bin.1" boot) sv (NewPublisher "cdc") None false fs o.

Definition demo_schedule : list action :=
  [AStream; AStream; AStream; AStream; AStream; AStream; ATake; APublish [demo_large; demo_ack]; ATake; ASave].
Definition demo_world : world offset_file :=
  default (demo_started NoFile [] 0 [] no_pos)
    (exec_all "cdc" (demo_started (Holds demo_base) [demo_unit] 0 [] no_pos) demo_schedule).

Lemma demo_resumes p k : resumes demo_base [demo_unit] p k ->
  (k = 0%nat /\ p = demo_base) \/ (k = 1%nat /\ p = mkPos "bin.1" 331).
Proof.
  intros [[-> ->]|[([|j] & u & -> & Hu & <-)|(u & Hu & Hp)]]; [by left|simplify_eq/=; by right|done|].
  destruct k as [|k]; [|done]. simplify_eq/=. by left.
Qed.

Lemma demo_wf_nil : wf_log demo_base [].
Proof.
  assert (Hr : forall p k, resumes demo_base [] p k -> k = 0%nat /\ p = demo_base).
  { intros p k [[-> ->]|[(j & u & -> & Hu & _)|(u & Hu & _)]]; done. }
  constructor; [constructor|..].
  - intros p k k' [-> _]%Hr [-> _]%Hr. done.
  - done.
  - intros p k [-> ->]%Hr. done.
Qed.

Lemma my_demo_wf : wf_log demo_base [demo_unit].
Proof.
  constructor.
  - constructor; [|done]. split_and!; try done. split_and!; [|done|by left]. constructor; [by exists 300|done].
  - intros p k k' [[-> ->]|[-> ->]]%demo_resumes [[-> E]|[-> E]]%demo_resumes; done.
  - intros p k u [[-> ->]|[-> ->]]%demo_resumes Hu; by simplify_eq/=.
  - intros p k [[-> ->]|[-> ->]]%demo_resumes; done.
Qed.

Definition demo_offline (st : offset_file) (log : list unit_) : world offset_file :=
  mkWorld log st None boot no_pos (NewPublisher "cdc") None false [] 0.

Lemma demo_replay :
  reachable demo_base "cdc" NoFile 4 (demo_started (Holds demo_base) [demo_unit] 0 [] no_pos).
Proof.
  assert (H1 : reachable demo_base "cdc" NoFile 1 (demo_started (Holds demo_base) [] 0 [] demo_base)).
  { eapply R_step; [apply R_init|].
    refine (S_start demo_base "cdc" (demo_offline NoFile []) DiskOk demo_base demo_base
      (Holds demo_base) demo_base 0 _ _ _ _); try done; by left. }
  assert (H2 : reachable demo_base "cdc" NoFile 2 (demo_started (Holds demo_base) [demo_unit] 0 [] demo_base)).
  { eapply R_step; [exact H1|].
    apply (S_append demo_base "cdc" (demo_started (Holds demo_base) [] 0 [] demo_base) demo_unit). exact my_demo_wf. }
  assert (H3 : reachable demo_base "cdc" NoFile 3 (demo_offline (Holds demo_base) [demo_unit])).
  { eapply R_step; [exact H2|].
    apply (S_crash demo_base "cdc" (demo_started (Holds demo_base) [demo_unit] 0 [] demo_base)). }
  eapply R_step; [exact H3|].
    refine (S_start demo_base "cdc" (demo_offline (Holds demo_base) [demo_unit]) DiskOk
      (mkPos "bin.1" 331) demo_base (Holds demo_base) no_pos 0 _ _ _ _); try done.
  - right. left. by exists 0%nat, demo_unit.
  - by left.
Qed.

Lemma my_demo_reachable : reachable demo_base "cdc" NoFile 14 demo_world.
Proof.
  apply (my_exec_all_reachable demo_base "cdc" NoFile 4 _ demo_schedule demo_world demo_replay).
  vm_compute. reflexivity.
Qed.

Lemma mysql_at_least_once_witness :
  os_load (store demo_world) = Ok (Some (mkPos "bin.1" 331)) /\ (origin demo_world < 1)%nat /\
  exists evs, unit_changes demo_unit = Some evs /\
    forall ev, ev ∈ evs -> acceptable ev = true ->
    exists e f, (e, f) ∈ done_ demo_world /\ untimed e = ev /\ fate_ok "cdc" e f.
Proof.
  split; [vm_compute; reflexivity|]. split; [vm_compute; lia|].
  destruct (mysql_at_least_once demo_base "cdc" NoFile 14 demo_world (mkPos "bin.1" 331) 1 demo_wf_nil) as [Hall _].
  - reflexivity.
  - exact my_demo_reachable.
  - simpl. lia.
  - vm_compute. reflexivity.
  - right. left. exists 0%nat, demo_unit. by vm_compute.
  - apply (Hall 0%nat demo_unit); [vm_compute; lia|vm_compute; reflexivity].
Defined.
