(* ===== verification/MysqlProgress.v ===== *)
(** * The MySQL pipeline catches up

    The liveness half of MysqlPipeline.v: the newest boundary the gate knows is
    never behind what the listener has read ([live]), so once everything is
    acked the next save brings the offset to the end of the binlog. *)

From stdpp Require Import base list strings gmap sorting.
From Stdlib Require Import ZArith Lia Ascii Sorting.Sorted.
From S2P Require Import Prelude GoStrings Json Event Service Bus History Publisher CommitGate MysqlListener MysqlBinlog MysqlPipeline.
Import CommitGate.Spec.

Local Open Scope Z_scope.

Section Progress.
Context `{OffsetStore T} (base : BinlogPosition) (prefix : string).
Local Notation inv := (inv base prefix).
Local Notation step := (MysqlPipeline.step base prefix).
Local Notation reachable := (reachable base prefix).
Local Notation at_call := (at_call base prefix).
Local Notation confirm_safe := (confirm_safe base prefix).
Local Notation my_reachable_inv := (my_reachable_inv base prefix).

(** ** Catching up *)

(** The newest boundary the gate knows of. *)
Definition boundary (g : commitGate) : BinlogPosition :=
  match last (commits g) with Some c => pos c | None => confirmable g end.

Lemma boundary_committed p g : boundary (Committed p g) = if resumable p then p else boundary g.
Proof.
  unfold Committed. destruct (resumable p); simpl; [|done]. unfold boundary. simpl.
  destruct (last (commits g)) as [c|] eqn:El; [|by rewrite last_snoc].
  apply lookup_last_index in El as [l ->]. destruct (_ =? _); [|by rewrite last_snoc].
  by rewrite insert_last, last_snoc.
Qed.

Lemma last_default (c : pendingCommit) cs b :
  match last (c :: cs) with Some c => pos c | None => b end
  = match last cs with Some c => pos c | None => pos c end.
Proof.
  destruct cs as [|d cs]; [done|]. rewrite last_cons_cons. destruct (last (d :: cs)) eqn:E; [done|].
  by apply last_None in E.
Qed.

Lemma settle_boundary a cs conf rest conf' :
  settle_loop a cs conf = (rest, conf') ->
  (match last rest with Some c => pos c | None => conf' end)
  = (match last cs with Some c => pos c | None => conf end).
Proof.
  revert conf. induction cs as [|c cs IH]; intros conf; cbn [settle_loop]; [by intros [= <- <-]|].
  destruct (a <? lastHanded c); [by intros [= <- <-]|]. intros ->%IH. by rewrite last_default.
Qed.

Lemma boundary_confirm g : boundary (Confirmable g).1.1 = boundary g.
Proof.
  unfold Confirmable, boundary. destruct (settle_loop _ _ _) as [cs conf] eqn:E. simpl.
  by eapply settle_boundary.
Qed.

Lemma boundary_published ev g : boundary (ObservePublished ev g) = boundary g.
Proof. unfold ObservePublished. by destruct (ownEvent ev). Qed.

(** When everything handed over is acked, the newest boundary is the one
    offered. *)
Lemma drained_offers g s : sim g s -> s_gated s = true -> s_acked s = s_handed s ->
  (Confirmable g).1.2 = boundary g.
Proof.
  intros [E1 E2 E3 _ Hle _] Hg Ha. unfold Confirmable, ackedCount, boundary. rewrite E1, Hg, E2, Ha, <- E3.
  clear - Hle. revert Hle. generalize (handed g) as a, (confirmable g) as conf.
  induction (commits g) as [|c cs IH]; intros a conf Hle; [done|].
  apply Forall_cons in Hle as [Hc Hle]. cbn [settle_loop]. replace (a <? lastHanded c) with false by lia.
  rewrite last_default. apply (IH a (pos c) Hle).
Qed.

Lemma sim_drained g s : sim g s -> acked g = handed g -> s_acked s = s_handed s.
Proof. intros [] E. congruence. Qed.

(** Where the newest boundary lies, seen from the cursor. *)
Definition behind (k : nat) (c : option (list callback * list Event)) : nat :=
  match c with Some ([], _) => S k | _ => k end.

Definition bounded (w : world T) (k : nat) (c : option (list callback * list Event)) : Prop :=
  (forall evs, c = Some ([], evs) -> evs = []) /\
  let p := boundary (h_gate (hd w)) in File p = ""%string \/ resumes base (log w) p (behind k c).

Record live (w : world T) : Prop := mkLive {
  lv_saved : File (saved w) <> ""%string -> os_load (store w) = Ok (Some (saved w));
  lv_idle : at_ w = None -> File (boundary (h_gate (hd w))) = ""%string;
  lv_cursor : Forall recorded (log w) -> forall k c, at_ w = Some (k, c) -> bounded w k c
}.

Lemma live_move w a h :
  live w -> (a = None -> File (boundary (h_gate h)) = ""%string) ->
  (Forall recorded (log w) -> forall k c, a = Some (k, c) -> bounded (move a h w) k c) -> live (move a h w).
Proof. intros [] Hi Hc. by constructor. Qed.

(** A call of unit [k] that leaves the boundary alone, or records the unit's
    start or, as the last call, its end. *)
Lemma live_call n w u s k cb cbs c h :
  inv n w u s -> live w -> at_ w = Some (k, Some (cb :: cbs, [])) ->
  (forall x, log w !! k = Some x -> recorded x -> forall evs, c = Some ([], evs) -> evs = []) ->
  (forall x, log w !! k = Some x -> recorded x ->
     (boundary (h_gate h) = boundary (h_gate (hd w)) /\ behind k c = k) \/
     (u_start x = Some (boundary (h_gate h)) /\ behind k c = k) \/
     (boundary (h_gate h) = u_end x /\ behind k c = S k)) ->
  live (go (k, c) h w).
Proof.
  intros Hi Hl Ha Hp Hb. apply live_move; [done..|]. intros Hrec k' c' [= <- <-].
  destruct (at_call _ _ _ _ _ _ _ Hi Ha) as (x & made & Hx & _).
  assert (Hr : recorded x) by (by eapply Forall_lookup_1).
  split; [by eapply Hp|]. simpl. destruct (Hb x Hx Hr) as [[-> ->]|[[Hs ->]|[-> ->]]].
  - destruct Hl. destruct (lv_cursor0 Hrec _ _ Ha) as [_ Hres]. exact Hres.
  - right. by eapply resumes_start.
  - right. by apply resumes_end.
Qed.

(** The gate of the handler after each call. *)
Lemma OnGTID_boundary lp sz h :
  boundary (h_gate (OnGTID (Some (lp, sz)) h)) = boundary (h_gate h) \/
  boundary (h_gate (OnGTID (Some (lp, sz)) h)) = mkPos (currentFile h) (lp - sz).
Proof.
  unfold OnGTID. simpl. destruct (_ || _); [by left|]. destruct (sz <=? lp); [|by left]. simpl.
  rewrite boundary_committed. destruct (resumable _); auto.
Qed.

Lemma emit_boundary now ev h h' acts :
  emit now [] ev h = Returned (h', acts) -> boundary (h_gate h') = boundary (h_gate h).
Proof.
  unfold emit. destruct (HandleEvent _ _ _ _) as [[[s a] ok]| |]; intros [= <- _]. by destruct (ok && _).
Qed.

Lemma live_append w x :
  live w ->
  live (appended x w).
Proof.
  intros []. constructor; simpl; try done. intros [Hrec _]%Forall_app k c Hc.
  destruct (lv_cursor0 Hrec k c Hc) as [Hp Hb]. split; [done|]. simpl.
  destruct Hb as [?|Hb]; [by left|right]. by apply resumes_app.
Qed.

Lemma live_start w disk m p st sv k :
  wf_log base (log w) -> live w -> at_ w = None -> resumes base (log w) m (length (log w)) ->
  resolveStartPosition (Some (store w)) disk (Ok m) (saved w) = (Ok p, Some st, sv) ->
  live (started st k p sv w).
Proof.
  intros Hw [] Ha Hm Hr. unfold resolveStartPosition in Hr. simpl in Hr.
  assert (Hcur : forall w', hd w' = set_file (File p) (hd w) -> bounded w' k None).
  { intros w' E. split; [done|]. left. rewrite E. by apply lv_idle0. }
  destruct (os_load (store w)) as [[q|]|] eqn:El; simplify_eq/=.
  - constructor; simpl; try done; [by rewrite El|]. intros _ k' c' [= <- <-]. by apply Hcur.
  - destruct (os_save disk m (store w)) as [f r] eqn:Es. simplify_eq/=.
    constructor; simpl; try done; [|intros _ k' c' [= <- <-]; by apply Hcur].
    destruct r as [[]|e].
    + intros _. rewrite (os_load_save _ _ _ _ Es). by rewrite (proj1 (wl_clean _ _ Hw _ _ Hm)).
    + intros Hf. specialize (lv_saved0 Hf). done.
Qed.

Lemma live_save w u s n disk c sv r :
  inv n w u s -> live w -> at_ w = Some c ->
  saveConfirmedOffset disk (mkSaver (h_gate (hd w)) (saved w) (store w)) = (sv, r) ->
  live (saved_as sv w).
Proof.
  intros Hi Hl Ha Hs. pose proof (confirm_safe _ _ _ _ Hi) as Hc.
  pose proof (sim_confirm _ _ (i_sim base prefix _ _ _ _ Hi)) as [_ Hp]. pose proof (boundary_confirm (h_gate (hd w))) as Hb.
  unfold saveConfirmedOffset in Hs. simpl in Hs.
  destruct (Confirmable (h_gate (hd w))) as [[g p] ok] eqn:E. simpl in Hp, Hb. subst p.
  assert (Eok : ok = negb (bool_decide (File (confirm s) = ""%string))).
  { unfold Confirmable in E. destruct (settle_loop _ _ _). by simplify_eq. }
  assert (Hg : s_gate sv = g /\ (File (savedOffset sv) <> ""%string -> os_load (s_file sv) = Ok (Some (savedOffset sv)))).
  { destruct (negb ok || bool_decide (confirm s = saved w)) eqn:Eb; simplify_eq/=; [by split; [|apply Hl]|].
    destruct (os_save disk (confirm s) (store w)) as [f [[]|e]] eqn:Es; simplify_eq/=; split; try done.
    - intros Hf. destruct (Hc Hf) as (k & Hr & _). rewrite (os_load_save _ _ _ _ Es).
      by rewrite (proj1 (wl_clean _ _ (i_wf base prefix _ _ _ _ Hi) _ _ Hr)).
    - intros Hf. rewrite (os_load_failed _ _ _ _ _ Es). by apply Hl. }
  destruct Hg as [Hg Hsv]. destruct Hl. constructor; simpl; [done|by rewrite Hg, Hb|].
  intros Hrec k c' Hc'. destruct (lv_cursor0 Hrec k c' Hc') as [H1 H2]. split; [done|]. simpl. by rewrite Hg, Hb.
Qed.

Lemma live_gate w p i b fs x g :
  live w -> boundary g = boundary (h_gate (hd w)) ->
  live (mkWorld (log w) (store w) (at_ w) (mkHandler x g (currentFile (hd w)) (txn (hd w)) (txnRows (hd w)))
          (saved w) p i b fs (origin w)).
Proof.
  intros [] Hg. constructor; simpl; [done|by rewrite Hg|]. intros Hrec k c Hc.
  destruct (lv_cursor0 Hrec k c Hc) as [H1 H2]. split; [done|]. simpl. by rewrite Hg.
Qed.

(** The publisher does not touch the boundaries. *)
Lemma live_still w p i b fs :
  live w -> live (mkWorld (log w) (store w) (at_ w) (hd w) (saved w) p i b fs (origin w)).
Proof. intros []. by constructor. Qed.

Lemma live_finish w p ev f : live w -> live (finish p ev f w).
Proof.
  intros Hl. unfold finish. destruct f as [[]|]; try by apply live_still.
  apply live_gate; [done|apply boundary_published].
Qed.

Lemma live_step n w w' u s : inv n w u s -> live w -> step w w' -> live w'.
Proof.
  intros Hi Hl Hs. destruct Hs.
  - by apply live_append.
  - eapply live_start; [apply Hi|done..].
  - apply live_move; [done..|]. intros Hrec k' c' [= <- <-].
    destruct Hl. destruct (lv_cursor0 Hrec _ _ H0) as [_ Hb]. split; [by destruct u0|]. simpl in *. by destruct u0.
  - apply live_move; [done..|]. intros Hrec k' c' [= <- <-].
    destruct Hl. destruct (lv_cursor0 Hrec _ _ H0) as [_ Hb]. by split.
  - destruct (at_call _ _ _ _ _ _ _ Hi H0) as (x & made & Hx & _ & (_ & Hn & Hst) & Ef & _).
    eapply live_call; [done..| |].
    + intros y Hy _ evs [= -> _]. done.
    + intros y Hy _. simplify_eq. destruct cbs; [done|].
      destruct (OnGTID_boundary lp sz (hd w)) as [->| ->]; [by left|]. right. left. by rewrite Ef.
  - destruct (at_call _ _ _ _ _ _ _ Hi H0) as (x & made & Hx & _ & (Hn & _) & _).
    eapply live_call; [done..| |].
    + intros y Hy _ evs [= -> _]. done.
    + intros y Hy _. left. destruct cbs; [done|]. split; [|done]. rewrite rowIDs_name in H1.
      destruct (name_rows _ _ _ _) as [[]|]; by simplify_eq/=.
  - apply live_move; [done..|]. intros Hrec k' c' [= <- <-]. destruct Hl.
    destruct (lv_cursor0 Hrec _ _ H0) as [Hp Hb]. destruct cbs as [|cb cbs]; [by specialize (Hp _ eq_refl)|].
    split; [done|]. simpl in *. by rewrite (emit_boundary _ _ _ _ _ H1).
  - destruct (at_call _ _ _ _ _ _ _ Hi H0) as (x & made & Hx & _ & (-> & Hrx & _) & _).
    eapply live_call; [done..|by intros y _ _ evs [= <-]|]. intros y Hy Hr. simplify_eq. right. right. split; [|done].
    unfold OnXID in H1. destruct (HandleEvent _ _ _ _) as [[[s1 a1] ok1]| |]; simplify_eq/=.
    rewrite boundary_committed, (Hrx Hr). by destruct Hr as [-> _].
  - destruct (at_call _ _ _ _ _ _ _ Hi H0) as (x & made & Hx & _ & (-> & -> & _) & _).
    eapply live_call; [done..|by intros y _ _ evs [= <-]|]. intros y Hy [Hr _]. simplify_eq. right. right. split; [|done].
    unfold OnDDL in H1. destruct (emit _ _ _ _) as [[h1 a1]| |]; simplify_eq/=.
    rewrite boundary_committed. by rewrite Hr.
  - destruct (at_call _ _ _ _ _ _ _ Hi H0) as (x & made & Hx & _ & (-> & Hu) & _).
    eapply live_call; [done..|by intros y _ _ evs [= <-]|]. intros y Hy [Hr _]. simplify_eq. right. right. split; [|done].
    unfold OnRotate. simpl. rewrite boundary_committed, <- Hu. by rewrite Hr.
  - by eapply live_save.
  - by apply live_still, live_gate.
  - by apply live_finish.
  - by apply live_still.
  - by apply live_still.
  - by apply live_gate.
  - destruct Hl. by constructor.
Qed.

Lemma reachable_live s0 n w :
  wf_log base [] -> os_load s0 = Ok None -> reachable s0 n w -> Z.of_nat n < 2 ^ 64 - 1 -> live w.
Proof.
  intros Hw H0. induction 1 as [|n w w' Hr IH Hstep]; intros Hn; [by constructor|].
  destruct (my_reachable_inv s0 n w Hw H0 Hr ltac:(lia)) as (u & s & Hi).
  eapply live_step; [exact Hi| |exact Hstep]. apply IH. lia.
Qed.

(** ** Properties *)

(** C4: the offset does not stay behind. When the listener has read the whole
    binlog, everything it handed over since it started has been acked (so no event
    was given up on), the units of the binlog end in positions that can be resumed
    from (none is a compressed payload), some unit was streamed since the process
    started, and the disk works, the next save leaves the position behind the last
    unit in the store. *)
Theorem offset_catches_up (s0 : T) (n : nat) (w : world T) (sv : saver T) (r : result store_error ()) :
  wf_log base [] -> os_load s0 = Ok None -> reachable s0 n w -> Z.of_nat n < 2 ^ 64 - 1 ->
  (forall p st, (os_save DiskOk p st).2 = Ok tt) -> Forall recorded (log w) ->
  at_ w = Some (length (log w), None) -> acked (h_gate (hd w)) = handed (h_gate (hd w)) ->
  File (boundary (h_gate (hd w))) <> ""%string ->
  saveConfirmedOffset DiskOk (mkSaver (h_gate (hd w)) (saved w) (store w)) = (sv, r) ->
  step w (saved_as sv w) /\
  exists p, os_load (store (saved_as sv w)) = Ok (Some p) /\ resumes base (log w) p (length (log w)).
Proof.
  intros Hw H0 Hr Hn Hdisk Hrec Ha Hdone Hne Es.
  destruct (reachable_live s0 n w Hw H0 Hr Hn) as [Lsaved _ Lcur].
  destruct (Lcur Hrec _ _ Ha) as [_ [?|Hres]]; [done|]. simpl in Hres.
  destruct (my_reachable_inv s0 n w Hw H0 Hr Hn) as (u & s & []).
  pose proof (drained_offers _ _ i_sim i_gated (sim_drained _ _ i_sim Hdone)) as Hoff.
  split; [by eapply S_save|]. exists (boundary (h_gate (hd w))). split; [|done].
  simpl. unfold saveConfirmedOffset in Es. simpl in Es.
  destruct (Confirmable (h_gate (hd w))) as [[g p] ok] eqn:E. simpl in Hoff. subst p.
  assert (ok = true) as ->.
  { unfold Confirmable in E. destruct (settle_loop _ _ _). simplify_eq. by rewrite bool_decide_eq_false_2. }
  simpl in Es. case_bool_decide as Hsv; simplify_eq/=; [rewrite Hsv in *; by apply Lsaved|].
  specialize (Hdisk (boundary (h_gate (hd w))) (store w)).
  destruct (os_save DiskOk _ _) as [f r'] eqn:Ef. simpl in Hdisk. subst r'. simplify_eq/=.
  rewrite (os_load_save _ _ _ _ Ef). by rewrite (proj1 (wl_clean _ _ i_wf _ _ Hres)).
Qed.
End Progress.

(** ** Witness *)

(** The same run before the save. *)
Definition demo_acked : world offset_file :=
  default (demo_started NoFile [] 0 [] no_pos)
    (exec_all "cdc" (demo_started (Holds demo_base) [demo_unit] 0 [] no_pos) (take 9 demo_schedule)).
Definition demo_saver : saver offset_file :=
  (saveConfirmedOffset DiskOk (mkSaver (h_gate (hd demo_acked)) (saved demo_acked) (store demo_acked))).1.

Lemma offset_catches_up_witness :
  log demo_acked = [demo_unit] /\
  MysqlPipeline.step demo_base "cdc" demo_acked (saved_as demo_saver demo_acked) /\
  exists p, os_load (store (saved_as demo_saver demo_acked)) = Ok (Some p) /\
    resumes demo_base (log demo_acked) p (length (log demo_acked)).
Proof.
  split; [vm_compute; reflexivity|].
  apply (offset_catches_up demo_base "cdc" NoFile 13 demo_acked demo_saver
    (saveConfirmedOffset DiskOk (mkSaver (h_gate (hd demo_acked)) (saved demo_acked) (store demo_acked))).2
    demo_wf_nil).
  - reflexivity.
  - apply (my_exec_all_reachable demo_base "cdc" NoFile 4 _ (take 9 demo_schedule) demo_acked demo_replay).
    vm_compute. reflexivity.
  - simpl. lia.
  - reflexivity.
  - replace (log demo_acked) with [demo_unit] by (vm_compute; reflexivity).
    constructor; [split; reflexivity|constructor].
  - vm_compute. reflexivity.
  - vm_compute. reflexivity.
  - vm_compute. discriminate.
  - unfold demo_saver. apply surjective_pairing.
Defined.
