(* ===== verification/MysqlIds.v ===== *)
(** * The message ids of the MySQL pipeline

    Every event the handler hands over is a change of a unit of the binlog under
    that unit's identity ([sourced]), and the identities the handler composes
    from positions, row indexes and the count of rows seen in the transaction
    are distinct across the binlog ([ids_distinct]); so the message id the
    broker deduplicates by stands for exactly one change. *)

From stdpp Require Import base list strings gmap sorting.
From Stdlib Require Import ZArith Lia Ascii Sorting.Sorted.
From S2P Require Import Prelude GoStrings Json Event Service Bus History Publisher CommitGate MysqlListener MysqlBinlog MysqlPipeline.
Import CommitGate.Spec.

Local Open Scope Z_scope.

(** ** The changes of a binlog, by place *)

(** What a sequence of calls announces, up to a row that cannot be placed, at
    which canal stops. *)
Fixpoint announced (file : string) (st : BinlogPosition * Z) (cbs : list callback) : list Event :=
  match cbs with
  | [] => []
  | cb :: cbs =>
      match interp_cb file st cb with
      | None => []
      | Some (evs, st) => evs ++ announced file st cbs
      end
  end.

(** Change [i] of unit [k]. *)
Definition change (us : list unit_) (k i : nat) : option Event :=
  u ← us !! k; announced (u_file u) (no_pos, 0) (callbacks u) !! i.

Lemma announced_prefix file st made todo evs st' :
  interp_cbs file st made = Some (evs, st') ->
  announced file st (made ++ todo) = evs ++ announced file st' todo.
Proof.
  revert st evs. induction made as [|cb made IH]; intros st evs; simpl; [by intros [= <- <-]|].
  destruct (interp_cb file st cb) as [[e0 s0]|]; [|done].
  destruct (interp_cbs file s0 made) as [[e1 s1]|] eqn:E; [|done]. intros [= <- <-].
  by rewrite (IH _ _ E), app_assoc.
Qed.

(** A unit sets the naming state first, or does not use it. *)
Lemma announced_unit u st : announced (u_file u) st (callbacks u) = announced (u_file u) (no_pos, 0) (callbacks u).
Proof. by destruct u. Qed.

Lemma change_app us x k i e : change us k i = Some e -> change (us ++ [x]) k i = Some e.
Proof.
  unfold change. destruct (us !! k) as [u|] eqn:E; [|done]. by rewrite (lookup_app_l_Some _ _ _ _ E).
Qed.

(** ** Every own event is a change of the binlog *)

Definition from_log (us : list unit_) (e : Event) : Prop :=
  ownEvent e = true -> exists k i, change us k i = Some (untimed e).

Section Ids.
Context `{OffsetStore T} (base : BinlogPosition) (prefix : string).
Local Notation inv := (inv base prefix).
Local Notation step := (MysqlPipeline.step base prefix).
Local Notation reachable := (reachable base prefix).

(** What passed through the publisher's channel, and what it is through with. *)
Definition seen (w : world T) (u : subscriber) : list Event := settled w ++ taken u ++ ch u.

Definition sourced (w : world T) : Prop :=
  forall u, subs (h_service (hd w)) !! pub = Some u -> Forall (from_log (log w)) (seen w u).

(** The cursor and the gate do not matter. *)
Lemma sourced_same w w' :
  h_service (hd w') = h_service (hd w) -> log w' = log w -> done_ w' = done_ w -> sourced w -> sourced w'.
Proof. unfold sourced, seen, settled. by intros -> -> ->. Qed.

Lemma sourced_append w x : sourced w -> sourced (appended x w).
Proof.
  intros Hs u Hu. eapply Forall_impl; [by apply Hs|]. intros e He Ho. destruct (He Ho) as (k & i & Hc).
  exists k, i. by apply change_app.
Qed.

(** One more event on the channel. *)
Lemma sourced_handle n w u s now ev svc acts ok a h :
  inv n w u s -> sourced w -> from_log (log w) ev ->
  HandleEvent now [] (h_service (hd w)) ev = Returned (svc, acts, ok) -> h_service h = svc ->
  sourced (move a h w).
Proof.
  intros Hi Hs Hev He Eh v Hv. simpl in Hv. rewrite Eh in Hv.
  apply (bus_handle _ _ u) in He as (_ & _ & Hb); [|apply Hi].
  rewrite (bus_sub _ _ Hb) in Hv. injection Hv as <-.
  specialize (Hs u (bus_sub _ _ (i_bus base prefix _ _ _ _ Hi))). unfold seen, settled in *. simpl.
  destruct ok; [|done]. simpl. rewrite !Forall_app in *. naive_solver.
Qed.

Lemma sourced_emit n w u s now ev h acts a h' :
  inv n w u s -> sourced w -> from_log (log w) ev -> emit now [] ev (hd w) = Returned (h, acts) ->
  h_service h' = h_service h -> sourced (move a h' w).
Proof.
  intros Hi Hs Hev He Eh. unfold emit in He. destruct (HandleEvent _ _ _ _) as [[[sv a1] ok]| |] eqn:E; simplify_eq/=.
  eapply sourced_handle; [exact Hi|done|exact Hev|exact E|]. rewrite Eh. by destruct (ok && _).
Qed.

Lemma inside_from_log us k u h l todo pending ev :
  us !! k = Some u -> inside h l u todo pending -> ev ∈ pending -> from_log us ev.
Proof.
  intros Hu (made & st0 & evs & Hc & Hi & _) Hev _.
  apply (announced_prefix _ _ _ todo) in Hi. rewrite <- Hc, announced_unit in Hi.
  assert (Hin : untimed ev ∈ announced (u_file u) (no_pos, 0) (callbacks u)).
  { rewrite Hi. apply elem_of_app. left. apply elem_of_app. right. by apply list_elem_of_fmap_2. }
  apply list_elem_of_lookup in Hin as [i Hin]. exists k, i. unfold change. by rewrite Hu.
Qed.

Lemma ddl_from_log n w u s k clk schema query next cbs ev :
  inv n w u s -> at_ w = Some (k, Some (CDDL schema query next :: cbs, [])) ->
  ev = ddl_event clk schema query next -> from_log (log w) ev.
Proof.
  intros Hi Ha -> _. destruct (at_call base prefix _ _ _ _ _ _ _ Hi Ha) as (x & made & Hx & _ & _ & _ & _ & Hin).
  destruct Hin as (made' & st0 & evs & Hc & Hin & _). apply (announced_prefix _ _ _ (CDDL schema query next :: cbs)) in Hin.
  rewrite <- Hc, announced_unit in Hin.
  assert (Hel : ddl_event 0 schema query next ∈ announced (u_file x) (no_pos, 0) (callbacks x)).
  { rewrite Hin. apply elem_of_app. right. simpl. constructor. }
  apply list_elem_of_lookup in Hel as [i Hel]. exists k, i. unfold change. by rewrite Hx.
Qed.

Lemma sourced_take n w u s ev :
  inv n w u s -> sourced w -> sourced (take_event ev w).
Proof.
  intros Hi Hs v Hv. simpl in Hv. pose proof (bus_sub _ _ (i_bus base prefix _ _ _ _ Hi)) as Hb.
  rewrite lookup_alter_eq, Hb in Hv. injection Hv as <-. specialize (Hs u Hb).
  unfold seen, settled in *. simpl. by rewrite dequeue_history.
Qed.

Lemma sourced_finish n w u s p ev f :
  inv n w u s -> inflight w = Some ev -> sourced w -> sourced (finish p ev f w).
Proof.
  intros Hi Hin Hs v Hv. pose proof (bus_sub _ _ (i_bus base prefix _ _ _ _ Hi)) as Hb. specialize (Hs u Hb).
  assert (v = u) as ->. { destruct f as [[]|]; simpl in Hv; rewrite Hb in Hv; by injection Hv. }
  destruct (i_taken base prefix _ _ _ _ Hi) as (tk & Et & _). rewrite Hin in Et. simpl in Et.
  assert (Hev : from_log (log w) ev).
  { rewrite Forall_forall in Hs. apply Hs. unfold seen. rewrite Et. set_solver. }
  unfold seen, settled in *. rewrite !Forall_app in Hs.
  destruct f as [[]|]; simpl; rewrite ?map_app, !Forall_app; naive_solver.
Qed.

Lemma sourced_step n w w' u s : inv n w u s -> sourced w -> step w w' -> sourced w'.
Proof.
  intros Hi Hs Hst. destruct Hst; try (by eapply sourced_same; [..|exact Hs]).
  - by apply sourced_append.
  - eapply sourced_same; [..|exact Hs]; try done. simpl. unfold OnGTID. simpl. by repeat case_match.
  - rewrite rowIDs_name in H1. eapply sourced_same; [..|exact Hs]; try done.
    destruct (name_rows _ _ _ _) as [[]|]; by simplify_eq/=.
  - eapply sourced_emit; [exact Hi|done| |exact H1|done].
    destruct (i_cursor base prefix _ _ _ _ Hi _ H0) as (_ & x & Hx & Hin).
    eapply inside_from_log; [exact Hx|exact Hin|]. constructor.
  - unfold OnXID in H1. destruct (HandleEvent _ _ _ _) as [[[sv a1] ok]| |] eqn:E; simplify_eq/=.
    eapply sourced_handle; [exact Hi|done| |exact E|done]. intros Ho. done.
  - pose proof (at_call base prefix _ _ _ _ _ _ _ Hi H0) as (x & made & Hx & Hw & (_ & -> & _) & _).
    unfold OnDDL in H1. rewrite bool_decide_eq_false_2 in H1 by (apply Hw).
    destruct (emit _ _ _ _) as [[h1 a]| |] eqn:E; simplify_eq/=.
    eapply sourced_emit; [exact Hi|done| |exact E|done]. by eapply ddl_from_log.
  - by eapply sourced_take.
  - by eapply sourced_finish.
  - eapply sourced_handle; [exact Hi|done| |done|done]. intros Ho. by rewrite Ho in H0.
  - intros u' Hu. simpl in Hu. assert (u' = newSubscriber) as -> by (vm_compute in Hu; by injection Hu).
    pose proof (bus_sub _ _ (i_bus base prefix _ _ _ _ Hi)) as Hb. specialize (Hs u Hb).
    unfold seen, settled in *. simpl. rewrite !Forall_app in *. naive_solver.
Qed.

Lemma reachable_sourced s0 n w :
  wf_log base [] -> os_load s0 = Ok None -> reachable s0 n w -> Z.of_nat n < 2 ^ 64 - 1 -> sourced w.
Proof.
  intros Hw H0. induction 1 as [|n w w' Hr IH Hstep]; intros Hn.
  - intros u' Hu. simpl in Hu. assert (u' = newSubscriber) as -> by (vm_compute in Hu; by injection Hu). done.
  - destruct (my_reachable_inv base prefix s0 n w Hw H0 Hr ltac:(lia)) as (u & s & Hi).
    eapply sourced_step; [exact Hi| |exact Hstep]. apply IH. lia.
Qed.
End Ids.

(** ** The identities of a binlog *)

(** How many events a rows event gives. *)
Definition row_total (e : RowsEvent) : Z :=
  match re_action e with OtherAction => 0 | _ => rowCount e end.

(** The identities of the rows of a transaction in file [f] whose GTID event ends
    at [lp], [first] rows into it. *)
Fixpoint txn_ids (f : string) (lp first : Z) (rows : list RowsEvent) : list identity :=
  match rows with
  | [] => []
  | e :: rows =>
      match re_header e with
      | None => []
      | Some p =>
          if negb (p =? 0) then map (RowAt (mkPos f p)) (seqZ 0 (row_total e)) ++ txn_ids f lp first rows
          else if lp =? 0 then []
          else map (RowInTxn (mkPos f lp)) (seqZ first (row_total e)) ++ txn_ids f lp (first + rowCount e) rows
      end
  end.

Definition unit_ids (u : unit_) : list identity :=
  match u with
  | UTxn f lp _ rows _ _ => txn_ids f lp 0 rows
  | UDDL _ _ _ _ _ next => [DDLAt next]
  | URotate _ _ _ => []
  end.

(** The positions the identities are built from: one for each rows event that
    has its own, one for the transaction, one for a statement. *)
Definition row_marks (f : string) (rows : list RowsEvent) : list identity :=
  flat_map (fun e => match re_header e with
                     | Some p => if p =? 0 then [] else [RowAt (mkPos f p) 0]
                     | None => []
                     end) rows.

Definition marks (u : unit_) : list identity :=
  match u with
  | UTxn f lp _ rows _ _ => (if lp =? 0 then [] else [RowInTxn (mkPos f lp) 0]) ++ row_marks f rows
  | UDDL _ _ _ _ _ next => [DDLAt next]
  | URotate _ _ _ => []
  end.

(** The server gives no position twice, and names its files without a colon. *)
Definition well_marked (us : list unit_) : Prop :=
  NoDup (flat_map marks us) /\ Forall (fun u => no_char ":" (u_file u) = true) us.

(** *** Distinct *)

#[export] Instance identity_eq_dec : EqDecision identity.
Proof. solve_decision. Defined.

Definition mark (x : identity) : identity :=
  match x with RowAt p _ => RowAt p 0 | RowInTxn p _ => RowInTxn p 0 | DDLAt p => DDLAt p end.

Lemma NoDup_app_1 {A} (l k : list A) : NoDup (l ++ k) -> NoDup l /\ NoDup k /\ forall x, x ∈ l -> x ∈ k -> False.
Proof. intros (Hl & Hd & Hk)%NoDup_app. split_and!; [done..|]. naive_solver. Qed.

Lemma NoDup_seq (f : Z -> identity) a n : (forall i j, f i = f j -> i = j) -> NoDup (map f (seqZ a n)).
Proof. intros Hf. apply NoDup_fmap_2; [intros i j; apply Hf|apply NoDup_seqZ]. Qed.

Lemma row_total_le e : row_total e <= rowCount e.
Proof. unfold row_total, rowCount. destruct (re_action e); try lia. Qed.

(** An identity of a transaction: of a rows event with a position, or of the
    transaction from [first] on. *)
Lemma txn_ids_elem f lp first rows x : x ∈ txn_ids f lp first rows ->
  (exists p r, x = RowAt (mkPos f p) r /\ mark x ∈ row_marks f rows) \/
  (exists k, x = RowInTxn (mkPos f lp) k /\ first <= k /\ lp <> 0).
Proof.
  revert first. induction rows as [|e rows IH]; intros first; simpl; [by intros ?%elem_of_nil|].
  destruct (re_header e) as [p|]; [|by intros ?%elem_of_nil].
  destruct (Z.eqb_spec p 0); simpl.
  - destruct (Z.eqb_spec lp 0); [by intros ?%elem_of_nil|]. intros [Hx|Hx]%elem_of_app.
    + apply list_elem_of_fmap in Hx as (k & -> & Hk). apply elem_of_seqZ in Hk. right. exists k. split_and!; [done|lia|done].
    + destruct (IH _ Hx) as [?|(k & -> & Hk & _)]; [by left|]. right. exists k. split_and!; [done| |done].
      assert (0 <= rowCount e); [|lia]. unfold rowCount. destruct (re_action e); try lia. apply Z.quot_pos; lia.
  - intros [Hx|Hx]%elem_of_app.
    + apply list_elem_of_fmap in Hx as (r & -> & Hr). left. exists p, r. split; [done|]. simpl. constructor.
    + destruct (IH _ Hx) as [(q & r & -> & Hq)|?]; [left|by right]. exists q, r. split; [done|]. by constructor.
Qed.

Lemma txn_ids_NoDup f lp first rows : NoDup (row_marks f rows) -> NoDup (txn_ids f lp first rows).
Proof.
  revert first. induction rows as [|e rows IH]; intros first; simpl; [constructor|].
  destruct (re_header e) as [p|]; [|constructor].
  destruct (Z.eqb_spec p 0) as [->|Hp]; simpl.
  - intros Hn. destruct (lp =? 0); [constructor|]. apply NoDup_app. split_and!; [by apply NoDup_seq; congruence| |by apply IH].
    intros x Hx Hx'. apply list_elem_of_fmap in Hx as (k & -> & Hk). apply elem_of_seqZ in Hk.
    pose proof (row_total_le e). destruct (txn_ids_elem _ _ _ _ _ Hx') as [(q & r & ? & _)|(j & [= ->] & ? & _)]; [done|lia].
  - intros [Hm Hn]%NoDup_cons. apply NoDup_app. split_and!; [by apply NoDup_seq; congruence| |by apply IH].
    intros x Hx Hx'. apply list_elem_of_fmap in Hx as (k & -> & _).
    destruct (txn_ids_elem _ _ _ _ _ Hx') as [(q & r & _ & ?)|(j & ? & _)]; done.
Qed.

Lemma unit_ids_marked u x : x ∈ unit_ids u -> mark x ∈ marks u.
Proof.
  destruct u as [f lp sz rows xid fin|f lp sz sc q next|]; simpl; [|by intros ->%list_elem_of_singleton; constructor|by intros ?%elem_of_nil].
  intros [(p & r & -> & Hm)|(k & -> & _ & Hl)]%txn_ids_elem; apply elem_of_app; [by right|left].
  apply Z.eqb_neq in Hl. rewrite Hl. constructor.
Qed.

Lemma unit_ids_NoDup u : NoDup (marks u) -> NoDup (unit_ids u).
Proof.
  destruct u as [f lp sz rows xid fin|f lp sz sc q next|]; simpl; [|done..].
  intros (_ & ? & _)%NoDup_app_1. by apply txn_ids_NoDup.
Qed.

(** The identity and the place determine each other. *)
Lemma ids_distinct us k k' i i' u u' x :
  NoDup (flat_map marks us) -> us !! k = Some u -> us !! k' = Some u' ->
  unit_ids u !! i = Some x -> unit_ids u' !! i' = Some x -> k = k' /\ i = i'.
Proof.
  revert k k'. induction us as [|v us IH]; [done|]. intros k k' (Hv & Hus & Hd)%NoDup_app_1.
  assert (Hrest : forall j y, us !! j = Some y -> x ∈ unit_ids y -> mark x ∈ flat_map marks us).
  { intros j y Hy ?%unit_ids_marked. apply list_elem_of_In, in_flat_map. exists y.
    split; apply list_elem_of_In; [by eapply list_elem_of_lookup_2|done]. }
  destruct k as [|k], k' as [|k']; simpl; intros Hu Hu' Hi Hi'; simplify_eq.
  - split; [done|]. eapply NoDup_lookup; [by apply unit_ids_NoDup|done..].
  - exfalso. apply (Hd (mark x)); [|eapply Hrest; [done|]; by eapply list_elem_of_lookup_2].
    apply unit_ids_marked. by eapply list_elem_of_lookup_2.
  - exfalso. apply (Hd (mark x)); [|eapply Hrest; [done|]; by eapply list_elem_of_lookup_2].
    apply unit_ids_marked. by eapply list_elem_of_lookup_2.
  - destruct (IH k k' Hus Hu Hu' Hi Hi') as [-> ->]. done.
Qed.

(** *** The ids the handler gives *)

Definition named_by (n : naming) (f : Z -> identity) : Prop :=
  forall r, row_id n r = Some (identity_string (f r)).

Lemma named_position file p : named_by (ByPosition (file +:+ ":" +:+ itoa p)) (RowAt (mkPos file p)).
Proof. intros r. done. Qed.

Lemma named_txn p first : named_by (ByTxn (BinlogPosition_String p) first) (fun r => RowInTxn p (first + r)).
Proof. intros r. unfold row_id, identity_string. simpl. by rewrite !str_app_cons, str_app_nil_l. Qed.

Lemma row_list_ids clock n f e typ raw i rows : named_by n f ->
  map SourceID (row_list clock n e typ raw i rows) = map (fun r => identity_string (f r)) (seqZ i (Z.of_nat (length rows))).
Proof.
  intros Hn. revert i. induction rows as [|row rows IH]; intros i; simpl; [done|].
  rewrite (seqZ_cons i) by lia. simpl. unfold named at 1. rewrite Hn. simpl. f_equal. rewrite IH. do 2 f_equal; lia.
Qed.

Lemma pair_list_ids clock n f e : named_by n f -> forall m rows i, (length rows <= m)%nat ->
  map SourceID (pair_list clock n e i rows)
  = map (fun r => identity_string (f r)) (seqZ i (Z.quot (Z.of_nat (length rows)) 2)).
Proof.
  intros Hn m. induction m as [|m IH]; intros [|a [|b rows]] i Hm; simpl in Hm; try lia; try done.
  assert (E : Z.quot (Z.of_nat (length (a :: b :: rows))) 2 = Z.succ (Z.quot (Z.of_nat (length rows)) 2)).
  { simpl length. rewrite !Z.quot_div_nonneg by lia. replace (Z.of_nat _) with (Z.of_nat (length rows) + 1 * 2) by lia.
    rewrite Z.div_add by lia. lia. }
  rewrite E. assert (0 <= Z.quot (Z.of_nat (length rows)) 2) by (apply Z.quot_pos; lia).
  rewrite (seqZ_cons i) by lia. cbn [pair_list map]. unfold named at 1. rewrite Hn. simpl. f_equal.
  rewrite IH by lia. do 2 f_equal; lia.
Qed.

Lemma rows_ids clock n f e : named_by n f ->
  map SourceID (rows_events clock n e) = map (fun r => identity_string (f r)) (seqZ 0 (row_total e)).
Proof.
  intros Hn. unfold rows_events, row_total, rowCount.
  destruct (re_action e); [by apply row_list_ids|by eapply pair_list_ids|by apply row_list_ids|done].
Qed.

Lemma map_shift f first n :
  map (fun r => identity_string (f (first + r))) (seqZ 0 n) = map identity_string (map f (seqZ first n)).
Proof.
  rewrite map_map. replace (seqZ first n) with (map (Z.add first) (seqZ 0 n)); [by rewrite map_map|].
  etrans; [apply (fmap_add_seqZ first 0)|]. f_equal. lia.
Qed.

Lemma txn_announced f lp first rows xid :
  f <> ""%string -> Forall (fun e => is_Some (re_header e)) rows ->
  map SourceID (announced f (if lp =? 0 then no_pos else mkPos f lp, first) (map CRows rows ++ [CXid xid]))
  = map identity_string (txn_ids f lp first rows).
Proof.
  intros Hf. revert first. induction rows as [|e rows IH]; intros first Hh; [done|].
  apply Forall_cons in Hh as [[p Hp] Hh]. simpl. unfold name_rows. rewrite Hp, bool_decide_eq_false_2 by done.
  destruct (p =? 0); simpl.
  - destruct (lp =? 0) eqn:El; simpl; [done|]. rewrite bool_decide_eq_false_2 by done.
    rewrite !map_app, (rows_ids _ _ _ _ (named_txn _ _)), (IH _ Hh). f_equal. apply map_shift.
  - rewrite !map_app, (rows_ids _ _ _ _ (named_position _ _)), (IH _ Hh), map_map. done.
Qed.

Lemma unit_announced u : wf_unit u ->
  map SourceID (announced (u_file u) (no_pos, 0) (callbacks u)) = map identity_string (unit_ids u).
Proof.
  intros (Hf & _ & Hu). destruct u as [f lp sz rows xid fin|f lp sz sc q next|f next p]; simpl in *; [|f_equal|done].
  - apply txn_announced; [done|apply Hu].
  - unfold identity_string, BinlogPosition_String. cbn [identity_pos identity_tail]. by rewrite !str_app_assoc.
Qed.

Lemma unit_ids_file u x : wf_unit u -> x ∈ unit_ids u -> File (identity_pos x) = u_file u.
Proof.
  intros (_ & _ & Hu). destruct u as [f lp sz rows xid fin|f lp sz sc q next|f next p]; simpl in *.
  - by intros [(p & r & -> & _)|(k & -> & _)]%txn_ids_elem.
  - by intros ->%list_elem_of_singleton.
  - by intros ?%elem_of_nil.
Qed.

(** A change's source id spells its identity. *)
Lemma change_id us k i e : Forall wf_unit us -> change us k i = Some e ->
  exists u x, us !! k = Some u /\ unit_ids u !! i = Some x /\ SourceID e = identity_string x /\
    File (identity_pos x) = u_file u.
Proof.
  intros Hw. unfold change. destruct (us !! k) as [u|] eqn:Hu; [|done]. simpl. intros He.
  assert (Hwu : wf_unit u) by (by eapply Forall_lookup_1).
  assert (Hs : map SourceID (announced (u_file u) (no_pos, 0) (callbacks u)) !! i = Some (SourceID e))
    by (by rewrite list_lookup_fmap, He).
  rewrite unit_announced, list_lookup_fmap in Hs by done.
  destruct (unit_ids u !! i) as [x|] eqn:Hx; [|done]. injection Hs as Hs. exists u, x. split_and!; try done.
  apply (unit_ids_file u x Hwu). by eapply list_elem_of_lookup_2.
Qed.

Lemma change_id_identifies us k i e k' i' e' :
  Forall wf_unit us -> well_marked us -> change us k i = Some e -> change us k' i' = Some e' ->
  SourceID e = SourceID e' -> k = k' /\ i = i'.
Proof.
  intros Hw [Hm Hc] H1 H2 E. destruct (change_id _ _ _ _ Hw H1) as (u & x & Hu & Hx & Ex & Fx).
  destruct (change_id _ _ _ _ Hw H2) as (u' & x' & Hu' & Hx' & Ex' & Fx').
  assert (x = x') as <-.
  { apply identity_inj; [rewrite Fx|rewrite Fx'|congruence]; by eapply (Forall_lookup_1 (fun u => no_char ":" (u_file u) = true)). }
  by eapply ids_distinct.
Qed.

(** ** Property *)

(** C28: the message id identifies the change, on the MySQL side. Of two messages
    the broker acked for the listener's own events, whatever crashes and replays
    lie between them, each is for a change of the binlog, and the ids are equal
    exactly when it is the same change: the same unit and the same row or
    statement in it; provided the server gives no position twice and its file
    names hold no colon. So a change streamed again is dropped as a duplicate,
    and different changes never are, also rows of a compressed transaction, which
    are told apart by the count of rows before them. *)
Theorem mysql_message_id_identifies `{OffsetStore T} (base : BinlogPosition) (prefix : string)
    (s0 : T) (n : nat) (w : world T) :
  wf_log base [] -> os_load s0 = Ok None -> reachable base prefix s0 n w -> Z.of_nat n < 2 ^ 64 - 1 ->
  well_marked (log w) ->
  forall e1 m1 e2 m2,
    (e1, Delivered m1) ∈ done_ w -> (e2, Delivered m2) ∈ done_ w ->
    ownEvent e1 = true -> ownEvent e2 = true ->
  exists k1 i1 k2 i2,
    change (log w) k1 i1 = Some (untimed e1) /\ change (log w) k2 i2 = Some (untimed e2) /\
    (msgID m1 = msgID m2 <-> k1 = k2 /\ i1 = i2).
Proof.
  intros Hw H0 Hr Hn Hm e1 m1 e2 m2 H1 H2 O1 O2.
  destruct (my_reachable_inv base prefix s0 n w Hw H0 Hr Hn) as (u & s & []).
  pose proof (reachable_sourced base prefix s0 n w Hw H0 Hr Hn u (bus_sub _ _ i_bus)) as Hs.
  rewrite Forall_forall in i_fates. rewrite Forall_forall in Hs.
  assert (Hg : forall e m, (e, Delivered m) ∈ done_ w -> ownEvent e = true ->
    (exists k i, change (log w) k i = Some (untimed e)) /\ msgID m = (prefix +:+ "/" +:+ SourceID e)%string).
  { intros e m He Ho. split.
    - apply Hs; [|done]. apply elem_of_app. left. by apply (list_elem_of_fmap_2 fst _ (e, Delivered m)).
    - by destruct (i_fates _ He Ho) as (x & _ & ->). }
  destruct (Hg _ _ H1 O1) as [(k1 & i1 & C1) ->], (Hg _ _ H2 O2) as [(k2 & i2 & C2) ->].
  exists k1, i1, k2, i2. split_and!; [done..|]. split.
  - intros E. do 2 apply str_app_inj_l in E. eapply change_id_identifies; [apply i_wf|done|exact C1|exact C2|exact E].
  - intros [-> ->]. rewrite C1 in C2. apply (inj Some) in C2. do 2 f_equal.
    change (SourceID (untimed e1) = SourceID (untimed e2)). by rewrite C2.
Qed.

(** ** Witness *)

Lemma mysql_message_id_identifies_witness :
  let w := demo_world in
  exists e m, (e, Delivered m) ∈ done_ w /\ ownEvent e = true /\
  exists k1 i1 k2 i2,
    change (log w) k1 i1 = Some (untimed e) /\ change (log w) k2 i2 = Some (untimed e) /\
    (msgID m = msgID m <-> k1 = k2 /\ i1 = i2).
Proof.
  assert (Hx : exists e m, done_ demo_world !! 0%nat = Some (e, Delivered m) /\ ownEvent e = true)
    by (eexists _, _; split; [vm_compute; reflexivity|vm_compute; reflexivity]).
  destruct Hx as (e & m & Hx%list_elem_of_lookup_2 & Ho). exists e, m. split; [exact Hx|]. split; [exact Ho|].
  refine (mysql_message_id_identifies demo_base "cdc" NoFile 14 demo_world demo_wf_nil _ _ _ _ e m e m Hx Hx Ho Ho).
  - reflexivity.
  - exact my_demo_reachable.
  - simpl. lia.
  - replace (log demo_world) with [demo_unit] by (vm_compute; reflexivity). split.
    + apply (bool_decide_unpack _). vm_compute. exact I.
    + repeat constructor.
Defined.
