(* ===== verification/MysqlDump.v ===== *)
(** * internal/mysql/snapshot_dump.go: rows from a mysqldump file

    The file is its lines as bufio.Scanner delivers them, and whether the scan
    ended with an error (a line over the limit). *)

From stdpp Require Import base list strings gmap.
From Stdlib Require Import ZArith Lia Ascii.
From S2P Require Import Prelude GoStrings Json Escape Event CommitGate.

Local Open Scope Z_scope.

(** ** The value list of an INSERT *)

Definition quote_c : Z := 39.
Definition backslash_c : Z := 92.

Definition snoc (s : string) (a : ascii) : string := s +:+ String a EmptyString.

Fixpoint values_loop (s : string) (tuples : list (list string)) (current : list string)
    (value : string) (inString escaped : bool) : list (list string) :=
  match s with
  | EmptyString => tuples
  | String c s =>
      let k := code c in
      if escaped then values_loop s tuples current (snoc value c) inString false
      else if (k =? backslash_c) && inString then values_loop s tuples current (snoc value c) inString true
      else if k =? quote_c then values_loop s tuples current value (negb inString) false
      else if inString then values_loop s tuples current (snoc value c) inString false
      else if k =? 40 then values_loop s tuples [] "" inString false
      else if k =? 44 then values_loop s tuples (current ++ [value]) "" inString false
      else if k =? 41 then
        values_loop s (tuples ++ [current ++ [value]]) (current ++ [value]) "" inString false
      else values_loop s tuples current value inString false
  end.

Definition parseValuesList (s : string) : list (list string) := values_loop s [] [] "" false false.

(** The value loop of [tupleToJSON], at value [i]. *)
Fixpoint tuple_loop (i : nat) (values : list string) (sb : string) : string :=
  match values with
  | [] => sb
  | v :: values =>
      let sb := if (0 <? i)%nat then sb +:+ ", " else sb in
      let sb := sb +:+ dquote +:+ "col_" +:+ itoa (Z.of_nat i) +:+ dquote +:+ ":" in
      let sb := if bool_decide (v = "NULL"%string) then sb +:+ "null"
                else sb +:+ dquote +:+ EscapeString v +:+ dquote in
      tuple_loop (S i) values sb
  end.

Definition tupleToJSON (values : list string) : string := tuple_loop 0 values "{" +:+ "}".

(** ** The regular expressions *)

(** What follows [p] in [s], if [s] starts with it. *)
Fixpoint after_prefix (p s : string) : option string :=
  match p, s with
  | EmptyString, _ => Some s
  | String a p, String b s => if Ascii.eqb a b then after_prefix p s else None
  | String _ _, EmptyString => None
  end.

(** The longest prefix of bytes that satisfy [f], and the rest. *)
Fixpoint span (f : Z -> bool) (s : string) : string * string :=
  match s with
  | EmptyString => (EmptyString, EmptyString)
  | String a t => if f (code a) then let '(u, v) := span f t in (String a u, v) else (EmptyString, s)
  end.

Definition is_blank (c : Z) : bool := (c =? 32) || ((9 <=? c) && (c <=? 10)) || ((12 <=? c) && (c <=? 13)).

(** [MASTER_LOG_FILE='([^']+)',\s*MASTER_LOG_POS=(\d+)] at the start of [s]. *)
Definition binlogPos_here (s : string) : option (string * string) :=
  s ← after_prefix ("MASTER_LOG_FILE=" +:+ byte1 39) s;
  let '(file, s) := span (fun c => negb (c =? 39)) s in
  if bool_decide (file = ""%string) then None
  else
    s ← after_prefix (byte1 39 +:+ ",") s;
    let '(_, s) := span is_blank s in
    s ← after_prefix "MASTER_LOG_POS=" s;
    let '(digits, _) := span is_digit s in
    if bool_decide (digits = ""%string) then None else Some (file, digits).

(** The leftmost match. *)
Fixpoint binlogPosRegex (s : string) : option (string * string) :=
  match binlogPos_here s with
  | Some m => Some m
  | None => match s with EmptyString => None | String _ s => binlogPosRegex s end
  end.

(** [^INSERT INTO `([^`]+)` VALUES ]: the table and what follows. *)
Definition insertRegex (s : string) : option (string * string) :=
  s ← after_prefix ("INSERT INTO " +:+ byte1 96) s;
  let '(table, s) := span (fun c => negb (c =? 96)) s in
  if bool_decide (table = ""%string) then None
  else s ← after_prefix (byte1 96 +:+ " VALUES ") s; Some (table, s).

(** [strconv.ParseUint(digits, 10, 32)] with its error ignored: an overflow
    gives the largest value. *)
Fixpoint digits_value (v : Z) (s : string) : Z :=
  match s with EmptyString => v | String a s => digits_value (v * 10 + (code a - 48)) s end.
Definition parse_uint32 (s : string) : Z := Z.min (digits_value 0 s) (2 ^ 32 - 1).

(** ** The file *)

Section File.
Context (clock : nat -> Z) (schema : string).

(** One line: the position after it and the events it hands to the handler. *)
Definition dump_line (n : nat) (line : string) (p : BinlogPosition) : BinlogPosition * list Event :=
  match binlogPosRegex line with
  | Some (file, digits) => (mkPos file (parse_uint32 digits), [])
  | None =>
      match insertRegex line with
      | Some (table, rest) =>
          (p, map (fun t => NewEvent (clock n) Insert schema table (tupleToJSON t) "INSERT" "")
                (parseValuesList rest))
      | None => (p, [])
      end
  end.

Fixpoint dump_lines (n : nat) (lines : list string) (p : BinlogPosition) : BinlogPosition * list Event :=
  match lines with
  | [] => (p, [])
  | l :: lines =>
      let '(p, evs) := dump_line n l p in
      let '(p, evs') := dump_lines (S n) lines p in (p, evs ++ evs')
  end.

(** [ParseMysqlDumpFile]: the events handed over, the position, and whether the
    scan failed. *)
Definition ParseMysqlDumpFile (lines : list string) (scanErr : bool)
    : list Event * BinlogPosition * bool :=
  let '(p, evs) := dump_lines 0 lines no_pos in (evs, p, scanErr).

End File.

(** ** Lemmas *)

(** A byte with no meaning outside a string, and one that a string holds
    verbatim. *)
Definition inert (a : ascii) : bool :=
  negb ((code a =? 39) || (code a =? 40) || (code a =? 44) || (code a =? 41)).
Definition verbatim (a : ascii) : bool := negb ((code a =? 39) || (code a =? 92)).

Fixpoint all_chars (f : ascii -> bool) (s : string) : bool :=
  match s with EmptyString => true | String a s => f a && all_chars f s end.

Lemma values_inert v s ts cur val :
  all_chars inert v = true ->
  values_loop (v +:+ s) ts cur val false false = values_loop s ts cur val false false.
Proof.
  induction v as [|a v IH]; [done|]. rewrite str_app_cons. cbn [all_chars values_loop].
  intros [Ha Hv]%andb_true_iff. unfold inert in Ha. rewrite !negb_orb in Ha.
  unfold quote_c, backslash_c. rewrite andb_false_r.
  replace (code a =? 39) with false by lia. replace (code a =? 40) with false by lia.
  replace (code a =? 44) with false by lia. replace (code a =? 41) with false by lia. by apply IH.
Qed.

Lemma values_quoted v s ts cur val :
  all_chars verbatim v = true ->
  values_loop (v +:+ s) ts cur val true false = values_loop s ts cur (val +:+ v) true false.
Proof.
  revert val. induction v as [|a v IH]; intros val; [by rewrite str_app_nil_r|].
  rewrite str_app_cons. cbn [all_chars values_loop]. intros [Ha Hv]%andb_true_iff.
  unfold verbatim in Ha. rewrite !negb_orb in Ha. unfold quote_c, backslash_c.
  replace (code a =? 92) with false by lia. replace (code a =? 39) with false by lia. simpl.
  rewrite IH by done. unfold snoc. by rewrite str_app_assoc, str_app_cons.
Qed.

(** A quoted value as mysqldump writes it, and a tuple of them. *)
Definition sql_quote (v : string) : string := byte1 39 +:+ v +:+ byte1 39.

Fixpoint sql_values (vs : list string) : string :=
  match vs with
  | [] => ")"
  | v :: vs => "," +:+ sql_quote v +:+ sql_values vs
  end.
Definition sql_tuple (vs : list string) : string :=
  match vs with [] => "()" | v :: vs => "(" +:+ sql_quote v +:+ sql_values vs end.

Fixpoint sql_tuples (ts : list (list string)) : string :=
  match ts with
  | [] => ";"
  | [t] => sql_tuple t +:+ ";"
  | t :: ts => sql_tuple t +:+ "," +:+ sql_tuples ts
  end.

Lemma values_quote v s ts cur :
  all_chars verbatim v = true ->
  values_loop (sql_quote v +:+ s) ts cur "" false false = values_loop s ts cur v false false.
Proof.
  intros Hv. unfold sql_quote, byte1. autorewrite with str.
  cbn [values_loop]. rewrite code_chr by lia. simpl.
  rewrite values_quoted by done. cbn [values_loop]. rewrite code_chr by lia. simpl.
  by rewrite str_app_nil_l.
Qed.

Lemma values_comma s ts cur val :
  values_loop (String "," s) ts cur val false false = values_loop s ts (cur ++ [val]) "" false false.
Proof. done. Qed.
Lemma values_open s ts cur val :
  values_loop (String "(" s) ts cur val false false = values_loop s ts [] "" false false.
Proof. done. Qed.

Lemma values_rest vs s ts cur val :
  Forall (fun v => all_chars verbatim v = true) vs ->
  values_loop (sql_values vs +:+ s) ts cur val false false
  = values_loop s (ts ++ [cur ++ val :: vs]) (cur ++ val :: vs) "" false false.
Proof.
  intros H. revert cur val. induction H as [|v vs Hv _ IH]; intros cur val; cbn [sql_values].
  - by rewrite str_app_cons, str_app_nil_l.
  - rewrite str_app_cons, str_app_nil_l, str_app_cons, str_app_assoc.
    rewrite values_comma, values_quote by done. rewrite IH. by rewrite <- !app_assoc.
Qed.

Lemma values_tuple v vs s ts cur val :
  Forall (fun v => all_chars verbatim v = true) (v :: vs) ->
  values_loop (sql_tuple (v :: vs) +:+ s) ts cur val false false
  = values_loop s (ts ++ [v :: vs]) (v :: vs) "" false false.
Proof.
  intros [Hv Hvs]%Forall_cons. unfold sql_tuple. rewrite str_app_cons, str_app_nil_l, str_app_cons, str_app_assoc.
  rewrite values_open, values_quote by done. by rewrite values_rest.
Qed.

Lemma tuple_loop_open i vs sb :
  open_ok maxNestingDepth 0 i sb ->
  open_ok maxNestingDepth 0 (i + length vs) (tuple_loop i vs sb).
Proof.
  revert i sb. induction vs as [|v vs IH]; intros i sb Ho; cbn [tuple_loop length].
  { by rewrite Nat.add_0_r. }
  rewrite Nat.add_succ_r. apply (IH (S i)).
  set (val := if bool_decide (v = "NULL"%string) then "null"%string else dquote +:+ EscapeString v +:+ dquote).
  match goal with |- open_ok _ _ _ ?s =>
    replace s with (sb +:+ sep i +:+ member ("col_" +:+ itoa (Z.of_nat i)) val) end.
  - apply open_member; [done| |].
    + apply body_app; [by intros stk|]. apply body_itoa.
    + unfold val. case_bool_decide; [apply value_null|apply value_string, body_escape].
  - unfold val, member. case_bool_decide; destruct i; simpl; by rewrite ?str_app_assoc.
Qed.

(** ** Properties *)

(** The JSON of a dumped row is valid whatever the values hold. *)
Theorem tupleToJSON_valid (values : list string) : json_valid (tupleToJSON values) = true.
Proof.
  unfold tupleToJSON. eapply (value_valid _ 1).
  - unfold maxNestingDepth. lia.
  - apply (open_close _ 0 (0 + length values)), tuple_loop_open, open_start.
Qed.

(** Quoted values are read back exactly: parsing the value list that
    mysqldump writes for rows of string values (without quotes or backslashes
    in them) gives those rows. *)
Theorem parseValuesList_quoted (ts : list (list string)) :
  Forall (fun t => t <> [] /\ Forall (fun v => all_chars verbatim v = true) t) ts ->
  parseValuesList (sql_tuples ts) = ts.
Proof.
  intros H. unfold parseValuesList.
  enough (E : forall acc cur val, values_loop (sql_tuples ts) acc cur val false false = acc ++ ts) by apply E.
  induction H as [|t ts [Hne Ht] Hts IH]; intros acc cur val.
  { simpl. by rewrite app_nil_r. }
  destruct t as [|v vs]; [done|]. destruct ts as [|t' ts]; cbn [sql_tuples].
  - rewrite values_tuple by done. done.
  - rewrite values_tuple, str_app_cons, str_app_nil_l by done.
    rewrite values_comma, IH. by rewrite <- app_assoc.
Qed.

(** An unquoted value is lost: whatever number, NULL or literal a row holds
    outside quotes, the parser reads it as the empty string, so a dumped number
    or NULL becomes an empty text in the event. *)
Theorem unquoted_value_lost (v : string) :
  all_chars inert v = true ->
  parseValuesList ("(" +:+ v +:+ ")") = [[""%string]] /\
  tupleToJSON [""%string] = ("{" +:+ member "col_0" (dquote +:+ dquote) +:+ "}")%string.
Proof.
  intros Hv. split; [|vm_compute; reflexivity]. unfold parseValuesList. rewrite str_app_cons, str_app_nil_l.
  rewrite values_open. by rewrite values_inert.
Qed.

(** ** Witnesses *)

Lemma parseValuesList_quoted_witness :
  let ts := [["Alice"; "a@x"]; ["Bob"; ""]]%string in parseValuesList (sql_tuples ts) = ts.
Proof. apply parseValuesList_quoted. repeat constructor; discriminate. Defined.

Lemma unquoted_value_lost_witness :
  parseValuesList "(99.99)" = [[""%string]] /\
  tupleToJSON [""%string] = ("{" +:+ member "col_0" (dquote +:+ dquote) +:+ "}")%string.
Proof. apply (unquoted_value_lost "99.99"). reflexivity. Defined.
