(* ===== verification/MysqlStart.v ===== *)
(** * internal/mysql/listener.go and tls.go: starting and stopping

    [NewListener], [Start] with the snapshot and the canal configuration it
    builds, [Stop], the saver goroutine, and the TLS configuration.  canal and
    crypto/x509 are not under src/: whether a PEM text holds a certificate,
    whether canal can be created and how its stream ends are arguments.
    [net.SplitHostPort] and [regexp.QuoteMeta] of the standard library are
    written out. *)

From stdpp Require Import base list strings gmap.
From Stdlib Require Import ZArith Lia Ascii.
From S2P Require Import Prelude GoStrings Config Json Event Service History CommitGate MysqlListener MysqlDump.

Local Open Scope Z_scope.

(** ** tls.go *)

(** The text before and after the first [c], and the last. *)
Fixpoint first_split (c : ascii) (s : string) : option (string * string) :=
  match s with
  | EmptyString => None
  | String a s =>
      if Ascii.eqb a c then Some (""%string, s)
      else '(x, y) ← first_split c s; Some (String a x, y)
  end.

Fixpoint last_split (c : ascii) (s : string) : option (string * string) :=
  match s with
  | EmptyString => None
  | String a s =>
      match last_split c s with
      | Some (x, y) => Some (String a x, y)
      | None => if Ascii.eqb a c then Some (""%string, s) else None
      end
  end.

(** [net.SplitHostPort]: the host, unless the address is malformed. *)
Definition SplitHostPort (hostport : string) : option string :=
  match last_split ":" hostport with
  | None => None                                       (* missing port *)
  | Some (before, port) =>
      let plain := if no_char ":" before && no_char "[" hostport && no_char "]" hostport
                   then Some before else None in
      match hostport with
      | EmptyString => plain
      | String a rest =>
          if negb (Ascii.eqb a "[") then plain
          else
            match first_split "]" rest with
            | None => None
            | Some (host, tail) =>
                if bool_decide (tail = String ":" port) && no_char "[" host && no_char "[" port
                   && no_char "]" port
                then Some host else None
            end
      end
  end.

Record tls_config := mkTLS { RootCAs : string; ServerName : string; MinVersion : string }.

Inductive tls_error := ErrNoServerCA | ErrNoHostName.

(** [hasCerts] is [AppendCertsFromPEM] on an empty pool. *)
Definition serverTLS (hasCerts : string -> bool) (caPEM addr : string) : result tls_error tls_config :=
  if bool_decide (caPEM = ""%string) || negb (hasCerts caPEM) then Err ErrNoServerCA
  else
    let host := match SplitHostPort addr with Some h => h | None => addr end in
    if bool_decide (host = ""%string) then Err ErrNoHostName
    else Ok (mkTLS caPEM host "TLS12").

(** ** The canal configuration *)

(** The bytes of a regular expression that [regexp.QuoteMeta] escapes. *)
Definition special (a : ascii) : bool :=
  existsb (Ascii.eqb a) ["\"; "."; "+"; "*"; "?"; "("; ")"; "|"; "["; "]"; "{"; "}"; "^"; "$"]%char.

Fixpoint QuoteMeta (s : string) : string :=
  match s with
  | EmptyString => EmptyString
  | String a s => if special a then String "\" (String a (QuoteMeta s)) else String a (QuoteMeta s)
  end.

Definition tableRegex (schema table : string) : string :=
  "^" +:+ QuoteMeta schema +:+ "\." +:+ QuoteMeta table +:+ "$".

Record canal_config := mkCanal {
  cc_TLSConfig : option tls_config;      (* nil in the default configuration *)
  cc_Addr : string;
  cc_User : string;
  cc_Password : string;
  cc_Flavor : string;
  cc_ServerID : Z;
  cc_DumpExecutionPath : string;
  cc_ParseTime : bool;
  cc_UseDecimal : bool;
  cc_IncludeTableRegex : list string
}.

Definition buildCanalConfig (hasCerts : string -> bool) (cfg : MySQLConfig) : result tls_error canal_config :=
  match serverTLS hasCerts (my_CACert cfg) (my_Host cfg) with
  | Err e => Err e
  | Ok tls =>
      Ok (mkCanal (Some tls) (my_Host cfg) (my_Username cfg) (my_Password cfg) "mysql" (generateServerID (my_Host cfg))
            "" true true (map (tableRegex (my_Schema cfg)) (my_Tables cfg)))
  end.

(** ** The listener *)

Inductive start_error :=
| AlreadyRunning
| TLSError (e : tls_error)
| BackupFileRequired
| DumpError
| StoreError (e : store_error)
| CanalError.

Section Listener.
Context `{OffsetStore T}.

(** [l_service] and [l_gate] are shared with the handler; once [Start] built the
    handler it carries them. *)
Record Listener := mkListener {
  l_cfg : MySQLConfig;
  l_offsetStore : option T;
  l_canal : option canal_config;
  l_handler : eventHandler;
  l_running : bool;
  l_savedOffset : BinlogPosition;
  l_failed : option string                (* the channel holds one error *)
}.

Definition l_gate (l : Listener) : commitGate := h_gate (l_handler l).
Definition l_service (l : Listener) : Service := h_service (l_handler l).
Definition set_handler (h : eventHandler) (l : Listener) : Listener :=
  mkListener (l_cfg l) (l_offsetStore l) (l_canal l) h (l_running l) (l_savedOffset l) (l_failed l).
Definition set_store (st : option T) (l : Listener) : Listener :=
  mkListener (l_cfg l) st (l_canal l) (l_handler l) (l_running l) (l_savedOffset l) (l_failed l).
Definition set_saved (p : BinlogPosition) (l : Listener) : Listener :=
  mkListener (l_cfg l) (l_offsetStore l) (l_canal l) (l_handler l) (l_running l) p (l_failed l).
Definition set_running (b : bool) (l : Listener) : Listener :=
  mkListener (l_cfg l) (l_offsetStore l) (l_canal l) (l_handler l) b (l_savedOffset l) (l_failed l).
Definition set_canal (c : canal_config) (l : Listener) : Listener :=
  mkListener (l_cfg l) (l_offsetStore l) (Some c) (l_handler l) (l_running l) (l_savedOffset l) (l_failed l).
Definition set_failed (e : string) (l : Listener) : Listener :=
  mkListener (l_cfg l) (l_offsetStore l) (l_canal l) (l_handler l) (l_running l) (l_savedOffset l) (Some e).

(** [NewListener]; [open] is [NewFileOffsetStore]. *)
Definition NewListener (open : string -> T) (cfg : MySQLConfig) (service : Service) : Listener :=
  mkListener cfg
    (if bool_decide (my_OffsetFile cfg = ""%string) then None else Some (open (my_OffsetFile cfg)))
    None (mkHandler service newCommitGate "" no_pos 0) false no_pos None.

(** [PublishedObserver]: enables gating; the callback is [ObservePublished]. *)
Definition PublishedObserver (l : Listener) : Listener :=
  set_handler (set_h_gate (Enable (h_gate (l_handler l))) (l_handler l)) l.

(** The answers of the outside world to one [Start]. *)
Record start_world := mkStart {
  sw_now : Z;
  sw_clock : nat -> Z;
  sw_dump : option (list string * bool);   (* the backup file and whether its scan fails *)
  sw_disk : disk_answer * disk_answer;     (* the snapshot's save and the first offset's *)
  sw_canal : bool;
  sw_master : result store_error BinlogPosition
}.

Fixpoint handle_all (now : Z) (acts : list act) (s : Service) (evs : list Event)
    : outcome (Service * list act) :=
  match evs with
  | [] => Returned (s, acts)
  | ev :: evs => '(s, acts, _) ← HandleEvent now acts s ev; handle_all now acts s evs
  end.

Definition runSnapshot (w : start_world) (acts : list act) (l : Listener)
    : outcome (Listener * list act * result start_error unit) :=
  if bool_decide (my_SnapshotMode (l_cfg l) = "backup_file"%string) then
    if bool_decide (my_SnapshotBackupFile (l_cfg l) = ""%string)
    then Returned (l, acts, Err BackupFileRequired)
    else
      match sw_dump w with
      | None => Returned (l, acts, Err DumpError)
      | Some (lines, scanErr) =>
          let '(evs, pos, failed) := ParseMysqlDumpFile (sw_clock w) (my_Schema (l_cfg l)) lines scanErr in
          '(s, acts) ← handle_all (sw_now w) acts (l_service l) evs;
          let l := set_handler (set_h_service s (l_handler l)) l in
          if failed : bool then Returned (l, acts, Err DumpError)
          else
            match l_offsetStore l with
            | Some st =>
                if bool_decide (File pos = ""%string) then Returned (l, acts, Ok tt)
                else
                  let '(st, r) := os_save (sw_disk w).1 pos st in
                  Returned (set_store (Some st) l, acts,
                            match r with Ok _ => Ok tt | Err e => Err (StoreError e) end)
            | None => Returned (l, acts, Ok tt)
            end
      end
  else Returned (l, acts, Ok tt).

(** [Start]: the position canal is run from. *)
Definition Start (hasCerts : string -> bool) (w : start_world) (acts : list act) (l : Listener)
    : outcome (Listener * list act * result start_error BinlogPosition) :=
  if l_running l then Returned (l, acts, Err AlreadyRunning)
  else
    match buildCanalConfig hasCerts (l_cfg l) with
    | Err e => Returned (l, acts, Err (TLSError e))
    | Ok cc =>
        '(l, acts, r) ← runSnapshot w acts l;
        match r with
        | Err e => Returned (l, acts, Err e)
        | Ok _ =>
            if negb (sw_canal w) then Returned (l, acts, Err CanalError)
            else
              let l := set_canal cc l in
              let l := set_handler (mkHandler (l_service l) (l_gate l) "" no_pos 0) l in
              let '(r, st, sv) := resolveStartPosition (l_offsetStore l) (sw_disk w).2 (sw_master w) (l_savedOffset l) in
              let l := set_saved sv (set_store st l) in
              match r with
              | Err e => Returned (l, acts, Err (StoreError e))
              | Ok p =>
                  let l := set_handler (set_file (File p) (l_handler l)) l in
                  Returned (set_running true l, acts, Ok p)
              end
        end
    end.

(** The goroutine around [RunFrom]: an error is delivered while running. *)
Definition canal_ends (runErr : option string) (l : Listener) : Listener :=
  match runErr with
  | Some e => if l_running l then set_failed e l else l
  | None => l
  end.
Definition Failed (l : Listener) : option string := l_failed l.

(** One save through the listener's fields. *)
Definition save_offset (disk : disk_answer) (st : T) (l : Listener) : Listener :=
  let '(sv, _) := saveConfirmedOffset disk (mkSaver (l_gate l) (l_savedOffset l) st) in
  set_store (Some (s_file sv)) (set_saved (savedOffset sv) (set_handler (set_h_gate (s_gate sv) (l_handler l)) l)).

(** [offsetSaver]: one save per tick until the context ends; errors are
    logged. *)
Fixpoint offsetSaver (ticks : list disk_answer) (l : Listener) : Listener :=
  match ticks with
  | [] => l
  | d :: ticks =>
      match l_offsetStore l with
      | Some st => offsetSaver ticks (save_offset d st l)
      | None => l                           (* the goroutine is not started *)
      end
  end.

Definition Stop (disk : disk_answer) (l : Listener) : Listener :=
  if negb (l_running l) then l
  else
    let l := set_running false l in
    match l_offsetStore l with
    | Some st => save_offset disk st l
    | None => l
    end.

Definition IsRunning (l : Listener) : bool := l_running l.

End Listener.
Arguments Listener : clear implicits.

(** ** Addresses *)

Lemma last_split_app c x y : no_char c y = true -> last_split c (x +:+ String c y) = Some (x, y).
Proof.
  intros Hy. assert (Hn : forall s, no_char c s = true -> last_split c s = None).
  { induction s as [|a s IH]; [done|]. simpl. intros [Ha Hs]%andb_true_iff. rewrite IH by done.
    by apply negb_true_iff in Ha as ->. }
  induction x as [|a x IH]; [|rewrite str_app_cons; simpl; by rewrite IH].
  rewrite str_app_nil_l. simpl. rewrite Hn by done. by rewrite Ascii.eqb_refl.
Qed.

Lemma last_split_none c s : no_char c s = true -> last_split c s = None.
Proof.
  induction s as [|a s IH]; [done|]. simpl. intros [Ha Hs]%andb_true_iff. rewrite IH by done.
  by apply negb_true_iff in Ha as ->.
Qed.

Lemma first_split_app c x y : no_char c x = true -> first_split c (x +:+ String c y) = Some (x, y).
Proof.
  induction x as [|a x IH]; simpl; intros Hx; [rewrite ?str_app_nil_l; simpl; by rewrite Ascii.eqb_refl|].
  apply andb_true_iff in Hx as [Ha Hx]. rewrite ?str_app_cons. simpl. apply negb_true_iff in Ha as ->.
  by rewrite IH.
Qed.

(** A name or IPv4 address, and what may stand between brackets. *)
Definition plain_host (s : string) : Prop :=
  no_char ":" s = true /\ no_char "[" s = true /\ no_char "]" s = true.
Definition bracket_host (s : string) : Prop := no_char "[" s = true /\ no_char "]" s = true.

Lemma SplitHostPort_plain host port : plain_host host -> plain_host port ->
  SplitHostPort (host +:+ String ":" port) = Some host.
Proof.
  intros (H1 & H2 & H3) (P1 & P2 & P3). unfold SplitHostPort. rewrite last_split_app by done.
  assert (Hb : no_char "[" (host +:+ String ":" port) = true /\ no_char "]" (host +:+ String ":" port) = true).
  { rewrite !no_char_app. simpl. by rewrite H2, H3, P2, P3. }
  destruct Hb as [B1 B2]. destruct host as [|a host].
  - rewrite str_app_nil_l in *. by rewrite B1, B2.
  - rewrite str_app_cons in *. simpl in H2. apply andb_true_iff in H2 as [Ha _].
    rewrite B1, B2, H1, Ha. done.
Qed.

Lemma SplitHostPort_bracket host port : bracket_host host -> plain_host port ->
  SplitHostPort ("[" +:+ host +:+ "]:" +:+ port) = Some host.
Proof.
  intros (H1 & H2) (P1 & P2 & P3). unfold SplitHostPort.
  assert (E : "[" +:+ host +:+ "]:" +:+ port = String "[" (host +:+ String "]" (String ":" port))).
  { by rewrite !str_app_cons, !str_app_nil_l. }
  rewrite E.
  assert (El : last_split ":" (String "[" (host +:+ String "]" (String ":" port)))
               = Some (String "[" (host +:+ "]"), port)).
  { replace (String "[" (host +:+ String "]" (String ":" port)))
      with ((String "[" (host +:+ "]")) +:+ String ":" port); [by apply last_split_app|].
    by rewrite str_app_cons, str_app_assoc, str_app_cons, str_app_nil_l. }
  rewrite El, first_split_app by done. rewrite bool_decide_eq_true_2 by done. by rewrite H1, P2, P3.
Qed.

Lemma SplitHostPort_no_port host : no_char ":" host = true -> SplitHostPort host = None.
Proof. intros H1. unfold SplitHostPort. by rewrite last_split_none. Qed.

(** ** Quoted patterns *)

(** The text an anchored regular expression stands for, when it has no operator:
    a backslash makes the byte after it literal. *)
Fixpoint literal (p : string) : option string :=
  match p with
  | EmptyString => None
  | String a p =>
      if Ascii.eqb a "$" && bool_decide (p = ""%string) then Some ""%string
      else if Ascii.eqb a "\" then
        match p with
        | String b p => if special b then String b <$> literal p else None
        | EmptyString => None
        end
      else if special a then None else String a <$> literal p
  end.
Definition anchored_literal (p : string) : option string :=
  match p with String a p => if Ascii.eqb a "^" then literal p else None | EmptyString => None end.

Lemma literal_escaped a p : special a = true -> literal (String "\" (String a p)) = String a <$> literal p.
Proof. intros Ha. simpl. by rewrite Ha. Qed.
Lemma literal_plain a p : special a = false -> literal (String a p) = String a <$> literal p.
Proof.
  intros Ha. assert (Hb : Ascii.eqb a "\" = false /\ Ascii.eqb a "$" = false).
  { unfold special in Ha. simpl in Ha. by repeat (apply orb_false_iff in Ha as [? Ha]). }
  destruct Hb as [Hb Hd]. simpl. by rewrite Hb, Hd, Ha.
Qed.

Lemma literal_quoted s p : literal (QuoteMeta s +:+ p) = (fun t => s +:+ t) <$> literal p.
Proof.
  induction s as [|a s IH].
  { change (QuoteMeta "" +:+ p) with p. by destruct (literal p). }
  cbn [QuoteMeta]. destruct (special a) eqn:Ea.
  - rewrite !str_app_cons, literal_escaped, IH by done. by destruct (literal p).
  - rewrite str_app_cons, literal_plain, IH by done. by destruct (literal p).
Qed.

(** ** Properties *)

(** [h] is the name in the address that is dialled: the address itself without a
    port, the host of [host:port], the address inside the brackets of
    [[host]:port]. *)
Definition names_host (addr h : string) : Prop :=
  (plain_host addr -> h = addr) /\
  (forall host port, plain_host host -> plain_host port -> addr = host +:+ ":" +:+ port -> h = host) /\
  (forall host port, bracket_host host -> plain_host port -> addr = "[" +:+ host +:+ "]:" +:+ port -> h = host).

Lemma serverTLS_spec hasCerts ca addr :
  match serverTLS hasCerts ca addr with
  | Ok tls => exists h, tls = mkTLS ca h "TLS12" /\ ca <> ""%string /\ hasCerts ca = true /\ h <> ""%string /\
                names_host addr h
  | Err ErrNoServerCA => ca = ""%string \/ hasCerts ca = false
  | Err ErrNoHostName => match SplitHostPort addr with Some h => h | None => addr end = ""%string
  end.
Proof.
  unfold serverTLS. case_bool_decide as Hca; [by left|]. destruct (hasCerts ca) eqn:Hc; [|by right]. simpl.
  case_bool_decide as Hh; [done|]. eexists. split; [done|]. do 3 (split; [done|]). unfold names_host. split_and!.
  - intros (Hp & _). by rewrite SplitHostPort_no_port.
  - intros host port H1 H2 ->. rewrite str_app_cons, str_app_nil_l. by rewrite SplitHostPort_plain.
  - intros host port H1 H2 ->. by rewrite SplitHostPort_bracket.
Qed.

Lemma runSnapshot_error `{OffsetStore T} (w : start_world) (acts acts' : list act) (l l' : Listener T) e :
  runSnapshot w acts l = Returned (l', acts', Err e) -> match e with TLSError _ => False | _ => True end.
Proof.
  unfold runSnapshot. destruct (bool_decide _); [|done]. destruct (bool_decide _); [by intros [= _ _ <-]|].
  destruct (sw_dump w) as [[lines se]|]; [|by intros [= _ _ <-]].
  destruct (ParseMysqlDumpFile _ _ _ _) as [[evs q] failed].
  destruct (handle_all _ _ _ _) as [[s a]| |]; simpl; [|done..]. destruct failed; [by intros [= _ _ <-]|].
  destruct (l_offsetStore l); [|done]. destruct (bool_decide _); [done|].
  destruct (os_save _ _ _) as [st [|]]; [done|]. by intros [= _ _ <-].
Qed.

(** C34: the server is always verified under the name that is dialled. When
    [Start] succeeds, canal is configured to dial the configured address with a
    TLS configuration that trusts the configured CA, which holds a certificate,
    and nothing else, asks for TLS 1.2 at least, and expects the name in the
    address: the address without a port, the host before the port, or what stands
    in the brackets before the port (an IPv6 address in brackets without a port
    keeps its brackets). Without a CA certificate or a host [Start] fails before
    anything is published, read or opened. *)
Theorem serverTLS_verifies `{OffsetStore T} (hasCerts : string -> bool)
    (w : start_world) (acts acts' : list act) (l l' : Listener T) (r : result start_error BinlogPosition) :
  l_running l = false -> Start hasCerts w acts l = Returned (l', acts', r) ->
  match r with
  | Ok _ => exists cc h, l_canal l' = Some cc /\ cc_Addr cc = my_Host (l_cfg l) /\
      cc_TLSConfig cc = Some (mkTLS (my_CACert (l_cfg l)) h "TLS12") /\
      my_CACert (l_cfg l) <> ""%string /\ hasCerts (my_CACert (l_cfg l)) = true /\
      h <> ""%string /\ names_host (my_Host (l_cfg l)) h
  | Err (TLSError _) => l' = l /\ acts' = acts
  | Err _ => True
  end /\
  (my_CACert (l_cfg l) = ""%string \/ hasCerts (my_CACert (l_cfg l)) = false -> r = Err (TLSError ErrNoServerCA)) /\
  (my_Host (l_cfg l) = ""%string -> exists e, r = Err (TLSError e)).
Proof.
  intros Hr Hs. unfold Start in Hs. rewrite Hr in Hs. unfold buildCanalConfig in Hs.
  pose proof (serverTLS_spec hasCerts (my_CACert (l_cfg l)) (my_Host (l_cfg l))) as Ht.
  destruct (serverTLS _ _ _) as [tls|e] eqn:Et.
  - destruct Ht as (h & -> & Hca & Hc & Hh & Hn).
    assert (Hno : (my_CACert (l_cfg l) = ""%string \/ hasCerts (my_CACert (l_cfg l)) = false -> False) /\
      (my_Host (l_cfg l) = ""%string -> False)).
    { split; [intros [?|?]; congruence|]. intros E. apply Hh. rewrite E in Hn. by apply Hn. }
    assert (Hrest : match r with Err (TLSError _) => False | Err _ => True
      | Ok _ => l_canal l' = Some (mkCanal (Some (mkTLS (my_CACert (l_cfg l)) h "TLS12")) (my_Host (l_cfg l))
         (my_Username (l_cfg l)) (my_Password (l_cfg l)) "mysql" (generateServerID (my_Host (l_cfg l)))
            "" true true (map (tableRegex (my_Schema (l_cfg l))) (my_Tables (l_cfg l)))) end).
    { destruct (runSnapshot w acts l) as [[[l1 a1] r1]| |] eqn:Er; simpl in Hs; [|done..].
      destruct r1 as [[]|e1].
      - destruct (sw_canal w); simpl in Hs; [|by simplify_eq].
        destruct (resolveStartPosition _ _ _ _) as [[[q|e2] st] sv]; by simplify_eq.
      - simplify_eq. exact (runSnapshot_error _ _ _ _ _ _ Er). }
    split; [|naive_solver]. destruct r as [q|[]]; try done.
    eexists _, h. split; [exact Hrest|]. done.
  - simplify_eq. split; [done|]. split.
    + intros Hc. destruct e; [done|]. unfold serverTLS in Et. destruct Hc as [Hc|Hc]; rewrite Hc in Et; [done|].
      by destruct (bool_decide _).
    + eauto.
Qed.

(** The table filter handed to canal is exact: each configured table gives
    an anchored expression that stands for the text "schema.table" and nothing
    else, whatever characters the names hold. *)
Theorem table_filter_exact (hasCerts : string -> bool) (cfg : MySQLConfig) (cc : canal_config) :
  buildCanalConfig hasCerts cfg = Ok cc ->
  map anchored_literal (cc_IncludeTableRegex cc)
  = map (fun t => Some (my_Schema cfg +:+ "." +:+ t)) (my_Tables cfg).
Proof.
  unfold buildCanalConfig. destruct (serverTLS _ _ _); [|done]. intros [= <-]. simpl. rewrite map_map.
  apply map_ext. intros t. unfold tableRegex.
  change (anchored_literal _) with
    (literal (QuoteMeta (my_Schema cfg) +:+ String "\" (String "." (QuoteMeta t +:+ "$")))).
  rewrite literal_quoted, literal_escaped, literal_quoted by done. simpl. by rewrite str_app_nil_r.
Qed.

Section Start.
Context `{OffsetStore T} (hasCerts : string -> bool) (w : start_world) (acts : list act) (l : Listener T).

(** Where streaming starts. Without a dump to load, a listener that may
    connect streams from the stored offset; when there is none, from the
    server's current position, which a working disk then holds as the first
    offset; a store that cannot be read stops the start. *)
Theorem Start_resumes (cc : canal_config) :
  l_running l = false -> buildCanalConfig hasCerts (l_cfg l) = Ok cc ->
  my_SnapshotMode (l_cfg l) <> "backup_file"%string -> sw_canal w = true ->
  forall st, l_offsetStore l = Some st ->
  exists l' r, Start hasCerts w acts l = Returned (l', acts, r) /\ l_service l' = l_service l /\
    l_gate l' = l_gate l /\
    match os_load st with
    | Ok (Some p) => r = Ok p /\ l_running l' = true /\ currentFile (l_handler l') = File p /\ l_offsetStore l' = Some st
    | Ok None =>
        match sw_master w with
        | Ok m => r = Ok m /\ l_running l' = true /\ currentFile (l_handler l') = File m /\
                  ((os_save (sw_disk w).2 m st).2 = Ok tt ->
                   os_load <$> l_offsetStore l' = Some (Ok (Some (clean_pos m))))
        | Err e => r = Err (StoreError e) /\ l_running l' = false
        end
    | Err e => r = Err (StoreError e) /\ l_running l' = false
    end.
Proof.
  intros Hr Hc Hm Hw st Hst. unfold Start. rewrite Hr, Hc. unfold runSnapshot.
  rewrite bool_decide_eq_false_2 by done. simpl. rewrite Hw. simpl.
  unfold resolveStartPosition, getStartPosition. rewrite Hst.
  destruct (os_load st) as [[p|]|e] eqn:El; simpl; [by eauto 10| |by eauto 10].
  destruct (sw_master w) as [m|e]; simpl; [|by eauto 10].
  destruct (os_save (sw_disk w).2 m st) as [st' r] eqn:Es. simpl.
  eexists _, _. split_and!; [done..|]. simpl. intros ->.
  by rewrite (os_load_save _ _ _ _ Es).
Qed.

(** C40: A backup_file snapshot is loaded on every start, and its position
    replaces the stored offset: however far the stream had come, it starts
    again from the dump. *)
Theorem dump_rewinds_offset (cc : canal_config) (lines : list string) (s' : Service) (acts' : list act)
    (st : T) :
  let '(evs, q, _) := ParseMysqlDumpFile (sw_clock w) (my_Schema (l_cfg l)) lines false in
  l_running l = false -> buildCanalConfig hasCerts (l_cfg l) = Ok cc ->
  my_SnapshotMode (l_cfg l) = "backup_file"%string -> my_SnapshotBackupFile (l_cfg l) <> ""%string ->
  sw_dump w = Some (lines, false) -> handle_all (sw_now w) acts (l_service l) evs = Returned (s', acts') ->
  l_offsetStore l = Some st -> File q <> ""%string -> (os_save (sw_disk w).1 q st).2 = Ok tt -> sw_canal w = true ->
  exists l', Start hasCerts w acts l = Returned (l', acts', Ok (clean_pos q)) /\ l_service l' = s'.
Proof.
  destruct (ParseMysqlDumpFile _ _ _ _) as [[evs q] failed] eqn:Ep.
  intros Hr Hc Hm Hf Hd Hh Hst Hq Hs Hw. unfold Start. rewrite Hr, Hc. unfold runSnapshot.
  rewrite bool_decide_eq_true_2, (bool_decide_eq_false_2 (my_SnapshotBackupFile _ = _)) by done.
  assert (failed = false) as -> by (unfold ParseMysqlDumpFile in Ep; destruct (dump_lines _ _ _ _); by simplify_eq).
  rewrite Hd, Ep, Hh. simpl. rewrite Hst, bool_decide_eq_false_2 by done.
  destruct (os_save (sw_disk w).1 q st) as [st' r] eqn:Es. simpl in Hs. subst r. simpl. rewrite Hw. simpl.
  unfold resolveStartPosition, getStartPosition. rewrite (os_load_save _ _ _ _ Es). eauto.
Qed.

(** The mode "chunked" passes validation for MySQL, and then no snapshot
    is taken. *)
Theorem mysql_chunked_ignored :
  my_SnapshotMode (l_cfg l) = "chunked"%string ->
  ValidateSnapshotMode (my_SnapshotMode (l_cfg l)) = true /\ runSnapshot w acts l = Returned (l, acts, Ok tt).
Proof. intros Hm. unfold runSnapshot. by rewrite Hm. Qed.

End Start.

(** C35: Stopping flushes the newest boundary whose events are all acked: when
    there is one that is not saved yet and the disk works, the store holds it
    afterwards, and otherwise the store is left alone; the listener no longer
    runs, an error of canal is no longer reported, and a second stop does
    nothing. *)
Theorem Stop_flushes `{OffsetStore T} (disk : disk_answer) (l : Listener T) (st : T) :
  l_running l = true -> l_offsetStore l = Some st ->
  let l' := Stop disk l in
  let p := (Confirmable (l_gate l)).1.2 in
  l_running l' = false /\ (forall d, Stop d l' = l') /\ (forall e, canal_ends e l' = l') /\
  (if bool_decide (File p = ""%string) || bool_decide (p = l_savedOffset l)
   then l_offsetStore l' = Some st
   else match (os_save disk p st).2 with
        | Ok _ => os_load <$> l_offsetStore l' = Some (Ok (Some (clean_pos p)))
        | Err _ => os_load <$> l_offsetStore l' = Some (os_load st)
        end).
Proof.
  intros Hr Hst. unfold Stop. rewrite Hr. simpl. rewrite Hst. unfold save_offset, saveConfirmedOffset. simpl.
  change (l_gate (set_running false l)) with (l_gate l). destruct (Confirmable (l_gate l)) as [[g p] ok] eqn:E. simpl.
  assert (Eok : ok = negb (bool_decide (File p = ""%string))).
  { unfold Confirmable in E. destruct (CommitGate.settle_loop _ _ _). by simplify_eq. }
  rewrite Eok, negb_involutive. destruct (_ || _) eqn:Eb; simpl.
  { split_and!; [done..| |done]. by intros [e|]. }
  destruct (os_save disk p st) as [st' [[]|e]] eqn:Es; simpl.
  - split_and!; [done|done|by intros [e|]|]. by rewrite (os_load_save _ _ _ _ Es).
  - split_and!; [done|done|by intros [?|]|]. by rewrite (os_load_failed _ _ _ _ _ Es).
Qed.

(** ** Witnesses *)

Definition demo_my (mode file : string) : MySQLConfig :=
  mkMySQLConfig true "db.internal:3306" "u" "p" "shop" ["orders"; "a.b"] mode 10000 file "/data/offset" "PEM".
Definition demo_open (path : string) : offset_file := Holds (mkPos "bin.7" 900).
Definition demo_listener (mode file : string) : Listener offset_file :=
  PublishedObserver (NewListener demo_open (demo_my mode file) NewService).
Definition demo_certs (pem : string) : bool := bool_decide (pem = "PEM"%string).
Definition demo_dump : list string :=
  ["-- CHANGE MASTER TO MASTER_LOG_FILE=" +:+ byte1 39 +:+ "bin.1" +:+ byte1 39 +:+ ", MASTER_LOG_POS=154;"]%string.
Definition demo_start : start_world :=
  mkStart 0 (fun _ => 0) (Some (demo_dump, false)) (DiskOk, DiskOk) true (Ok (mkPos "bin.9" 4)).
Definition demo_canal : canal_config :=
  mkCanal (Some (mkTLS "PEM" "db.internal" "TLS12")) "db.internal:3306" "u" "p" "mysql" (generateServerID "db.internal:3306")
    "" true true (map (tableRegex "shop") ["orders"; "a.b"]).

Definition demo_running : outcome (Listener offset_file * list act * result start_error BinlogPosition) :=
  Start demo_certs demo_start [] (demo_listener "none" "").

Lemma serverTLS_verifies_witness :
  match demo_running with
  | Returned (l', _, Ok _) => exists cc h, l_canal l' = Some cc /\ cc_Addr cc = "db.internal:3306"%string /\
      cc_TLSConfig cc = Some (mkTLS "PEM" h "TLS12") /\ h = "db.internal"%string
  | _ => False
  end.
Proof.
  destruct demo_running as [[[l' acts'] [q|e]]| |] eqn:E; try (vm_compute in E; discriminate E).
  destruct (serverTLS_verifies demo_certs demo_start [] acts' (demo_listener "none" "") l' (Ok q) eq_refl E)
    as ((cc & h & Hcc & Ha & Ht & _ & _ & _ & _ & Hp & _) & _).
  exists cc, h. split; [exact Hcc|]. split; [exact Ha|]. split; [exact Ht|].
  apply (Hp "db.internal"%string "3306"%string); repeat split.
Defined.

Lemma table_filter_exact_witness :
  map anchored_literal (cc_IncludeTableRegex demo_canal) = [Some "shop.orders"; Some "shop.a.b"]%string.
Proof. rewrite (table_filter_exact demo_certs (demo_my "none" "")); reflexivity. Defined.

Lemma Start_resumes_witness :
  exists l', Start demo_certs demo_start [] (demo_listener "none" "") = Returned (l', [], Ok (mkPos "bin.7" 900)).
Proof.
  destruct (Start_resumes demo_certs demo_start [] (demo_listener "none" "") demo_canal eq_refl eq_refl)
    with (st := Holds (mkPos "bin.7" 900)) as (l' & r & E & _ & _ & Hr); [discriminate|reflexivity|reflexivity|].
  exists l'. rewrite E. destruct Hr as [-> _]. reflexivity.
Defined.

Lemma dump_rewinds_offset_witness :
  exists l', Start demo_certs demo_start [] (demo_listener "backup_file" "dump.sql")
             = Returned (l', [], Ok (mkPos "bin.1" 154)).
Proof.
  pose proof (dump_rewinds_offset demo_certs demo_start [] (demo_listener "backup_file" "dump.sql") demo_canal
    demo_dump NewService [] (Holds (mkPos "bin.7" 900))) as Hd.
  vm_compute (ParseMysqlDumpFile _ _ _ _) in Hd.
  destruct Hd as (l' & E & _); try reflexivity; try discriminate. exists l'. exact E.
Defined.

Lemma mysql_chunked_ignored_witness :
  runSnapshot demo_start [] (demo_listener "chunked" "") = Returned (demo_listener "chunked" "", [], Ok tt).
Proof. apply (mysql_chunked_ignored demo_start [] (demo_listener "chunked" "")). reflexivity. Defined.

(** Two rows and their commit; both acked, so the commit is flushed. *)
Definition demo_streaming : Listener offset_file :=
  mkListener (demo_my "none" "") (Some (Holds (mkPos "bin.7" 900))) (Some demo_canal)
    (mkHandler NewService (gate_run (start_gate true) demo_ops) "bin.1" no_pos 0) true no_pos None.

Lemma Stop_flushes_witness :
  os_load <$> l_offsetStore (Stop DiskOk demo_streaming) = Some (Ok (Some (mkPos "bin.1" 300))).
Proof.
  destruct (Stop_flushes DiskOk demo_streaming (Holds (mkPos "bin.7" 900)) eq_refl eq_refl) as (_ & _ & _ & Hf).
  exact Hf.
Defined.
