(* ===== verification/Slots.v ===== *)
(** * internal/postgres/slotstats.go, slotregistry.go, slotcleanup.go and setup.go

    The replication slots of the server, the table that says which watcher owns
    which slot, the sampler that notices a slot that can no longer stream, and
    the cleaner that drops the slots nobody will resume.

    The server is the two relations the SQL of these files reads and writes,
    with the server's own clock: each statement is the function of [server] it
    denotes.  How PostgreSQL prints a [pg_lsn] and how pglogrepl reads one are
    parameters.  Times are nanoseconds. *)

From stdpp Require Import base list strings gmap.
From Stdlib Require Import ZArith Lia Ascii.
From S2P Require Import Prelude Config GoStrings Lag.

Local Open Scope Z_scope.

(** ** slotstats.go: data *)

Definition walStatusLost : string := "lost".

Record SlotStats := mkStats {
  ConfirmedFlushLSN : Z;
  RestartLSN : Z;
  WALLSN : Z;
  StatActive : bool;
  WALStatus : string;
  SafeWALBytes : Z
}.

Definition RetainedWALBytes (s : SlotStats) : Z :=
  if (RestartLSN s =? 0) || (WALLSN s <? RestartLSN s) then 0
  else u64 (WALLSN s - RestartLSN s).

Inductive slot_error :=
| SlotMissing                        (* errSlotMissing *)
| QueryFailed
| ScanFailed
| BadLSN (text : string)
| BadIdentifier (name : string)
| NoSuchTable.

(** ** slotcleanup.go: data *)

Record slotOwner := mkOwner {
  OwnerID : string;
  HeartbeatAt : Z;
  ReleasedAt : option Z
}.

Record slotCandidate := mkCandidate {
  Name : string;
  CandActive : bool;
  CandRetained : Z;
  Owner : option slotOwner
}.

(** [now] is read where the code calls it. *)
Record orphanRules := mkRules {
  ownSlot : string;
  pattern : string -> bool;
  staleAfter : Z;
  retainedThreshold : Z
}.

Record orphanDecision := mkDecision { Drop : bool; Reason : string }.
Definition keep (reason : string) : orphanDecision := mkDecision false reason.
Definition drop_ (reason : string) : orphanDecision := mkDecision true reason.

Record slotCleaner := mkCleaner {
  rules : orphanRules;
  dryRun : bool;
  inactiveSince : gmap string Z;
  slotsDropped : Z                   (* cdc_slots_dropped_total *)
}.

Definition newSlotCleaner (r : orphanRules) (dry : bool) : slotCleaner := mkCleaner r dry ∅ 0.

(** [time.Time{}] on the scale of the other times. *)
Definition zero_time : Z := - 62135596800 * 1000000000.

(** ** The server *)

(** A row of [pg_replication_slots]; [None] is NULL. *)
Record slot := mkSlot {
  s_logical : bool;
  s_here : bool;                      (* database = current_database() *)
  s_active : bool;
  s_confirmed : option Z;
  s_restart : option Z;
  s_status : option string;
  s_safe : option Z
}.

(** [wal] is [pg_current_wal_lsn()], or [pg_last_wal_receive_lsn()] on a
    standby, which is NULL before anything was received. *)
Record server := mkServer {
  slots : gmap string slot;
  owners : option (gmap string slotOwner);   (* [None]: the table does not exist *)
  wal : option Z;
  db_now : Z
}.

Definition set_slots (m : gmap string slot) (v : server) : server :=
  mkServer m (owners v) (wal v) (db_now v).
Definition set_owners (m : option (gmap string slotOwner)) (v : server) : server :=
  mkServer (slots v) m (wal v) (db_now v).

(** ** slotregistry.go; [reach] is whether the statement reaches the server *)

Record slotRegistry := mkRegistry { slot_name : string; owner : string }.

Definition ensureTable (reach : bool) (v : server) : server * result slot_error unit :=
  if reach then (set_owners (Some (default ∅ (owners v))) v, Ok tt) else (v, Err QueryFailed).

Definition with_owners (reach : bool) (f : gmap string slotOwner -> gmap string slotOwner)
    (v : server) : server * result slot_error unit :=
  if negb reach then (v, Err QueryFailed)
  else match owners v with
       | None => (v, Err NoSuchTable)
       | Some m => (set_owners (Some (f m)) v, Ok tt)
       end.

Definition register (reach : bool) (r : slotRegistry) (v : server) : server * result slot_error unit :=
  with_owners reach (insert (slot_name r) (mkOwner (owner r) (db_now v) None)) v.

(** The rows an UPDATE ... WHERE slot_name = $1 AND owner_id = $2 changes. *)
Definition update_own (r : slotRegistry) (f : slotOwner -> slotOwner) (m : gmap string slotOwner)
    : gmap string slotOwner :=
  alter (fun o => if decide (OwnerID o = owner r) then f o else o) (slot_name r) m.

Definition heartbeat (reach : bool) (r : slotRegistry) (v : server) : server * result slot_error unit :=
  with_owners reach
    (update_own r (fun o => mkOwner (OwnerID o) (db_now v) (ReleasedAt o))) v.

Definition release (reach : bool) (r : slotRegistry) (v : server) : server * result slot_error unit :=
  with_owners reach
    (update_own r (fun o => mkOwner (OwnerID o) (HeartbeatAt o) (Some (db_now v)))) v.

(** ** setup.go: identifiers and slots *)

Definition ident_start (c : Z) : bool :=
  (97 <=? c) && (c <=? 122) || (65 <=? c) && (c <=? 90) || (c =? 95).
Definition ident_char (c : Z) : bool := ident_start c || (48 <=? c) && (c <=? 57).

Fixpoint all_ident (s : string) : bool :=
  match s with "" => true | String a s => ident_char (code a) && all_ident s end.

(** [identifierRegex]: a letter or underscore, then letters, digits, underscores. *)
Definition validateIdentifier (name : string) : result slot_error unit :=
  match name with
  | String a s => if ident_start (code a) && all_ident s then Ok tt else Err (BadIdentifier name)
  | "" => Err (BadIdentifier name)
  end.

(** [pg_create_logical_replication_slot]: a new slot at the current position. *)
Definition fresh_slot (v : server) : slot :=
  mkSlot true true false (wal v) (wal v) (Some "reserved") None.

Definition createReplicationSlotIfNotExists (reach : bool) (name : string) (v : server)
    : server * result slot_error unit :=
  match validateIdentifier name with
  | Err e => (v, Err e)
  | Ok _ =>
      if negb reach then (v, Err QueryFailed)
      else match slots v !! name with
           | Some _ => (v, Ok tt)
           | None => (set_slots (<[name := fresh_slot v]> (slots v)) v, Ok tt)
           end
  end.

(** [pg_drop_replication_slot] refuses a slot that is missing or active. *)
Definition dropReplicationSlot (reach : bool) (name : string) (v : server)
    : server * result slot_error unit :=
  match slots v !! name with
  | Some s => if reach && negb (s_active s)
              then (set_slots (delete name (slots v)) v, Ok tt) else (v, Err QueryFailed)
  | None => (v, Err QueryFailed)
  end.

(** ** slotcleanup.go: the rules and the cleaner *)

Definition orphanRules_decide (r : orphanRules) (now : Z) (c : slotCandidate) (firstSeenInactive : Z)
    : orphanDecision :=
  if decide (Name c = ownSlot r) then keep "own slot"
  else if negb (pattern r (Name c)) then keep "name does not match pattern"
  else if CandActive c then keep "active"
  else if (0 <? retainedThreshold r) && (CandRetained c <=? retainedThreshold r)
       then keep "retained wal below threshold"
  else if match Owner c with Some o => bool_decide (is_Some (ReleasedAt o)) | None => false end
       then drop_ "released by owner"
  else
    let lastAlive := match Owner c with Some o => HeartbeatAt o | None => firstSeenInactive end in
    if time_sub now lastAlive <? staleAfter r then keep "recent heartbeat"
    else drop_ "heartbeat stale".

Definition set_marks (m : gmap string Z) (c : slotCleaner) : slotCleaner :=
  mkCleaner (rules c) (dryRun c) m (slotsDropped c).

Definition observeInactive (now : Z) (cand : slotCandidate) (c : slotCleaner) : slotCleaner * Z :=
  if CandActive cand || bool_decide (is_Some (Owner cand))
  then (set_marks (delete (Name cand) (inactiveSince c)) c, zero_time)
  else match inactiveSince c !! Name cand with
       | Some firstSeen => (c, firstSeen)
       | None => (set_marks (<[Name cand := now]> (inactiveSince c)) c, now)
       end.

Definition dropSlot (reach : bool) (cand : slotCandidate) (c : slotCleaner) (v : server)
    : slotCleaner * server * option slot_error :=
  if dryRun c then (c, v, None)
  else match dropReplicationSlot reach (Name cand) v with
       | (v, Err e) => (c, v, Some e)
       | (v, Ok _) =>
           (mkCleaner (rules c) (dryRun c) (delete (Name cand) (inactiveSince c))
              (slotsDropped c + 1), v, None)
       end.

(** One candidate; the clock is read when the slot is first seen inactive
    ([t1]) and when the rules are applied ([t2]). *)
Definition cleanup_one (t1 t2 : Z) (reach : bool) (cand : slotCandidate) (c : slotCleaner) (v : server)
    : slotCleaner * server * option slot_error :=
  let '(c, mark) := observeInactive t1 cand c in
  if negb (Drop (orphanRules_decide (rules c) t2 cand mark)) then (c, v, None)
  else dropSlot reach cand c v.

(** The loop of [cleanupOnce]: a failed drop is collected, the rest goes on. *)
Fixpoint cleanup_loop (clock : nat -> Z) (db : nat -> bool) (i : nat) (cands : list slotCandidate)
    (errs : list slot_error) (c : slotCleaner) (v : server) : slotCleaner * server * list slot_error :=
  match cands with
  | [] => (c, v, errs)
  | cand :: cands =>
      let '(c, v, e) := cleanup_one (clock (2 * i)%nat) (clock (2 * i + 1)%nat) (db i) cand c v in
      cleanup_loop clock db (S i) cands (errs ++ option_list e) c v
  end.

Section Sql.
(** PostgreSQL's [pg_lsn::text] and pglogrepl's [ParseLSN]. *)
Context (lsn_text : Z -> string) (ParseLSN : string -> option Z).

Definition parseLSNText (text : string) : result slot_error Z :=
  if decide (text = "") then Ok 0
  else match ParseLSN text with None => Err (BadLSN text) | Some l => Ok l end.

(** [COALESCE(x::text, '')]. *)
Definition coalesce_lsn (x : option Z) : string := from_option lsn_text "" x.

(** [querySlotStats]: a NULL position does not scan into a string. *)
Definition querySlotStats (reach : bool) (name : string) (v : server) : result slot_error SlotStats :=
  if negb reach then Err QueryFailed
  else match slots v !! name with
       | None => Err SlotMissing
       | Some s =>
           match wal v with
           | None => Err QueryFailed
           | Some w =>
               confirmed ← parseLSNText (coalesce_lsn (s_confirmed s));
               restart ← parseLSNText (coalesce_lsn (s_restart s));
               current ← parseLSNText (lsn_text w);
               Ok (mkStats confirmed restart current (s_active s) (default "" (s_status s))
                     (default (-1) (s_safe s)))
           end
       end.

(** A row of [slotCandidatesSQL] and [scanSlotCandidate]. *)
Record candidate_row := mkRow {
  r_name : string;
  r_active : bool;
  r_restart : string;
  r_wal : option string;
  r_owner : option slotOwner           (* the left join found the row *)
}.

Definition slotCandidatesSQL (owned : gmap string slotOwner) (v : server) : list candidate_row :=
  omap (fun '(n, s) =>
    if s_logical s && s_here s
    then Some (mkRow n (s_active s) (coalesce_lsn (s_restart s)) (lsn_text <$> wal v) (owned !! n))
    else None) (map_to_list (slots v)).

Definition scanSlotCandidate (row : candidate_row) : result slot_error slotCandidate :=
  match r_wal row with
  | None => Err ScanFailed
  | Some walText =>
      restart ← parseLSNText (r_restart row);
      current ← parseLSNText walText;
      Ok (mkCandidate (r_name row) (r_active row)
            (RetainedWALBytes (mkStats 0 restart current false "" 0)) (r_owner row))
  end.

Fixpoint scan_rows (rows : list candidate_row) : result slot_error (list slotCandidate) :=
  match rows with
  | [] => Ok []
  | row :: rows => cand ← scanSlotCandidate row; cands ← scan_rows rows; Ok (cand :: cands)
  end.

(** [rowsErr] is a failure reported after the last row. *)
Definition fetchSlotCandidates (reach rowsErr : bool) (v : server)
    : result slot_error (list slotCandidate) :=
  if negb reach then Err QueryFailed
  else match owners v with
       | None => Err QueryFailed
       | Some owned =>
           cands ← scan_rows (slotCandidatesSQL owned v);
           if rowsErr then Err QueryFailed else Ok cands
       end.

Definition cleanupOnce (reach rowsErr : bool) (clock : nat -> Z) (db : nat -> bool)
    (c : slotCleaner) (v : server) : slotCleaner * server * list slot_error :=
  match fetchSlotCandidates reach rowsErr v with
  | Err e => (c, v, [e])
  | Ok cands => cleanup_loop clock db 0 cands [] c v
  end.

(** ** slotstats.go: the sampler; listener.go: recreating the slot *)

Definition slotNeedsRecreating (r : result slot_error SlotStats) : result slot_error bool :=
  match r with
  | Err SlotMissing => Ok true
  | Err e => Err e
  | Ok stats => Ok (bool_decide (WALStatus stats = walStatusLost))
  end.

(** The gauges of the sampler: the three positions and the WAL status. *)
Record slotSampler := mkSampler {
  sampler_lag : lagTracker;
  unusable : bool;
  gauges : option (Z * Z * Z * string * Z)
}.

Definition SlotUsable (s : slotSampler) : bool := negb (unusable s).

Definition sampleOnce (now : Z) (fetched : result slot_error SlotStats) (s : slotSampler)
    : slotSampler * result slot_error unit :=
  let lag := Publish now (sampler_lag s) in
  let bad := match slotNeedsRecreating fetched with Ok b => b | Err _ => unusable s end in
  match fetched with
  | Err e => (mkSampler lag bad (gauges s), Err e)
  | Ok st =>
      (mkSampler lag bad (Some (ConfirmedFlushLSN st, RestartLSN st, RetainedWALBytes st,
         WALStatus st, SafeWALBytes st)), Ok tt)
  end.

(** [recreateUnusableSlot]; [reach] answers the lookup, the drop and the
    creation.  The boolean is whether the recreation counter moves. *)
Definition recreateUnusableSlot (createSlot : bool) (reach : bool * bool * bool) (name : string)
    (v : server) : server * bool * result slot_error unit :=
  if negb createSlot then (v, false, Ok tt)
  else
    let looked := querySlotStats reach.1.1 name v in
    match slotNeedsRecreating looked with
    | Err e => (v, false, Err e)
    | Ok false => (v, false, Ok tt)
    | Ok true =>
        let '(v, dropped) := if is_ok looked then dropReplicationSlot reach.1.2 name v else (v, Ok tt) in
        match dropped with
        | Err e => (v, false, Err e)
        | Ok _ =>
            match createReplicationSlotIfNotExists reach.2 name v with
            | (v, Err e) => (v, false, Err e)
            | (v, Ok _) => (v, true, Ok tt)
            end
        end
    end.

End Sql.

(** ** listener.go: ownership *)

Definition defaultSlotStaleAfter : Z := 30 * 60 * 1000000000.

(** [minutesOrDefault]; [time.Duration] wraps. *)
Definition minutesOrDefault (minutes fallback : Z) : Z :=
  if minutes <=? 0 then fallback else i64 (minutes * (60 * 1000000000)).

Section Ownership.
(** [regexp.Compile]: the names a pattern matches, when it compiles. *)
Context (regexp_Compile : string -> option (string -> bool)).

Definition compileSlotPattern (p : string) : option (string -> bool) :=
  if decide (p = "") then None else regexp_Compile p.

(** [Listener.newSlotCleaner]; [None] when the pattern is refused. *)
Definition Listener_newSlotCleaner (cfg : SlotCleanupConfig) (slotName : string) : option slotCleaner :=
  match compileSlotPattern (sc_SlotPattern cfg) with
  | None => None
  | Some pat =>
      Some (newSlotCleaner
        (mkRules slotName pat (minutesOrDefault (sc_StaleAfterMinutes cfg) defaultSlotStaleAfter)
           (u64 (Z.max (sc_RetainedWALThresholdBytes cfg) 0))) (sc_DryRun cfg))
  end.

(** [setupSlotOwnership]: the registry and the cleaner the listener keeps. *)
Definition setupSlotOwnership (cfg : SlotCleanupConfig) (slotName ownerID : string)
    (reach : bool * bool) (v : server) : server * option slotRegistry * option slotCleaner :=
  if negb (sc_Enabled cfg) then (v, None, None)
  else
    let r := mkRegistry slotName ownerID in
    match ensureTable reach.1 v with
    | (v, Err _) => (v, None, None)
    | (v, Ok _) =>
        match register reach.2 r v with
        | (v, Err _) => (v, None, None)
        | (v, Ok _) => (v, Some r, Listener_newSlotCleaner cfg slotName)
        end
    end.

End Ownership.

Definition releaseSlotOwnership (reach : bool) (r : option slotRegistry) (v : server) : server :=
  match r with None => v | Some r => (release reach r v).1 end.

(** ** What one candidate does, name by name *)

Definition condemned (r : orphanRules) (t2 : Z) (cand : slotCandidate) (mark : Z) : bool :=
  Drop (orphanRules_decide r t2 cand mark).

(** The mark [observeInactive] leaves and the one it returns. *)
Definition next_mark (t1 : Z) (cand : slotCandidate) (m : option Z) : option Z :=
  if CandActive cand || bool_decide (is_Some (Owner cand)) then None else Some (default t1 m).
Definition used_mark (t1 : Z) (cand : slotCandidate) (m : option Z) : Z :=
  default zero_time (next_mark t1 cand m).

Definition gone (c : slotCleaner) (t1 t2 : Z) (reach : bool) (cand : slotCandidate) (v : server) : bool :=
  condemned (rules c) t2 cand (used_mark t1 cand (inactiveSince c !! Name cand))
  && negb (dryRun c) && reach
  && match slots v !! Name cand with Some s => negb (s_active s) | None => false end.

Lemma observeInactive_spec t1 cand c :
  observeInactive t1 cand c =
    (set_marks (partial_alter (fun _ => next_mark t1 cand (inactiveSince c !! Name cand)) (Name cand)
       (inactiveSince c)) c,
     used_mark t1 cand (inactiveSince c !! Name cand)).
Proof.
  unfold observeInactive, used_mark, next_mark. destruct (CandActive cand || _); [done|].
  destruct (inactiveSince c !! Name cand) as [t|] eqn:E; [|done]. simpl.
  rewrite <- E, partial_alter_self. by destruct c.
Qed.

(** The effect of one candidate on the marks and on the slots. *)
Record one_step (t1 t2 : Z) (reach : bool) (cand : slotCandidate) (c : slotCleaner) (v : server)
    (c' : slotCleaner) (v' : server) : Prop := mkOneStep {
  os_rules : rules c' = rules c;
  os_dry : dryRun c' = dryRun c;
  os_owners : owners v' = owners v;
  os_other : forall n, n <> Name cand ->
    inactiveSince c' !! n = inactiveSince c !! n /\ slots v' !! n = slots v !! n;
  os_mark : inactiveSince c' !! Name cand =
    if gone c t1 t2 reach cand v then None else next_mark t1 cand (inactiveSince c !! Name cand);
  os_slot : slots v' !! Name cand = if gone c t1 t2 reach cand v then None else slots v !! Name cand;
  os_count : slotsDropped c' = slotsDropped c + (if gone c t1 t2 reach cand v then 1 else 0)
}.

Lemma cleanup_one_step t1 t2 reach cand c v c' v' e :
  cleanup_one t1 t2 reach cand c v = (c', v', e) -> one_step t1 t2 reach cand c v c' v'.
Proof.
  unfold cleanup_one. rewrite observeInactive_spec. cbv beta iota zeta.
  set (m := partial_alter _ _ _). change (rules (set_marks m c)) with (rules c).
  assert (Hm : m !! Name cand = next_mark t1 cand (inactiveSince c !! Name cand))
    by (unfold m; by rewrite lookup_partial_alter_eq).
  assert (Ho : forall n, n <> Name cand -> m !! n = inactiveSince c !! n)
    by (intros n Hn; unfold m; by apply lookup_partial_alter_ne).
  fold (condemned (rules c) t2 cand (used_mark t1 cand (inactiveSince c !! Name cand))).
  destruct (condemned _ _ _ _) eqn:Ec; simpl.
  2:{ intros [= <- <- _]. split; simpl; unfold gone; rewrite ?Ec; auto; simpl; lia. }
  unfold dropSlot, dropReplicationSlot. simpl.
  destruct (dryRun c) eqn:Ed.
  { intros [= <- <- _]. split; simpl; unfold gone; rewrite ?Ec, ?Ed; auto; simpl; lia. }
  destruct (slots v !! Name cand) as [s|] eqn:Es.
  2:{ intros [= <- <- _]. split; simpl; unfold gone; rewrite ?Ec, ?Ed, ?Es, ?andb_false_r; auto; lia. }
  destruct (reach && negb (s_active s)) eqn:Er.
  - apply andb_true_iff in Er as [Er Ea]. intros [= <- <- _].
    split; simpl; unfold gone; rewrite ?Ec, ?Ed, ?Es, ?Er, ?Ea; simpl; auto.
    + intros n Hn. rewrite !lookup_delete_ne by done. auto.
    + apply lookup_delete_eq.
    + apply lookup_delete_eq.
  - intros [= <- <- _].
    assert (G : gone c t1 t2 reach cand v = false).
    { unfold gone. rewrite Ec, Ed, Es. simpl. by rewrite Er. }
    split; simpl; rewrite ?G; auto; lia.
Qed.

Lemma gone_ext c c' v v' t1 t2 reach cand :
  rules c' = rules c -> dryRun c' = dryRun c ->
  inactiveSince c' !! Name cand = inactiveSince c !! Name cand ->
  slots v' !! Name cand = slots v !! Name cand ->
  gone c' t1 t2 reach cand v' = gone c t1 t2 reach cand v.
Proof. unfold gone. by intros -> -> -> ->. Qed.

(** The effect of a round whose candidates have distinct names. *)
Record round_effect (clock : nat -> Z) (db : nat -> bool) (i : nat) (cands : list slotCandidate)
    (c : slotCleaner) (v : server) (c' : slotCleaner) (v' : server) : Prop := mkRoundEffect {
  re_rules : rules c' = rules c;
  re_dry : dryRun c' = dryRun c;
  re_owners : owners v' = owners v;
  re_other : forall n, n ∉ map Name cands ->
    inactiveSince c' !! n = inactiveSince c !! n /\ slots v' !! n = slots v !! n;
  re_cand : forall j cand, cands !! j = Some cand ->
    let k := (i + j)%nat in
    let g := gone c (clock (2 * k)%nat) (clock (2 * k + 1)%nat) (db k) cand v in
    inactiveSince c' !! Name cand =
      (if g then None else next_mark (clock (2 * k)%nat) cand (inactiveSince c !! Name cand))
    /\ slots v' !! Name cand = (if g then None else slots v !! Name cand)
}.

Lemma cleanup_loop_effect clock db i cands errs c v c' v' es :
  NoDup (map Name cands) ->
  cleanup_loop clock db i cands errs c v = (c', v', es) ->
  round_effect clock db i cands c v c' v'.
Proof.
  revert i errs c v. induction cands as [|cand cands IH]; intros i errs c v Hnd E.
  { simpl in E. by simplify_eq. }
  simpl in Hnd. apply NoDup_cons in Hnd as [Hni Hnd].
  cbn [cleanup_loop] in E.
  destruct (cleanup_one _ _ _ _ _ _) as [[c1 v1] e] eqn:E1.
  apply cleanup_one_step in E1 as [Hr Hd Ho Hother Hmark Hslot _].
  destruct (IH _ _ _ _ Hnd E) as [Hr' Hd' Ho' Hother' Hcand'].
  split; [congruence..| |].
  - intros n Hn. simpl in Hn. apply not_elem_of_cons in Hn as [Hne Hn].
    destruct (Hother' n Hn) as [-> ->]. by apply Hother.
  - intros [|j] x Hj; simpl in Hj.
    + simplify_eq. rewrite Nat.add_0_r. cbv zeta. destruct (Hother' _ Hni) as [-> ->]. auto.
    + assert (Hx : Name x <> Name cand).
      { intros Hx. apply Hni. rewrite <- Hx. apply list_elem_of_fmap. exists x.
        split; [done|]. by eapply list_elem_of_lookup_2. }
      destruct (Hother _ Hx) as [Em Es]. specialize (Hcand' j x Hj).
      cbv zeta in *. replace (S i + j)%nat with (i + S j)%nat in Hcand' by lia.
      rewrite Em, Es in Hcand'. rewrite (gone_ext c c1 v v1) in Hcand' by done. done.
Qed.

(** ** What the server hands over *)

Section Fetch.
Context (lsn_text : Z -> string) (ParseLSN : string -> option Z).

Lemma scan_name row cand :
  scanSlotCandidate ParseLSN row = Ok cand ->
  Name cand = r_name row /\ CandActive cand = r_active row /\ Owner cand = r_owner row.
Proof.
  unfold scanSlotCandidate. destruct (r_wal row); [|done].
  destruct (parseLSNText ParseLSN (r_restart row)); simpl; [|done].
  destruct (parseLSNText ParseLSN _); simpl; [|done]. by intros [= <-].
Qed.

Lemma scan_rows_forall2 rows cands :
  scan_rows ParseLSN rows = Ok cands ->
  Forall2 (fun row cand => scanSlotCandidate ParseLSN row = Ok cand) rows cands.
Proof.
  revert cands. induction rows as [|row rows IH]; simpl; intros cands.
  - intros [= <-]. constructor.
  - destruct (scanSlotCandidate ParseLSN row) as [cand|] eqn:E; simpl; [|done].
    destruct (scan_rows ParseLSN rows) as [cs|]; simpl; [|done].
    intros [= <-]. constructor; auto.
Qed.

Lemma scan_rows_names rows cands :
  scan_rows ParseLSN rows = Ok cands -> map Name cands = map r_name rows.
Proof.
  intros H%scan_rows_forall2. induction H as [|row cand rows cands Hs _ IH]; [done|].
  simpl. apply scan_name in Hs as [-> _]. by rewrite IH.
Qed.

Lemma omap_names_sublist (f : string * slot -> option candidate_row) l :
  (forall x row, f x = Some row -> r_name row = x.1) ->
  map r_name (omap f l) `sublist_of` map fst l.
Proof.
  intros Hf. induction l as [|x l IH]; simpl; [done|].
  destruct (f x) as [row|] eqn:E; simpl.
  - rewrite (Hf _ _ E). by constructor.
  - by constructor.
Qed.

Lemma candidates_nodup owned v cands :
  scan_rows ParseLSN (slotCandidatesSQL lsn_text owned v) = Ok cands -> NoDup (map Name cands).
Proof.
  intros H%scan_rows_names. rewrite H. eapply sublist_NoDup; [apply (NoDup_fst_map_to_list (slots v))|].
  apply (omap_names_sublist _ (map_to_list (slots v))).
  intros [n s] row. simpl. destruct (_ && _); [|done]. by intros [= <-].
Qed.

(** A candidate is a logical slot of this database, with its owner row. *)
Lemma fetched_from reach rowsErr v cands :
  fetchSlotCandidates lsn_text ParseLSN reach rowsErr v = Ok cands ->
  NoDup (map Name cands) /\
  exists owned, owners v = Some owned /\
    forall cand, cand ∈ cands -> exists s,
      slots v !! Name cand = Some s /\ s_logical s && s_here s = true /\
      CandActive cand = s_active s /\ Owner cand = owned !! Name cand /\
      scanSlotCandidate ParseLSN
        (mkRow (Name cand) (s_active s) (coalesce_lsn lsn_text (s_restart s))
           (lsn_text <$> wal v) (owned !! Name cand)) = Ok cand.
Proof.
  unfold fetchSlotCandidates. destruct reach; simpl; [|done].
  destruct (owners v) as [owned|]; [|done].
  destruct (scan_rows ParseLSN _) as [cs|] eqn:E; simpl; [|done].
  destruct rowsErr; [done|]. intros [= <-]. split; [by eapply candidates_nodup|].
  exists owned. split; [done|]. intros cand Hc.
  apply scan_rows_forall2 in E.
  apply list_elem_of_lookup in Hc as [j Hj].
  destruct (Forall2_lookup_r _ _ _ _ _ E Hj) as (row & Hrow & Hs).
  apply list_elem_of_lookup_2 in Hrow. apply list_elem_of_omap in Hrow as ([n s] & Hin & Hf).
  apply elem_of_map_to_list in Hin. destruct (s_logical s && s_here s) eqn:El; [|done].
  simplify_eq/=. destruct (scan_name _ _ Hs) as (Hn & Ha & Ho). simpl in *. subst n.
  exists s. split_and!; try done.
Qed.
End Fetch.

(** ** The rules, declaratively *)

(** Released by its owner, or not heard of for the configured time; [mark] is
    when a slot without owner was first seen inactive. *)
Definition abandoned (stale now mark : Z) (o : option slotOwner) : bool :=
  match o with
  | Some o => bool_decide (is_Some (ReleasedAt o)) || (stale <=? time_sub now (HeartbeatAt o))
  | None => stale <=? time_sub now mark
  end.

Definition eligible (r : orphanRules) (name : string) (active : bool) (retained : Z) : bool :=
  negb (bool_decide (name = ownSlot r)) && pattern r name && negb active
  && ((retainedThreshold r <=? 0) || (retainedThreshold r <? retained)).

Lemma condemned_rules r now cand mark :
  condemned r now cand mark =
    eligible r (Name cand) (CandActive cand) (CandRetained cand)
    && abandoned (staleAfter r) now mark (Owner cand).
Proof.
  unfold condemned, orphanRules_decide, eligible, abandoned.
  case_decide as Hn; [by rewrite bool_decide_true|]. rewrite bool_decide_false by done. simpl.
  destruct (pattern r _); simpl; [|done]. destruct (CandActive cand); simpl; [done|].
  destruct (Z.ltb_spec 0 (retainedThreshold r)), (Z.leb_spec (CandRetained cand) (retainedThreshold r)),
    (Z.leb_spec (retainedThreshold r) 0), (Z.ltb_spec (retainedThreshold r) (CandRetained cand));
    simpl; try lia; try done;
    (destruct (Owner cand) as [o|]; [destruct (bool_decide _); [done|]|]; simpl;
     match goal with |- context [?a <? ?b] => destruct (Z.ltb_spec a b), (Z.leb_spec b a) end;
     simpl; first [done | lia]).
Qed.

Definition is_lsn (z : Z) : Prop := 0 <= z < 2 ^ 64.

(** The WAL a slot holds back, from the numbers. *)
Definition held_back (w : Z) (s : slot) : Z :=
  match s_restart s with
  | None => 0
  | Some r => if r =? 0 then 0 else Z.max 0 (w - r)
  end.

Definition orphan (c : slotCleaner) (owned : gmap string slotOwner) (w now : Z) (ns : string * slot)
    : bool :=
  let '(n, s) := ns in
  s_logical s && s_here s && negb (dryRun c)
  && eligible (rules c) n (s_active s) (held_back w s)
  && abandoned (staleAfter (rules c)) now (default now (inactiveSince c !! n)) (owned !! n).

Section Exact.
Context (lsn_text : Z -> string) (ParseLSN : string -> option Z).
Context (Hnonempty : forall z, lsn_text z <> "")
        (Hparse : forall z, is_lsn z -> ParseLSN (lsn_text z) = Some z).

Lemma parse_text z : is_lsn z -> parseLSNText ParseLSN (lsn_text z) = Ok z.
Proof.
  intros Hz. unfold parseLSNText. rewrite decide_False by done. by rewrite Hparse.
Qed.

Lemma parse_coalesced x :
  from_option is_lsn True x -> parseLSNText ParseLSN (coalesce_lsn lsn_text x) = Ok (default 0 x).
Proof. destruct x as [z|]; simpl; [apply parse_text|done]. Qed.

Lemma retained_held_back w s z a st sf :
  is_lsn w -> from_option is_lsn True (s_restart s) ->
  RetainedWALBytes (mkStats z (default 0 (s_restart s)) w a st sf) = held_back w s.
Proof.
  intros Hw Hr. unfold RetainedWALBytes, held_back, is_lsn in *. simpl.
  destruct (s_restart s) as [r|]; simpl in *; [|done].
  destruct (Z.eqb_spec r 0); simpl; [done|].
  destruct (Z.ltb_spec w r); [lia|]. rewrite u64_small; lia.
Qed.

Lemma scan_row n s w o :
  is_lsn w -> from_option is_lsn True (s_restart s) ->
  scanSlotCandidate ParseLSN
    (mkRow n (s_active s) (coalesce_lsn lsn_text (s_restart s)) (Some (lsn_text w)) o)
  = Ok (mkCandidate n (s_active s) (held_back w s) o).
Proof.
  intros Hw Hr. unfold scanSlotCandidate. simpl. rewrite parse_coalesced by done. simpl.
  rewrite parse_text by done. simpl. by rewrite retained_held_back.
Qed.

(** The candidates of a server whose positions are in range. *)
Definition listed (owned : gmap string slotOwner) (w : Z) (v : server) : list slotCandidate :=
  omap (fun '(n, s) =>
    if s_logical s && s_here s
    then Some (mkCandidate n (s_active s) (held_back w s) (owned !! n)) else None)
    (map_to_list (slots v)).

Lemma fetch_listed v owned w :
  owners v = Some owned -> wal v = Some w -> is_lsn w ->
  map_Forall (fun _ s => from_option is_lsn True (s_restart s)) (slots v) ->
  fetchSlotCandidates lsn_text ParseLSN true false v = Ok (listed owned w v).
Proof.
  intros Ho Ew Hw Hs. unfold fetchSlotCandidates. rewrite Ho. simpl.
  assert (E : scan_rows ParseLSN (slotCandidatesSQL lsn_text owned v) = Ok (listed owned w v)).
  { unfold slotCandidatesSQL, listed. rewrite Ew. simpl.
    assert (Hall : Forall (fun ns => from_option is_lsn True (s_restart ns.2)) (map_to_list (slots v)))
      by (apply Forall_forall; intros [n s] Hin%elem_of_map_to_list; exact (Hs _ _ Hin)).
    induction Hall as [|[n s] l Hx _ IH]; [done|]. simpl in *.
    destruct (s_logical s && s_here s); [|done]. cbn [scan_rows].
    rewrite scan_row by done. cbn [mbind result_bind]. unfold omap in IH. by rewrite IH. }
  by rewrite E.
Qed.

Lemma listed_elem owned w v n s :
  slots v !! n = Some s -> s_logical s && s_here s = true ->
  mkCandidate n (s_active s) (held_back w s) (owned !! n) ∈ listed owned w v.
Proof.
  intros Hs Hl. apply list_elem_of_omap. exists (n, s). split; [by apply elem_of_map_to_list|].
  by rewrite Hl.
Qed.

Lemma listed_inv owned w v cand :
  cand ∈ listed owned w v ->
  exists s, slots v !! Name cand = Some s /\ s_logical s && s_here s = true /\
    cand = mkCandidate (Name cand) (s_active s) (held_back w s) (owned !! Name cand).
Proof.
  intros ([n s] & Hin & Hf)%list_elem_of_omap. apply elem_of_map_to_list in Hin.
  destruct (s_logical s && s_here s) eqn:E; [|done]. simplify_eq/=. eauto.
Qed.

(** On the candidates of the server, a slot goes exactly when it is an orphan. *)
Lemma gone_orphan c v owned w now n s :
  slots v !! n = Some s -> s_logical s && s_here s = true ->
  gone c now now true (mkCandidate n (s_active s) (held_back w s) (owned !! n)) v
  = orphan c owned w now (n, s).
Proof.
  intros Hs Hl. unfold gone, orphan. rewrite condemned_rules. simpl. rewrite Hs, Hl, andb_true_r. simpl.
  unfold eligible at 1 2. destruct (s_active s) eqn:Ea; simpl.
  { by rewrite !andb_false_r, ?andb_false_l, ?andb_false_r. }
  rewrite andb_true_r, (andb_comm _ (negb (dryRun c))), andb_assoc. f_equal.
  unfold abandoned, used_mark, next_mark. simpl.
  destruct (owned !! n) as [o|]; simpl; [done|]. by destruct (inactiveSince c !! n).
Qed.
End Exact.

(** ** A cleaner over its rounds *)

Section Rounds.
Context (lsn_text : Z -> string) (ParseLSN : string -> option Z).

(** A round: the server as it is then, the clock readings, which statements
    get through. *)
Record round := mkRound {
  rd_server : server;
  rd_clock : nat -> Z;
  rd_reach : bool;
  rd_rowsErr : bool;
  rd_db : nat -> bool
}.

Definition run_round (c : slotCleaner) (r : round) : slotCleaner * server * list slot_error :=
  cleanupOnce lsn_text ParseLSN (rd_reach r) (rd_rowsErr r) (rd_clock r) (rd_db r) c (rd_server r).

Definition run_rounds (c : slotCleaner) (rs : list round) : slotCleaner :=
  foldl (fun c r => (run_round c r).1.1) c rs.

(** The round lists slot [n] as [cand]. *)
Definition sees (r : round) (n : string) (cand : slotCandidate) : Prop :=
  exists cands, fetchSlotCandidates lsn_text ParseLSN (rd_reach r) (rd_rowsErr r) (rd_server r) = Ok cands
    /\ cand ∈ cands /\ Name cand = n.

Definition idle_unowned (cand : slotCandidate) : Prop := CandActive cand = false /\ Owner cand = None.

(** The round saw [n] inactive and unregistered, with the clock at [t]. *)
Definition seen_idle (r : round) (n : string) (t : Z) : Prop :=
  exists cand i, sees r n cand /\ idle_unowned cand /\ rd_clock r i = t.

Definition undisturbed (n : string) (r : round) : Prop :=
  forall cand, sees r n cand -> idle_unowned cand.

(** [n] is idle since [t]: some round saw it so at [t], and none since has
    seen it active or registered. *)
Definition idle_since (rs : list round) (n : string) (t : Z) : Prop :=
  exists rs1 r rs2, rs = rs1 ++ r :: rs2 /\ seen_idle r n t /\ Forall (undisturbed n) (r :: rs2).

Lemma next_mark_idle t1 cand m t :
  next_mark t1 cand m = Some t -> idle_unowned cand /\ t = default t1 m.
Proof.
  unfold next_mark, idle_unowned. destruct (CandActive cand); simpl; [done|].
  case_bool_decide as H; [done|]. intros [= <-]. split_and!; try done.
  destruct (Owner cand); [|done]. exfalso. eauto.
Qed.

(** A round by its effect on one slot. *)
Lemma run_round_slot c r c' v' es n :
  run_round c r = (c', v', es) ->
  (rules c' = rules c /\ dryRun c' = dryRun c) /\ owners v' = owners (rd_server r) /\
  ((inactiveSince c' !! n = inactiveSince c !! n /\ slots v' !! n = slots (rd_server r) !! n
    /\ forall cand, ~ sees r n cand)
   \/ exists cand k, sees r n cand /\ (forall x, sees r n x -> x = cand) /\
      let t1 := rd_clock r (2 * k)%nat in
      let g := gone c t1 (rd_clock r (2 * k + 1)%nat) (rd_db r k) cand (rd_server r) in
      inactiveSince c' !! n = (if g then None else next_mark t1 cand (inactiveSince c !! n)) /\
      slots v' !! n = (if g then None else slots (rd_server r) !! n)).
Proof.
  unfold run_round, cleanupOnce, sees.
  destruct (fetchSlotCandidates _ _ _ _ _) as [cands|e] eqn:Ef.
  2:{ intros [= <- <- _]. split_and!; try done. left. split_and!; try done. by intros cand (cs & ? & _). }
  destruct (fetched_from _ _ _ _ _ _ Ef) as [Hnd _]. intros E.
  destruct (cleanup_loop_effect _ _ _ _ _ _ _ _ _ _ Hnd E) as [Hr Hdry Ho Hother Hcand].
  split_and!; [done..|]. destruct (decide (n ∈ map Name cands)) as [Hin|Hin].
  - right. apply list_elem_of_fmap in Hin as (cand & -> & Hin).
    apply list_elem_of_lookup in Hin as [j Hj]. exists cand, j. split_and!.
    + exists cands. split_and!; try done. by eapply list_elem_of_lookup_2.
    + intros x (cs & [= <-] & Hx & Hname). apply list_elem_of_lookup in Hx as [i Hi].
      assert (i = j) as ->; [|congruence].
      eapply (NoDup_lookup (map Name cands) i j (Name cand)); [done|..];
        apply list_lookup_fmap_Some; eauto.
    + exact (proj1 (Hcand j cand Hj)).
    + exact (proj2 (Hcand j cand Hj)).
  - left. destruct (Hother n Hin). split_and!; try done.
    intros cand (cs & [= <-] & Hx & <-). apply Hin. apply list_elem_of_fmap. eauto.
Qed.

Lemma run_rounds_rules c rs : rules (run_rounds c rs) = rules c.
Proof.
  unfold run_rounds. induction rs as [|r rs IH] using rev_ind; [done|].
  rewrite foldl_snoc, <- IH. destruct (run_round _ r) as [[c' v'] es] eqn:E.
  by apply (run_round_slot _ _ _ _ _ "") in E as [[? ?] _].
Qed.

Lemma run_rounds_dry c rs : dryRun (run_rounds c rs) = dryRun c.
Proof.
  unfold run_rounds. induction rs as [|r rs IH] using rev_ind; [done|].
  rewrite foldl_snoc, <- IH. destruct (run_round _ r) as [[c' v'] es] eqn:E.
  by apply (run_round_slot _ _ _ _ _ "") in E as [[? ?] _].
Qed.

Lemma idle_since_extend rs r n t : idle_since rs n t -> undisturbed n r -> idle_since (rs ++ [r]) n t.
Proof.
  intros (rs1 & x & rs2 & -> & Hs & Hu) Hr. exists rs1, x, (rs2 ++ [r]). split_and!.
  - by rewrite <- app_assoc.
  - done.
  - rewrite app_comm_cons. apply Forall_app. auto.
Qed.

Lemma idle_since_now rs r n cand k :
  sees r n cand -> (forall x, sees r n x -> x = cand) -> idle_unowned cand ->
  idle_since (rs ++ [r]) n (rd_clock r k).
Proof.
  intros Hs Hu Hi. exists rs, r, []. split_and!; [done| by exists cand, k |].
  constructor; [|done]. intros x Hx. by rewrite (Hu x Hx).
Qed.

Lemma marks_idle r dry rs n t :
  inactiveSince (run_rounds (newSlotCleaner r dry) rs) !! n = Some t -> idle_since rs n t.
Proof.
  revert t. unfold run_rounds. induction rs as [|x rs IH] using rev_ind; intros t; simpl.
  { by rewrite lookup_empty. }
  rewrite foldl_snoc. destruct (run_round _ x) as [[c' v'] es] eqn:E.
  apply (run_round_slot _ _ _ _ _ n) in E as (_ & _ & [(Em & _ & Hno)|(cand & k & Hs & Hu & Em & _)]);
    simpl; rewrite Em.
  - intros Ht. apply idle_since_extend; [auto|]. intros cand Hc. by destruct (Hno cand).
  - destruct (gone _ _ _ _ _ _); [done|]. intros [Hi ->]%next_mark_idle.
    destruct (inactiveSince _ !! n) as [t|] eqn:Et; simpl.
    + apply idle_since_extend; [auto|]. intros y Hy. by rewrite (Hu y Hy).
    + by eapply idle_since_now.
Qed.
End Rounds.

(** ** Several watchers on one server *)

Section World.
Context (lsn_text : Z -> string) (ParseLSN : string -> option Z).

(** What happens on the server: time passes, PostgreSQL changes a slot
    (created, dropped, taken into use, moved), a watcher registers its slot,
    beats or releases it, and the [k]th watcher's cleaner runs. *)
Inductive slot_op :=
| OTick (dt : Z)
| OSlot (name : string) (s : option slot)
| ORegister (r : slotRegistry)
| OHeartbeat (r : slotRegistry)
| ORelease (r : slotRegistry)
| OCleanup (k : nat) (reach rowsErr : bool) (clock : nat -> Z) (db : nat -> bool).

Record slot_world := mkSlotWorld { sw_server : server; sw_cleaners : list slotCleaner }.

Definition slot_step (w : slot_world) (o : slot_op) : slot_world :=
  let v := sw_server w in
  match o with
  | OTick dt => mkSlotWorld (mkServer (slots v) (owners v) (wal v) (db_now v + dt)) (sw_cleaners w)
  | OSlot n s => mkSlotWorld (set_slots (partial_alter (fun _ => s) n (slots v)) v) (sw_cleaners w)
  | ORegister r => mkSlotWorld (register true r v).1 (sw_cleaners w)
  | OHeartbeat r => mkSlotWorld (heartbeat true r v).1 (sw_cleaners w)
  | ORelease r => mkSlotWorld (release true r v).1 (sw_cleaners w)
  | OCleanup k reach rowsErr clock db =>
      match sw_cleaners w !! k with
      | None => w
      | Some c =>
          let '(c, v, _) := cleanupOnce lsn_text ParseLSN reach rowsErr clock db c v in
          mkSlotWorld v (<[k := c]> (sw_cleaners w))
      end
  end.
Definition slot_run (w : slot_world) (os : list slot_op) : slot_world := foldl slot_step w os.

(** The watcher of [r] keeps its registration: nobody else registers the slot
    or drops it by hand, it does not release it, and at every cleanup its last
    beat is less than [d] old on the cleaner's clock. *)
Fixpoint attended (r : slotRegistry) (d last now : Z) (os : list slot_op) : Prop :=
  match os with
  | [] => True
  | OTick dt :: os => attended r d last (now + dt) os
  | OSlot n s :: os => (n = slot_name r -> is_Some s) /\ attended r d last now os
  | ORegister r' :: os =>
      if decide (slot_name r' = slot_name r)
      then owner r' = owner r /\ attended r d now now os else attended r d last now os
  | OHeartbeat r' :: os =>
      if decide (slot_name r' = slot_name r /\ owner r' = owner r)
      then attended r d now now os else attended r d last now os
  | ORelease r' :: os => ~ (slot_name r' = slot_name r /\ owner r' = owner r) /\ attended r d last now os
  | OCleanup _ _ _ clock _ :: os => (forall i, time_sub (clock i) last < d) /\ attended r d last now os
  end.

Record claimed (r : slotRegistry) (d last now : Z) (w : slot_world) : Prop := mkClaimed {
  cl_row : exists m, owners (sw_server w) = Some m /\
             m !! slot_name r = Some (mkOwner (owner r) last None);
  cl_slot : is_Some (slots (sw_server w) !! slot_name r);
  cl_now : db_now (sw_server w) = now;
  cl_patient : Forall (fun c => d <= staleAfter (rules c)) (sw_cleaners w)
}.

Lemma gone_claimed c t1 t2 reach cand v o :
  Owner cand = Some o -> ReleasedAt o = None -> time_sub t2 (HeartbeatAt o) < staleAfter (rules c) ->
  gone c t1 t2 reach cand v = false.
Proof.
  intros Ho Hr Ht. unfold gone. rewrite condemned_rules, Ho. unfold abandoned. rewrite Hr.
  rewrite bool_decide_false by (by intros [? ?]). simpl.
  replace (staleAfter (rules c) <=? time_sub t2 (HeartbeatAt o)) with false
    by (symmetry; apply Z.leb_gt; lia).
  by rewrite andb_false_r.
Qed.

Lemma fetched_unchanged_wal reach rowsErr clock db c v c' v' es :
  cleanupOnce lsn_text ParseLSN reach rowsErr clock db c v = (c', v', es) -> db_now v' = db_now v.
Proof.
  unfold cleanupOnce. destruct (fetchSlotCandidates _ _ _ _ _) as [cands|]; [|by intros [= _ <- _]].
  generalize 0%nat, (@nil slot_error). revert c v.
  induction cands as [|cand cands IH]; intros c v i errs; [by intros [= _ <- _]|].
  cbn [cleanup_loop]. destruct (cleanup_one _ _ _ _ _ _) as [[c1 v1] e] eqn:E. intros ->%IH.
  revert E. unfold cleanup_one, dropSlot, dropReplicationSlot. destruct (observeInactive _ _ _) as [c0 m].
  destruct (negb _); [by intros [= _ <- _]|]. destruct (dryRun c0); [by intros [= _ <- _]|].
  destruct (slots v !! _); [destruct (_ && _)|]; by intros [= _ <- _].
Qed.

Lemma claimed_cleanup r d last now w k reach rowsErr clock db :
  claimed r d last now w -> (forall i, time_sub (clock i) last < d) ->
  claimed r d last now (slot_step w (OCleanup k reach rowsErr clock db)).
Proof.
  intros [(m & Ho & Hm) Hs Hn Hp] Hclock. simpl.
  destruct (sw_cleaners w !! k) as [c|] eqn:Ek; [|by split; eauto].
  destruct (cleanupOnce _ _ _ _ _ _ _ _) as [[c' v'] es] eqn:E.
  pose proof (fetched_unchanged_wal _ _ _ _ _ _ _ _ _ E) as Hnow.
  pose proof (run_round_slot lsn_text ParseLSN c (mkRound (sw_server w) clock reach rowsErr db) c' v' es
    (slot_name r) E) as ([Hr _] & Ho' & Hcase). simpl in *.
  assert (Hd : d <= staleAfter (rules c)) by (by eapply Forall_lookup_1 in Hp).
  split; simpl; [exists m; by rewrite Ho'| | congruence |].
  2:{ apply Forall_insert; [done|]. by rewrite Hr. }
  destruct Hcase as [(_ & -> & _)|(cand & j & Hsee & _ & _ & Hsl)]; [done|].
  rewrite Hsl. destruct Hsee as (cands & Hf & Hin & Hname). simpl in Hf.
  apply fetched_from in Hf as (_ & m' & Ho2 & Hall). rewrite Ho in Ho2. simplify_eq.
  destruct (Hall cand Hin) as (s & _ & _ & _ & Hown & _).
  rewrite Hname, Hm in Hown.
  rewrite (gone_claimed _ _ _ _ _ _ _ Hown); simpl; [done|done|].
  specialize (Hclock (j + (j + 0) + 1)%nat). lia.
Qed.

Lemma update_own_own r r' f o (m : gmap string slotOwner) :
  m !! slot_name r = Some o -> OwnerID o = owner r ->
  update_own r' f m !! slot_name r =
    Some (if decide (slot_name r' = slot_name r /\ owner r' = owner r) then f o else o).
Proof.
  intros Hm Hid. unfold update_own. destruct (decide (slot_name r' = slot_name r)) as [E|E].
  - rewrite E, lookup_alter_eq, Hm. simpl. f_equal. rewrite Hid.
    destruct (decide (owner r = owner r')), (decide (_ /\ _)); try done; exfalso; intuition congruence.
  - rewrite lookup_alter_ne by done. rewrite Hm. rewrite decide_False; [done|]. by intros [? _].
Qed.

Lemma with_owners_some f v m :
  owners v = Some m -> (with_owners true f v).1 = set_owners (Some (f m)) v.
Proof. unfold with_owners. by intros ->. Qed.

(** The registration after one statement on the owners table. *)
Lemma claimed_owners r d last last' now w f m :
  claimed r d last now w -> owners (sw_server w) = Some m ->
  f m !! slot_name r = Some (mkOwner (owner r) last' None) ->
  claimed r d last' now (mkSlotWorld (with_owners true f (sw_server w)).1 (sw_cleaners w)).
Proof.
  intros [_ Hs Hn Hp] Hm Hf. rewrite (with_owners_some _ _ _ Hm). split; simpl; eauto.
Qed.

Lemma claimed_run r d last now w os :
  claimed r d last now w -> attended r d last now os ->
  is_Some (slots (sw_server (slot_run w os)) !! slot_name r).
Proof.
  revert last now w. induction os as [|o os IH]; intros last now w Hc Ha; [apply Hc|].
  cbn [slot_run foldl]. change (foldl slot_step ?x os) with (slot_run x os).
  pose proof Hc as [(m & Ho & Hm) Hs Hn Hp].
  destruct o as [dt|n s|r'|r'|r'|k reach rowsErr clock db]; simpl in Ha.
  - apply (IH last (now + dt)); [|done]. split; simpl; eauto. by rewrite Hn.
  - destruct Ha as [Hns Ha]. apply (IH last now); [|done]. split; simpl; eauto.
    destruct (decide (n = slot_name r)) as [->|Hne].
    + rewrite lookup_partial_alter_eq. auto.
    + by rewrite lookup_partial_alter_ne.
  - case_decide as Hd.
    + destruct Ha as [Hown Ha]. apply (IH now now); [|done]. eapply claimed_owners; [done..|].
      by rewrite Hd, lookup_insert_eq, Hown, Hn.
    + apply (IH last now); [|done]. eapply claimed_owners; [done..|]. by rewrite lookup_insert_ne.
  - case_decide as Hd; (eapply IH; [|exact Ha]); (eapply claimed_owners; [done..|]);
      erewrite update_own_own by done; rewrite Hn.
    + by rewrite decide_True.
    + by rewrite decide_False.
  - destruct Ha as [Hne Ha]. apply (IH last now); [|done]. eapply claimed_owners; [done..|].
    erewrite update_own_own by done. by rewrite decide_False.
  - destruct Ha as [Hclock Ha]. apply (IH last now); [|done]. by apply claimed_cleanup.
Qed.
End World.

(** ** The theorems *)

(** C10: when the database answers, a cleanup round removes exactly the orphaned
    slots and touches nothing else: the logical slots of this database that are
    not the watcher's own, match the pattern, are inactive, hold back more WAL
    than the threshold (any amount when it is 0), and were released by their
    owner, or not heard of for the stale time - since their last heartbeat, or
    since they were first seen inactive when they have no owner.  A dry run
    removes none. *)
Theorem cleanupOnce_exact (lsn_text : Z -> string) (ParseLSN : string -> option Z)
    (c : slotCleaner) (v : server) (owned : gmap string slotOwner) (w now : Z)
    (c' : slotCleaner) (v' : server) (es : list slot_error) :
  (forall z, lsn_text z <> "") -> (forall z, is_lsn z -> ParseLSN (lsn_text z) = Some z) ->
  owners v = Some owned -> wal v = Some w -> is_lsn w ->
  map_Forall (fun _ s => from_option is_lsn True (s_restart s)) (slots v) ->
  cleanupOnce lsn_text ParseLSN true false (fun _ => now) (fun _ => true) c v = (c', v', es) ->
  slots v' = filter (fun ns => orphan c owned w now ns = false) (slots v) /\ owners v' = Some owned.
Proof.
  intros Hne Hparse Ho Hw Hwl Hs E. unfold cleanupOnce in E.
  rewrite (fetch_listed lsn_text ParseLSN Hne Hparse v owned w) in E by done.
  assert (Hnd : NoDup (map Name (listed owned w v))).
  { eapply fetched_from. exact (fetch_listed lsn_text ParseLSN Hne Hparse v owned w Ho Hw Hwl Hs). }
  destruct (cleanup_loop_effect _ _ _ _ _ _ _ _ _ _ Hnd E) as [_ _ Ho' Hother Hcand].
  split; [|congruence]. apply map_eq. intros n. rewrite map_lookup_filter.
  destruct (slots v !! n) as [s|] eqn:Es; cbn [mbind option_bind].
  2:{ destruct (Hother n) as [_ ->]; [|done].
      intros (cand & -> & (s & Hx & _)%listed_inv)%list_elem_of_fmap. congruence. }
  destruct (s_logical s && s_here s) eqn:El.
  - pose proof (listed_elem owned w v n s Es El) as [j Hj]%list_elem_of_lookup.
    destruct (Hcand j _ Hj) as [_ Hsl]. simpl in Hsl. rewrite Hsl.
    rewrite (gone_orphan c v owned w now n s Es El), Es.
    destruct (orphan c owned w now (n, s)) eqn:Eo; case_guard; cbn; congruence.
  - destruct (Hother n) as [_ ->].
    { intros (cand & -> & (s' & Hx & Hl & _)%listed_inv)%list_elem_of_fmap. congruence. }
    rewrite Es. assert (orphan c owned w now (n, s) = false) by (unfold orphan; by rewrite El).
    by case_guard.
Qed.

(** C23: a slot that no watcher has registered is dropped only by a cleaner that
    saw it inactive and unregistered in some round at least the stale time
    earlier, and in no round since saw it active or registered: a watcher
    without a registry row that is only reconnecting is spared. *)
Theorem unregistered_slot_spared (lsn_text : Z -> string) (ParseLSN : string -> option Z)
    (r : orphanRules) (dry : bool) (rs : list round) (x : round) (n : string)
    (owned : gmap string slotOwner) (c' : slotCleaner) (v' : server) (es : list slot_error) :
  is_Some (slots (rd_server x) !! n) -> owners (rd_server x) = Some owned -> owned !! n = None ->
  run_round lsn_text ParseLSN (run_rounds lsn_text ParseLSN (newSlotCleaner r dry) rs) x = (c', v', es) ->
  slots v' !! n = None ->
  dry = false /\
  exists t i, idle_since lsn_text ParseLSN (rs ++ [x]) n t /\ staleAfter r <= time_sub (rd_clock x i) t.
Proof.
  intros [s Hs] Ho Hn E Hgone. set (c := run_rounds _ _ _ _) in *.
  pose proof (run_round_slot _ _ _ _ _ _ _ n E) as (_ & _ & [(_ & Hsl & _)|(cand & k & Hsee & Hu & _ & Hsl)]).
  { rewrite Hsl in Hgone. congruence. }
  rewrite Hsl, Hs in Hgone. destruct (gone _ _ _ _ _ _) eqn:G; [|done].
  pose proof Hsee as (cands & Hf & Hin & Hname).
  apply fetched_from in Hf as (_ & m & Hm & Hall). rewrite Ho in Hm. injection Hm as <-.
  destruct (Hall cand Hin) as (s' & _ & _ & _ & Hown & _). rewrite Hname, Hn in Hown.
  unfold gone in G. rewrite condemned_rules in G. unfold eligible, abandoned in G.
  rewrite Hown in G. rewrite !andb_true_iff, !negb_true_iff in G.
  destruct G as (((((((_ & _) & Hact) & _) & Hst) & Hdry) & _) & _).
  unfold c in Hdry, Hst. rewrite run_rounds_dry in Hdry. split; [done|].
  rewrite run_rounds_rules in Hst. simpl in Hst. apply Z.leb_le in Hst.
  unfold used_mark, next_mark in Hst. rewrite Hact, Hown in Hst. simpl in Hst. fold c in Hst.
  rewrite Hname in *.
  destruct (inactiveSince c !! n) as [t|] eqn:Et; simpl in Hst.
  - eexists t, _. split; [|exact Hst]. apply idle_since_extend; [by eapply marks_idle|].
    intros y Hy. by rewrite (Hu y Hy).
  - eexists _, _. split; [|exact Hst]. by eapply idle_since_now.
Qed.

Lemma setup_claimed regexp_Compile cfg n o v v1 v2 r cl d cs :
  setupSlotOwnership regexp_Compile cfg n o (true, true) v = (v1, Some r, cl) ->
  createReplicationSlotIfNotExists true n v1 = (v2, Ok tt) ->
  Forall (fun c => d <= staleAfter (rules c)) cs ->
  r = mkRegistry n o /\ claimed r d (db_now v) (db_now v) (mkSlotWorld v2 cs).
Proof.
  unfold setupSlotOwnership. destruct (sc_Enabled cfg); simpl; [|done].
  intros [= <- <- _] Hc Hp. split; [done|]. revert Hc.
  unfold createReplicationSlotIfNotExists. destruct (validateIdentifier n); [|done]. simpl.
  destruct (slots v !! n) as [s|] eqn:Es; intros [= <-]; split; simpl; eauto;
    try (eexists; split; [done|]; apply lookup_insert_eq).
  rewrite lookup_insert_eq. eauto.
Qed.

(** C22: a watcher that registers its slot before it creates it, as [Start]
    does, and then beats so that at every cleanup its last heartbeat is less than
    every cleaner's stale time old on the cleaner's clock, keeps the slot, as long
    as nobody registers the same slot under another owner id or drops it by hand
    and it does not release it itself ([attended]): whatever else the other
    watchers and their cleaners do, in particular a release or a heartbeat under
    another owner id does not touch its row. *)
Theorem heartbeat_protects_slot (lsn_text : Z -> string) (ParseLSN : string -> option Z)
    (regexp_Compile : string -> option (string -> bool)) (cfg : SlotCleanupConfig)
    (n o : string) (v v1 v2 : server) (r : slotRegistry) (cl : option slotCleaner)
    (d : Z) (cs : list slotCleaner) (os : list slot_op) :
  setupSlotOwnership regexp_Compile cfg n o (true, true) v = (v1, Some r, cl) ->
  createReplicationSlotIfNotExists true n v1 = (v2, Ok tt) ->
  Forall (fun c => d <= staleAfter (rules c)) cs ->
  attended r d (db_now v) (db_now v) os ->
  is_Some (slots (sw_server (slot_run lsn_text ParseLSN (mkSlotWorld v2 cs) os)) !! n).
Proof.
  intros Hs Hc Hp Ha. destruct (setup_claimed _ _ _ _ _ _ _ _ _ _ _ Hs Hc Hp) as [-> Hcl].
  exact (claimed_run _ _ _ _ _ _ _ _ Hcl Ha).
Qed.

Lemma parse_error ParseLSN text e : parseLSNText ParseLSN text = Err e -> e = BadLSN text.
Proof. unfold parseLSNText. case_decide; [done|]. destruct (ParseLSN text); [done|]. by intros [=]. Qed.

(** What the lookup says about the slot. *)
Lemma verdict_spec lsn_text ParseLSN reach name v b :
  slotNeedsRecreating (querySlotStats lsn_text ParseLSN reach name v) = Ok b ->
  match slots v !! name with
  | None => b = true /\ is_ok (querySlotStats lsn_text ParseLSN reach name v) = false
  | Some s => b = bool_decide (s_status s = Some walStatusLost)
              /\ is_ok (querySlotStats lsn_text ParseLSN reach name v) = true
  end.
Proof.
  unfold querySlotStats. destruct reach; simpl; [|done].
  destruct (slots v !! name) as [s|]; simpl; [|by intros [= <-]].
  destruct (wal v); simpl; [|done].
  do 3 (destruct (parseLSNText ParseLSN _) as [|err] eqn:E; simpl;
        [clear E | apply parse_error in E as ->; simpl]); intros Hv; try discriminate Hv.
  injection Hv as <-. split; [|done].
  apply bool_decide_ext. unfold walStatusLost. destruct (s_status s); simpl; split; congruence.
Qed.

Lemma create_spec reach name v v' res :
  createReplicationSlotIfNotExists reach name v = (v', res) -> slots v !! name = None ->
  (forall m, m <> name -> slots v' !! m = slots v !! m) /\
  slots v' !! name = (if is_ok res then Some (fresh_slot v) else None).
Proof.
  unfold createReplicationSlotIfNotExists. intros E Hn. rewrite Hn in E.
  destruct (validateIdentifier name), reach; simplify_eq/=; auto.
  split; [intros; by rewrite lookup_insert_ne | apply lookup_insert_eq].
Qed.

(** C29: recreating the slot never touches a slot that can still stream: a slot
    is dropped only when its WAL is lost, is created anew only when it was lost
    or missing, the counter moves exactly when a fresh slot at the current WAL
    position took the place of a lost or missing one, then the call succeeds, and
    no other slot changes. *)
Theorem recreate_only_unusable (lsn_text : Z -> string) (ParseLSN : string -> option Z)
    (createSlot : bool) (reach : bool * bool * bool) (name : string) (v v' : server)
    (counted : bool) (res : result slot_error unit) :
  recreateUnusableSlot lsn_text ParseLSN createSlot reach name v = (v', counted, res) ->
  (forall m, m <> name -> slots v' !! m = slots v !! m) /\
  (forall s, slots v !! name = Some s -> s_status s <> Some walStatusLost -> v' = v /\ counted = false) /\
  (counted = true <->
     (forall s, slots v !! name = Some s -> s_status s = Some walStatusLost) /\
     slots v' !! name = Some (fresh_slot v)) /\
  (counted = true -> createSlot = true /\ res = Ok tt) /\
  (is_Some (slots v !! name) -> slots v' !! name = None -> is_ok res = false).
Proof.
  unfold recreateUnusableSlot.
  assert (Hsame : (forall s, slots v !! name = Some s -> s_status s = Some walStatusLost) ->
    slots v !! name = Some (fresh_slot v) -> False).
  { intros Hl Hf. by specialize (Hl _ Hf). }
  destruct createSlot; simpl; [|intros [= <- <- <-]; split_and!; try done; [naive_solver|by intros [? ->]]].
  destruct (slotNeedsRecreating _) as [b|e] eqn:Ev; [|intros [= <- <- <-]; split_and!; try done; naive_solver].
  apply verdict_spec in Ev. destruct (slots v !! name) as [s|] eqn:Es; destruct Ev as [-> ->].
  - case_bool_decide as Hl; [|intros [= <- <- <-]; split_and!; try done; rewrite ?Es; naive_solver].
    unfold dropReplicationSlot. rewrite Es. destruct (reach.1.2 && _);
      [|intros [= <- <- <-]; split_and!; try done; rewrite ?Es; naive_solver].
    destruct (createReplicationSlotIfNotExists _ _ _) as [v1 r1] eqn:Ec.
    apply create_spec in Ec as [Ho Hn]; [|apply lookup_delete_eq].
    assert (Hm : forall m, m <> name -> slots v1 !! m = slots v !! m).
    { intros m Hm. rewrite Ho by done. by apply lookup_delete_ne. }
    destruct r1 as [[]|]; intros [= <- <- <-]; simpl in *; split_and!; auto; try done; naive_solver.
  - destruct (createReplicationSlotIfNotExists _ _ _) as [v1 r1] eqn:Ec.
    apply create_spec in Ec as [Ho Hn]; [|done].
    destruct r1 as [[]|]; intros [= <- <- <-]; simpl in *; split_and!; auto; try done; naive_solver.
Qed.

(** ** Witnesses *)

Definition demo_text (z : Z) : string := "0" +:+ hexU z.
Definition demo_parse (s : string) : option Z := Some (unhex 0 s).

Lemma demo_text_nonempty z : demo_text z <> "".
Proof. unfold demo_text. by rewrite str_app_cons. Qed.

Lemma demo_text_parse z : is_lsn z -> demo_parse (demo_text z) = Some z.
Proof.
  intros Hz. unfold demo_parse, demo_text, hexU. f_equal. rewrite str_app_cons, str_app_nil_l.
  cbn [unhex]. change (0 * 16 + unhex_digit "0") with 0.
  rewrite unhex_go; [done|]. exact Hz.
Qed.

Definition demo_slot (active : bool) : slot :=
  mkSlot true true active (Some 100) (Some 100) (Some "reserved") None.
Definition demo_rules : orphanRules := mkRules "cdc_a" (fun _ => true) 1000 0.
Definition demo_server : server :=
  mkServer (<["cdc_a" := demo_slot true]> (<["cdc_b" := demo_slot false]> (<["cdc_c" := demo_slot false]> ∅)))
    (Some (<["cdc_b" := mkOwner "b" 0 None]> (<["cdc_c" := mkOwner "c" 4500 None]> ∅))) (Some 900) 5000.

Lemma cleanupOnce_exact_witness :
  let out := cleanupOnce demo_text demo_parse true false (fun _ => 5000) (fun _ => true)
               (newSlotCleaner demo_rules false) demo_server in
  slots out.1.2 !! "cdc_b" = None /\ is_Some (slots out.1.2 !! "cdc_c") /\
  slots out.1.2 = filter (fun ns => orphan (newSlotCleaner demo_rules false)
    (default ∅ (owners demo_server)) 900 5000 ns = false) (slots demo_server).
Proof.
  cbv zeta. split; [vm_compute; reflexivity|]. split; [vm_compute; eexists; reflexivity|].
  destruct (cleanupOnce demo_text demo_parse true false (fun _ => 5000) (fun _ => true)
    (newSlotCleaner demo_rules false) demo_server) as [[c' v'] es] eqn:E.
  refine (proj1 (cleanupOnce_exact demo_text demo_parse (newSlotCleaner demo_rules false) demo_server
    _ 900 5000 c' v' es demo_text_nonempty demo_text_parse _ _ _ _ E)); try reflexivity.
  - unfold is_lsn. lia.
  - intros n s Hs. unfold demo_server in Hs. simpl in Hs.
    repeat (apply lookup_insert_Some in Hs as [[_ <-]|[_ Hs]]; [simpl; unfold is_lsn; lia|]).
    by rewrite lookup_empty in Hs.
Defined.

Definition demo_round (now : Z) : round :=
  mkRound (mkServer (<["cdc_old" := demo_slot false]> ∅) (Some ∅) (Some 900) now)
    (fun _ => now) true false (fun _ => true).

Lemma unregistered_slot_spared_witness :
  false = false /\ exists t i,
    idle_since demo_text demo_parse [demo_round 10; demo_round 1010] "cdc_old" t /\
    1000 <= time_sub (rd_clock (demo_round 1010) i) t.
Proof.
  destruct (run_round demo_text demo_parse
    (run_rounds demo_text demo_parse (newSlotCleaner demo_rules false) [demo_round 10]) (demo_round 1010))
    as [[c' v'] es] eqn:E.
  apply (unregistered_slot_spared demo_text demo_parse demo_rules false [demo_round 10] (demo_round 1010)
    "cdc_old" ∅ c' v' es); [eexists; reflexivity | reflexivity | reflexivity | exact E |].
  change v' with ((c', v', es).1.2). rewrite <- E. vm_compute. reflexivity.
Defined.

Definition demo_cleanup : SlotCleanupConfig := mkCleanupConfig true 10 30 0 false "^cdc" 30.
Definition demo_compile (p : string) : option (string -> bool) := Some (fun _ => true).
Definition demo_watch : list slot_op :=
  [OTick 600; OHeartbeat (mkRegistry "cdc_b" "b"); ORelease (mkRegistry "cdc_b" "impostor"); OTick 600;
   OCleanup 0 true false (fun _ => 6200) (fun _ => true)].

Lemma heartbeat_protects_slot_witness :
  let v := mkServer ∅ None (Some 900) 5000 in
  let v1 := (setupSlotOwnership demo_compile demo_cleanup "cdc_b" "b" (true, true) v).1.1 in
  let v2 := (createReplicationSlotIfNotExists true "cdc_b" v1).1 in
  is_Some (slots (sw_server (slot_run demo_text demo_parse
    (mkSlotWorld v2 [newSlotCleaner demo_rules false]) demo_watch)) !! "cdc_b").
Proof.
  cbv zeta. eapply (heartbeat_protects_slot demo_text demo_parse demo_compile demo_cleanup "cdc_b" "b"
    (mkServer ∅ None (Some 900) 5000) _ _ (mkRegistry "cdc_b" "b") _ 1000 [newSlotCleaner demo_rules false]
    demo_watch); [reflexivity | reflexivity | |].
  - constructor; [simpl; lia | constructor].
  - cbn. split; [by intros [_ ?]|]. split; [|done].
    intros _. unfold time_sub. lia.
Defined.

Lemma recreate_only_unusable_witness :
  let lost := mkSlot true true false (Some 100) (Some 100) (Some "lost") None in
  let v := mkServer (<["cdc_b" := lost]> ∅) None (Some 900) 5000 in
  let out := recreateUnusableSlot demo_text demo_parse true (true, true, true) "cdc_b" v in
  out.1.2 = true /\ slots out.1.1 !! "cdc_b" = Some (fresh_slot v).
Proof.
  cbv zeta. split; [vm_compute; reflexivity|].
  set (v := mkServer _ _ _ _).
  destruct (recreateUnusableSlot demo_text demo_parse true (true, true, true) "cdc_b" v)
    as [[v' counted] res] eqn:E.
  destruct (recreate_only_unusable demo_text demo_parse true (true, true, true) "cdc_b" v v' counted res E)
    as (_ & _ & H & _).
  apply H. change counted with ((v', counted, res).1.2). rewrite <- E. vm_compute. reflexivity.
Defined.
