(* ===== verification/Snapshot.v ===== *)
(** * internal/postgres/snapshot_chunked.go and snapshot_dump.go

    The two ways of reading the rows that are already there: page by page from
    the live tables, or from the COPY blocks of a dump file.

    PostgreSQL is what the queries of the file ask of it: a table is the list of
    its rows in the order an [ORDER BY] returns them, which may change between
    two queries ([nat] is the number of the query).  The values a row holds, how
    [%v] prints one and how the server compares two of them are parameters. *)

From stdpp Require Import base list strings gmap sorting.
From Stdlib Require Import ZArith Lia Ascii.
From S2P Require Import Prelude GoStrings Json Escape Event MysqlDump Slots.

Local Open Scope Z_scope.

Inductive snap_error :=
| QueryChunkErr
| IterateErr
| InvalidName (e : slot_error)
| CatalogErr
| ConnectErr
| OpenErr
| ScanErr.

Record chunkSpec := mkSpec {
  sp_schema : string;
  sp_table : string;
  sp_pk : string;
  sp_columns : list string;
  sp_chunkSize : Z
}.

Section Chunked.
Context {V : Type} (sprint : V -> string) (gtb : V -> V -> bool).

(** A NULL is [None]. *)
Definition row : Type := list (option V).

(** The column loop of [buildSnapshotEvent], at column [i]. *)
Fixpoint columns_loop (i : nat) (columns : list string) (values : row) (sb : string) : string :=
  match columns with
  | [] => sb
  | col :: columns =>
      let sb := if (0 <? i)%nat then sb +:+ ", " else sb in
      let sb := sb +:+ dquote +:+ EscapeString col +:+ dquote +:+ ":" in
      let sb := match values !! i with
                | Some (Some v) => sb +:+ dquote +:+ EscapeString (sprint v) +:+ dquote
                | _ => sb +:+ "null"
                end in
      columns_loop (S i) columns values sb
  end.

Definition buildSnapshotEvent (now : Z) (schema table : string) (columns : list string) (values : row)
    : Event :=
  NewEvent now Insert schema table (columns_loop 0 columns values "{" +:+ "}") "INSERT" "".

(** [buildChunkQuery]: the first page, or the page after a key. *)
Inductive chunk_query := FirstChunk (limit : Z) | NextChunk (after : V) (limit : Z).

Definition buildChunkQuery (lastValue : option V) (chunkSize : Z) : chunk_query :=
  match lastValue with None => FirstChunk chunkSize | Some v => NextChunk v chunkSize end.

(** The value the loop of [fetchChunk] finds in the key column. *)
Fixpoint key_value (columns : list string) (pk : string) (values : row) : option V :=
  match columns, values with
  | c :: columns, v :: values => if decide (c = pk) then v else key_value columns pk values
  | _, _ => None
  end.

Definition has_key (columns : list string) (pk : string) : Prop := pk ∈ columns.

(** [WHERE pk > $1]: a NULL key is not selected. *)
Definition after_key (s : chunkSpec) (v : V) (r : row) : bool :=
  match key_value (sp_columns s) (sp_pk s) r with Some k => gtb k v | None => false end.

(** The rows the server answers with; a negative LIMIT is an error. *)
Definition run_query (s : chunkSpec) (q : chunk_query) (rows : list row) : option (list row) :=
  match q with
  | FirstChunk n => if n <? 0 then None else Some (take (Z.to_nat n) rows)
  | NextChunk v n =>
      if n <? 0 then None
      else Some (take (Z.to_nat n) (filter (fun r => after_key s v r = true) rows))
  end.

(** The rows of an answer up to a fault of the connection. *)
Definition emit_rows (clock : nat -> Z) (n : nat) (s : chunkSpec) (rows : list row) : list Event :=
  imap (fun i r => buildSnapshotEvent (clock (n + i)%nat) (sp_schema s) (sp_table s) (sp_columns s) r) rows.

(** [lastValue] after the loop: each row overwrites it, when it has the column. *)
Definition last_key (s : chunkSpec) (rows : list row) : option V :=
  foldl (fun acc r => if decide (sp_pk s ∈ sp_columns s)
                      then key_value (sp_columns s) (sp_pk s) r else acc) None rows.

(** [fetchChunk]: the events handed over, and the count and last key or the
    error; [fault] is the row at which the connection fails. *)
Definition fetchChunk (clock : nat -> Z) (n : nat) (fault : option nat) (s : chunkSpec)
    (q : chunk_query) (rows : list row) : list Event * result snap_error (Z * option V) :=
  match run_query s q rows, fault with
  | None, _ | _, Some O => ([], Err QueryChunkErr)
  | Some page, Some (S k) => (emit_rows clock n s (take k page), Err IterateErr)
  | Some page, None => (emit_rows clock n s page, Ok (Z.of_nat (length page), last_key s page))
  end.

(** The loop of [snapshotByPK], at query [q]; it runs until a short page, so it
    carries fuel: [None] is a loop that has not ended. *)
Fixpoint pk_loop (clock : nat -> Z) (faults : nat -> option nat) (tab : nat -> list row) (s : chunkSpec)
    (fuel q : nat) (lastValue : option V) (out : list Event)
    : option (list Event * result snap_error unit) :=
  match fuel with
  | O => None
  | S fuel =>
      let query := buildChunkQuery lastValue (sp_chunkSize s) in
      let '(evs, r) := fetchChunk clock (length out) (faults q) s query (tab q) in
      let out := out ++ evs in
      match r with
      | Err e => Some (out, Err e)
      | Ok (count, newLast) =>
          if count <? sp_chunkSize s then Some (out, Ok tt)
          else pk_loop clock faults tab s fuel (S q) newLast out
      end
  end.

Definition snapshotByPK (fuel : nat) (clock : nat -> Z) (faults : nat -> option nat)
    (tab : nat -> list row) (s : chunkSpec) (out : list Event)
    : option (list Event * result snap_error unit) :=
  match validateIdentifier (sp_pk s) with
  | Err e => Some (out, Err (InvalidName e))
  | Ok _ => pk_loop clock faults tab s fuel 0 None out
  end.

(** [fetchOffsetChunk]: [ORDER BY 1 LIMIT $1 OFFSET $2]. *)
Definition fetchOffsetChunk (clock : nat -> Z) (n : nat) (fault : option nat) (s : chunkSpec)
    (offset : Z) (rows : list row) : list Event * result snap_error Z :=
  let page := take (Z.to_nat (sp_chunkSize s)) (drop (Z.to_nat offset) rows) in
  match sp_chunkSize s <? 0, fault with
  | true, _ | _, Some O => ([], Err QueryChunkErr)
  | false, Some (S k) => (emit_rows clock n s (take k page), Err IterateErr)
  | false, None => (emit_rows clock n s page, Ok (Z.of_nat (length page)))
  end.

Fixpoint offset_loop (clock : nat -> Z) (faults : nat -> option nat) (tab : nat -> list row)
    (s : chunkSpec) (fuel q : nat) (offset : Z) (out : list Event)
    : option (list Event * result snap_error unit) :=
  match fuel with
  | O => None
  | S fuel =>
      let '(evs, r) := fetchOffsetChunk clock (length out) (faults q) s offset (tab q) in
      let out := out ++ evs in
      match r with
      | Err e => Some (out, Err e)
      | Ok count =>
          if count <? sp_chunkSize s then Some (out, Ok tt)
          else offset_loop clock faults tab s fuel (S q) (i64 (offset + count)) out
      end
  end.

Definition snapshotByOffset (fuel : nat) (clock : nat -> Z) (faults : nat -> option nat)
    (tab : nat -> list row) (s : chunkSpec) (out : list Event)
    : option (list Event * result snap_error unit) :=
  offset_loop clock faults tab s fuel 0 0 out.

End Chunked.

(** ** Paging by key *)

Section Paging.
Context {V : Type} (sprint : V -> string) (gtb : V -> V -> bool).
Context (Hasym : forall x y, gtb x y = true -> gtb y x = false).
Context (s : chunkSpec) (Hkey : sp_pk s ∈ sp_columns s) (Hchunk : 0 < sp_chunkSize s).

Notation row := (@row V).
Definition key (r : row) : option V := key_value (sp_columns s) (sp_pk s) r.

(** The order of [ORDER BY pk] on rows with distinct keys. *)
Definition key_lt (a b : row) : Prop :=
  exists x y, key a = Some x /\ key b = Some y /\ gtb y x = true.

(** The row comes after the last key read. *)
Definition beyond (lastValue : option V) (r : row) : Prop :=
  match lastValue with None => True | Some v => after_key gtb s v r = true end.

#[local] Instance beyond_dec l r : Decision (beyond l r).
Proof. destruct l; simpl; apply _. Defined.

Lemma run_query_rows l (rows : list row) :
  run_query gtb s (buildChunkQuery l (sp_chunkSize s)) rows
  = Some (take (Z.to_nat (sp_chunkSize s)) (filter (beyond l) rows)).
Proof.
  destruct l as [v|]; simpl; (replace (sp_chunkSize s <? 0) with false by (symmetry; apply Z.ltb_ge; lia)).
  - done.
  - rewrite filter_all; [done|]. by apply Forall_forall.
Qed.

Lemma last_key_snoc rows (r : row) : last_key s (rows ++ [r]) = key r.
Proof. unfold last_key. rewrite foldl_snoc. by rewrite decide_True. Qed.

Lemma key_lt_beyond (a b : row) v : key a = Some v -> key_lt a b -> beyond (Some v) b.
Proof.
  intros Ha (x & y & Hx & Hy & Hgt). simpl. unfold after_key. fold (key b). rewrite Hy.
  rewrite Ha in Hx. by injection Hx as <-.
Qed.

Lemma key_lt_not_beyond (a b : row) v : key b = Some v -> key_lt a b -> ~ beyond (Some v) a.
Proof.
  intros Hb (x & y & Hx & Hy & Hgt). simpl. unfold after_key. fold (key a). rewrite Hx.
  rewrite Hb in Hy. injection Hy as <-. by rewrite (Hasym _ _ Hgt).
Qed.

Lemma self_not_beyond (r : row) v : key r = Some v -> ~ beyond (Some v) r.
Proof.
  intros Hr. simpl. unfold after_key. fold (key r). rewrite Hr. intros H. by rewrite (Hasym _ _ H) in H.
Qed.

(** After the key of a row of a sorted table come exactly the rows behind it. *)
Lemma filter_beyond (l1 l2 : list row) r v :
  StronglySorted key_lt (l1 ++ r :: l2) -> key r = Some v ->
  filter (beyond (Some v)) (l1 ++ r :: l2) = l2.
Proof.
  intros Hs Hr. rewrite filter_app, filter_cons_False by (by apply self_not_beyond).
  apply StronglySorted_app in Hs as (Hlt & _ & Hs2).
  apply StronglySorted_inv in Hs2 as [_ Hall].
  rewrite filter_none.
  - apply filter_all. eapply Forall_impl; [exact Hall|]. intros b. by apply key_lt_beyond.
  - apply Forall_forall. intros a Ha. eapply key_lt_not_beyond; [done|]. apply Hlt; [done|left].
Qed.

Lemma emit_rows_app clock n (a b : list row) :
  emit_rows sprint clock n s (a ++ b)
  = emit_rows sprint clock n s a ++ emit_rows sprint clock (n + length a) s b.
Proof.
  unfold emit_rows. rewrite imap_app. f_equal. apply imap_ext. intros i x _. simpl. do 2 f_equal. lia.
Qed.

Lemma emit_rows_length clock n (a : list row) : length (emit_rows sprint clock n s a) = length a.
Proof. apply length_imap. Qed.

(** One turn of the loop when the connection holds. *)
Lemma pk_turn clock faults tab fuel q l out :
  faults q = None ->
  let page := take (Z.to_nat (sp_chunkSize s)) (filter (beyond l) (tab q)) in
  pk_loop sprint gtb clock faults tab s (S fuel) q l out =
    let out := out ++ emit_rows sprint clock (length out) s page in
    if Z.of_nat (length page) <? sp_chunkSize s then Some (out, Ok tt)
    else pk_loop sprint gtb clock faults tab s fuel (S q) (last_key s page) out.
Proof. intros Hf. cbv zeta. cbn [pk_loop]. unfold fetchChunk. by rewrite run_query_rows, Hf. Qed.

Definition last_seen (done : list row) : option V := last done ≫= key.

Lemma filter_rest (done todo : list row) :
  StronglySorted key_lt (done ++ todo) -> Forall (fun r => is_Some (key r)) done ->
  filter (beyond (last_seen done)) (done ++ todo) = todo.
Proof.
  intros Hs Hall. destruct done as [|r done _] using rev_ind.
  - unfold last_seen. simpl. apply filter_all. by apply Forall_forall.
  - unfold last_seen. rewrite last_snoc. simpl. apply Forall_app in Hall as [_ Hr].
    apply Forall_inv in Hr as [v Hv]. rewrite Hv. rewrite <- app_assoc in *. by apply filter_beyond.
Qed.

Lemma full_page (todo : list row) :
  sp_chunkSize s <= Z.of_nat (length todo) ->
  exists p r rest, take (Z.to_nat (sp_chunkSize s)) todo = p ++ [r] /\ todo = (p ++ [r]) ++ rest /\
    length (p ++ [r]) = Z.to_nat (sp_chunkSize s).
Proof.
  intros Hlen. set (k := Z.to_nat (sp_chunkSize s)).
  assert (Hk : length (take k todo) = k) by (rewrite length_take; unfold k; lia).
  destruct (exists_last (l := take k todo)) as (p & r & E).
  { intros E. rewrite E in Hk. simpl in Hk. unfold k in Hk. lia. }
  rewrite E in Hk. exists p, r, (drop k todo). split_and!; [done| |done].
  rewrite <- E. by rewrite take_drop.
Qed.

(** One page more brings the number of pages to come down by one. *)
Lemma pages_decrease (c n k fuel : nat) : (0 < c)%nat -> (c + n = k -> k / c < S fuel -> n / c < fuel)%nat.
Proof.
  intros Hc <-. rewrite <- (Nat.mul_1_l c) at 1. rewrite Nat.add_comm, Nat.div_add by lia. lia.
Qed.

Lemma static_loop clock faults tab (rows : list row) pre :
  (forall q, tab q = rows) -> (forall q, faults q = None) ->
  StronglySorted key_lt rows -> Forall (fun r => is_Some (key r)) rows ->
  forall fuel q done todo out,
    rows = done ++ todo -> out = pre ++ emit_rows sprint clock (length pre) s done ->
    (length todo / Z.to_nat (sp_chunkSize s) < fuel)%nat ->
    pk_loop sprint gtb clock faults tab s fuel q (last_seen done) out
    = Some (pre ++ emit_rows sprint clock (length pre) s rows, Ok tt).
Proof.
  intros Htab Hfl Hs Hall. induction fuel as [|fuel IH]; intros q done todo out Hrows Hout Hf; [lia|].
  rewrite pk_turn by done. cbv zeta.
  replace (filter (beyond (last_seen done)) (tab q)) with todo.
  2:{ rewrite Htab, Hrows in *. apply Forall_app in Hall as [? _]. symmetry. by apply filter_rest. }
  assert (Hlen : length out = (length pre + length done)%nat).
  { by rewrite Hout, length_app, emit_rows_length. }
  destruct (Z.ltb_spec (Z.of_nat (length (take (Z.to_nat (sp_chunkSize s)) todo))) (sp_chunkSize s)) as [Hlt|Hge].
  - rewrite length_take in Hlt. rewrite take_ge by lia.
    by rewrite Hrows, emit_rows_app, Hlen, Hout, app_assoc.
  - rewrite length_take in Hge. destruct (full_page todo) as (p & r & rest & -> & Htodo & Hlp); [lia|].
    rewrite last_key_snoc.
    replace (key r) with (last_seen (done ++ p ++ [r])).
    2:{ unfold last_seen. rewrite app_assoc, last_snoc. done. }
    apply (IH _ _ rest).
    + by rewrite Hrows, Htodo, <- !app_assoc.
    + by rewrite (emit_rows_app _ _ done), Hlen, Hout, app_assoc.
    + eapply pages_decrease; [|by rewrite <- Hlp, <- length_app, <- Htodo|done]. lia.
Qed.

(** The loop of a keyless table whose rows come in the same order every time. *)
Lemma offset_static clock faults tab (rows : list row) pre :
  (forall q, tab q = rows) -> (forall q, faults q = None) -> Z.of_nat (length rows) < 2 ^ 63 ->
  forall fuel q done todo out,
    rows = done ++ todo -> out = pre ++ emit_rows sprint clock (length pre) s done ->
    (length todo / Z.to_nat (sp_chunkSize s) < fuel)%nat ->
    offset_loop sprint clock faults tab s fuel q (Z.of_nat (length done)) out
    = Some (pre ++ emit_rows sprint clock (length pre) s rows, Ok tt).
Proof.
  intros Htab Hfl Hmax. induction fuel as [|fuel IH]; intros q done todo out Hrows Hout Hf; [lia|].
  cbn [offset_loop]. unfold fetchOffsetChunk.
  replace (sp_chunkSize s <? 0) with false by lia. rewrite Htab, Hfl, Nat2Z.id.
  replace (drop (length done) rows) with todo by (by rewrite Hrows, drop_app_length).
  assert (Hlen : length out = (length pre + length done)%nat).
  { by rewrite Hout, length_app, emit_rows_length. }
  destruct (Z.ltb_spec (Z.of_nat (length (take (Z.to_nat (sp_chunkSize s)) todo))) (sp_chunkSize s)) as [Hlt|Hge].
  - rewrite length_take in Hlt. rewrite take_ge by lia.
    by rewrite Hrows, emit_rows_app, Hlen, Hout, app_assoc.
  - rewrite length_take in Hge. destruct (full_page todo) as (p & r & rest & -> & Htodo & Hlp); [lia|].
    assert (Hn : (length rows = length done + length (p ++ [r]) + length rest)%nat).
    { rewrite Hrows, Htodo, !length_app. lia. }
    replace (i64 _) with (Z.of_nat (length (done ++ p ++ [r]))).
    2:{ rewrite i64_small; rewrite ?length_app in *; lia. }
    apply (IH _ _ rest).
    + by rewrite Hrows, Htodo, <- !app_assoc.
    + by rewrite (emit_rows_app _ _ done), Hlen, Hout, app_assoc.
    + eapply pages_decrease; [|by rewrite <- Hlp, <- length_app, <- Htodo|done]. lia.
Qed.

(** The row was handed to the bus. *)
Definition captured (r : row) (out : list Event) : Prop :=
  exists now, buildSnapshotEvent sprint now (sp_schema s) (sp_table s) (sp_columns s) r ∈ out.

Lemma captured_app_l r out evs : captured r out -> captured r (out ++ evs).
Proof. intros [now H]. exists now. apply elem_of_app. by left. Qed.

Lemma captured_emit clock n r out page : r ∈ page -> captured r (out ++ emit_rows sprint clock n s page).
Proof.
  intros [i Hi]%list_elem_of_lookup. exists (clock (n + i)%nat). apply elem_of_app. right.
  apply elem_of_lookup_imap. eauto.
Qed.

(** In a sorted table, a row beyond the last key is on the page or beyond the
    last key of a full page. *)
Lemma page_or_beyond (rows : list row) l r p x rest :
  StronglySorted key_lt rows -> Forall (fun r => is_Some (key r)) rows ->
  r ∈ rows -> beyond l r -> filter (beyond l) rows = (p ++ [x]) ++ rest ->
  r ∈ p ++ [x] \/ beyond (key x) r.
Proof.
  intros Hs Hall Hr Hb Hf.
  assert (Hin : r ∈ (p ++ [x]) ++ rest) by (rewrite <- Hf; by apply list_elem_of_filter).
  apply elem_of_app in Hin as [Hin|Hin]; [by left|right].
  assert (Hsf : StronglySorted key_lt ((p ++ [x]) ++ rest)).
  { rewrite <- Hf. by apply StronglySorted_filter. }
  apply StronglySorted_app in Hsf as (Hlt & _).
  assert (Hx : x ∈ filter (beyond l) rows).
  { rewrite Hf. apply elem_of_app. left. apply elem_of_app. right. left. }
  apply list_elem_of_filter in Hx as [_ Hx]. apply (proj1 (Forall_forall _ _) Hall) in Hx as [v Hv].
  rewrite Hv. eapply key_lt_beyond; [done|]. apply Hlt; [|done]. apply elem_of_app. right. left.
Qed.

Lemma concurrent_loop clock faults (tab : nat -> list row) r :
  (forall q, StronglySorted key_lt (tab q)) -> (forall q, Forall (fun r => is_Some (key r)) (tab q)) ->
  (forall q, r ∈ tab q) ->
  forall fuel q l out out',
    pk_loop sprint gtb clock faults tab s fuel q l out = Some (out', Ok tt) ->
    captured r out \/ beyond l r -> captured r out'.
Proof.
  intros Hs Hall Hr. induction fuel as [|fuel IH]; intros q l out out'; [done|].
  cbn [pk_loop]. unfold fetchChunk. rewrite run_query_rows.
  destruct (faults q) as [[|k]|]; [done..|]. set (page := take _ _).
  destruct (Z.ltb_spec (Z.of_nat (length page)) (sp_chunkSize s)) as [Hlt|Hge].
  - intros [= <-] [Hc|Hb]; [by apply captured_app_l|]. apply captured_emit.
    unfold page in *. rewrite length_take in Hlt. rewrite take_ge by lia. by apply list_elem_of_filter.
  - intros Hloop Hc. eapply IH; [exact Hloop|].
    unfold page in *. rewrite length_take in Hge.
    destruct (full_page (filter (beyond l) (tab q))) as (p & x & rest & -> & Hf & _); [lia|].
    rewrite last_key_snoc. destruct Hc as [Hc|Hb]; [left; by apply captured_app_l|].
    destruct (page_or_beyond (tab q) l r p x rest) as [Hin|Hin]; auto. left. by apply captured_emit.
Qed.
End Paging.

Section Json.
Context {V : Type} (sprint : V -> string).

Lemma columns_loop_open i columns (values : @row V) sb :
  open_ok maxNestingDepth 0 i sb ->
  open_ok maxNestingDepth 0 (i + length columns) (columns_loop sprint i columns values sb).
Proof.
  revert i sb. induction columns as [|col columns IH]; intros i sb Ho; simpl.
  { by rewrite Nat.add_0_r. }
  rewrite <- Nat.add_succ_comm. apply IH.
  set (val := match values !! i with
              | Some (Some v) => dquote +:+ EscapeString (sprint v) +:+ dquote | _ => "null" end).
  match goal with |- open_ok _ _ _ ?t =>
    replace t with (sb +:+ sep i +:+ member (EscapeString col) val) end.
  - apply open_member; [done|apply body_escape|].
    unfold val. destruct (values !! i) as [[v|]|]; [apply value_string, body_escape|apply value_null..].
  - unfold val, member. destruct (values !! i) as [[v|]|], i; simpl; by rewrite ?str_app_assoc.
Qed.

Lemma buildSnapshotEvent_valid now schema table columns (values : @row V) :
  json_valid (Data (buildSnapshotEvent sprint now schema table columns values)) = true.
Proof.
  simpl. eapply (value_valid _ 1).
  - unfold maxNestingDepth. lia.
  - apply (open_close _ 0 (0 + length columns)), columns_loop_open, open_start.
Qed.
End Json.

(** ** snapshot_dump.go *)

(** [strings.Split] on one byte. *)
Fixpoint split_on (c : ascii) (s : string) : list string :=
  match s with
  | EmptyString => [EmptyString]
  | String a s =>
      if Ascii.eqb a c then EmptyString :: split_on c s
      else match split_on c s with
           | [] => [String a EmptyString]
           | w :: ws => String a w :: ws
           end
  end.

(** The white space of [unicode.IsSpace], encoded. *)
Definition space_runes : list Z :=
  [9; 10; 11; 12; 13; 32; 133; 160; 5760; 8192; 8193; 8194; 8195; 8196; 8197; 8198; 8199; 8200; 8201;
   8202; 8232; 8233; 8239; 8287; 12288].

Fixpoint rev_string (s acc : string) : string :=
  match s with EmptyString => acc | String a s => rev_string s (String a acc) end.

Fixpoint strip_any (ps : list string) (s : string) : option string :=
  match ps with
  | [] => None
  | p :: ps => match after_prefix p s with Some t => Some t | None => strip_any ps s end
  end.

Fixpoint strip_all (fuel : nat) (ps : list string) (s : string) : string :=
  match fuel with
  | O => s
  | S fuel => match strip_any ps s with Some t => strip_all fuel ps t | None => s end
  end.

(** [strings.TrimSpace]: leading white space, then trailing; each step removes
    at least a byte, so the length is fuel enough. *)
Definition TrimSpace (s : string) : string :=
  let spaces := map encode_rune space_runes in
  let s := strip_all (String.length s) spaces s in
  rev_string (strip_all (String.length s) (map (fun p => rev_string p "") spaces) (rev_string s "")) "".

Definition splitColumns (s : string) : list string := map TrimSpace (split_on "," s).

(** The word split as [(\S+)\.(\S+)]: at the last dot with something after it. *)
Fixpoint split_dot (w : string) : option (string * string) :=
  match w with
  | EmptyString => None
  | String a w =>
      match split_dot w with
      | Some (u, v) => Some (String a u, v)
      | None => match w with
                | String d (String _ _ as v) =>
                    if Ascii.eqb d "." then Some (String a EmptyString, v) else None
                | _ => None
                end
      end
  end.

(** [f+] at the start of [s]: what follows the longest run. *)
Definition some_blanks (s : string) : option string :=
  let '(u, v) := span is_blank s in if bool_decide (u = "") then None else Some v.

(** [^COPY\s+(\S+)\.(\S+)\s+\(([^)]+)\)\s+FROM\s+stdin;] *)
Definition copyHeaderRegex (line : string) : option (string * string * string) :=
  s ← after_prefix "COPY" line;
  s ← some_blanks s;
  let '(w, s) := span (fun c => negb (is_blank c)) s in
  '(schema, table) ← split_dot w;
  s ← some_blanks s;
  s ← after_prefix "(" s;
  let '(cols, s) := span (fun c => negb (c =? 41)) s in
  if bool_decide (cols = "") then None
  else
    s ← after_prefix ")" s;
    s ← some_blanks s;
    s ← after_prefix "FROM" s;
    s ← some_blanks s;
    _ ← after_prefix "stdin;" s;
    Some (schema, table, cols).

(** The column loop of [parseCopyLine]: the name is written as it is. *)
Fixpoint copy_loop (i : nat) (columns values : list string) (sb : string) : string :=
  match columns with
  | [] => sb
  | col :: columns =>
      let sb := if (0 <? i)%nat then sb +:+ ", " else sb in
      let sb := sb +:+ dquote +:+ col +:+ dquote +:+ ":" in
      let sb := match values !! i with
                | Some val => if bool_decide (val = bslash +:+ "N") then sb +:+ "null"
                              else sb +:+ dquote +:+ EscapeString val +:+ dquote
                | None => sb +:+ "null"
                end in
      copy_loop (S i) columns values sb
  end.

Definition parseCopyLine (now : Z) (line schema table : string) (columns : list string) (lsn : string)
    : Event :=
  NewEvent now Insert schema table (copy_loop 0 columns (split_on (chr 9) line) "{" +:+ "}") "INSERT" lsn.

(** [ParseDumpFile] over the lines of the scanner; [inCopy] is the schema, table
    and columns of the open block.  The state stays when a block ends. *)
Fixpoint dump_loop (clock : nat -> Z) (startLSN : string) (inCopy : option (string * string * list string))
    (lines : list string) (scanErr : bool) (out : list Event) : list Event * result snap_error unit :=
  match lines with
  | [] => (out, if scanErr then Err ScanErr else Ok tt)
  | line :: lines =>
      match inCopy with
      | Some (schema, table, columns) =>
          if bool_decide (line = bslash +:+ ".") then dump_loop clock startLSN None lines scanErr out
          else dump_loop clock startLSN inCopy lines scanErr
                 (out ++ [parseCopyLine (clock (length out)) line schema table columns startLSN])
      | None =>
          match copyHeaderRegex line with
          | None => dump_loop clock startLSN None lines scanErr out
          | Some (schema, table, cols) =>
              match validateIdentifier schema, validateIdentifier table with
              | Err e, _ | _, Err e => (out, Err (InvalidName e))
              | Ok _, Ok _ =>
                  dump_loop clock startLSN (Some (schema, table, splitColumns cols)) lines scanErr out
              end
          end
      end
  end.

(** [None] is a file that does not open. *)
Definition ParseDumpFile (clock : nat -> Z) (file : option (list string * bool)) (startLSN : string)
    : list Event * result snap_error unit :=
  match file with
  | None => ([], Err OpenErr)
  | Some (lines, scanErr) => dump_loop clock startLSN None lines scanErr []
  end.

Lemma body_ident maxd c : all_ident c = true -> body_ok maxd c.
Proof.
  induction c as [|a c IH]; simpl; [intros _; apply body_nil|].
  intros [Ha Hc]%andb_true_iff. apply body_plain; [|auto].
  unfold ident_char, ident_start in Ha. unfold plain_byte. lia.
Qed.

Lemma copy_loop_open i columns values sb :
  Forall (fun c => all_ident c = true) columns ->
  open_ok maxNestingDepth 0 i sb ->
  open_ok maxNestingDepth 0 (i + length columns) (copy_loop i columns values sb).
Proof.
  intros Hc. revert i sb. induction Hc as [|col columns Hcol _ IH]; intros i sb Ho; simpl.
  { by rewrite Nat.add_0_r. }
  rewrite <- Nat.add_succ_comm. apply IH.
  set (val := match values !! i with
              | Some v => if bool_decide (v = bslash +:+ "N") then "null"
                          else dquote +:+ EscapeString v +:+ dquote
              | _ => "null" end).
  match goal with |- open_ok _ _ _ ?t => replace t with (sb +:+ sep i +:+ member col val) end.
  - apply open_member; [done|by apply body_ident|].
    unfold val. destruct (values !! i) as [v|]; [case_bool_decide|];
      try apply value_null; apply value_string, body_escape.
  - unfold val, member. destruct (values !! i) as [v|]; [case_bool_decide|]; destruct i; simpl;
      by rewrite ?str_app_assoc.
Qed.

Lemma copy_loop_prefix i columns values sb : exists t, copy_loop i columns values sb = sb +:+ t.
Proof.
  revert i sb. induction columns as [|col columns IH]; intros i sb; simpl.
  { exists "". by rewrite str_app_nil_r. }
  match goal with |- context [copy_loop (S i) columns values ?u] => destruct (IH (S i) u) as [t ->] end.
  destruct (values !! i) as [v|]; [case_bool_decide|]; destruct (0 <? i)%nat;
    rewrite !str_app_assoc; eauto.
Qed.

(** ** The theorems *)

(** Paging by a one-column key ends and is exact: for every positive chunk size,
    after at most one query more than the table has full chunks, each row has
    been handed over once, in key order, after what was there before. *)
Theorem snapshotByPK_exact {V : Type} (sprint : V -> string) (gtb : V -> V -> bool)
    (clock : nat -> Z) (faults : nat -> option nat) (tab : nat -> list (@row V)) (s : chunkSpec)
    (rows : list (@row V)) (fuel : nat) (pre : list Event) :
  (forall x y, gtb x y = true -> gtb y x = false) ->
  validateIdentifier (sp_pk s) = Ok tt -> sp_pk s ∈ sp_columns s -> 0 < sp_chunkSize s ->
  (forall q, tab q = rows) -> (forall q, faults q = None) ->
  StronglySorted (key_lt gtb s) rows -> Forall (fun r => is_Some (key s r)) rows ->
  (length rows / Z.to_nat (sp_chunkSize s) < fuel)%nat ->
  snapshotByPK sprint gtb fuel clock faults tab s pre
    = Some (pre ++ emit_rows sprint clock (length pre) s rows, Ok tt).
Proof.
  intros Hasym Hpk Hin Hc Ht Hfl Hs Hall Hf. unfold snapshotByPK. rewrite Hpk.
  apply (static_loop sprint gtb Hasym s Hin Hc clock faults tab rows pre Ht Hfl Hs Hall fuel 0 [] rows pre);
    [done|by rewrite app_nil_r|done].
Qed.

(** So does paging by offset, when the server returns the rows in one order. *)
Theorem snapshotByOffset_exact {V : Type} (sprint : V -> string) (clock : nat -> Z)
    (faults : nat -> option nat) (tab : nat -> list (@row V)) (s : chunkSpec)
    (rows : list (@row V)) (fuel : nat) (pre : list Event) :
  0 < sp_chunkSize s -> (forall q, tab q = rows) -> (forall q, faults q = None) ->
  Z.of_nat (length rows) < 2 ^ 63 -> (length rows / Z.to_nat (sp_chunkSize s) < fuel)%nat ->
  snapshotByOffset sprint fuel clock faults tab s pre
    = Some (pre ++ emit_rows sprint clock (length pre) s rows, Ok tt).
Proof.
  intros Hc Ht Hfl Hm Hf.
  apply (offset_static sprint s Hc clock faults tab rows pre Ht Hfl Hm fuel 0 [] rows pre);
    [done|by rewrite app_nil_r|done].
Qed.

(** C25: a table paged by a key of one column, without duplicates or nulls at any
    time, may be written to between the pages: a chunked snapshot of it that
    completes still hands over every row that is there, with the same key and
    values, at every query, so nothing that was not changed is missed. *)
Theorem snapshotByPK_concurrent {V : Type} (sprint : V -> string) (gtb : V -> V -> bool)
    (clock : nat -> Z) (faults : nat -> option nat) (tab : nat -> list (@row V)) (s : chunkSpec)
    (fuel : nat) (r : @row V) (out : list Event) :
  (forall x y, gtb x y = true -> gtb y x = false) ->
  sp_pk s ∈ sp_columns s -> 0 < sp_chunkSize s ->
  (forall q, StronglySorted (key_lt gtb s) (tab q)) ->
  (forall q, Forall (fun r => is_Some (key s r)) (tab q)) ->
  (forall q, r ∈ tab q) ->
  snapshotByPK sprint gtb fuel clock faults tab s [] = Some (out, Ok tt) ->
  captured sprint s r out.
Proof.
  intros Hasym Hin Hc Hs Hall Hr. unfold snapshotByPK. destruct (validateIdentifier _); [|done].
  intros Hl. eapply (concurrent_loop sprint gtb s Hin Hc); [done..|exact Hl|by right].
Qed.

(** Paging by the first column of a composite key loses rows: the page after
    a key starts at the next larger value of that column, so the rows that share
    the value at which a page ended are skipped.  Rows (1,1), (1,2), (2,1) in
    chunks of one: (1,2) is never read, and the snapshot reports success. *)
Theorem composite_key_rows_skipped :
  let s := mkSpec "public" "line_items" "order_id" ["order_id"; "line_no"] 1 in
  let rows := [[Some 1; Some 1]; [Some 1; Some 2]; [Some 2; Some 1]] in
  let gtb := fun x y => y <? x in
  exists out, snapshotByPK itoa gtb 4 (fun _ => 0) (fun _ => None) (fun _ => rows) s [] = Some (out, Ok tt)
    /\ captured itoa s [Some 1; Some 1] out /\ ~ captured itoa s [Some 1; Some 2] out
    /\ length out = 2%nat.
Proof.
  cbv zeta. eexists. split; [vm_compute; reflexivity|]. split_and!; [| |reflexivity].
  - exists 0. vm_compute. left.
  - intros [now H]. apply (list_elem_of_fmap_2 Data), (bool_decide_eq_true_2 _) in H.
    cbn [buildSnapshotEvent NewEvent Data] in H. vm_compute in H. discriminate H.
Qed.

(** A row of a COPY block becomes valid JSON when its columns have plain
    names, whatever the values hold. *)
Theorem parseCopyLine_valid (now : Z) (line schema table lsn : string) (columns : list string) :
  Forall (fun c => all_ident c = true) columns ->
  json_valid (Data (parseCopyLine now line schema table columns lsn)) = true.
Proof.
  intros Hc. simpl. eapply (value_valid _ 1).
  - unfold maxNestingDepth. lia.
  - apply (open_close _ 0 (0 + length columns)), copy_loop_open; [done|apply open_start].
Qed.

(** A column that pg_dump quotes (a name with capitals, or a reserved word)
    makes every row of its table invalid JSON: the name is written with its
    quotes, so the bus refuses all of them and the table is missing from the
    snapshot. *)
Theorem quoted_column_row_lost (now : Z) (line schema table lsn : string) (a : ascii) (c : string)
    (columns : list string) :
  ident_start (code a) = true ->
  json_valid (Data (parseCopyLine now line schema table
    ((dquote +:+ String a c +:+ dquote) :: columns) lsn)) = false.
Proof.
  intros Ha. cbn [parseCopyLine NewEvent Data]. cbn [copy_loop Nat.ltb Nat.leb].
  match goal with |- context [copy_loop 1 columns ?v ?u] =>
    destruct (copy_loop_prefix 1 columns v u) as [t ->] end.
  match goal with |- json_valid (?x +:+ _) = _ =>
    assert (E : exists w, x = "{" +:+ byte1 34 +:+ byte1 34 +:+ String a w) end.
  { destruct (split_on (chr 9) line !! 0%nat) as [v|]; [case_bool_decide|]; autorewrite with str;
      unfold dquote; eexists; reflexivity. }
  destruct E as [w ->]. unfold json_valid, valid_upto.
  change ("{"%string) with (byte1 123). rewrite !str_app_assoc.
  rewrite jrun_app, jrun_byte by lia.
  change (jstep maxNestingDepth BeginValue [] 123) with (Some (BeginStringOrEmpty, [ObjectKey])).
  rewrite jrun_app, jrun_byte by lia.
  change (jstep maxNestingDepth BeginStringOrEmpty [ObjectKey] 34) with (Some (InString, [ObjectKey])).
  rewrite jrun_app, jrun_byte by lia.
  change (jstep maxNestingDepth InString [ObjectKey] 34) with (Some (EndValue, [ObjectKey])).
  rewrite !str_app_cons. cbn [jrun].
  assert (Hs : jstep maxNestingDepth EndValue [ObjectKey] (code a) = None).
  { unfold ident_start in Ha. cbn [jstep endValue]. unfold is_space.
    repeat match goal with |- context [if ?b then _ else _] => replace b with false by lia end. done. }
  rewrite Hs. by match goal with |- jeof _ (jrun _ None ?u) = _ => destruct u end.
Qed.

(** ** Witnesses *)

Definition demo_spec : chunkSpec := mkSpec "public" "users" "id" ["id"; "name"] 2.
Definition demo_gtb (x y : Z) : bool := y <? x.
Definition demo_rows : list (@row Z) :=
  [[Some 1; Some 10]; [Some 2; None]; [Some 5; Some 7]; [Some 9; Some 3]].

Lemma demo_asym x y : demo_gtb x y = true -> demo_gtb y x = false.
Proof. unfold demo_gtb. lia. Qed.

Lemma demo_sorted : StronglySorted (key_lt demo_gtb demo_spec) demo_rows.
Proof.
  unfold demo_rows. repeat (constructor || (eexists _, _; split_and!; reflexivity)).
Qed.

Lemma demo_keys : Forall (fun r => is_Some (key demo_spec r)) demo_rows.
Proof. repeat (constructor || (eexists; reflexivity)). Qed.

(** The second row is deleted after the first page. *)
Definition demo_tab (q : nat) : list (@row Z) :=
  match q with O => demo_rows | S _ => [[Some 1; Some 10]; [Some 5; Some 7]; [Some 9; Some 3]] end.

Lemma snapshotByPK_concurrent_witness :
  exists out,
    snapshotByPK itoa demo_gtb 3 (fun _ => 0) (fun _ => None) demo_tab demo_spec [] = Some (out, Ok tt)
    /\ captured itoa demo_spec [Some 9; Some 3] out.
Proof.
  eexists. split; [vm_compute; reflexivity|].
  eapply (snapshotByPK_concurrent itoa demo_gtb (fun _ => 0) (fun _ => None) demo_tab demo_spec 3
    [Some 9; Some 3] _ demo_asym); [left | simpl; lia | | | | vm_compute; reflexivity].
  - intros [|q]; [apply demo_sorted|]. simpl. repeat (constructor || (eexists _, _; split_and!; reflexivity)).
  - intros [|q]; [apply demo_keys|]. repeat (constructor || (eexists; reflexivity)).
  - intros [|q]; simpl; unfold demo_rows; rewrite !elem_of_cons; auto.
Defined.

Lemma parseCopyLine_valid_witness :
  json_valid (Data (parseCopyLine 0 (bslash +:+ "N") "public" "users" ["id"; "user_name"] "")) = true.
Proof. apply parseCopyLine_valid. repeat constructor. Defined.

Lemma quoted_column_row_lost_witness :
  json_valid (Data (parseCopyLine 0 "1" "public" "orders" [dquote +:+ "userId" +:+ dquote] "")) = false.
Proof. apply (quoted_column_row_lost 0 "1" "public" "orders" "" "u" "serId" []). reflexivity. Defined.
