(* ===== verification/Catalog.v ===== *)
(** * internal/postgres/snapshot_chunked.go: the whole chunked snapshot

    Snapshot.v pages through one table; here are the catalog queries around it
    ([fetchAllTables], [fetchColumnNames], [fetchPrimaryKey]) and
    [RunChunkedSnapshot].

    The server is the catalog the queries read, with the rows of each table.  How
    it orders names is a parameter.  Any query may fail: [Some 0]
    is a query that fails, [Some (S k)] an answer that breaks off after [k] rows
    (the server cancels the statement, say), as in Snapshot.v. *)

From stdpp Require Import base list strings gmap sorting.
From Stdlib Require Import ZArith Lia Ascii.
From S2P Require Import Prelude GoStrings Json Escape Event MysqlDump Slots Snapshot.

Local Open Scope Z_scope.

(** ** The catalog *)

Record table_info {V : Type} := mkInfo {
  ti_schema : string;
  ti_name : string;
  ti_base : bool;                          (* a BASE TABLE, not a view *)
  ti_columns : list string;                (* by ordinal_position *)
  ti_key : list string;                    (* the primary key, as the join lists it *)
  ti_faults : nat -> option nat;           (* of the queries for its pages *)
  ti_rows : nat -> list (@row V)           (* in page order, at each of them *)
}.
Arguments table_info : clear implicits.
Arguments mkInfo {V} _ _ _ _ _ _ _.
Arguments ti_schema {V} _.
Arguments ti_name {V} _.
Arguments ti_base {V} _.
Arguments ti_columns {V} _.
Arguments ti_key {V} _.
Arguments ti_faults {V} _.
Arguments ti_rows {V} _.

(** How the connection serves the catalog queries. *)
Record network := mkNetwork {
  connects : bool;
  nw_tables : option nat;
  nw_columns : string -> option nat;
  nw_key : string -> bool                  (* whether the query is answered *)
}.

(** How PostgreSQL reads an unquoted identifier: folded to lower case and cut to
    63 bytes. *)
Definition downcase (a : ascii) : ascii :=
  if (65 <=? code a) && (code a <=? 90) then chr (code a + 32) else a.
Fixpoint fold_case (s : string) : string :=
  match s with "" => "" | String a s => String (downcase a) (fold_case s) end.
Definition fold_ident (s : string) : string := String.substring 0 63 (fold_case s).

Section Catalog.
Context {V : Type} (sprint : V -> string) (gtb : V -> V -> bool) (collate : string -> string -> bool).
Notation table_info := (table_info V).

(** The table is the one named. *)
Definition is_named (schema table : string) (t : table_info) : Prop :=
  ti_schema t = schema /\ ti_name t = table.
#[global] Instance is_named_dec schema table t : Decision (is_named schema table t).
Proof. unfold is_named. apply _. Defined.

Definition is_listed (schema : string) (t : table_info) : Prop := ti_schema t = schema /\ ti_base t = true.
#[global] Instance is_listed_dec schema t : Decision (is_listed schema t).
Proof. unfold is_listed. apply _. Defined.

Definition find_table (cat : list table_info) (schema table : string) : option table_info :=
  head (filter (is_named schema table) cat).

(** ** The queries *)

(** The loop over [rows.Next] of the two list queries.  It ends when the answer
    does, and [rows.Err] is not asked why. *)
Definition scan_names (fault : option nat) (names : list string) : option (list string) :=
  match fault with
  | Some O => None
  | Some (S k) => Some (take k names)
  | None => Some names
  end.

Definition name_le (a b : string) : Prop := collate a b = true.
#[global] Instance name_le_dec a b : Decision (name_le a b).
Proof. unfold name_le. apply _. Defined.

Definition listing (cat : list table_info) (schema : string) : list string :=
  merge_sort name_le (map ti_name (filter (is_listed schema) cat)).

Definition fetchAllTables (fault : option nat) (cat : list table_info) (schema : string)
    : option (list string) := scan_names fault (listing cat schema).

Definition fetchColumnNames (fault : option nat) (cat : list table_info) (schema table : string)
    : option (list string) :=
  scan_names fault (mjoin (map ti_columns (filter (is_named schema table) cat))).

(** [fetchPrimaryKey]: the names go through [regclass], which reads them as
    unquoted identifiers and fails when there is no such relation. *)
Definition fetchPrimaryKey (answered : bool) (cat : list table_info) (schema table : string) : option string :=
  if negb answered then None
  else t ← find_table cat (fold_ident schema) (fold_ident table); Some (default "" (head (ti_key t))).

(** ** The snapshot *)

(** The pages of a table, read by its quoted name: a query on a table that does
    not exist fails, as does [ORDER BY 1] without columns. *)
Definition page_faults (t : option table_info) (columns : list string) (pk : string) : nat -> option nat :=
  match t with
  | None => fun _ => Some O
  | Some t => if decide (pk = "" /\ columns = []) then fun _ => Some O else ti_faults t
  end.

(** The selected columns are the first ones. *)
Definition page_rows (t : option table_info) (columns : list string) (q : nat) : list (@row V) :=
  match t with None => [] | Some t => map (take (length columns)) (ti_rows t q) end.

Definition snapshotTable (fuel : nat) (clock : nat -> Z) (nw : network) (cat : list table_info)
    (schema table : string) (chunkSize : Z) (out : list Event)
    : option (list Event * result snap_error unit) :=
  match validateIdentifier table with
  | Err e => Some (out, Err (InvalidName e))
  | Ok _ =>
      match fetchColumnNames (nw_columns nw table) cat schema table with
      | None => Some (out, Err CatalogErr)
      | Some columns =>
          match fetchPrimaryKey (nw_key nw table) cat schema table with
          | None => Some (out, Err CatalogErr)
          | Some pk =>
              let s := mkSpec schema table pk columns chunkSize in
              let t := find_table cat schema table in
              if negb (bool_decide (pk = ""))
              then snapshotByPK sprint gtb fuel clock (page_faults t columns pk) (page_rows t columns) s out
              else snapshotByOffset sprint fuel clock (page_faults t columns pk) (page_rows t columns) s out
          end
      end
  end.

Fixpoint snapshot_tables (fuel : nat) (clock : nat -> Z) (nw : network) (cat : list table_info)
    (schema : string) (chunkSize : Z) (tables : list string) (out : list Event)
    : option (list Event * result snap_error unit) :=
  match tables with
  | [] => Some (out, Ok tt)
  | t :: tables =>
      match snapshotTable fuel clock nw cat schema t chunkSize out with
      | None => None
      | Some (out, Err e) => Some (out, Err e)
      | Some (out, Ok _) => snapshot_tables fuel clock nw cat schema chunkSize tables out
      end
  end.

Definition RunChunkedSnapshot (fuel : nat) (clock : nat -> Z) (nw : network) (cat : list table_info)
    (schema : string) (tables : list string) (chunkSize : Z)
    : option (list Event * result snap_error unit) :=
  if negb (connects nw) then Some ([], Err ConnectErr)
  else match validateIdentifier schema with
  | Err e => Some ([], Err (InvalidName e))
  | Ok _ =>
      match (match tables with [] => fetchAllTables (nw_tables nw) cat schema | _ => Some tables end) with
      | None => Some ([], Err CatalogErr)
      | Some tables => snapshot_tables fuel clock nw cat schema chunkSize tables []
      end
  end.

(** ** What a complete snapshot is *)

Definition table_spec (chunkSize : Z) (t : table_info) : chunkSpec :=
  mkSpec (ti_schema t) (ti_name t) (default "" (head (ti_key t))) (ti_columns t) chunkSize.

(** Every row of every table once, table by table. *)
Fixpoint all_rows (clock : nat -> Z) (chunkSize : Z) (n : nat) (ts : list table_info) : list Event :=
  match ts with
  | [] => []
  | t :: ts => emit_rows sprint clock n (table_spec chunkSize t) (ti_rows t 0)
               ++ all_rows clock chunkSize (n + length (ti_rows t 0)) ts
  end.

(** A table whose names need no quotes, with a key of at most one column, read
    over a connection that holds, for which the server answers every page query
    from the same rows in the same order ([pt_static]).  With a key that is a
    table that does not change meanwhile, since the order is the key's; a table
    without one is paged by [ORDER BY 1], which leaves rows that agree in the
    first column in any order the server likes, so there it asks for more. *)
Record plain_table (nw : network) (chunkSize : Z) (fuel : nat) (t : table_info) : Prop := mkPlain {
  pt_name : validateIdentifier (ti_name t) = Ok tt;
  pt_folded : fold_ident (ti_schema t) = ti_schema t /\ fold_ident (ti_name t) = ti_name t;
  pt_columns : ti_columns t <> [];
  pt_width : Forall (fun r => length r = length (ti_columns t)) (ti_rows t 0);
  pt_key : ti_key t = [] \/
    exists pk, ti_key t = [pk] /\ validateIdentifier pk = Ok tt /\ pk ∈ ti_columns t /\
      StronglySorted (key_lt gtb (table_spec chunkSize t)) (ti_rows t 0) /\
      Forall (fun r => is_Some (key (table_spec chunkSize t) r)) (ti_rows t 0);
  pt_static : forall q, ti_rows t q = ti_rows t 0;
  pt_served : (forall q, ti_faults t q = None) /\ nw_columns nw (ti_name t) = None /\ nw_key nw (ti_name t) = true;
  pt_size : Z.of_nat (length (ti_rows t 0)) < 2 ^ 63 /\
            (length (ti_rows t 0) / Z.to_nat chunkSize < fuel)%nat
}.

(** No two relations of a schema share a name. *)
Definition unique_names (cat : list table_info) : Prop :=
  NoDup (map (fun t => (ti_schema t, ti_name t)) cat).

Lemma unique_find cat t : unique_names cat -> t ∈ cat -> filter (is_named (ti_schema t) (ti_name t)) cat = [t].
Proof.
  unfold unique_names. induction cat as [|x cat IH]; intros Hnd Ht; [by apply elem_of_nil in Ht|].
  simpl in Hnd. apply NoDup_cons in Hnd as [Hx Hnd]. apply elem_of_cons in Ht as [->|Ht].
  - rewrite filter_cons_True by done. f_equal. apply filter_none. apply Forall_forall.
    intros y Hy [E1 E2]. apply Hx. rewrite <- E1, <- E2. by apply (list_elem_of_fmap_2 (fun t => (ti_schema t, ti_name t)) _ y).
  - rewrite filter_cons_False; [by apply IH|]. intros [E1 E2]. apply Hx. rewrite E1, E2.
    by apply (list_elem_of_fmap_2 (fun t => (ti_schema t, ti_name t)) _ t).
Qed.

Lemma map_take_all n (rows : list (@row V)) :
  Forall (fun r => length r = n) rows -> map (take n) rows = rows.
Proof. induction 1 as [|r rows Hr _ IH]; simpl; [done|]. by rewrite IH, take_ge by lia. Qed.

(** One table of a complete snapshot. *)
Lemma snapshotTable_exact nw clock cat chunkSize fuel t out :
  (forall x y, gtb x y = true -> gtb y x = false) -> 0 < chunkSize ->
  unique_names cat -> t ∈ cat -> plain_table nw chunkSize fuel t ->
  snapshotTable fuel clock nw cat (ti_schema t) (ti_name t) chunkSize out
  = Some (out ++ emit_rows sprint clock (length out) (table_spec chunkSize t) (ti_rows t 0), Ok tt).
Proof.
  intros Hasym Hc Hu Ht []. destruct pt_served0 as (Hf & Hcol & Hk), pt_folded0 as [Efs Eft], pt_size0 as [Hz Hfu].
  unfold snapshotTable. rewrite pt_name0, Hcol, Hk.
  unfold fetchColumnNames, fetchPrimaryKey, find_table. rewrite Efs, Eft, (unique_find cat t) by done.
  cbn [scan_names map mjoin list_join negb head mbind option_bind]. rewrite app_nil_r.
  assert (Hp : forall pk q, page_faults (Some t) (ti_columns t) pk q = None).
  { intros pk q. unfold page_faults. by rewrite decide_False by (by intros [_ ?]). }
  assert (Hr : forall q, page_rows (Some t) (ti_columns t) q = ti_rows t 0).
  { intros q. simpl. by rewrite pt_static0, map_take_all. }
  fold (table_spec chunkSize t).
  destruct pt_key0 as [E|(pk & E & Hv & Hin & Hs & Hkey)]; rewrite E; cbn [head default from_option id].
  - rewrite bool_decide_eq_true_2 by done. cbn [negb]. by apply snapshotByOffset_exact.
  - rewrite bool_decide_eq_false_2 by (by intros ->). cbn [negb].
    apply snapshotByPK_exact; try done; simpl; by rewrite E.
Qed.

Lemma snapshot_tables_exact nw clock cat schema chunkSize fuel :
  (forall x y, gtb x y = true -> gtb y x = false) -> 0 < chunkSize -> unique_names cat ->
  forall ts out,
    Forall (fun t => t ∈ cat /\ ti_schema t = schema /\ plain_table nw chunkSize fuel t) ts ->
    snapshot_tables fuel clock nw cat schema chunkSize (map ti_name ts) out
    = Some (out ++ all_rows clock chunkSize (length out) ts, Ok tt).
Proof.
  intros Hasym Hc Hu ts out Hts. revert out.
  induction Hts as [|t ts (Ht & Hs & Hp) _ IH]; intros out; simpl; [by rewrite app_nil_r|].
  rewrite <- Hs at 1. rewrite snapshotTable_exact by done. rewrite IH, <- app_assoc.
  by rewrite length_app, emit_rows_length.
Qed.

Lemma all_rows_valid clock chunkSize n ts :
  Forall (fun e => Type_ e = Insert /\ json_valid (Data e) = true) (all_rows clock chunkSize n ts).
Proof.
  revert n. induction ts as [|t ts IH]; intros n; simpl; [done|]. apply Forall_app. split; [|done].
  apply Forall_forall. intros e (i & r & -> & _)%elem_of_lookup_imap.
  split; [done|]. apply buildSnapshotEvent_valid.
Qed.
End Catalog.

(** Pages without the key column: every page is the first one again. *)
Lemma last_key_absent {V : Type} (s : chunkSpec) (rows : list (@row V)) :
  sp_pk s ∉ sp_columns s -> last_key s rows = None.
Proof.
  intros Hn. unfold last_key. induction rows as [|r rows IH] using rev_ind; [done|].
  by rewrite foldl_snoc, decide_False.
Qed.

Lemma first_page_for_ever {V : Type} (sprint : V -> string) (gtb : V -> V -> bool) clock faults tab (s : chunkSpec) :
  sp_pk s ∉ sp_columns s -> 0 <= sp_chunkSize s -> (forall q, faults q = None) ->
  (forall q, sp_chunkSize s <= Z.of_nat (length (tab q))) ->
  forall fuel q out, pk_loop sprint gtb clock faults tab s fuel q None out = None.
Proof.
  intros Hn Hc Hf Hl. induction fuel as [|fuel IH]; intros q out; [done|].
  cbn [pk_loop buildChunkQuery]. unfold fetchChunk. cbn [run_query].
  replace (sp_chunkSize s <? 0) with false by lia. rewrite Hf, last_key_absent by done.
  rewrite length_take. specialize (Hl q). bcase; [lia|]. apply IH.
Qed.

(** ** The theorems *)

(** C24: a chunked snapshot of a schema ends and is complete. When the tables of
    the schema have plain names and keys of at most one column, do not change
    meanwhile, and the server returns the rows of a table without a key in the
    same order for every page, every positive chunk size gives, within one page query more per
    table than it has full pages, exactly the rows of every base table once,
    table by table in the order the catalog lists them, as INSERT events with
    valid JSON; views are not read. *)
Theorem RunChunkedSnapshot_exact {V : Type} (sprint : V -> string) (gtb : V -> V -> bool)
    (collate : string -> string -> bool) (clock : nat -> Z) (nw : network) (cat : list (table_info V))
    (schema : string) (chunkSize : Z) (fuel : nat) :
  (forall x y, gtb x y = true -> gtb y x = false) -> 0 < chunkSize ->
  validateIdentifier schema = Ok tt -> connects nw = true -> nw_tables nw = None -> unique_names cat ->
  Forall (plain_table gtb nw chunkSize fuel) (filter (is_listed schema) cat) ->
  exists ts, ts ≡ₚ filter (is_listed schema) cat /\ map ti_name ts = listing collate cat schema /\
    RunChunkedSnapshot sprint gtb collate fuel clock nw cat schema [] chunkSize
      = Some (all_rows sprint clock chunkSize 0 ts, Ok tt) /\
    Forall (fun e => Type_ e = Insert /\ json_valid (Data e) = true) (all_rows sprint clock chunkSize 0 ts).
Proof.
  intros Hasym Hc Hv Hn Hl Hu Hp.
  destruct (Permutation_map_inv ti_name (filter (is_listed schema) cat)
    (merge_sort_Permutation (name_le collate) _)) as (ts & E & Hts).
  exists ts. split_and!; [by symmetry|by unfold listing; rewrite E| |apply all_rows_valid].
  unfold RunChunkedSnapshot, fetchAllTables, listing. rewrite Hn, Hv, Hl, E. simpl.
  rewrite snapshot_tables_exact; [done..|]. apply Forall_forall. intros t Ht. rewrite <- Hts in Ht.
  rewrite Forall_forall in Hp. specialize (Hp t Ht). apply list_elem_of_filter in Ht as [[? _] ?]. done.
Qed.

(** A listing that breaks off is taken for a short one: when the server gives up
    before the first row of the answer to [fetchAllTables], the snapshot reports
    success with no row of any table. *)
Theorem broken_listing_accepted {V : Type} (sprint : V -> string) (gtb : V -> V -> bool)
    (collate : string -> string -> bool) (clock : nat -> Z) (nw : network) (cat : list (table_info V))
    (schema : string) (chunkSize : Z) (fuel : nat) :
  validateIdentifier schema = Ok tt -> connects nw = true -> nw_tables nw = Some 1%nat ->
  RunChunkedSnapshot sprint gtb collate fuel clock nw cat schema [] chunkSize = Some ([], Ok tt).
Proof.
  intros Hv Hn Hl. unfold RunChunkedSnapshot, fetchAllTables. by rewrite Hn, Hv, Hl.
Qed.

(** A table whose name has a capital letter cannot be snapshotted: the key
    query folds the name, so it fails unless another table has the folded name. *)
Theorem mixed_case_table_refused {V : Type} (sprint : V -> string) (gtb : V -> V -> bool)
    (clock : nat -> Z) (nw : network) (cat : list (table_info V)) (schema table : string)
    (chunkSize : Z) (fuel : nat) (out : list Event) :
  validateIdentifier table = Ok tt ->
  Forall (fun t => ~ is_named (fold_ident schema) (fold_ident table) t) cat ->
  snapshotTable sprint gtb fuel clock nw cat schema table chunkSize out = Some (out, Err CatalogErr).
Proof.
  intros Hv Hn. unfold snapshotTable. rewrite Hv. destruct (fetchColumnNames _ _ _ _); [|done].
  unfold fetchPrimaryKey, find_table. rewrite filter_none by done. by destruct (nw_key nw table).
Qed.

(** A column list that breaks off is taken for the whole one as well.  When the
    key column is behind the break and the table fills a page, the position
    never moves: the snapshot reads the first page again and again, whatever
    the number of turns. *)
Theorem broken_columns_loop {V : Type} (sprint : V -> string) (gtb : V -> V -> bool)
    (clock : nat -> Z) (nw : network) (cat : list (table_info V)) (t : table_info V) (pk : string)
    (chunkSize : Z) (k fuel : nat) (out : list Event) :
  unique_names cat -> t ∈ cat -> plain_table gtb (mkNetwork true None (fun _ => None) (fun _ => true)) chunkSize fuel t ->
  ti_key t = [pk] -> nw_columns nw (ti_name t) = Some (S k) -> nw_key nw (ti_name t) = true ->
  pk ∉ take k (ti_columns t) -> 0 <= chunkSize <= Z.of_nat (length (ti_rows t 0)) ->
  forall turns, snapshotTable sprint gtb turns clock nw cat (ti_schema t) (ti_name t) chunkSize out = None.
Proof.
  intros Hu Ht Hp E Hk Hq Hn Hc turns. destruct Hp as [Hv [Efs Eft] _ _ [E'|(x & E' & Hx & _)] Hst [Hf _] _];
    rewrite E in E'; [done|]. injection E' as <-.
  unfold snapshotTable, fetchColumnNames, fetchPrimaryKey, find_table.
  rewrite Hv, Hk, Hq, Efs, Eft, (unique_find cat t) by done.
  cbn [scan_names map mjoin list_join negb head mbind option_bind]. rewrite app_nil_r, E.
  cbn [head default from_option id]. rewrite bool_decide_eq_false_2 by (by intros ->). cbn [negb].
  unfold snapshotByPK. cbn [sp_pk]. rewrite Hx. apply first_page_for_ever; [done|simpl; lia|..]; intros q.
  - unfold page_faults. rewrite decide_False; [done|]. intros [-> _]. done.
  - simpl. rewrite length_map, Hst. exact (proj2 Hc).
Qed.

(** ** Witnesses *)

Definition demo_users : table_info Z :=
  mkInfo "public" "users" true ["id"; "name"] ["id"] (fun _ => None) (fun _ => demo_rows).
Definition demo_notes : table_info Z :=
  mkInfo "public" "notes" true ["txt"] [] (fun _ => None) (fun _ => [[Some 4]; [Some 4]; [None]]).
Definition demo_view : table_info Z :=
  mkInfo "public" "recent" false ["id"] [] (fun _ => None) (fun _ => [[Some 9]]).
Definition demo_cat : list (table_info Z) := [demo_users; demo_view; demo_notes].
Definition demo_net : network := mkNetwork true None (fun _ => None) (fun _ => true).

Lemma demo_users_plain : plain_table demo_gtb demo_net 2 3 demo_users.
Proof.
  constructor; try done; [repeat (apply Forall_cons; split; [done|]); by apply Forall_nil| |simpl; lia].
  right. exists "id". split_and!; [done..|left|exact demo_sorted|exact demo_keys].
Qed.

Lemma demo_notes_plain : plain_table demo_gtb demo_net 2 3 demo_notes.
Proof. constructor; try done; [repeat (apply Forall_cons; split; [done|]); by apply Forall_nil|by left|simpl; lia]. Qed.

Lemma demo_unique : unique_names demo_cat.
Proof. unfold unique_names. apply (bool_decide_unpack _). vm_compute. exact I. Qed.

(** A collation: shorter names first. *)
Definition demo_collate (a b : string) : bool := (String.length a <=? String.length b)%nat.

Lemma RunChunkedSnapshot_exact_witness :
  exists ts, ts ≡ₚ filter (is_listed "public") demo_cat /\ map ti_name ts = listing demo_collate demo_cat "public" /\
    RunChunkedSnapshot itoa demo_gtb demo_collate 3 (fun _ => 0) demo_net demo_cat "public" [] 2
      = Some (all_rows itoa (fun _ => 0) 2 0 ts, Ok tt) /\
    Forall (fun e => Type_ e = Insert /\ json_valid (Data e) = true) (all_rows itoa (fun _ => 0) 2 0 ts).
Proof.
  apply (RunChunkedSnapshot_exact itoa demo_gtb demo_collate (fun _ => 0) demo_net demo_cat "public" 2 3 demo_asym);
    [lia|reflexivity..|exact demo_unique|].
  constructor; [exact demo_users_plain|]. constructor; [exact demo_notes_plain|constructor].
Defined.

(** The same run, evaluated: seven rows. *)
Example demo_run :
  (fun r => match r with Some (out, Ok _) => map Data out | _ => [] end)
    (RunChunkedSnapshot itoa demo_gtb demo_collate 3 (fun _ => 0) demo_net demo_cat "public" [] 2)
  = map Data (all_rows itoa (fun _ => 0) 2 0 [demo_users; demo_notes]).
Proof. vm_compute. reflexivity. Qed.

Lemma mixed_case_table_refused_witness :
  snapshotTable itoa demo_gtb 3 (fun _ => 0) demo_net
    [mkInfo "public" "userAccounts" true ["id"] ["id"] (fun _ => None) (fun _ => [])] "public" "userAccounts" 2 []
  = Some ([], Err CatalogErr).
Proof.
  apply mixed_case_table_refused; [reflexivity|]. constructor; [|constructor]. intros [_ E]. vm_compute in E. discriminate E.
Defined.

Lemma broken_listing_accepted_witness :
  RunChunkedSnapshot itoa demo_gtb demo_collate 3 (fun _ => 0)
    (mkNetwork true (Some 1%nat) (fun _ => None) (fun _ => true)) demo_cat "public" [] 2 = Some ([], Ok tt).
Proof. apply broken_listing_accepted; reflexivity. Defined.

(** The column query is cancelled before its first row. *)
Lemma broken_columns_loop_witness :
  forall turns, snapshotTable itoa demo_gtb turns (fun _ => 0)
    (mkNetwork true None (fun _ => Some 1%nat) (fun _ => true)) demo_cat "public" "users" 2 [] = None.
Proof.
  apply (broken_columns_loop itoa demo_gtb (fun _ => 0) (mkNetwork true None (fun _ => Some 1%nat) (fun _ => true))
    demo_cat demo_users "id" 2 0 3 [] demo_unique); try reflexivity.
  - left.
  - exact demo_users_plain.
  - simpl. apply not_elem_of_nil.
  - simpl. lia.
Defined.
