(* ===== verification/Startup.v ===== *)
(** * Starting up and staying up

    internal/postgres/dbwait.go (waiting for the database), the reconnect loop
    and the connection strings of internal/postgres/listener.go, the dispatch
    of the snapshot, and internal/health (the two probes).  Durations are nanoseconds. *)

From stdpp Require Import base list strings gmap.
From Stdlib Require Import ZArith Lia Ascii.
From S2P Require Import Prelude GoStrings Config Event Service PgListener MysqlDump Slots Snapshot.

Local Open Scope Z_scope.

(** ** dbwait.go *)

Definition firstStartupDelay : Z := 1000000000.

Record startupBackoff := mkBackoff { next : Z; max_ : Z }.

(** The new state and the delay to sleep; a [time.Duration] is 64 bits. *)
Definition step (b : startupBackoff) : startupBackoff * Z :=
  (mkBackoff (Z.min (i64 (next b * 2)) (max_ b)) (max_ b), next b).

Definition startupSQLStates : list string := ["57P01"; "57P02"; "57P03"; "53300"].

(** Why a dial failed: the context ended, the server answered with a SQLSTATE,
    or the server was not reached.  A context that ends is [Canceled]: the
    listener's has no deadline. *)
Inductive dial_error := Canceled | DeadlineExceeded | PgError (code : string) | Unreachable.

Definition databaseNotReady (e : dial_error) : bool :=
  match e with
  | Canceled | DeadlineExceeded => false
  | PgError code => bool_decide (code ∈ startupSQLStates)
  | Unreachable => true
  end.

(** One dial, and whether the context ended by the time it returned, or during
    the wait that follows. *)
Record dial_attempt (T : Type) := mkDial {
  dialed : result dial_error T;
  ctx_over : bool;
  ctx_over_wait : bool
}.
Arguments mkDial {T} _ _ _.
Arguments dialed {T} _.
Arguments ctx_over {T} _.
Arguments ctx_over_wait {T} _.

(** The delays slept and the answer; [None] while it is still waiting. *)
Fixpoint waitForDatabase {T : Type} (b : startupBackoff) (ds : list (dial_attempt T)) (slept : list Z)
    : list Z * option (result dial_error T) :=
  match ds with
  | [] => (slept, None)
  | d :: ds =>
      match dialed d with
      | Ok conn => (slept, Some (Ok conn))
      | Err e =>
          if ctx_over d then (slept, Some (Err Canceled))
          else if negb (databaseNotReady e) then (slept, Some (Err e))
          else let '(b, delay) := step b in
               if ctx_over_wait d then (slept, Some (Err Canceled))
               else waitForDatabase b ds (slept ++ [delay])
      end
  end.

(** ** listener.go: the reconnect loop *)

(** How a call of [connectAndStream] ends, whether the context is over then and
    during the pause, and whether the listener is still running afterwards. *)
Record stream_end := mkEnd {
  end_ok : bool;
  end_ctx : bool;
  pause_ctx : bool;
  still_running : bool
}.

(** The pauses of [listenLoop]; [None] while it has not returned. *)
Fixpoint listenLoop (delay : Z) (es : list stream_end) (pauses : list Z) : list Z * option unit :=
  match es with
  | [] => (pauses, None)
  | e :: es =>
      if end_ok e then
        if still_running e then listenLoop 1000000000 es pauses else (pauses, Some tt)
      else if end_ctx e then (pauses, Some tt)
      else if pause_ctx e then (pauses ++ [delay], Some tt)
      else if still_running e
           then listenLoop (Z.min (i64 (delay * 2)) maxReconnectDelay) es (pauses ++ [delay])
           else (pauses ++ [delay], Some tt)
  end.

(** ** listener.go: connection strings *)

Fixpoint contains (sub s : string) : bool :=
  match after_prefix sub s with
  | Some _ => true
  | None => match s with EmptyString => false | String _ s => contains sub s end
  end.

(** [strings.ReplaceAll] of a non-empty [old], from the left; the length of the
    string is fuel enough. *)
Fixpoint replace_all (fuel : nat) (old new s : string) : string :=
  match fuel with
  | O => s
  | S fuel =>
      match after_prefix old s with
      | Some t => new +:+ replace_all fuel old new t
      | None => match s with
                | EmptyString => EmptyString
                | String a s => String a (replace_all fuel old new s)
                end
      end
  end.
Definition ReplaceAll (s old new : string) : string := replace_all (String.length s) old new s.

Definition ensureReplicationParam (connStr : string) : string :=
  if contains "replication=" connStr then connStr
  else if contains "?" connStr then connStr +:+ "&replication=database"
  else connStr +:+ "?replication=database".

Definition stripReplicationParam (connStr : string) : string :=
  let connStr := ReplaceAll connStr "&replication=database" "" in
  let connStr := ReplaceAll connStr "?replication=database&" "?" in
  ReplaceAll connStr "?replication=database" "".

(** [parseSchema]; [url.Parse] followed by [Query().Get] is a parameter. *)
Definition parseSchema (query : string -> option (string -> string)) (connStr : string) : string :=
  match query connStr with
  | None => "public"
  | Some get =>
      if negb (bool_decide (get "currentSchema" = "")) then get "currentSchema"
      else if negb (bool_decide (get "search_path" = "")) then get "search_path"
      else "public"
  end.

(** ** listener.go: which snapshot runs *)

Inductive snapshot_run :=
| RunNothing
| RunChunked (connStr schema : string) (chunkSize : Z)
| RunDump (file startLSN : string)
| RunRefused.                        (* no file configured *)

Definition runSnapshot (query : string -> option (string -> string)) (mode url file startLSN : string)
    (chunkSize : Z) : snapshot_run :=
  let schemaName := parseSchema query url in
  if bool_decide (mode = "chunked") then RunChunked (stripReplicationParam url) schemaName chunkSize
  else if bool_decide (mode = "backup_file") then
    if bool_decide (file = "") then RunRefused else RunDump file startLSN
  else RunNothing.

(** ** health.go *)

Definition listenerNotRunning : string := "CDC listener not running".

(** What the probes ask at the time of a request. *)
Record Checker := mkChecker {
  isRunning : bool;
  subscriberFn : Z;
  readiness : list (string * bool);
  isStarting : option bool
}.

Definition NewChecker (running : bool) (subs : Z) : Checker := mkChecker running subs [] None.
Definition WithReadiness (reason : string) (ready : bool) (c : Checker) : Checker :=
  mkChecker (isRunning c) (subscriberFn c) (readiness c ++ [(reason, ready)]) (isStarting c).
Definition WithStartup (starting : bool) (c : Checker) : Checker :=
  mkChecker (isRunning c) (subscriberFn c) (readiness c) (Some starting).

Definition starting (c : Checker) : bool := default false (isStarting c).

(** The bodies of the two answers, each with its HTTP status. *)
Record Status := mkStatus {
  Status_ : string;
  CDCEnabled : bool;
  Subscriptions : Z;
  Reason_ : string
}.
Record readyBody := mkReady { ready_status : string; ready_reason : string }.

Definition HealthHandler (c : Checker) : Z * Status :=
  if isRunning c then (200, mkStatus "UP" true (subscriberFn c) "")
  else if starting c then (200, mkStatus "STARTING" true (subscriberFn c) "")
  else (503, mkStatus "DOWN" true (subscriberFn c) listenerNotRunning).

Fixpoint first_reason (checks : list (string * bool)) : string :=
  match checks with
  | [] => ""
  | (r, ready) :: checks => if negb ready then r else first_reason checks
  end.

Definition notReadyReason (c : Checker) : string :=
  if negb (isRunning c) then listenerNotRunning else first_reason (readiness c).

Definition ReadyHandler (c : Checker) : Z * readyBody :=
  let reason := notReadyReason c in
  if bool_decide (reason = "") then (200, mkReady "ready" "") else (503, mkReady "not ready" reason).

(** main.go, [startHTTPServer]: the checker that is served. *)
Definition served_checker (running : bool) (subs : Z) (isStarting slotUsable : bool) (natsReady : option bool)
    : Checker :=
  let c := WithReadiness "replication slot dropped or invalidated" slotUsable
             (WithStartup isStarting (NewChecker running subs)) in
  match natsReady with
  | Some r => WithReadiness "NATS not connected" r c
  | None => c
  end.

(** A request to the mux, by its path: the two probes, the metrics page when it
    is enabled, and 404 for anything else. *)
Inductive answer :=
| HealthAnswer (a : Z * Status)
| ReadyAnswer (a : Z * readyBody)
| MetricsPage
| NotFound.

Definition serve (metrics : bool) (c : Checker) (path : string) : answer :=
  if bool_decide (path = "/healthz") then HealthAnswer (HealthHandler c)
  else if bool_decide (path = "/readyz") then ReadyAnswer (ReadyHandler c)
  else if metrics && bool_decide (path = "/metrics") then MetricsPage
  else NotFound.

Record http_server := mkHTTP {
  Addr : string;
  Handler : string -> answer;
  ReadTimeout : Z;
  WriteTimeout : Z;
  IdleTimeout : Z
}.

Definition startHTTPServer (cfg : Config) (running : bool) (subs : Z) (isStarting slotUsable : bool)
    (natsReady : option bool) : http_server :=
  let second := 1000000000 in
  mkHTTP (health_BindAddress (Health cfg) +:+ ":" +:+ itoa (health_Port (Health cfg)))
    (serve (metrics_Enabled (Metrics cfg)) (served_checker running subs isStarting slotUsable natsReady))
    (5 * second) (10 * second) (30 * second).

Definition status_code (a : answer) : Z :=
  match a with HealthAnswer a => a.1 | ReadyAnswer a => a.1 | MetricsPage => 200 | NotFound => 404 end.

(** ** Waiting for the database *)

(** The capped doubling of the startup delays. *)
Fixpoint delays (d m : Z) (n : nat) : list Z :=
  match n with O => [] | S n => d :: delays (Z.min (2 * d) m) m n end.

Definition not_yet {T : Type} (d : dial_attempt T) : Prop :=
  ctx_over d = false /\ ctx_over_wait d = false /\
  match dialed d with Ok _ => False | Err e => databaseNotReady e = true end.

Lemma waitForDatabase_waits {T : Type} (ds ds' : list (dial_attempt T)) (d m : Z) (slept : list Z) :
  0 <= d <= m -> m < 2 ^ 62 -> Forall not_yet ds ->
  exists d', 0 <= d' <= m /\
  waitForDatabase (mkBackoff d m) (ds ++ ds') slept
  = waitForDatabase (mkBackoff d' m) ds' (slept ++ delays d m (length ds)).
Proof.
  intros Hd Hm Hall. revert d slept Hd. induction Hall as [|x ds (Hc & Hw & Hx) _ IH]; intros d slept Hd.
  { exists d. split; [done|]. simpl. by rewrite app_nil_r. }
  simpl. destruct (dialed x) as [|e]; [done|]. rewrite Hc, Hx, Hw. simpl.
  rewrite i64_small by lia. replace (d * 2) with (2 * d) by lia.
  destruct (IH (Z.min (2 * d) m) (slept ++ [d])) as (d' & Hd' & E); [lia|].
  exists d'. split; [done|]. by rewrite E, <- app_assoc.
Qed.

(** A database that comes up after any number of refused dials is connected to,
    with the pauses doubling from one second up to the cap. *)
Theorem waitForDatabase_connects {T : Type} (ds : list (dial_attempt T)) (x : dial_attempt T) (conn : T)
    (rest : list (dial_attempt T)) :
  Forall not_yet ds -> dialed x = Ok conn ->
  waitForDatabase (mkBackoff firstStartupDelay maxReconnectDelay) (ds ++ x :: rest) []
  = (delays firstStartupDelay maxReconnectDelay (length ds), Some (Ok conn)).
Proof.
  intros Hall Hx. unfold firstStartupDelay, maxReconnectDelay.
  destruct (waitForDatabase_waits ds (x :: rest) 1000000000 (30 * 1000000000) []) as (d' & _ & ->);
    [lia|lia|done|]. simpl. by rewrite Hx.
Qed.

(** An answer that means "no" is returned at once, however many "not yet" came
    before it. *)
Theorem waitForDatabase_refused {T : Type} (ds : list (dial_attempt T)) (x : dial_attempt T)
    (e : dial_error) (rest : list (dial_attempt T)) :
  Forall not_yet ds -> dialed x = Err e -> ctx_over x = false -> databaseNotReady e = false ->
  waitForDatabase (mkBackoff firstStartupDelay maxReconnectDelay) (ds ++ x :: rest) []
  = (delays firstStartupDelay maxReconnectDelay (length ds), Some (Err e)).
Proof.
  intros Hall Hx Hc He. unfold firstStartupDelay, maxReconnectDelay.
  destruct (waitForDatabase_waits ds (x :: rest) 1000000000 (30 * 1000000000) []) as (d' & _ & ->);
    [lia|lia|done|]. simpl. by rewrite Hx, Hc, He.
Qed.

(** ** The probes *)

(** The watcher is ready exactly while its listener runs, the slot can stream
    and, when it publishes, NATS is connected with a verified stream; what
    readiness asks never makes it look dead, waiting for the database keeps it
    alive, and the metrics are served exactly when they are enabled. *)
Theorem probes_served (cfg : Config) (running isStarting slotUsable : bool) (subs : Z) (natsReady : option bool) :
  let get := fun path => status_code (Handler (startHTTPServer cfg running subs isStarting slotUsable natsReady) path) in
  (get "/readyz" = 200 <-> running = true /\ slotUsable = true /\ natsReady <> Some false) /\
  (get "/healthz" = 200 <-> running = true \/ isStarting = true) /\
  (get "/metrics" = 200 <-> metrics_Enabled (Metrics cfg) = true).
Proof.
  cbv zeta. unfold startHTTPServer, Handler. destruct (metrics_Enabled (Metrics cfg)).
  all: destruct running, isStarting, slotUsable, natsReady as [[]|]; vm_compute; intuition congruence.
Qed.
