(* ===== verification/PgStart.v ===== *)
(** * internal/postgres/listener.go and setup.go: starting and stopping

    [Start] against the database it sets up (publication, owner registry, slot,
    DDL triggers), the goroutines it starts, one connection from dialling to
    its end, and [Stop].  What the server answers (whether a statement reaches
    it), what the snapshot hands over and net/url are arguments; the state of
    the database is explicit, and [Start] also returns the states it went
    through. *)

From stdpp Require Import base list strings gmap.
From Stdlib Require Import ZArith Lia Ascii.
From S2P Require Import Prelude GoStrings Config Json Event AckGate Service History PgReader PgParser Lag PgListener.
From S2P Require Import MysqlDump Slots Snapshot Startup.

Local Open Scope Z_scope.

Definition second : Z := 1000000000.
Definition defaultSlotStatsInterval : Z := 15 * second.
Definition maintenanceQueryTimeout : Z := 5 * second.
Definition defaultSlotCleanupInterval : Z := 10 * 60 * second.
Definition defaultSlotHeartbeat : Z := 30 * second.

(** ** Connection strings *)

Section Url.
(** net/url: [Parse], whether [User] is nil, setting [UserPassword], [String]. *)
Context {U : Type} (url_Parse : string -> option U) (hasUser : U -> bool)
  (withUser : string -> string -> U -> U) (url_String : U -> string).

(** Credentials are injected when a user is configured and the URL has none. *)
Definition inject (username password connStr : string) : string :=
  if bool_decide (username = ""%string) then connStr
  else match url_Parse connStr with
       | Some u => if hasUser u then connStr else url_String (withUser username password u)
       | None => connStr
       end.

Definition standardConnString (cfg : PostgresConfig) : string :=
  inject (pg_Username cfg) (pg_Password cfg) (stripReplicationParam (pg_URL cfg)).

(** What [openReplicationConn] dials, or why it does not. *)
Definition replicationConnString (cfg : PostgresConfig) : result slot_error string :=
  match validateIdentifier (pg_PublicationName cfg) with
  | Err e => Err e
  | Ok _ =>
      match validateIdentifier (pg_SlotName cfg) with
      | Err e => Err e
      | Ok _ => Ok (ensureReplicationParam (inject (pg_Username cfg) (pg_Password cfg) (pg_URL cfg)))
      end
  end.

End Url.

(** ** The database *)

(** The objects of DDL capture: the log table, the two functions and the two
    event triggers. *)
Definition ddl_objects : gset string :=
  list_to_set ["_cdc_ddl_log"; "_cdc_ddl_log_fn"; "cdc_ddl_capture"; "_cdc_ddl_drop_fn"; "cdc_ddl_drop_capture"].

Record database := mkDatabase {
  d_server : server;
  d_publications : gset string;
  d_triggers : gset string               (* those of [ddl_objects] that exist *)
}.
Definition set_server (v : server) (d : database) : database :=
  mkDatabase v (d_publications d) (d_triggers d).

Definition createPublicationIfNotExists (reach : bool * bool) (pubName : string) (d : database)
    : database * result slot_error unit :=
  match validateIdentifier pubName with
  | Err e => (d, Err e)
  | Ok _ =>
      if negb reach.1 then (d, Err QueryFailed)
      else if decide (pubName ∈ d_publications d) then (d, Ok tt)
      else if negb reach.2 then (d, Err QueryFailed)
      else (mkDatabase (d_server d) ({[pubName]} ∪ d_publications d) (d_triggers d), Ok tt)
  end.

(** One multi-statement command, which runs as one transaction: each object is
    created or replaced, or left when it exists. *)
Definition createDDLTriggerIfNotExists (reach : bool) (d : database) : database * result slot_error unit :=
  if reach then (mkDatabase (d_server d) (d_publications d) (ddl_objects ∪ d_triggers d), Ok tt)
  else (d, Err QueryFailed).

(** ** The listener's life *)

(** The goroutines of a running listener, with their periods. *)
Inductive goroutine := GListen | GSample (every : Z) | GHeartbeat (every : Z) | GCleanup (every : Z).

(** The fields [Start] and [Stop] touch; [p_core] is the streaming state of
    PgListener.v. *)
Record process := mkProcess {
  p_cfg : PostgresConfig;
  p_core : Listener;
  p_registry : option slotRegistry;
  p_cleaner : option slotCleaner;
  p_conn : bool;
  p_maintenance : bool;
  p_running : bool;
  p_threads : list goroutine
}.

Definition set_core (l : Listener) (p : process) : process :=
  mkProcess (p_cfg p) l (p_registry p) (p_cleaner p) (p_conn p) (p_maintenance p) (p_running p) (p_threads p).
Definition set_ownership (r : option slotRegistry) (c : option slotCleaner) (p : process) : process :=
  mkProcess (p_cfg p) (p_core p) r c (p_conn p) (p_maintenance p) (p_running p) (p_threads p).
Definition set_conn_ (b : bool) (p : process) : process :=
  mkProcess (p_cfg p) (p_core p) (p_registry p) (p_cleaner p) b (p_maintenance p) (p_running p) (p_threads p).
Definition set_life (m r : bool) (ts : list goroutine) (p : process) : process :=
  mkProcess (p_cfg p) (p_core p) (p_registry p) (p_cleaner p) (p_conn p) m r ts.

Definition newProcess (cfg : PostgresConfig) (history : option FileHistoryStore) (s : Service) : process :=
  mkProcess cfg (NewListener (pg_Tables cfg) (pg_CaptureDDL cfg) history s) None None false false false [].

Definition slotStatsInterval (cfg : PostgresConfig) : Z :=
  if pg_SlotStatsIntervalSeconds cfg <=? 0 then defaultSlotStatsInterval
  else i64 (pg_SlotStatsIntervalSeconds cfg * second).

(** [startSlotMaintenance]: the goroutines it adds. *)
Definition startSlotMaintenance (p : process) : list goroutine :=
  match p_registry p with
  | None => []
  | Some _ =>
      let c := pg_SlotCleanup (p_cfg p) in
      let beat := if 0 <? sc_HeartbeatSeconds c then i64 (sc_HeartbeatSeconds c * second)
                  else defaultSlotHeartbeat in
      GHeartbeat beat ::
      match p_cleaner p with
      | None => []
      | Some _ => [GCleanup (minutesOrDefault (sc_IntervalMinutes c) defaultSlotCleanupInterval)]
      end
  end.

Inductive pg_start_error :=
| PgAlreadyRunning
| SetupConnection (e : dial_error)
| SetupFailed (e : slot_error)
| SnapshotFailed
| PoolFailed.

(** The moments of a start: a statement of the setup ran, the snapshot began,
    streaming began, each with the database then. *)
Inductive moment := Setup (d : database) | Snapshotting (d : database) | Streaming (d : database).

Record start_inputs := mkInputs {
  si_dials : list (dial_attempt unit);
  si_publication : bool * bool;
  si_ownership : bool * bool;
  si_slot : bool;
  si_ddl : bool;
  si_now : Z;
  si_snapshot : snapshot_run -> list Event * bool;   (* handed over; whether it succeeded *)
  si_pool : bool
}.

Fixpoint handle_all (now : Z) (acts : list act) (l : Listener) (evs : list Event)
    : outcome (Listener * list act) :=
  match evs with
  | [] => Returned (l, acts)
  | ev :: evs => '(l, acts, _) ← handle now acts l ev; handle_all now acts l evs
  end.

Section Start.
Context (regexp_Compile : string -> option (string -> bool)).
Context (query : string -> option (string -> string)).   (* url.Parse, then Query().Get *)

(** The statements of the setup, in order: each [Setup] moment is the database
    after one of them; the connection is closed on every path. *)
Definition setup (i : start_inputs) (p : process) (d : database)
    : process * database * list moment * result slot_error unit :=
  let cfg := p_cfg p in
  let '(d1, r1) := if pg_CreatePublication cfg
                   then createPublicationIfNotExists (si_publication i) (pg_PublicationName cfg) d
                   else (d, Ok tt) in
  match r1 with
  | Err e => (p, d1, [Setup d1], Err e)
  | Ok _ =>
      let '(v, reg, cl) := setupSlotOwnership regexp_Compile (pg_SlotCleanup cfg) (pg_SlotName cfg)
                             (pg_OwnerID cfg) (si_ownership i) (d_server d1) in
      let d2 := set_server v d1 in
      let p := set_ownership reg cl p in
      let '(v, r3) := if pg_CreateSlot cfg
                      then createReplicationSlotIfNotExists (si_slot i) (pg_SlotName cfg) v
                      else (v, Ok tt) in
      let d3 := set_server v d2 in
      match r3 with
      | Err e => (p, d3, [Setup d1; Setup d2; Setup d3], Err e)
      | Ok _ =>
          let '(d4, r4) := if pg_CaptureDDL cfg then createDDLTriggerIfNotExists (si_ddl i) d3 else (d3, Ok tt) in
          (p, d4, [Setup d1; Setup d2; Setup d3; Setup d4], r4)
      end
  end.

(** [runSnapshot] of the listener: which one, and its events on the bus. *)
Definition run_snapshot (i : start_inputs) (acts : list act) (p : process)
    : outcome (process * list act * bool) :=
  let cfg := p_cfg p in
  let run := Startup.runSnapshot query (pg_SnapshotMode cfg) (pg_URL cfg) (pg_SnapshotBackupFile cfg)
               (pg_SnapshotStartLSN cfg) (pg_SnapshotChunkSize cfg) in
  match run with
  | RunNothing => Returned (p, acts, true)
  | RunRefused => Returned (p, acts, false)
  | _ =>
      let '(evs, ok) := si_snapshot i run in
      '(l, acts) ← handle_all (si_now i) acts (p_core p) evs;
      Returned (set_core l p, acts, ok)
  end.

Definition Start (i : start_inputs) (acts : list act) (p : process) (d : database)
    : outcome (process * database * list act * list moment * option (result pg_start_error unit)) :=
  if p_running p then Returned (p, d, acts, [], Some (Err PgAlreadyRunning))
  else
    match (waitForDatabase (mkBackoff firstStartupDelay maxReconnectDelay) (si_dials i) []).2 with
    | None => Returned (p, d, acts, [], None)                       (* still waiting *)
    | Some (Err e) => Returned (p, d, acts, [], Some (Err (SetupConnection e)))
    | Some (Ok _) =>
        let '(p, d, ms, r) := setup i p d in
        match r with
        | Err e => Returned (p, d, acts, ms, Some (Err (SetupFailed e)))
        | Ok _ =>
            '(p, acts, ok) ← run_snapshot i acts p;
            if negb ok then Returned (p, d, acts, ms ++ [Snapshotting d], Some (Err SnapshotFailed))
            else if negb (si_pool i) then Returned (p, d, acts, ms ++ [Snapshotting d], Some (Err PoolFailed))
            else
              let ts := [GListen; GSample (slotStatsInterval (p_cfg p))] ++ startSlotMaintenance p in
              Returned (set_life true true ts p, d, acts, ms ++ [Snapshotting d; Streaming d], Some (Ok tt))
        end
    end.

End Start.

(** [Stop]: the goroutines end, the connection is closed, the slot is released
    through the pool, and the pool is closed. *)
Definition Stop (reach : bool) (p : process) (d : database) : process * database :=
  if negb (p_running p) then (p, d)
  else
    let p := set_conn_ false (set_life (p_maintenance p) false [] p) in
    let d := set_server (releaseSlotOwnership reach (p_registry p) (d_server d)) d in
    (set_life false false [] p, d).

(** ** The maintenance goroutines *)

(** [runHeartbeat]: a tick acts on the server as it is then. *)
Definition runHeartbeat (r : slotRegistry) (ticks : list (bool * server)) : list server :=
  map (fun t => (heartbeat t.1 r t.2).1) ticks.

(** [slotSampler.run]: a sample at once and one per tick. *)
Definition newSlotSampler (l : lagTracker) : slotSampler := mkSampler l false None.
Definition sampler_run (s : slotSampler) (samples : list (Z * result slot_error SlotStats)) : slotSampler :=
  foldl (fun s x => (sampleOnce x.1 x.2 s).1) s samples.

(** ** One connection *)

Inductive stream_error :=
| InvalidName (e : slot_error)
| ConnectFailed
| ReplicationFailed (recreate : result slot_error unit)
| StreamFailed (e : conn_error).

Record conn_inputs := mkConn {
  ci_connect : bool;
  ci_identify : bool;
  ci_start : bool;
  ci_recreate : bool * bool * bool;
  ci_now : Z;
  ci_ins : list input
}.

Section Connection.
Context (lsn_string : Z -> string) (lsn_text : Z -> string) (ParseLSN : string -> option Z).
Context (ParseXLogData : list ascii -> option (Z * list ascii)).
Context (ParsePrimaryKeepaliveMessage : list ascii -> option (Z * bool)).

(** [startReplication]: the server streams a slot it has and can serve. *)
Definition startReplication (i : conn_inputs) : bool := ci_identify i && ci_start i.

(** [startStreaming]: a failed start recreates an unusable slot; the boolean is
    whether the recreation counter moves. *)
Definition startStreaming (i : conn_inputs) (p : process) (d : database)
    : database * bool * result stream_error unit :=
  if startReplication i then (d, false, Ok tt)
  else
    let '(v, counted, r) := recreateUnusableSlot lsn_text ParseLSN (pg_CreateSlot (p_cfg p)) (ci_recreate i)
                              (pg_SlotName (p_cfg p)) (d_server d) in
    (set_server v d, counted, Err (ReplicationFailed r)).

(** [connectAndStream]: the positions sent to the primary are the last
    component; the connection is closed again on every path. *)
Definition connectAndStream (i : conn_inputs) (acts : list act) (p : process) (d : database)
    : outcome (process * database * list act * list Z * bool * result stream_error unit) :=
  match validateIdentifier (pg_PublicationName (p_cfg p)), validateIdentifier (pg_SlotName (p_cfg p)) with
  | Err e, _ | _, Err e => Returned (p, d, acts, [], false, Err (InvalidName e))
  | Ok _, Ok _ =>
      if negb (ci_connect i) then Returned (p, d, acts, [], false, Err ConnectFailed)
      else
        let '(d, counted, r) := startStreaming i p d in
        match r with
        | Err e => Returned (p, d, acts, [], counted, Err e)
        | Ok _ =>
            '(w, r) ← stream lsn_string ParseXLogData ParsePrimaryKeepaliveMessage (ci_ins i)
                        (newSession (ci_now i) acts (p_core p));
            Returned (set_core (lst w) p, d, todo w, sent w, counted,
                      match r with Ok _ => Ok tt | Err e => Err (StreamFailed e) end)
        end
  end.

End Connection.

(** ** Substrings *)

Lemma after_prefix_app p s : after_prefix p (p +:+ s) = Some s.
Proof.
  induction p as [|a p IH]; [by destruct s|]. rewrite str_app_cons. simpl. by rewrite Ascii.eqb_refl.
Qed.

Lemma after_prefix_Some p s t : after_prefix p s = Some t -> s = p +:+ t.
Proof.
  revert s. induction p as [|a p IH]; intros [|b s]; simpl; try (by intros [= <-]).
  destruct (Ascii.eqb_spec a b) as [->|]; [|done]. intros H%IH. by rewrite str_app_cons, H.
Qed.

Lemma contains_cons p a s : contains p s = true -> contains p (String a s) = true.
Proof. intros H. simpl. by destruct (after_prefix p (String a s)). Qed.

Lemma contains_iff p s : contains p s = true <-> exists x y, s = x +:+ p +:+ y.
Proof.
  split.
  - induction s as [|a s IH]; intros H.
    + simpl in H. destruct (after_prefix p "") as [t|] eqn:E; [|done].
      apply after_prefix_Some in E. by exists ""%string, t.
    + simpl in H. destruct (after_prefix p (String a s)) as [t|] eqn:E.
      * apply after_prefix_Some in E. by exists ""%string, t.
      * destruct (IH H) as (x & y & ->). by exists (String a x), y.
  - intros (x & y & ->). induction x as [|a x IH]; [|rewrite str_app_cons; by apply contains_cons].
    rewrite str_app_nil_l. pose proof (after_prefix_app p y) as E.
    destruct (p +:+ y) eqn:Epy; simpl; by rewrite E.
Qed.

Lemma contains_sub p q r s : contains q s = false -> contains (p +:+ q +:+ r) s = false.
Proof.
  intros Hq. apply not_true_iff_false. intros (x & y & ->)%contains_iff.
  assert (contains q (x +:+ (p +:+ q +:+ r) +:+ y) = true) as E; [|by rewrite E in Hq].
  apply contains_iff. exists (x +:+ p), (r +:+ y). by rewrite !str_app_assoc.
Qed.

Lemma replace_none fuel old new s : contains old s = false -> replace_all fuel old new s = s.
Proof.
  revert s. induction fuel as [|fuel IH]; intros s H; [done|]. destruct s as [|a s]; simpl in *;
    destruct (after_prefix _ _); try done. by rewrite IH.
Qed.

Lemma after_prefix_long c t s u :
  no_char c t = true -> after_prefix t (s +:+ String c u) = None \/ exists r, after_prefix t s = Some r.
Proof.
  revert s. induction t as [|a t IH]; intros s Ht; [right; by exists s|]. simpl in Ht.
  apply andb_true_iff in Ht as [Ha Ht]. destruct s as [|b s].
  - left. rewrite str_app_nil_l. simpl. by apply negb_true_iff in Ha as ->.
  - rewrite str_app_cons. simpl. destruct (Ascii.eqb a b); [by apply IH|by left].
Qed.

(** A pattern appended to a string that does not hold it is what is replaced,
    when its first byte occurs in it only once. *)
Lemma replace_end fuel c t s :
  no_char c t = true -> contains (String c t) s = false -> (String.length s < fuel)%nat ->
  replace_all fuel (String c t) "" (s +:+ String c t) = s.
Proof.
  intros Ht. revert fuel. induction s as [|a s IH]; intros [|fuel] Hs Hf; simpl in Hf; try lia.
  - rewrite str_app_nil_l. cbn [replace_all]. rewrite <- (str_app_nil_r (String c t)) at 2.
    rewrite after_prefix_app, str_app_nil_l. by destruct fuel.
  - rewrite str_app_cons. cbn [replace_all].
    assert (En : after_prefix (String c t) (String a (s +:+ String c t)) = None).
    { simpl. destruct (Ascii.eqb_spec c a) as [->|]; [|done].
      destruct (after_prefix_long a t s t Ht) as [?|[r Er]]; [done|].
      simpl in Hs. rewrite Ascii.eqb_refl, Er in Hs. done. }
    rewrite En, IH; [done| |lia]. simpl in Hs. by destruct (_ : option string) in Hs.
Qed.

Lemma ReplaceAll_none s old new : contains old s = false -> ReplaceAll s old new = s.
Proof. apply replace_none. Qed.

Lemma ReplaceAll_end c t s :
  no_char c t = true -> contains (String c t) s = false -> ReplaceAll (s +:+ String c t) (String c t) "" = s.
Proof. intros Ht Hs. apply replace_end; [done..|]. rewrite str_length_app. simpl. lia. Qed.

(** A pattern that starts with [c] is not found before the first [c]. *)
Lemma contains_skip c t s u : no_char c s = true -> contains (String c t) (s +:+ u) = contains (String c t) u.
Proof.
  induction s as [|a s IH]; [by rewrite str_app_nil_l|]. intros [Ha Hs]%andb_true_iff.
  rewrite str_app_cons. simpl. apply negb_true_iff in Ha. rewrite Ascii.eqb_sym, Ha. by apply IH.
Qed.

(** A pattern without [c] does not straddle it. *)
Lemma contains_straddle c p s u : no_char c p = true -> p <> ""%string ->
  contains p (s +:+ String c u) = contains p s || contains p u.
Proof.
  intros Hp Hne. induction s as [|a s IH].
  - rewrite str_app_nil_l. simpl. destruct p as [|b p]; [done|]. simpl in Hp.
    apply andb_true_iff in Hp as [Hb _]. simpl. by apply negb_true_iff in Hb as ->.
  - rewrite str_app_cons. destruct (after_prefix_long c p (String a s) u Hp) as [E|[r E]].
    + rewrite str_app_cons in E. simpl. rewrite E, IH.
      destruct (after_prefix p (String a s)) as [r|] eqn:Er; [|done].
      apply after_prefix_Some in Er. rewrite <- str_app_cons, Er, str_app_assoc, after_prefix_app in E. done.
    + pose proof E as E'. apply after_prefix_Some in E'. simpl. rewrite E.
      rewrite <- str_app_cons, E', str_app_assoc, after_prefix_app. done.
Qed.

Lemma contains_question s : contains "?" s = negb (no_char "?" s).
Proof.
  induction s as [|a s IH]; [done|]. cbn [contains no_char after_prefix].
  rewrite IH, (Ascii.eqb_sym "?"%char a). by destruct (Ascii.eqb a "?"%char), s.
Qed.

Lemma strip_ensure s : contains "replication=" s = false -> stripReplicationParam (ensureReplicationParam s) = s.
Proof.
  intros Hs. unfold ensureReplicationParam, stripReplicationParam. rewrite Hs.
  pose proof (contains_sub "?" "replication=" "database&" s Hs) as H2.
  pose proof (contains_sub "?" "replication=" "database" s Hs) as H3.
  pose proof (contains_sub "&" "replication=" "database" s Hs) as H1.
  destruct (contains "?" s) eqn:Eq.
  - rewrite (ReplaceAll_end "&"%char "replication=database" s) by done.
    rewrite (ReplaceAll_none s "?replication=database&" "?" H2). exact (ReplaceAll_none s _ "" H3).
  - rewrite contains_question in Eq. apply negb_false_iff in Eq.
    rewrite (ReplaceAll_none _ "&replication=database").
    2:{ change ("?replication=database"%string) with (String "?" "replication=database").
        rewrite contains_straddle by done. by apply orb_false_iff. }
    rewrite (ReplaceAll_none _ "?replication=database&") by (by rewrite contains_skip).
    by apply (ReplaceAll_end "?"%char "replication=database" s).
Qed.

Lemma strip_none s : contains "replication=" s = false -> stripReplicationParam s = s.
Proof.
  intros Hs. unfold stripReplicationParam.
  pose proof (contains_sub "?" "replication=" "database&" s Hs) as H2.
  pose proof (contains_sub "?" "replication=" "database" s Hs) as H3.
  pose proof (contains_sub "&" "replication=" "database" s Hs) as H1.
  rewrite (ReplaceAll_none s "&replication=database" "" H1), (ReplaceAll_none s "?replication=database&" "?" H2). exact (ReplaceAll_none s _ "" H3).
Qed.

Lemma ensure_has s : contains "replication=" (ensureReplicationParam s) = true.
Proof.
  unfold ensureReplicationParam. destruct (contains "replication=" s) eqn:E; [done|].
  destruct (contains "?" s); apply contains_iff;
    [exists (s +:+ "&"), "database"%string|exists (s +:+ "?"), "database"%string]; by rewrite str_app_assoc.
Qed.

(** ** The setup *)

Definition db_of (m : moment) : database := match m with Setup d | Snapshotting d | Streaming d => d end.

(** What a database must hold before anything is read from it. *)
Definition ready (cfg : PostgresConfig) (d : database) : Prop :=
  (pg_CreatePublication cfg = true -> pg_PublicationName cfg ∈ d_publications d) /\
  (pg_CreateSlot cfg = true -> is_Some (slots (d_server d) !! pg_SlotName cfg)) /\
  (pg_CaptureDDL cfg = true -> ddl_objects ⊆ d_triggers d).

(** The slot is claimed by [r]. *)
Definition owned_by (r : slotRegistry) (d : database) : Prop :=
  exists m o, owners (d_server d) = Some m /\ m !! slot_name r = Some o /\ OwnerID o = owner r /\ ReleasedAt o = None.

Lemma publication_created reach name d d' :
  createPublicationIfNotExists reach name d = (d', Ok tt) ->
  name ∈ d_publications d' /\ d_server d' = d_server d.
Proof.
  unfold createPublicationIfNotExists. destruct (validateIdentifier name) as [|]; [|done].
  destruct reach as [[] b]; simpl; [|done]. destruct (decide _); [by intros [= <-]|].
  destruct b; simpl; intros [= <-]; simpl. set_solver.
Qed.

Lemma publication_server reach name d d' r :
  createPublicationIfNotExists reach name d = (d', r) -> d_server d' = d_server d.
Proof.
  unfold createPublicationIfNotExists. repeat case_match; intros [= <- _]; done.
Qed.

Lemma slot_created reach name v v' :
  createReplicationSlotIfNotExists reach name v = (v', Ok tt) -> is_Some (slots v' !! name) /\ owners v' = owners v.
Proof.
  unfold createReplicationSlotIfNotExists. destruct (validateIdentifier name); [|done].
  destruct reach; simpl; [|done]. destruct (slots v !! name) eqn:E; intros [= <-]; simpl.
  - by rewrite E.
  - by rewrite lookup_insert_eq.
Qed.

Lemma slot_created_owners reach name v v' r :
  createReplicationSlotIfNotExists reach name v = (v', r) -> owners v' = owners v.
Proof. unfold createReplicationSlotIfNotExists. repeat case_match; intros [= <- _]; done. Qed.

Lemma ownership_claims rx cfg name owner reach v v' r c :
  setupSlotOwnership rx cfg name owner reach v = (v', r, c) ->
  slots v' = slots v /\
  forall reg, r = Some reg -> slot_name reg = name /\
    exists m o, owners v' = Some m /\ m !! name = Some o /\ OwnerID o = Slots.owner reg /\ ReleasedAt o = None.
Proof.
  unfold setupSlotOwnership. destruct (sc_Enabled cfg); simpl; [|by intros [= <- <- _]].
  unfold ensureTable. destruct reach as [[] b]; simpl; [|by intros [= <- <- _]].
  unfold register, with_owners. simpl. destruct b; simpl; [|by intros [= <- <- _]].
  intros [= <- <- _]. split; [done|]. intros reg [= <-]. split; [done|]. simpl.
  eexists _, _. split; [done|]. by rewrite lookup_insert_eq.
Qed.

(** The ordering of the setup. *)
Lemma setup_spec rx i p d p' d' ms r :
  setup rx i p d = (p', d', ms, r) ->
  p_cfg p' = p_cfg p /\ p_running p' = p_running p /\ p_threads p' = p_threads p /\
  p_maintenance p' = p_maintenance p /\ p_core p' = p_core p /\ p_conn p' = p_conn p /\
  (r = Ok tt -> ready (p_cfg p) d') /\
  (forall reg m, p_registry p' = Some reg -> p_registry p = None ->
     (m ∈ ms \/ db_of m = d') -> slots (d_server d) !! pg_SlotName (p_cfg p) = None ->
     is_Some (slots (d_server (db_of m)) !! pg_SlotName (p_cfg p)) ->
     slot_name reg = pg_SlotName (p_cfg p) /\ owned_by reg (db_of m)).
Proof.
  unfold setup. set (cfg := p_cfg p).
  destruct (if pg_CreatePublication cfg then _ else _) as [d1 r1] eqn:E1.
  assert (Hs1 : d_server d1 = d_server d).
  { destruct (pg_CreatePublication cfg); [by eapply publication_server|by simplify_eq]. }
  destruct r1 as [[]|e]; [|].
  2:{ intros [= <- <- <- <-]. split_and!; try done. congruence. }
  destruct (setupSlotOwnership _ _ _ _ _ _) as [[v reg] cl] eqn:E2.
  apply ownership_claims in E2 as [Hsl Hreg].
  destruct (if pg_CreateSlot cfg then _ else _) as [v3 r3] eqn:E3.
  assert (Ho3 : owners v3 = owners v).
  { destruct (pg_CreateSlot cfg); [by eapply slot_created_owners|by simplify_eq]. }
  assert (Hown : forall g x, reg = Some g -> owners (d_server x) = owners v -> slot_name g = pg_SlotName cfg /\ owned_by g x).
  { intros g x Hg Hx. destruct (Hreg g Hg) as (Hn & m & o & Hm & Hl & Ho & Hr). split; [done|].
    exists m, o. rewrite Hx, Hn. done. }
  assert (Hgo : forall g x, reg = Some g -> slots (d_server d) !! pg_SlotName cfg = None ->
    is_Some (slots (d_server x) !! pg_SlotName cfg) ->
    d_server x = d_server d1 \/ d_server x = v \/ owners (d_server x) = owners v ->
    slot_name g = pg_SlotName cfg /\ owned_by g x).
  { intros g x Hg Hnone [s Hs] [Hx|[Hx|Hx]]; [|by apply Hown; [|rewrite Hx]|by apply Hown].
    rewrite Hx, Hs1, Hnone in Hs. done. }
  destruct r3 as [[]|e].
  2:{ intros [= <- <- <- <-]. split_and!; try done. simpl. intros g m Hg _ Hin Hnone Hs.
      apply Hgo; try done. destruct Hin as [Hin| ->]; [|by right; right].
      set_unfold in Hin. destruct Hin as [-> |[-> |[-> |[]]]]; simpl; auto. }
  destruct (if pg_CaptureDDL cfg then _ else _) as [d4 r4] eqn:E4. intros [= <- <- <- <-].
  assert (Hd4 : d_server d4 = v3 /\ d_publications d4 = d_publications d1 /\
    (r4 = Ok tt -> pg_CaptureDDL cfg = true -> ddl_objects ⊆ d_triggers d4)).
  { unfold createDDLTriggerIfNotExists in E4.
    destruct (pg_CaptureDDL cfg); [destruct (si_ddl i)|]; injection E4 as <- <-; split_and!; try done.
    intros _ _. apply union_subseteq_l. }
  destruct Hd4 as (Hs4 & Hp4 & Ht4). split_and!; try done.
  - intros ->. split_and!; [intros Hc; rewrite Hc in E1|intros Hc; rewrite Hc in E3|auto].
    + rewrite Hp4. by apply publication_created in E1 as [E1 _].
    + rewrite Hs4. by apply slot_created in E3 as [E3 _].
  - simpl. intros g m Hg _ Hin Hnone Hs. apply Hgo; try done.
    destruct Hin as [Hin| ->]; [|right; right; by rewrite Hs4].
    set_unfold in Hin. destruct Hin as [-> |[-> |[-> |[-> |[]]]]]; simpl in *; rewrite ?Hs4; auto.
Qed.

Lemma handle_all_core now acts l evs l' acts' :
  handle_all now acts l evs = Returned (l', acts') -> ack l' = ack l.
Proof.
  revert acts l. induction evs as [|ev evs IH]; intros acts l; simpl; [by intros [= <- _]|].
  unfold handle. destruct (HandleEvent _ _ _ _) as [[[s a] ok]| |]; simpl; [|done..].
  intros E%IH. done.
Qed.

Lemma run_snapshot_frame query i acts p p' acts' ok :
  run_snapshot query i acts p = Returned (p', acts', ok) ->
  p_registry p' = p_registry p /\ p_running p' = p_running p /\ p_threads p' = p_threads p /\
  p_maintenance p' = p_maintenance p.
Proof.
  intros H. unfold run_snapshot in H. destruct (Startup.runSnapshot _ _ _ _ _ _); try (by simplify_eq);
    destruct (si_snapshot i _) as [evs ok']; destruct (handle_all _ _ _ _) as [[l a]| |]; by simplify_eq/=.
Qed.

Lemma setup_moments rx i p d p' d' ms r :
  setup rx i p d = (p', d', ms, r) -> forall m, m ∈ ms -> exists x, m = Setup x.
Proof.
  intros H. apply Forall_forall. unfold setup in H. repeat case_match; simplify_eq; repeat constructor; eauto.
Qed.

(** ** Properties *)

Section Lifecycle.
Context (rx : string -> option (string -> bool)) (query : string -> option (string -> string)).

(** C13: A start builds what streaming needs in the right order. Once the
    snapshot or the stream begins, the publication, the slot and the triggers
    that were asked for exist, so no change between the snapshot and the stream
    is missed; when the start ends with a registry (slot cleanup is enabled and
    the registration succeeded), at no moment did the slot it created exist
    without being claimed there; and a start that fails leaves no goroutine and
    no pool behind. Without slot cleanup, or when the registration fails, which
    only warns, the slot is created unclaimed. *)
Theorem Start_sets_up (i : start_inputs) (acts acts' : list act) (p p' : process) (d d' : database)
    (ms : list moment) (r : result pg_start_error unit) :
  p_running p = false -> p_threads p = [] -> p_maintenance p = false -> p_registry p = None ->
  Start rx query i acts p d = Returned (p', d', acts', ms, Some r) ->
  (forall m, m ∈ ms -> match m with Setup _ => True | Snapshotting x | Streaming x => ready (p_cfg p) x end) /\
  (forall reg m, p_registry p' = Some reg -> m ∈ ms ->
     slots (d_server d) !! pg_SlotName (p_cfg p) = None ->
     is_Some (slots (d_server (db_of m)) !! pg_SlotName (p_cfg p)) ->
     slot_name reg = pg_SlotName (p_cfg p) /\ owned_by reg (db_of m)) /\
  match r with
  | Ok _ => p_running p' = true /\ GListen ∈ p_threads p' /\ Streaming d' ∈ ms
  | Err _ => p_running p' = false /\ p_threads p' = [] /\ p_maintenance p' = false
  end.
Proof.
  intros Hr Ht Hm Hreg H. unfold Start in H. rewrite Hr in H.
  destruct (waitForDatabase _ _ _).2 as [[[]|e]|]; [|by simplify_eq; split_and!; try done; set_solver|done].
  destruct (setup rx i p d) as [[[p1 d1] ms1] r1] eqn:Es. pose proof (setup_moments _ _ _ _ _ _ _ _ Es) as Hset.
  apply setup_spec in Es as (Ecfg & Er & Et & Em & _ & _ & Hok & Hown).
  destruct r1 as [[]|e].
  2:{ simplify_eq. split_and!; [|by eauto|congruence..]. intros m Hm1. by destruct (Hset m Hm1) as [x ->]. }
  specialize (Hok eq_refl).
  destruct (run_snapshot query i acts p1) as [[[p2 a2] ok]| |] eqn:Esn; [|done..]. simpl in H.
  apply run_snapshot_frame in Esn as (S1 & S2 & S3 & S4).
  assert (Htail : forall t, (forall m, m ∈ t -> m = Snapshotting d1 \/ m = Streaming d1) ->
    (forall m, m ∈ ms1 ++ t -> match m with Setup _ => True | Snapshotting x | Streaming x => ready (p_cfg p) x end) /\
    (forall reg m, p_registry p2 = Some reg -> m ∈ ms1 ++ t ->
       slots (d_server d) !! pg_SlotName (p_cfg p) = None ->
       is_Some (slots (d_server (db_of m)) !! pg_SlotName (p_cfg p)) ->
       slot_name reg = pg_SlotName (p_cfg p) /\ owned_by reg (db_of m))).
  { intros t Hcases. rewrite S1. split.
    - intros m [Hm1|Hmt]%elem_of_app; [by destruct (Hset m Hm1) as [x ->]|]. by destruct (Hcases m Hmt) as [-> | ->].
    - intros reg m Hg [?|Hmt]%elem_of_app; [by eauto|]. apply Hown; [done..|]. right.
      by destruct (Hcases m Hmt) as [-> | ->]. }
  destruct (Htail [Snapshotting d1]) as [A1 A2]; [intros m ->%list_elem_of_singleton; by left|].
  destruct (Htail [Snapshotting d1; Streaming d1]) as [B1 B2];
    [intros m [-> | ->%list_elem_of_singleton]%elem_of_cons; by auto|]. clear Htail.
  destruct ok; simpl in H; [destruct (si_pool i); simpl in H|]; simplify_eq/=;
    split_and!; try done; try congruence; clear; set_solver.
Qed.

End Lifecycle.

(** C36: Stopping a running listener ends its goroutines, closes what it opened
    and, when the server answers, marks its own registry row released at the
    server's time, so the next cleanup need not wait; a row another watcher has
    taken over stays as it is, and a second stop does nothing. *)
Theorem Stop_releases (reach : bool) (p : process) (d : database) :
  p_running p = true ->
  let '(p', d') := Stop reach p d in
  p_running p' = false /\ p_threads p' = [] /\ p_conn p' = false /\ p_maintenance p' = false /\
  (forall reach', Stop reach' p' d' = (p', d')) /\ slots (d_server d') = slots (d_server d) /\
  forall reg m, p_registry p = Some reg -> owners (d_server d) = Some m ->
    exists m', owners (d_server d') = Some m' /\
      forall n, m' !! n =
        (fun o => if reach && bool_decide (n = slot_name reg) && bool_decide (OwnerID o = owner reg)
                  then mkOwner (OwnerID o) (HeartbeatAt o) (Some (db_now (d_server d))) else o) <$> m !! n.
Proof.
  intros Hr. unfold Stop. rewrite Hr. simpl. split_and!; try done.
  - unfold releaseSlotOwnership, release, with_owners. destruct (p_registry p); [|done].
    destruct reach; simpl; [|done]. by destruct (owners (d_server d)).
  - intros reg m Hreg Hm. rewrite Hreg. simpl. unfold release, with_owners. rewrite Hm.
    destruct reach; simpl; [|exists m; split; [done|]; intros n; by destruct (m !! n)].
    eexists. split; [done|]. intros n. unfold update_own. case_bool_decide as Hn.
    + subst. rewrite lookup_alter_eq. destruct (m !! slot_name reg) as [o|]; [|done]. simpl.
      by destruct (decide (OwnerID o = owner reg)); [rewrite bool_decide_eq_true_2|rewrite bool_decide_eq_false_2].
    + rewrite lookup_alter_ne by done. by destruct (m !! n).
Qed.

(** C37: the two connection strings fit together. What the listener dials to
    stream holds the text replication=, and it dials only under valid publication
    and slot names. For a URL [u] without that text, configured as it is or with
    the parameter at its end (as in config.example.yaml), the standard connections
    go to [u], and without configured credentials the stream dials [u] with
    replication=database added once. A URL that holds the text in another form,
    such as replication=false, is dialled as it is. *)
Theorem connection_strings {U : Type} (url_Parse : string -> option U) (hasUser : U -> bool)
    (withUser : string -> string -> U -> U) (url_String : U -> string) (cfg : PostgresConfig) :
  (forall s, replicationConnString url_Parse hasUser withUser url_String cfg = Ok s ->
     contains "replication=" s = true /\
     validateIdentifier (pg_PublicationName cfg) = Ok tt /\ validateIdentifier (pg_SlotName cfg) = Ok tt) /\
  (forall u, contains "replication=" u = false ->
     let dialled := u +:+ (if contains "?" u then "&" else "?") +:+ "replication=database" in
     pg_URL cfg = u \/ pg_URL cfg = dialled ->
     standardConnString url_Parse hasUser withUser url_String cfg
       = inject url_Parse hasUser withUser url_String (pg_Username cfg) (pg_Password cfg) u /\
     forall s, pg_Username cfg = ""%string ->
       replicationConnString url_Parse hasUser withUser url_String cfg = Ok s -> s = dialled).
Proof.
  split.
  - intros s. unfold replicationConnString.
    destruct (validateIdentifier (pg_PublicationName cfg)) as [[]|]; [|done].
    destruct (validateIdentifier (pg_SlotName cfg)) as [[]|]; [|done]. intros [= <-].
    split; [apply ensure_has|done].
  - intros u Hu dialled Hurl.
    assert (Ed : ensureReplicationParam u = dialled).
    { unfold ensureReplicationParam, dialled. rewrite Hu. by destruct (contains "?" u). }
    assert (Ee : ensureReplicationParam (pg_URL cfg) = dialled).
    { destruct Hurl as [-> | ->]; [done|]. unfold ensureReplicationParam at 1. rewrite <- Ed. by rewrite ensure_has. }
    assert (Es : stripReplicationParam (pg_URL cfg) = u).
    { destruct Hurl as [-> | ->]; [by apply strip_none|]. rewrite <- Ed. by apply strip_ensure. }
    split; [unfold standardConnString; by rewrite Es|]. intros s Hn. unfold replicationConnString, inject.
    rewrite Hn, bool_decide_eq_true_2 by done. repeat case_match; try done. intros [= <-]. done.
Qed.

(** *** Sampling *)

(** The newest verdict among the samples; a failed lookup decides nothing. *)
Definition verdict (b : bool) (samples : list (Z * result slot_error SlotStats)) : bool :=
  foldl (fun b x => match x.2 with
                    | Err SlotMissing => true
                    | Err _ => b
                    | Ok st => bool_decide (WALStatus st = walStatusLost)
                    end) b samples.

(** Readiness follows the slot. Through any samples, the slot counts as
    unusable exactly when the newest lookup that decided anything found it gone
    or its WAL lost. *)
Theorem sampler_follows_slot (l : lagTracker) (samples : list (Z * result slot_error SlotStats)) :
  SlotUsable (sampler_run (newSlotSampler l) samples) = negb (verdict false samples).
Proof.
  unfold SlotUsable. f_equal. change false with (unusable (newSlotSampler l)).
  generalize (newSlotSampler l). induction samples as [|x samples IH]; intros s; [done|].
  simpl. rewrite IH. f_equal. unfold sampleOnce, slotNeedsRecreating. by destruct x.2 as [|[]].
Qed.

(** *** A slot that is gone *)

(** Streaming recovers from a dropped slot. An attempt on a slot that does
    not exist fails without touching the gate or the bus, and leaves a fresh
    slot at the current position, counted once, when slots are to be created
    and the server answers. *)
Theorem lost_slot_recreated (lsn_string lsn_text : Z -> string) (ParseLSN : string -> option Z)
    (ParseXLogData : list ascii -> option (Z * list ascii))
    (ParsePrimaryKeepaliveMessage : list ascii -> option (Z * bool))
    (i : conn_inputs) (acts : list act) (p : process) (d : database) :
  let name := pg_SlotName (p_cfg p) in
  validateIdentifier (pg_PublicationName (p_cfg p)) = Ok tt -> validateIdentifier name = Ok tt ->
  ci_connect i = true -> startReplication i = false -> pg_CreateSlot (p_cfg p) = true ->
  ci_recreate i = (true, true, true) -> slots (d_server d) !! name = None ->
  connectAndStream lsn_string lsn_text ParseLSN ParseXLogData ParsePrimaryKeepaliveMessage i acts p d
  = Returned (p, set_server (set_slots (<[name := fresh_slot (d_server d)]> (slots (d_server d))) (d_server d)) d,
              acts, [], true, Err (ReplicationFailed (Ok tt))).
Proof.
  intros name Hp Hs Hc Hst Hcr Hre Hn. unfold connectAndStream. fold name. rewrite Hp, Hs, Hc. simpl.
  unfold startStreaming. rewrite Hst, Hcr, Hre. fold name. unfold recreateUnusableSlot. simpl.
  unfold querySlotStats. simpl. rewrite Hn. simpl. unfold createReplicationSlotIfNotExists.
  by rewrite Hs, Hn.
Qed.

(** ** Witnesses *)

Definition demo_pg : PostgresConfig :=
  mkPostgresConfig true "postgres://db/app?sslmode=require" "u" "p" "cdc_slot" "cdc_publication" true true []
    "backup_file" 10000 "dump.sql" "0/0" true "" 15 "pod-1" (mkCleanupConfig true 10 30 0 false "^cdc" 30).
Definition demo_process : process := newProcess demo_pg None NewService.
Definition demo_db : database := mkDatabase (mkServer ∅ None (Some 4096) 777) ∅ ∅.
Definition demo_row : Event := NewEvent 0 Insert "public" "users" "{}" "INSERT" "".
Definition demo_inputs : start_inputs :=
  mkInputs [mkDial (Err Unreachable) false false; mkDial (Ok tt) false false] (true, true) (true, true) true true 0
    (fun _ => ([demo_row], true)) true.
Definition demo_started : process * database * list act * list moment * option (result pg_start_error unit) :=
  match Start demo_compile (fun _ => None) demo_inputs [] demo_process demo_db with
  | Returned x => x
  | _ => (demo_process, demo_db, [], [], None)
  end.

Lemma Start_sets_up_witness :
  p_running demo_started.1.1.1.1 = true /\ ready demo_pg demo_started.1.1.1.2 /\
  owned_by (mkRegistry "cdc_slot" "pod-1") demo_started.1.1.1.2.
Proof.
  destruct (Start_sets_up demo_compile (fun _ => None) demo_inputs [] demo_started.1.1.2 demo_process
    demo_started.1.1.1.1 demo_db demo_started.1.1.1.2 demo_started.1.2 (Ok tt)) as (H1 & H2 & H3 & _ & H4);
    [reflexivity..|vm_compute; reflexivity|].
  split; [exact H3|]. split; [exact (H1 _ H4)|].
  refine (proj2 (H2 (mkRegistry "cdc_slot" "pod-1") _ _ H4 _ _)); [vm_compute; reflexivity|reflexivity|].
  vm_compute. eauto.
Defined.

Lemma Stop_releases_witness :
  (fun m => m !! "cdc_slot") <$> owners (d_server (Stop true demo_started.1.1.1.1 demo_started.1.1.1.2).2)
  = Some (Some (mkOwner "pod-1" 777 (Some 777))).
Proof.
  pose proof (Stop_releases true demo_started.1.1.1.1 demo_started.1.1.1.2) as H.
  destruct (Stop true demo_started.1.1.1.1 demo_started.1.1.1.2) as [p' d'] eqn:E.
  destruct H as (_ & _ & _ & _ & _ & _ & H); [vm_compute; reflexivity|].
  destruct (H (mkRegistry "cdc_slot" "pod-1") (default ∅ (owners (d_server demo_started.1.1.1.2)))) as (m' & Hm & Hl);
    [vm_compute; reflexivity..|]. simpl. rewrite Hm. simpl. rewrite Hl. vm_compute. reflexivity.
Defined.

Definition demo_dial (s : string) : option string := Some s.

Lemma connection_strings_witness :
  standardConnString demo_dial (fun _ => false) (fun u p s => u +:+ ":" +:+ p +:+ "@" +:+ s) (fun s => s) demo_pg
  = "u:p@postgres://db/app?sslmode=require"%string /\
  contains "replication=" "u:p@postgres://db/app?sslmode=require&replication=database" = true.
Proof.
  destruct (connection_strings demo_dial (fun _ => false) (fun u p s => u +:+ ":" +:+ p +:+ "@" +:+ s)
    (fun s => s) demo_pg) as [H1 H2].
  split; [|apply H1; vm_compute; reflexivity].
  destruct (H2 "postgres://db/app?sslmode=require"%string) as [-> _]; [reflexivity|left; reflexivity|vm_compute; reflexivity].
Defined.

Lemma lost_slot_recreated_witness :
  connectAndStream pg_lsn_text demo_text demo_parse demo_xlog demo_keepalive
    (mkConn true true false (true, true, true) 0 []) [] demo_process demo_db
  = Returned (demo_process,
      set_server (set_slots (<["cdc_slot"%string := fresh_slot (d_server demo_db)]> (slots (d_server demo_db)))
        (d_server demo_db)) demo_db, [], [], true, Err (ReplicationFailed (Ok tt))).
Proof. apply lost_slot_recreated; reflexivity. Defined.
