(* ===== verification/Run.v ===== *)
(** * main.go: the process

    [run] starts the parts in order, waits, and unwinds its deferred stops.  The
    configuration, the publisher and the two listeners are those of the other
    files; what the outside world answers to each of them, and what ends the
    wait, are arguments.  The result is the trace of what went up and down. *)

From stdpp Require Import base list strings gmap.
From Stdlib Require Import ZArith Lia Ascii.
From S2P Require Import Prelude GoStrings Config Json Event AckGate Service History PgListener Publisher Client.
From S2P Require Import CommitGate MysqlListener MysqlStart Slots Startup PgStart.

Local Open Scope Z_scope.

Inductive run_error :=
| LoadingConfig (e : config_error)
| StartingNATS (e : connect_error)
| CreatingPostgres
| StartingPostgres (e : pg_start_error)
| StartingMySQL (e : start_error)
| NATSFailed (e : pub_error)
| MySQLFailed (e : string).

(** ** Starting the parts *)

(** What a trace records: a part is up or down (the stop is deferred), a listener
    is started, its observer wired by then or not, the HTTP server is up or down,
    the starting flag is cleared, signals are no longer caught. *)
Inductive part := Signals | Bus | Pub | Pg | My.

Inductive action :=
| Up (x : part) | Down (x : part) | Launch (x : part) (wired : bool)
| HTTPUp | HTTPDown | NotStarting | StopSignals.

(** The callbacks given to the publisher: each updates the gate of its listener. *)
Inductive observer := OfPostgres | OfMySQL.
#[export] Instance observer_eq_dec : EqDecision observer.
Proof. solve_decision. Defined.

Definition observers : Type := option (list observer).
Definition listens (o : observer) (obs : observers) : bool := bool_decide (o ∈ default [] obs).

Definition callback (o : observer) (e : Event) (gates : ackGate * commitGate) : ackGate * commitGate :=
  match o with
  | OfPostgres => (AckGate.ObservePublished gates.1 e, gates.2)
  | OfMySQL => (gates.1, CommitGate.ObservePublished e gates.2)
  end.

Definition startNATS (c : client) (cfg : Config) (s : Service)
    : Service * option started * result run_error unit :=
  if negb (nats_Enabled (NATS cfg)) then (s, None, Ok tt)
  else
    match Publisher_Start c s (NewPublisher (nats_SubjectPrefix (NATS cfg))) with
    | (s, x, Ok _) => (s, Some x, Ok tt)
    | (s, _, Err e) => (s, None, Err (StartingNATS e))
    end.

Section Start.
Context (rx : string -> option (string -> bool)) (query : string -> option (string -> string)).
Context (hasCerts : string -> bool).

(** What the world answers to the PostgreSQL side: the files of a directory,
    created when it is missing ([None] when that fails), and the start. *)
Record pg_world := mkPgWorld { pw_mkdir : string -> option (gmap string file); pw_start : start_inputs }.

(** The schema history [NewListener] opens when a directory is configured. *)
Definition open_history (mkdir : string -> option (gmap string file)) (cfg : PostgresConfig)
    : option (option FileHistoryStore) :=
  if bool_decide (pg_SchemaHistoryDir cfg = ""%string) then Some None
  else disk ← mkdir (pg_SchemaHistoryDir cfg); Some (Some (NewFileHistoryStore disk)).

(** [startPostgres]; the observer is wired before the start.  [None] as answer:
    still waiting for the database. *)
Definition startPostgres (w : pg_world) (cfg : Config) (pub : option started) (obs : observers) (s : Service)
    (acts : list act) (d : database)
    : outcome (Service * option process * observers * database * list act * list action
               * option (result run_error unit)) :=
  if negb (pg_Enabled (Postgres cfg)) then Returned (s, None, obs, d, acts, [], Some (Ok tt))
  else
    match open_history (pw_mkdir w) (Postgres cfg) with
    | None => Returned (s, None, obs, d, acts, [], Some (Err CreatingPostgres))
    | Some history =>
        let p := newProcess (Postgres cfg) history s in
        let '(p, obs) :=
          match pub with
          | Some _ => (set_core (PgListener.PublishedObserver (p_core p)) p, AddOnPublished OfPostgres obs)
          | None => (p, obs)
          end in
        let tr := [Launch Pg (AckGate.gated (ack (p_core p)) && listens OfPostgres obs)] in
        '(p, d, acts, _, r) ← PgStart.Start rx query (pw_start w) acts p d;
        Returned (match r with
                  | Some (Ok _) =>
                      (MarkRunning (service (p_core p)), Some p, obs, d, acts, tr ++ [Up Pg], Some (Ok tt))
                  | Some (Err e) => (service (p_core p), None, obs, d, acts, tr, Some (Err (StartingPostgres e)))
                  | None => (service (p_core p), None, obs, d, acts, tr, None)
                  end)
    end.

Record my_world := mkMyWorld { mw_open : string -> offset_file; mw_start : start_world }.

Definition startMySQL (w : my_world) (cfg : Config) (pub : option started) (obs : observers) (s : Service)
    (acts : list act)
    : outcome (Service * option (MysqlStart.Listener offset_file) * observers * list act * list action
               * result run_error unit) :=
  if negb (my_Enabled (MySQL cfg)) then Returned (s, None, obs, acts, [], Ok tt)
  else
    let l := MysqlStart.NewListener (mw_open w) (MySQL cfg) s in
    let '(l, obs) :=
      match pub with
      | Some _ => (MysqlStart.PublishedObserver l, AddOnPublished OfMySQL obs)
      | None => (l, obs)
      end in
    let tr := [Launch My (CommitGate.gated (l_gate l) && listens OfMySQL obs)] in
    '(l, acts, r) ← MysqlStart.Start hasCerts (mw_start w) acts l;
    Returned (match r with
              | Ok _ => (MarkRunning (l_service l), Some l, obs, acts, tr ++ [Up My], Ok tt)
              | Err e => (l_service l, None, obs, acts, tr, Err (StartingMySQL e))
              end).

(** ** Waiting *)

(** A channel is [None] when it is nil: receiving from it blocks for ever. *)
Definition publisherFailures (pub : option started) (f : option pub_error) : option (option pub_error) :=
  match pub with Some _ => Some f | None => None end.
Definition mysqlFailures (l : option (MysqlStart.Listener offset_file)) (f : option string) : option (option string) :=
  match l with Some _ => Some f | None => None end.

(** Which of the three is received from; [None] while nothing is. *)
Inductive wake := ByContext | ByNATS | ByMySQL.

Definition waitForShutdown (w : wake) (nats : option (option pub_error)) (mysql : option (option string))
    : option (result run_error unit) :=
  match w with
  | ByContext => Some (Ok tt)
  | ByNATS => e ← mjoin nats; Some (Err (NATSFailed e))
  | ByMySQL => e ← mjoin mysql; Some (Err (MySQLFailed e))
  end.

(** ** run *)

Record run_inputs := mkRun {
  ri_load : result config_error Config;
  ri_client : client;
  ri_pg : pg_world;
  ri_ctxOver : bool;                     (* the context, when startPostgres fails *)
  ri_my : my_world;
  ri_wake : wake;
  ri_natsFailed : option pub_error;
  ri_myFailed : option string
}.

Definition present {A} (x : part) (o : option A) : list part := match o with Some _ => [x] | None => [] end.

(** Returning runs the deferred stops, the newest first. *)
Definition leave {A} (tr : list action) (defers : list part) (r : A) : list action * A :=
  (tr ++ map Down defers, r).

Definition run (i : run_inputs) (acts : list act) (d : database)
    : outcome (list action * option (result run_error unit)) :=
  match ri_load i with
  | Err e => Returned ([], Some (Err (LoadingConfig e)))
  | Ok cfg =>
      let tr := [Up Signals; Up Bus] in
      let defers := [Bus; Signals] in
      match startNATS (ri_client i) cfg NewService with
      | (_, _, Err e) => Returned (leave tr defers (Some (Err e)))
      | (s, pub, Ok _) =>
          let tr := tr ++ map Up (present Pub pub) ++ [HTTPUp] in
          let defers := present Pub pub ++ defers in
          '(s, pg, obs, d, acts, trp, r) ← startPostgres (ri_pg i) cfg pub None s acts d;
          let tr := tr ++ trp in
          match r with
          | None => Returned (tr, None)
          | Some (Err e) => Returned (leave tr defers (Some (if ri_ctxOver i then Ok tt else Err e)))
          | Some (Ok _) =>
              let defers := present Pg pg ++ defers in
              '(s, my, obs, acts, trm, r) ← startMySQL (ri_my i) cfg pub obs s acts;
              let tr := tr ++ trm in
              match r with
              | Err e => Returned (leave tr defers (Some (Err e)))
              | Ok _ =>
                  let tr := tr ++ [NotStarting] in
                  let defers := present My my ++ defers in
                  match waitForShutdown (ri_wake i) (publisherFailures pub (ri_natsFailed i))
                          (mysqlFailures my (ri_myFailed i)) with
                  | None => Returned (tr, None)
                  | Some r => Returned (leave (tr ++ [StopSignals; HTTPDown]) defers (Some r))
                  end
              end
          end
      end
  end.

End Start.

(** ** Brackets and order *)

#[export] Instance part_eq_dec : EqDecision part.
Proof. solve_decision. Defined.
#[export] Instance action_eq_dec : EqDecision action.
Proof. solve_decision. Defined.

(** The parts that are up after a trace, the newest first; [None] when a part is
    taken down that is not the newest. *)
Fixpoint brackets (stack : list part) (tr : list action) : option (list part) :=
  match tr with
  | [] => Some stack
  | Up x :: tr => brackets (x :: stack) tr
  | Down x :: tr =>
      match stack with
      | y :: stack => if decide (x = y) then brackets stack tr else None
      | [] => None
      end
  | _ :: tr => brackets stack tr
  end.

(** No [y] without an [x] before it. *)
Fixpoint precedes (x y : action) (tr : list action) : bool :=
  match tr with
  | [] => true
  | a :: tr => if decide (a = x) then true else if decide (a = y) then false else precedes x y tr
  end.

(** ** The gates stay as they were wired *)

Lemma Start_keeps_gate rx query i acts p d p' d' acts' ms r :
  PgStart.Start rx query i acts p d = Returned (p', d', acts', ms, r) -> ack (p_core p') = ack (p_core p).
Proof.
  unfold PgStart.Start. destruct (p_running p); [by intros [= <- _ _ _ _]|].
  destruct (waitForDatabase _ _ _).2 as [[[]|]|]; [|by intros [= <- _ _ _ _]..].
  destruct (setup rx i p d) as [[[p1 d1] ms1] r1] eqn:Es.
  apply setup_spec in Es as (_ & _ & _ & _ & Hc & _). destruct r1 as [[]|]; [|by intros [= <- _ _ _ _]; rewrite Hc].
  destruct (run_snapshot query i acts p1) as [[[p2 a2] ok]| |] eqn:Esn; simpl; [|done..].
  assert (Hs : ack (p_core p2) = ack (p_core p1)).
  { unfold run_snapshot in Esn. destruct (Startup.runSnapshot _ _ _ _ _ _); try (by simplify_eq);
      destruct (si_snapshot i _) as [evs ok']; destruct (PgStart.handle_all _ _ _ _) as [[l a]| |] eqn:Eh;
      simplify_eq/=; by eapply handle_all_core. }
  rewrite Hc in Hs.
  destruct ok; simpl; [destruct (si_pool i); simpl|]; by intros [= <- _ _ _ _].
Qed.

Lemma MySQL_Start_keeps_gate hasCerts w acts (l l' : MysqlStart.Listener offset_file) acts' r :
  MysqlStart.Start hasCerts w acts l = Returned (l', acts', r) -> l_gate l' = l_gate l.
Proof.
  unfold MysqlStart.Start. destruct (l_running l); [by intros [= <- _ _]|].
  destruct (buildCanalConfig _ _); [|by intros [= <- _ _]].
  destruct (MysqlStart.runSnapshot w acts l) as [[[l1 a1] r1]| |] eqn:Er; simpl; [|done..].
  assert (H1 : l_gate l1 = l_gate l).
  { unfold MysqlStart.runSnapshot in Er. destruct (bool_decide _); [|by simplify_eq].
    destruct (bool_decide _); [by simplify_eq|]. destruct (sw_dump w) as [[lines se]|]; [|by simplify_eq].
    destruct (MysqlDump.ParseMysqlDumpFile _ _ _ _) as [[evs q] failed].
    destruct (MysqlStart.handle_all _ _ _ _) as [[s a']| |]; simplify_eq/=.
    destruct failed; [by simplify_eq|]. destruct (l_offsetStore l) as [st|]; [|by simplify_eq/=].
    destruct (bool_decide _); [by simplify_eq|]. destruct (Save _ _ _). by simplify_eq/=. }
  rewrite <- H1. destruct r1; [|by intros [= <- _ _]]. destruct (sw_canal w); simpl; [|by intros [= <- _ _]].
  destruct (resolveStartPosition _ _ _ _) as [[[p|e] st] sv]; by intros [= <- _ _].
Qed.

(** What starting a listener leaves in the trace. *)
Lemma startPostgres_trace rx query w cfg pub obs s acts d s' pg obs' d' acts' tr r :
  startPostgres rx query w cfg pub obs s acts d = Returned (s', pg, obs', d', acts', tr, r) ->
  match r with
  | Some (Ok _) => pg = None /\ tr = [] \/ exists p b, pg = Some p /\ tr = [Launch Pg b; Up Pg]
  | _ => pg = None /\ (tr = [] \/ exists b, tr = [Launch Pg b])
  end.
Proof.
  unfold startPostgres. destruct (negb _); [intros [= _ <- _ _ _ <- <-]; by left|].
  destruct (open_history _ _) as [h|]; [|intros [= _ <- _ _ _ <- <-]; split; [done|by left]].
  destruct (match pub with Some _ => _ | None => _ end) as [p0 o0].
  destruct (PgStart.Start _ _ _ _ _ _) as [[[[[p1 d1] a1] ms] r1]| |]; simpl; [|done..].
  destruct r1 as [[u|e]|]; intros [= _ <- _ _ _ <- <-]; [by right; eauto|by split; eauto..].
Qed.

Lemma startMySQL_trace hasCerts w cfg pub obs s acts s' my obs' acts' tr r :
  startMySQL hasCerts w cfg pub obs s acts = Returned (s', my, obs', acts', tr, r) ->
  match r with
  | Ok _ => my = None /\ tr = [] \/ exists l b, my = Some l /\ tr = [Launch My b; Up My]
  | _ => my = None /\ exists b, tr = [Launch My b]
  end.
Proof.
  unfold startMySQL. destruct (negb _); [intros [= _ <- _ _ <- <-]; by left|].
  destruct (match pub with Some _ => _ | None => _ end) as [l0 o0].
  destruct (MysqlStart.Start _ _ _ _) as [[[l1 a1] r1]| |]; simpl; [|done..].
  destruct r1 as [u|e]; intros [= _ <- _ _ <- <-]; [by right; eauto|by split; eauto].
Qed.

(** A trace of [run] is right for what it returns. *)
Record trace_ok (nats ctxOver : bool) (w : wake) (tr : list action) (r : option (result run_error unit)) : Prop := mkOk {
  (* what has a deferred stop is stopped, the newest first; nothing while waiting *)
  ok_stops : match r with
             | Some _ => brackets [] tr = Some []
             | None => is_Some (brackets [] tr) /\ Forall (fun a => match a with Down _ => False | _ => True end) tr
             end;
  (* the HTTP server: up before a listener starts, down when the wait has ended *)
  ok_http : forall x b, precedes HTTPUp (Launch x b) tr = true;
  ok_http_down : HTTPDown ∈ tr <-> NotStarting ∈ tr /\ is_Some r;
  ok_http_first : NotStarting ∈ tr -> forall x, precedes HTTPDown (Down x) tr = true;
  (* the publisher is subscribed before a listener starts *)
  ok_pub : nats = true -> forall x b, precedes (Up Pub) (Launch x b) tr = true;
  (* success is returned after a signal only *)
  ok_signal : r = Some (Ok tt) -> ctxOver = true \/ w = ByContext /\ NotStarting ∈ tr
}.

(** The shapes a trace can have, from what came up. *)
Definition launched (x : part) (o : option bool) (up : bool) : list action :=
  match o with Some b => Launch x b :: (if up then [Up x] else []) | None => [] end.

Definition brought_up (pub : bool) (pg my : option bool) (pgUp myUp : bool) : list action :=
  [Up Signals; Up Bus] ++ (if pub then [Up Pub] else []) ++ [HTTPUp] ++ launched Pg pg pgUp ++ launched My my myUp.

Definition deferred (pub : bool) (pg my : option bool) : list part :=
  present My my ++ present Pg pg ++ (if pub then [Pub] else []) ++ [Bus; Signals].

(** A way out of [run] before the wait: the HTTP server stays up. *)
Lemma trace_early nats ctxOver w (pub : bool) (pg my : option bool) (pgUp : bool) res :
  (nats = true -> pub = true) -> (pgUp = false -> my = None) -> (res = Ok tt -> ctxOver = true) ->
  trace_ok nats ctxOver w
    (brought_up pub pg my pgUp false ++ map Down (deferred pub (if pgUp then pg else None) None)) (Some res).
Proof.
  intros Hn Hm Hr. constructor.
  - by destruct pub, pg, my, pgUp.
  - intros x b. by destruct pub.
  - split; [|intros [Hx _]]; destruct pub, pg, my, pgUp; simpl in *; set_solver.
  - destruct pub, pg, my, pgUp; simpl; set_solver.
  - intros ->. rewrite Hn by done. intros x b. done.
  - intros [= ->]. left. by apply Hr.
Qed.

(** Not out of [run] yet: waiting for the database, or for the end. *)
Lemma trace_waiting nats ctxOver w (pub : bool) (pg my : option bool) (pgUp myUp over : bool) :
  (nats = true -> pub = true) ->
  trace_ok nats ctxOver w (brought_up pub pg my pgUp myUp ++ (if over then [NotStarting] else [])) None.
Proof.
  intros Hn. constructor.
  - split; [by destruct pub, pg, my, pgUp, myUp, over; eexists|].
    destruct pub, pg, my, pgUp, myUp, over; by repeat constructor.
  - intros x b. by destruct pub.
  - split; [|intros [_ [? [=]]]]. destruct pub, pg, my, pgUp, myUp, over; simpl in *; set_solver.
  - intros _ x. by destruct pub, pg, my, pgUp, myUp, over.
  - intros ->. rewrite Hn by done. intros x b. done.
  - done.
Qed.

#[local] Ltac in_list := repeat (apply list_elem_of_here || apply list_elem_of_further).

(** The wait has ended. *)
Lemma trace_ended nats ctxOver w (pub : bool) (pg my : option bool) res :
  (nats = true -> pub = true) -> (res = Ok tt -> w = ByContext) ->
  trace_ok nats ctxOver w
    (brought_up pub pg my true true ++ [NotStarting; StopSignals; HTTPDown] ++ map Down (deferred pub pg my)) (Some res).
Proof.
  intros Hn Hr. constructor.
  - by destruct pub, pg, my.
  - intros x b. by destruct pub.
  - split; [intros _|intros _]; [split; [|by eexists]|]; destruct pub, pg, my; simpl; in_list.
  - intros _ x. by destruct pub, pg, my.
  - intros ->. rewrite Hn by done. intros x b. done.
  - intros [= ->]. right. split; [by apply Hr|]. destruct pub, pg, my; simpl; in_list.
Qed.

Definition is_some {A} (o : option A) : bool := match o with Some _ => true | None => false end.

Section Properties.
Context (rx : string -> option (string -> bool)) (query : string -> option (string -> string))
  (hasCerts : string -> bool).

(** C11: starting and stopping are bracketed. Whatever the parts answer, on every
    path out [run] stops the parts that have a deferred stop (the publisher and
    the listeners that came up, the bus, the signal handler), the newest first,
    and it stops nothing while it waits. The HTTP server has no deferred stop: it
    is up before a listener starts, it is shut down exactly when the wait has
    ended, before the deferred stops, and on the paths out before that it is left
    running. With NATS enabled the publisher is subscribed before a listener
    starts, and success is returned only after a signal. *)
Theorem run_unwinds (i : run_inputs) (cfg : Config) (acts : list act) (d : database) (tr : list action)
    (r : option (result run_error unit)) :
  ri_load i = Ok cfg -> run rx query hasCerts i acts d = Returned (tr, r) ->
  trace_ok (nats_Enabled (NATS cfg)) (ri_ctxOver i) (ri_wake i) tr r.
Proof.
  intros Hload. unfold run. rewrite Hload.
  destruct (startNATS _ _ _) as [[s pub] rn] eqn:En.
  assert (Hn : rn = Ok tt -> nats_Enabled (NATS cfg) = true -> is_some pub = true).
  { unfold startNATS in En. intros -> Hn. rewrite Hn in En. simpl in En.
    destruct (Publisher_Start _ _ _) as [[? ?] []]; by simplify_eq. }
  destruct rn as [[]|e].
  2:{ intros [= <- <-]. constructor; try done; [split; [|intros [Hx _]]|]; simpl in *; set_solver. }
  specialize (Hn eq_refl).
  destruct (startPostgres _ _ _ _ _ _ _ _ _) as [[[[[[[s1 pg] o1] d1] a1] trp] r1]| |] eqn:Ep; simpl; [|done..].
  apply startPostgres_trace in Ep. destruct r1 as [[[]|e]|].
  2:{ intros [= <- <-]. destruct Ep as [-> Ht].
      assert (Hc : (if ri_ctxOver i then Ok tt else Err e) = Ok tt -> ri_ctxOver i = true) by (by destruct (ri_ctxOver i)).
      destruct Ht as [->|[b ->]].
      - pose proof (trace_early _ _ (ri_wake i) _ None None false _ Hn (fun _ => eq_refl) Hc) as H. by destruct pub.
      - pose proof (trace_early _ _ (ri_wake i) _ (Some b) None false _ Hn (fun _ => eq_refl) Hc) as H. by destruct pub. }
  2:{ intros [= <- <-]. destruct Ep as [-> Ht]. destruct Ht as [->|[b ->]].
      - pose proof (trace_waiting _ (ri_ctxOver i) (ri_wake i) _ None None false false false Hn) as H. by destruct pub.
      - pose proof (trace_waiting _ (ri_ctxOver i) (ri_wake i) _ (Some b) None false false false Hn) as H. by destruct pub. }
  assert (Hp : exists b, trp = launched Pg b true /\ present Pg pg = present Pg b).
  { destruct Ep as [[-> ->]|(p & b & -> & ->)]; [by exists None|by exists (Some b)]. }
  clear Ep. destruct Hp as (bp & -> & Hpg). rewrite Hpg.
  destruct (startMySQL _ _ _ _ _ _ _) as [[[[[[s2 my] o2] a2] trm] r2]| |] eqn:Em; simpl; [|done..].
  apply startMySQL_trace in Em. destruct r2 as [[]|e].
  2:{ intros [= <- <-]. destruct Em as [-> [b ->]].
      pose proof (trace_early _ (ri_ctxOver i) (ri_wake i) _ bp (Some b) true (Err e) Hn ltac:(done) ltac:(done)) as H.
      by destruct pub, bp. }
  assert (Hm : exists b, trm = launched My b true /\ present My my = present My b).
  { destruct Em as [[-> ->]|(l & b & -> & ->)]; [by exists None|by exists (Some b)]. }
  clear Em. destruct Hm as (bm & -> & Hmy). rewrite Hmy.
  destruct (waitForShutdown _ _ _) as [rw|] eqn:Ew; intros [= <- <-].
  - assert (Hok : rw = Ok tt -> ri_wake i = ByContext).
    { unfold waitForShutdown in Ew. intros ->. destruct (ri_wake i); [done|..].
      - by destruct (publisherFailures _ _) as [[]|].
      - by destruct (mysqlFailures _ _) as [[]|]. }
    pose proof (trace_ended _ (ri_ctxOver i) (ri_wake i) _ bp bm _ Hn Hok) as H. by destruct pub, bp, bm.
  - pose proof (trace_waiting _ (ri_ctxOver i) (ri_wake i) _ bp bm true true true Hn) as H. by destruct pub, bp, bm.
Qed.

(** C12: the ack gates are wired before the listeners start, exactly when there is
    a publisher. When [run] has started the listeners, with a publisher each
    enabled listener was started with its observer registered and its gate
    enabled, that gate is the empty enabled gate the pipelines start from, and an
    event the publisher reports reaches the gate of each enabled listener once;
    without a publisher the gates are not enabled and nothing is registered. The
    bus counts as running from the first listener on. *)
Theorem wired_before_start (w : pg_world) (w' : my_world) (cfg : Config) (pub : option started)
    (s s1 s2 : Service) (acts acts1 acts2 : list act) (d d1 : database) (pg : option process)
    (my : option (MysqlStart.Listener offset_file)) (o1 o2 : observers) (tr1 tr2 : list action) :
  startPostgres rx query w cfg pub None s acts d = Returned (s1, pg, o1, d1, acts1, tr1, Some (Ok tt)) ->
  startMySQL hasCerts w' cfg pub o1 s1 acts1 = Returned (s2, my, o2, acts2, tr2, Ok tt) ->
  let on := is_some pub in
  tr1 = (if pg_Enabled (Postgres cfg) then [Launch Pg on; Up Pg] else []) /\
  tr2 = (if my_Enabled (MySQL cfg) then [Launch My on; Up My] else []) /\
  (forall p, pg = Some p ->
     ack (p_core p) = (if on then AckGate.Enable newAckGate else newAckGate) /\ Service.IsRunning s1 = true) /\
  (forall l, my = Some l ->
     l_gate l = (if on then CommitGate.Enable newCommitGate else newCommitGate) /\ Service.IsRunning s2 = true) /\
  forall e g c, notify callback o2 e (g, c) =
    (if on && pg_Enabled (Postgres cfg) then AckGate.ObservePublished g e else g,
     if on && my_Enabled (MySQL cfg) then CommitGate.ObservePublished e c else c).
Proof.
  intros Hp Hm on.
  assert (H1 : tr1 = (if pg_Enabled (Postgres cfg) then [Launch Pg on; Up Pg] else []) /\
    o1 = (if on && pg_Enabled (Postgres cfg) then Some [OfPostgres] else None) /\
    (forall p, pg = Some p ->
     ack (p_core p) = (if on then AckGate.Enable newAckGate else newAckGate) /\ Service.IsRunning s1 = true)).
  { unfold startPostgres in Hp. destruct (pg_Enabled _); simpl in Hp; [|simplify_eq; by rewrite andb_false_r].
    destruct (open_history _ _) as [h|]; [|done].
    destruct pub; simpl in Hp; destruct (PgStart.Start _ _ _ _ _ _) as [[[[[p1 d2] a1] ms] r1]| |] eqn:E;
      simpl in Hp; try done; apply Start_keeps_gate in E; (destruct r1 as [[[]|]|]; [|done..]);
      injection Hp as <- <- <- _ _ <-; (split_and!; [done..|]); intros p [= <-]; by rewrite E. }
  destruct H1 as (-> & -> & Hpg).
  assert (H2 : tr2 = (if my_Enabled (MySQL cfg) then [Launch My on; Up My] else []) /\
    o2 = (if on && my_Enabled (MySQL cfg)
          then AddOnPublished OfMySQL (if on && pg_Enabled (Postgres cfg) then Some [OfPostgres] else None)
          else (if on && pg_Enabled (Postgres cfg) then Some [OfPostgres] else None)) /\
    (forall l, my = Some l ->
     l_gate l = (if on then CommitGate.Enable newCommitGate else newCommitGate) /\ Service.IsRunning s2 = true)).
  { unfold startMySQL in Hm. destruct (my_Enabled _); simpl in Hm; [|simplify_eq; by rewrite andb_false_r].
    destruct pub; simpl in Hm; destruct (MysqlStart.Start _ _ _ _) as [[[l1 a1] r1]| |] eqn:E;
      simpl in Hm; try done; apply MySQL_Start_keeps_gate in E; (destruct r1 as [q|]; [|done]);
      injection Hm as <- <- <- _ <-; (split_and!; [|done|]);
      try (intros l [= <-]; by rewrite E); by destruct (pg_Enabled _). }
  destruct H2 as (-> & -> & Hmy). split_and!; [done..|]. intros e g c.
  by destruct on, (pg_Enabled _), (my_Enabled _).
Qed.
End Properties.

(** ** Witnesses *)

Definition demo_cfg : Config :=
  mkConfig demo_pg
    (demo_my "none" "") (mkNATSConfig true "nats://localhost:4222" "CDC" "cdc" 5 "memory" "" "" "")
    (mkHealthConfig 8080 "127.0.0.1") (mkMetricsConfig true).
Definition demo_client : client := mkClient true true true Found.
Definition demo_pgw : pg_world := mkPgWorld (fun _ => Some ∅) demo_inputs.
Definition demo_myw : my_world := mkMyWorld demo_open demo_start.
Definition demo_run : run_inputs :=
  mkRun (Ok demo_cfg) demo_client demo_pgw false demo_myw ByNATS (Some ErrConnectionClosed) None.

Lemma run_unwinds_witness :
  trace_ok true false ByNATS
    [Up Signals; Up Bus; Up Pub; HTTPUp; Launch Pg true; Up Pg; Launch My true; Up My; NotStarting;
     StopSignals; HTTPDown;
     Down My; Down Pg; Down Pub; Down Bus; Down Signals] (Some (Err (NATSFailed ErrConnectionClosed))).
Proof.
  apply (run_unwinds demo_compile (fun _ => None) demo_certs demo_run demo_cfg [] demo_db);
    [reflexivity|vm_compute; reflexivity].
Defined.

Definition demo_pub : option started := (startNATS demo_client demo_cfg NewService).1.2.
Definition demo_bus : Service := (startNATS demo_client demo_cfg NewService).1.1.

Definition demo_pg_up :=
  match startPostgres demo_compile (fun _ => None) demo_pgw demo_cfg demo_pub None demo_bus [] demo_db with
  | Returned x => Some x
  | _ => None
  end.
Definition demo_s1 : Service := default demo_bus ((fun x => x.1.1.1.1.1.1) <$> demo_pg_up).
Definition demo_p : option process := mjoin ((fun x => x.1.1.1.1.1.2) <$> demo_pg_up).
Definition demo_o1 : observers := mjoin ((fun x => x.1.1.1.1.2) <$> demo_pg_up).
Definition demo_d1 : database := default demo_db ((fun x => x.1.1.1.2) <$> demo_pg_up).

Definition demo_my_up :=
  match startMySQL demo_certs demo_myw demo_cfg demo_pub demo_o1 demo_s1 [] with
  | Returned x => Some x
  | _ => None
  end.
Definition demo_s2 : Service := default demo_bus ((fun x => x.1.1.1.1.1) <$> demo_my_up).
Definition demo_l : option (MysqlStart.Listener offset_file) := mjoin ((fun x => x.1.1.1.1.2) <$> demo_my_up).

Lemma wired_before_start_witness :
  is_some demo_p = true /\ is_some demo_l = true /\
  (forall p, demo_p = Some p -> ack (p_core p) = AckGate.Enable newAckGate /\ Service.IsRunning demo_s1 = true) /\
  (forall l, demo_l = Some l -> l_gate l = CommitGate.Enable newCommitGate /\ Service.IsRunning demo_s2 = true).
Proof.
  destruct (wired_before_start demo_compile (fun _ => None) demo_certs demo_pgw demo_myw demo_cfg demo_pub
    demo_bus demo_s1 demo_s2 [] [] [] demo_db demo_d1 demo_p demo_l demo_o1 (Some [OfPostgres; OfMySQL])
    [Launch Pg true; Up Pg] [Launch My true; Up My]) as (_ & _ & G1 & G2 & _).
  - vm_compute. reflexivity.
  - vm_compute. reflexivity.
  - split; [vm_compute; reflexivity|]. split; [vm_compute; reflexivity|]. split; [exact G1|exact G2].
Defined.
