(* ===== verification/Metrics.v ===== *)
(** * internal/metrics/metrics.go: what is exported

    The collectors as a record and the functions that move them.  Prometheus
    values are float64: [f64] is the conversion of an integer, rounded to 53
    bits, ties to even.  The two gauges that hold seconds are values of the
    type [F] of the caller's floating-point numbers. *)

From stdpp Require Import base list strings gmap.
From Stdlib Require Import ZArith Lia Ascii.
From S2P Require Import Prelude GoStrings.

Local Open Scope Z_scope.

(** [float64(z)]; every result is an integer. *)
Definition f64 (z : Z) : Z :=
  let a := Z.abs z in
  let e := Z.log2 a - 52 in
  if e <=? 0 then z
  else
    let q := a / 2 ^ e in
    let r := a mod 2 ^ e in
    let up := if r <? 2 ^ (e - 1) then false
              else if 2 ^ (e - 1) <? r then true
              else Z.odd q in
    Z.sgn z * ((if up then q + 1 else q) * 2 ^ e).

Section Registry.
Context {F : Type}.

Record registry := mkReg {
  EventsTotal : gmap string Z;
  NATSPublished : gmap string Z;
  OversizedEvents : gmap string Z;
  NATSErrors : Z;
  LagSeconds : F;
  SlotConfirmedFlushLSN : Z;
  SlotRestartLSN : Z;
  SlotRetainedWALBytes : Z;
  SlotWALStatus : gmap string Z;
  SlotSafeWALBytes : Z;
  SlotsRecreated : Z;
  SlotsDropped : Z;
  LastEventTimestampSeconds : F
}.

Definition inc_label (k : string) (m : gmap string Z) : gmap string Z := <[k := default 0 (m !! k) + 1]> m.

Definition IncEvent (t : string) (r : registry) : registry :=
  mkReg (inc_label t (EventsTotal r)) (NATSPublished r) (OversizedEvents r) (NATSErrors r) (LagSeconds r)
    (SlotConfirmedFlushLSN r) (SlotRestartLSN r) (SlotRetainedWALBytes r) (SlotWALStatus r) (SlotSafeWALBytes r)
    (SlotsRecreated r) (SlotsDropped r) (LastEventTimestampSeconds r).
Definition IncNATSPublished (t : string) (r : registry) : registry :=
  mkReg (EventsTotal r) (inc_label t (NATSPublished r)) (OversizedEvents r) (NATSErrors r) (LagSeconds r)
    (SlotConfirmedFlushLSN r) (SlotRestartLSN r) (SlotRetainedWALBytes r) (SlotWALStatus r) (SlotSafeWALBytes r)
    (SlotsRecreated r) (SlotsDropped r) (LastEventTimestampSeconds r).
Definition IncOversizedEvent (t : string) (r : registry) : registry :=
  mkReg (EventsTotal r) (NATSPublished r) (inc_label t (OversizedEvents r)) (NATSErrors r) (LagSeconds r)
    (SlotConfirmedFlushLSN r) (SlotRestartLSN r) (SlotRetainedWALBytes r) (SlotWALStatus r) (SlotSafeWALBytes r)
    (SlotsRecreated r) (SlotsDropped r) (LastEventTimestampSeconds r).
Definition IncNATSError (r : registry) : registry :=
  mkReg (EventsTotal r) (NATSPublished r) (OversizedEvents r) (NATSErrors r + 1) (LagSeconds r)
    (SlotConfirmedFlushLSN r) (SlotRestartLSN r) (SlotRetainedWALBytes r) (SlotWALStatus r) (SlotSafeWALBytes r)
    (SlotsRecreated r) (SlotsDropped r) (LastEventTimestampSeconds r).
Definition IncSlotRecreated (r : registry) : registry :=
  mkReg (EventsTotal r) (NATSPublished r) (OversizedEvents r) (NATSErrors r) (LagSeconds r)
    (SlotConfirmedFlushLSN r) (SlotRestartLSN r) (SlotRetainedWALBytes r) (SlotWALStatus r) (SlotSafeWALBytes r)
    (SlotsRecreated r + 1) (SlotsDropped r) (LastEventTimestampSeconds r).
Definition IncSlotDropped (r : registry) : registry :=
  mkReg (EventsTotal r) (NATSPublished r) (OversizedEvents r) (NATSErrors r) (LagSeconds r)
    (SlotConfirmedFlushLSN r) (SlotRestartLSN r) (SlotRetainedWALBytes r) (SlotWALStatus r) (SlotSafeWALBytes r)
    (SlotsRecreated r) (SlotsDropped r + 1) (LastEventTimestampSeconds r).
Definition SetLagSeconds (seconds : F) (r : registry) : registry :=
  mkReg (EventsTotal r) (NATSPublished r) (OversizedEvents r) (NATSErrors r) seconds
    (SlotConfirmedFlushLSN r) (SlotRestartLSN r) (SlotRetainedWALBytes r) (SlotWALStatus r) (SlotSafeWALBytes r)
    (SlotsRecreated r) (SlotsDropped r) (LastEventTimestampSeconds r).
Definition SetSlotStats (confirmedFlushLSN restartLSN retainedWALBytes : Z) (r : registry) : registry :=
  mkReg (EventsTotal r) (NATSPublished r) (OversizedEvents r) (NATSErrors r) (LagSeconds r)
    (f64 confirmedFlushLSN) (f64 restartLSN) (f64 retainedWALBytes) (SlotWALStatus r) (SlotSafeWALBytes r)
    (SlotsRecreated r) (SlotsDropped r) (LastEventTimestampSeconds r).

Definition slotWALStatuses : list string := ["reserved"; "extended"; "unreserved"; "lost"].

Definition SetSlotWALStatus (status : string) (safeWALBytes : Z) (r : registry) : registry :=
  let m := foldl (fun m candidate => <[candidate := if decide (candidate = status) then 1 else 0]> m)
             (SlotWALStatus r) slotWALStatuses in
  mkReg (EventsTotal r) (NATSPublished r) (OversizedEvents r) (NATSErrors r) (LagSeconds r)
    (SlotConfirmedFlushLSN r) (SlotRestartLSN r) (SlotRetainedWALBytes r) m (f64 safeWALBytes)
    (SlotsRecreated r) (SlotsDropped r) (LastEventTimestampSeconds r).

(** [seconds n] is [float64(n) / 1e9]. *)
Definition SetLastEventTimestamp (seconds : Z -> F) (unixNano : Z) (r : registry) : registry :=
  mkReg (EventsTotal r) (NATSPublished r) (OversizedEvents r) (NATSErrors r) (LagSeconds r)
    (SlotConfirmedFlushLSN r) (SlotRestartLSN r) (SlotRetainedWALBytes r) (SlotWALStatus r) (SlotSafeWALBytes r)
    (SlotsRecreated r) (SlotsDropped r) (seconds (f64 unixNano)).

End Registry.

(** ** Rounding *)

Lemma f64_exact z : Z.abs z <= 2 ^ 53 -> f64 z = z.
Proof.
  intros Hz. unfold f64. destruct (Z.leb_spec (Z.log2 (Z.abs z) - 52) 0) as [|He]; [done|].
  assert (Z.abs z = 2 ^ 53) as E.
  { destruct (Z.eq_dec (Z.abs z) (2 ^ 53)); [done|]. assert (0 < Z.abs z) as Hp.
    { destruct (Z.eq_dec (Z.abs z) 0) as [E0|]; [|lia]. rewrite E0 in He. simpl in He. lia. }
    assert (Z.log2 (Z.abs z) < 53) by (apply Z.log2_lt_pow2; lia). lia. }
  rewrite E. vm_compute (Z.log2 (2 ^ 53) - 52). vm_compute (2 ^ 53 / 2 ^ 1). vm_compute (2 ^ 53 mod 2 ^ 1).
  simpl. pose proof (Z.abs_sgn z) as Hs. rewrite E in Hs. lia.
Qed.

Lemma f64_error z : 0 <= z < 2 ^ 64 -> Z.abs (f64 z - z) <= 1024.
Proof.
  intros Hz. unfold f64. rewrite (Z.abs_eq z) by lia.
  destruct (Z.leb_spec (Z.log2 z - 52) 0) as [|He]; [lia|].
  assert (0 < z) as Hp by (destruct (Z.eq_dec z 0) as [->|]; [simpl in He|]; lia).
  assert (Hl : Z.log2 z < 64) by (apply Z.log2_lt_pow2; lia).
  set (e := Z.log2 z - 52) in *. assert (1 <= e <= 11) as Hb by (unfold e; lia).
  assert (Hm : 2 ^ e = 2 * 2 ^ (e - 1)) by (rewrite <- Z.pow_succ_r by lia; f_equal; lia).
  assert (Hh : 2 ^ (e - 1) <= 1024) by (change 1024 with (2 ^ 10); apply Z.pow_le_mono_r; lia).
  assert (0 < 2 ^ (e - 1)) as Hpos by (apply Z.pow_pos_nonneg; lia).
  pose proof (Z.div_mod z (2 ^ e) ltac:(lia)) as Hd. pose proof (Z.mod_pos_bound z (2 ^ e) ltac:(lia)) as Hr.
  rewrite Z.sgn_pos by done.
  destruct (Z.ltb_spec (z mod 2 ^ e) (2 ^ (e - 1))); [|destruct (Z.ltb_spec (2 ^ (e - 1)) (z mod 2 ^ e))];
    [nia|nia|]. destruct (Z.odd _); nia.
Qed.

Lemma status_gauges status (m : gmap string Z) n :
  foldl (fun m c => <[c := if decide (c = status) then 1 else 0]> m) m slotWALStatuses !! n
  = if decide (n ∈ slotWALStatuses) then Some (if decide (n = status) then 1 else 0) else m !! n.
Proof.
  simpl. rewrite !lookup_insert. repeat case_decide; subst; try done;
    exfalso; unfold slotWALStatuses in *; set_solver.
Qed.

(** ** Properties *)

(** C38: The slot gauges tell the truth. Positions and sizes are exact up to 2^53
    and off by at most a kilobyte over the whole 64-bit range; and after any
    report exactly the reported WAL status is 1 and every other known status 0,
    whatever the gauges showed before. *)
Theorem slot_gauges_faithful {F : Type} (confirmed restart retained safe : Z) (status : string) (r : @registry F) :
  0 <= confirmed < 2 ^ 64 -> 0 <= restart < 2 ^ 64 -> 0 <= retained < 2 ^ 64 ->
  let r' := SetSlotWALStatus status safe (SetSlotStats confirmed restart retained r) in
  (confirmed <= 2 ^ 53 -> SlotConfirmedFlushLSN r' = confirmed) /\
  (restart <= 2 ^ 53 -> SlotRestartLSN r' = restart) /\
  (retained <= 2 ^ 53 -> SlotRetainedWALBytes r' = retained) /\
  Z.abs (SlotConfirmedFlushLSN r' - confirmed) <= 1024 /\ Z.abs (SlotRestartLSN r' - restart) <= 1024 /\
  Z.abs (SlotRetainedWALBytes r' - retained) <= 1024 /\
  forall n, SlotWALStatus r' !! n =
    if decide (n ∈ slotWALStatuses) then Some (if decide (n = status) then 1 else 0) else SlotWALStatus r !! n.
Proof.
  intros H1 H2 H3. simpl. split_and!; try (intros; apply f64_exact; lia); try (by apply f64_error).
  intros n. apply status_gauges.
Qed.

(** ** Witnesses *)

Definition demo_registry : @registry Z :=
  mkReg ∅ ∅ ∅ 0 0 0 0 0 {["reserved" := 1]} 0 0 0 0.

Lemma slot_gauges_faithful_witness :
  let r := SetSlotWALStatus "lost" (-1) (SetSlotStats (2 ^ 53) 7 (2 ^ 64 - 1) demo_registry) in
  SlotConfirmedFlushLSN r = 2 ^ 53 /\ SlotWALStatus r !! "lost" = Some 1 /\ SlotWALStatus r !! "reserved" = Some 0.
Proof.
  destruct (slot_gauges_faithful (2 ^ 53) 7 (2 ^ 64 - 1) (-1) "lost" demo_registry) as (H1 & _ & _ & _ & _ & _ & H7);
    [lia..|]. cbv zeta. split; [by apply H1|]. rewrite !H7. split; vm_compute; reflexivity.
Defined.
